(** * curate-bids: the BIDS curation report script and the gear entry point

    A shallow embedding of [scripts/save_bids_curation.py] and [run.py].

    Python strings are [string]s (a non-ASCII code point is a run of bytes
    above 127, none of which is in the safe set of the sanitizer), Python
    integers are [nat] or [Z], dictionaries are insertion-ordered association
    lists, and the effects of the script (standard output, the CSV files, the
    calls that modify the platform, exceptions) are threaded through a small
    state-and-error monad. *)

From Stdlib Require Import List String Ascii Bool Arith ZArith Lia.
From Stdlib Require Import Permutation DecimalString.
Import ListNotations.

Open Scope string_scope.
Open Scope list_scope.

(* ================================================================= *)
(** ** Strings *)

Module Str.

(** The double quote character, as a one-character string. *)
Definition dquote : string := String (ascii_of_nat 34) EmptyString.

Definition of_nat (n : nat) : string := NilZero.string_of_uint (Nat.to_uint n).
Definition of_Z (z : Z) : string := NilZero.string_of_int (Z.to_int z).

Fixpoint filter (p : ascii -> bool) (s : string) : string :=
  match s with
  | EmptyString => EmptyString
  | String c r => if p c then String c (filter p r) else filter p r
  end.

Fixpoint forallb (p : ascii -> bool) (s : string) : bool :=
  match s with
  | EmptyString => true
  | String c r => p c && forallb p r
  end.

(** [s.startswith(p)] *)
Definition startswith (s p : string) : bool := String.prefix p s.

(** [s[1:]] *)
Definition drop1 (s : string) : string :=
  match s with
  | EmptyString => EmptyString
  | String _ r => r
  end.

(** [p in s] for two strings: [p] occurs in [s] as a substring. *)
Fixpoint contains (s p : string) : bool :=
  String.prefix p s ||
  match s with
  | EmptyString => false
  | String _ r => contains r p
  end.

End Str.

(* ================================================================= *)
(** ** Dictionaries

    A Python [dict] keeps its keys in insertion order; assigning to a key
    that is present replaces the value where it stands. *)

Module Dict.
Section Defs.
Context {V : Type}.

Definition t := list (string * V).

Definition empty : t := [].

(** [d[k]], [None] standing for [KeyError]. *)
Fixpoint get (k : string) (d : t) : option V :=
  match d with
  | [] => None
  | (k', v) :: r => if (k' =? k)%string then Some v else get k r
  end.

(** [k in d] *)
Definition mem (k : string) (d : t) : bool :=
  match get k d with Some _ => true | None => false end.

(** [d[k] = v] *)
Fixpoint set (k : string) (v : V) (d : t) : t :=
  match d with
  | [] => [(k, v)]
  | (k', v') :: r =>
      if (k' =? k)%string then (k, v) :: r else (k', v') :: set k v r
  end.

Definition keys (d : t) : list string := map fst d.

End Defs.
Arguments t : clear implicits.
End Dict.

(* ================================================================= *)
(** ** [make_file_name_safe] *)

Definition in_range (lo hi c : ascii) : bool :=
  ((nat_of_ascii lo <=? nat_of_ascii c)
   && (nat_of_ascii c <=? nat_of_ascii hi))%nat.

(** The characters of the class [A-Za-z0-9_\-.]. *)
Definition safe_char (c : ascii) : bool :=
  in_range "A" "Z" c || in_range "a" "z" c || in_range "0" "9" c
  || (c =? "_")%char || (c =? "-")%char || (c =? ".")%char.

(** [safe_patt.match(s)] for [safe_patt = re.compile(r"[^A-Za-z0-9_\-.]+")]:
    the pattern matches at the start of [s] when the first character of [s]
    is outside the class. *)
Definition safe_patt_match (s : string) : bool :=
  match s with
  | EmptyString => false
  | String c _ => negb (safe_char c)
  end.

(** [re.sub(safe_patt, repl, s)]: every maximal run of characters outside the
    class is replaced by one copy of [repl]; [in_run] tells that the previous
    character belonged to the run being replaced.  The replacement is
    inserted as it is, which is what [re.sub] does with a template that holds
    no backslash (the script passes ["_"], and the default is the empty
    string). *)
Fixpoint safe_patt_sub_from (in_run : bool) (repl s : string) : string :=
  match s with
  | EmptyString => EmptyString
  | String c r =>
      if safe_char c then String c (safe_patt_sub_from false repl r)
      else if in_run then safe_patt_sub_from true repl r
           else (repl ++ safe_patt_sub_from true repl r)%string
  end.

Definition safe_patt_sub (repl s : string) : string :=
  safe_patt_sub_from false repl s.

(** The function returns the safe name together with the lines it prints.
    [replace_str] is a [str] by typing, so [isinstance(replace_str, str)]
    holds. *)
Definition make_file_name_safe (input_basename replace_str : string)
  : string * list string :=
  let unsafe_repl := safe_patt_match replace_str in
  let out1 :=
    if unsafe_repl
    then [(replace_str ++ " is not a safe string, removing instead")%string]
    else [] in
  let replace_str := if unsafe_repl then "" else replace_str in
  let safe_output_basename := safe_patt_sub replace_str input_basename in
  let safe_output_basename :=
    if Str.startswith safe_output_basename "."
    then Str.drop1 safe_output_basename
    else safe_output_basename in
  (safe_output_basename,
   out1 ++ [(Str.dquote ++ input_basename ++ Str.dquote ++ " -> "
             ++ Str.dquote ++ safe_output_basename ++ Str.dquote)%string]).

(* ================================================================= *)
(** ** Duplicate detection (the [# Detect Duplicates] block) *)

Definition placeholders : list string :=
  ["ignored"; "nonBids"; "Not_yet_BIDS_curated"].

Definition is_placeholder (bids_path : string) : bool :=
  existsb (String.eqb bids_path) placeholders.

(** One execution of the block: the new [seen_paths], the new
    [num_duplicates] and the value of [unique]. *)
Definition detect_duplicate
  (seen_paths : Dict.t nat) (num_duplicates : nat) (bids_path : string)
  : Dict.t nat * nat * string :=
  if is_placeholder bids_path then (seen_paths, num_duplicates, "")
  else if Dict.mem bids_path seen_paths then
    let n := S (match Dict.get bids_path seen_paths with
                | Some n => n | None => 0 end) in
    (Dict.set bids_path n seen_paths, S num_duplicates,
     ("duplicate " ++ Str.of_nat n)%string)
  else (Dict.set bids_path 0 seen_paths, num_duplicates, "unique").

(** The block run over the paths of the files in scan order, from a given
    mapping and duplicate count; the flags come out in the same order. *)
Fixpoint duplicate_pass
  (seen_paths : Dict.t nat) (num_duplicates : nat) (paths : list string)
  : Dict.t nat * nat * list string :=
  match paths with
  | [] => (seen_paths, num_duplicates, [])
  | p :: r =>
      let '(seen_paths, num_duplicates, unique) :=
        detect_duplicate seen_paths num_duplicates p in
      let '(seen_paths, num_duplicates, flags) :=
        duplicate_pass seen_paths num_duplicates r in
      (seen_paths, num_duplicates, unique :: flags)
  end.

(* ================================================================= *)
(** ** Table cells, lists and the pandas frames the script builds *)

(** A value stored in a frame or written to a CSV row. *)
Inductive cell :=
| CStr (s : string)
| CInt (z : Z)
| CNaN.

(** [str(c)], as the f-strings of the script format a value. *)
Definition str_of_cell (c : cell) : string :=
  match c with
  | CStr s => s
  | CInt z => Str.of_Z z
  | CNaN => "nan"
  end.

(** A stable insertion sort: [list.sort()] and [DataFrame.sort_values] both
    return the elements in non-decreasing order; elements that compare equal
    keep their order here. *)
Fixpoint insert_sorted {A} (leb : A -> A -> bool) (x : A) (l : list A)
  : list A :=
  match l with
  | [] => [x]
  | y :: r => if leb x y then x :: l else y :: insert_sorted leb x r
  end.

Definition sort_by {A} (leb : A -> A -> bool) (l : list A) : list A :=
  fold_right (insert_sorted leb) [] l.

(** [l.sort()] on a list of strings. *)
Definition list_sort (l : list string) : list string := sort_by String.leb l.

Module Pandas.

(** A frame: its column labels and its rows, each row with its index label
    and one cell per column. *)
Record DataFrame := {
  columns : list string;
  rows : list (nat * list cell)
}.

(** [pd.DataFrame(columns=cols)] *)
Definition new (cols : list string) : DataFrame :=
  {| columns := cols; rows := [] |}.

Fixpoint replace_row (label : nat) (values : list cell)
  (rs : list (nat * list cell)) : list (nat * list cell) :=
  match rs with
  | [] => []
  | (l, vs) :: r =>
      if Nat.eqb l label then (l, values) :: replace_row label values r
      else (l, vs) :: replace_row label values r
  end.

(** [df.loc[label] = values], with as many values as the frame has columns
    (the script assigns eight values to a frame of eight columns): the row
    of that label is overwritten, and a label that is not in the index adds
    a row at the end. *)
Definition set_loc (label : nat) (values : list cell) (df : DataFrame)
  : DataFrame :=
  if existsb (fun r => Nat.eqb (fst r) label) (rows df)
  then {| columns := columns df; rows := replace_row label values (rows df) |}
  else {| columns := columns df; rows := rows df ++ [(label, values)] |}.

Fixpoint position (c : string) (cols : list string) : option nat :=
  match cols with
  | [] => None
  | c' :: r =>
      if (c' =? c)%string then Some 0
      else match position c r with Some n => Some (S n) | None => None end
  end.

(** The cell of a row under a column, [CNaN] when the frame the row comes
    from has no such column. *)
Definition cell_at (cols : list string) (c : string) (vs : list cell) : cell :=
  match position c cols with
  | Some n => nth n vs CNaN
  | None => CNaN
  end.

(** The order [sort_values] uses on a column: strings by code point, numbers
    by value, missing values last.  The script sorts a column of strings. *)
Definition cell_leb (a b : cell) : bool :=
  match a, b with
  | CStr s, CStr t => String.leb s t
  | CInt x, CInt y => Z.leb x y
  | CNaN, CNaN => true
  | CNaN, _ => false
  | _, _ => true
  end.

(** [df.sort_values(by=[by_], inplace=True)] *)
Definition sort_values (by_ : string) (df : DataFrame) : DataFrame :=
  {| columns := columns df;
     rows := sort_by (fun r1 r2 => cell_leb (cell_at (columns df) by_ (snd r1))
                                           (cell_at (columns df) by_ (snd r2)))
                    (rows df) |}.

Definition realign (old_cols new_cols : list string) (r : nat * list cell)
  : nat * list cell :=
  (fst r, map (fun c => cell_at old_cols c (snd r)) new_cols).

(** [self.append(other)]: the columns of [self] followed by those of [other]
    that [self] does not have, the rows of [self] followed by those of
    [other], index labels kept, a cell without a value holding NaN. *)
Definition append (self other : DataFrame) : DataFrame :=
  let cols :=
    columns self
    ++ filter (fun c => negb (existsb (String.eqb c) (columns self)))
              (columns other) in
  {| columns := cols;
     rows := map (realign (columns self) cols) (rows self)
             ++ map (realign (columns other) cols) (rows other) |}.

(** The rows [df.to_csv(path, index=False)] writes: the header, then the
    cells of each row. *)
Definition to_csv_rows (df : DataFrame) : list (list cell) :=
  map CStr (columns df) :: map snd (rows df).

End Pandas.

Import Pandas.

(* ================================================================= *)
(** ** The platform: a project as the client returns it *)

(** [file.info["BIDS"]] when it is a dictionary: the keys the script reads.
    Each entry of ["IntendedFor"] is a dictionary, of which the script reads
    ["Folder"] ([None] when the entry has no such key). *)
Record BidsDict := {
  bids_ignore : option bool;
  bids_Folder : option string;
  bids_Filename : option string;
  bids_IntendedFor : option (list (option string))
}.

(** [file.info["BIDS"]] is the string ["NA"] or a dictionary. *)
Inductive BidsInfo :=
| BidsNA
| BidsOf (d : BidsDict).

Record FileInfo := {
  info_BIDS : option BidsInfo;
  info_IntendedFor : option (list string);
  info_SeriesNumber : option cell
}.

Record File := {
  file_name : string;
  file_type : string;
  file_info : FileInfo
}.

Record Acquisition := {
  acq_id : string;
  acq_label : string;
  acq_files : list File            (* [acquisition.reload().files] *)
}.

Record Session := {
  ses_label : string;
  ses_acquisitions : list Acquisition
}.

Record Subject := {
  subj_label : string;
  subj_sessions : list Session
}.

Record Project := {
  proj_subjects : list Subject     (* [project.subjects.iter_find()] *)
}.

(** The parsed command line. *)
Record Args := {
  group_label : string;
  project_label : string;
  api_key : option string;
  intended_for : option (list string);
  verbose : nat
}.

(* ================================================================= *)
(** ** The scan of the project (the first loop of [save_curation_csvs]) *)

(** [do_print(msg)] on the lines printed so far. *)
Definition do_print (args : Args) (msg : string) (out : list string)
  : list string :=
  if (0 <? verbose args)%nat then out ++ [msg] else out.

(** [key in file.info["BIDS"]] for a dictionary. *)
Definition bids_has_key (b : BidsDict) (key : string) : bool :=
  if (key =? "ignore")%string then
    match bids_ignore b with Some _ => true | None => false end
  else if (key =? "Folder")%string then
    match bids_Folder b with Some _ => true | None => false end
  else if (key =? "Filename")%string then
    match bids_Filename b with Some _ => true | None => false end
  else if (key =? "IntendedFor")%string then
    match bids_IntendedFor b with Some _ => true | None => false end
  else false.

Definition expected : list string := ["ignore"; "Folder"; "Filename"].

(** The [# determine full BIDS path] block. *)
Definition bids_path_of (info : FileInfo) : string :=
  match info_BIDS info with
  | Some BidsNA => "nonBids"
  | Some (BidsOf b) =>
      let bids_path :=
        fold_left
          (fun bids_path key =>
             if negb (bids_has_key b key)
             then (bids_path ++ "missing_" ++ key ++ " ")%string
             else bids_path)
          expected "" in
      if (bids_path =? "")%string then
        match bids_ignore b, bids_Folder b, bids_Filename b with
        | Some ignore, Some Folder, Some Filename =>
            if ignore then "ignored" else (Folder ++ "/" ++ Filename)%string
        | _, _, _ => bids_path
        end
      else bids_path
  | None => "Not_yet_BIDS_curated"
  end.

(** The variables that are set afresh for each subject. *)
Record SubjectVars := {
  intended_for_acq_label : Dict.t string;
  intended_for_acq_id : Dict.t string;
  intended_for_dirs : Dict.t (list (option string));
  intended_fors : Dict.t (list string);
  nifti_df : DataFrame;
  ii : nat;
  seen_paths : Dict.t nat
}.

(** The variables that live through the whole scan, with the lines printed. *)
Record Vars := {
  acquisition_labels : Dict.t nat;
  all_intended_for_acq_label : Dict.t (Dict.t string);
  all_intended_for_acq_id : Dict.t (Dict.t string);
  all_intended_for_dirs : Dict.t (Dict.t (list (option string)));
  all_intended_fors : Dict.t (Dict.t (list string));
  all_seen_paths : Dict.t (Dict.t nat);
  num_duplicates : nat;
  all_df : DataFrame;
  printed : list string
}.

Definition all_df_columns : list string :=
  ["SeriesNumber"; "Acquisition label (SeriesDescription)"; "File name";
   "File type"; "Curated BIDS path"].

Definition nifti_df_columns : list string :=
  ["SeriesNumber"; "Subject"; "Session";
   "Acquisition label (SeriesDescription)"; "File name"; "File type";
   "Curated BIDS path"; "Unique?"].

Definition initial_vars : Vars :=
  {| acquisition_labels := Dict.empty;
     all_intended_for_acq_label := Dict.empty;
     all_intended_for_acq_id := Dict.empty;
     all_intended_for_dirs := Dict.empty;
     all_intended_fors := Dict.empty;
     all_seen_paths := Dict.empty;
     num_duplicates := 0;
     all_df := Pandas.new all_df_columns;
     printed := [] |}.

Definition initial_subject_vars : SubjectVars :=
  {| intended_for_acq_label := Dict.empty;
     intended_for_acq_id := Dict.empty;
     intended_for_dirs := Dict.empty;
     intended_fors := Dict.empty;
     nifti_df := Pandas.new nifti_df_columns;
     ii := 0;
     seen_paths := Dict.empty |}.

(** The fieldmap bookkeeping of one file: it is recorded when its info has
    ["BIDS"] and a non-empty ["IntendedFor"] list. *)
Definition record_intended_for
  (acquisition : Acquisition) (file : File) (sv : SubjectVars) : SubjectVars :=
  match info_BIDS (file_info file), info_IntendedFor (file_info file) with
  | Some bids, Some ((_ :: _) as l) =>
      {| intended_fors := Dict.set (file_name file) l (intended_fors sv);
         intended_for_acq_label :=
           Dict.set (file_name file) (acq_label acquisition)
                    (intended_for_acq_label sv);
         intended_for_acq_id :=
           Dict.set (file_name file) (acq_id acquisition)
                    (intended_for_acq_id sv);
         intended_for_dirs :=
           Dict.set (file_name file)
             match bids with
             | BidsOf {| bids_IntendedFor := Some dirs |} => dirs
             | _ => [Some "folder is missing"]
             end
             (intended_for_dirs sv);
         nifti_df := nifti_df sv;
         ii := ii sv;
         seen_paths := seen_paths sv |}
  | _, _ => sv
  end.

(** The row the script stores for a file. *)
Definition file_row (subject : Subject) (session : Session)
  (acquisition : Acquisition) (file : File) (unique : string) : list cell :=
  [match info_SeriesNumber (file_info file) with
   | Some n => n
   | None => CStr "?"
   end;
   CStr (subj_label subject);
   CStr (ses_label session);
   CStr (acq_label acquisition);
   CStr (file_name file);
   CStr (file_type file);
   CStr (bids_path_of (file_info file));
   CStr unique].

(** The body of [for file in acquisition.reload().files]. *)
Definition scan_file (args : Args) (subject : Subject) (session : Session)
  (acquisition : Acquisition) (st : Vars * SubjectVars) (file : File)
  : Vars * SubjectVars :=
  let '(v, sv) := st in
  let bids_path := bids_path_of (file_info file) in
  let sv := record_intended_for acquisition file sv in
  let series_number :=
    match info_SeriesNumber (file_info file) with
    | Some n => n
    | None => CStr "?"
    end in
  let '(seen, dups, unique) :=
    detect_duplicate (seen_paths sv) (num_duplicates v) bids_path in
  let out :=
    do_print args
      (str_of_cell series_number ++ ", " ++ subj_label subject ++ ", "
       ++ ses_label session ++ ", " ++ acq_label acquisition ++ ", "
       ++ file_name file ++ ", " ++ file_type file ++ ", "
       ++ bids_path ++ ", " ++ unique)%string
      (printed v) in
  ({| acquisition_labels := acquisition_labels v;
      all_intended_for_acq_label := all_intended_for_acq_label v;
      all_intended_for_acq_id := all_intended_for_acq_id v;
      all_intended_for_dirs := all_intended_for_dirs v;
      all_intended_fors := all_intended_fors v;
      all_seen_paths := all_seen_paths v;
      num_duplicates := dups;
      all_df := all_df v;
      printed := out |},
   {| intended_for_acq_label := intended_for_acq_label sv;
      intended_for_acq_id := intended_for_acq_id sv;
      intended_for_dirs := intended_for_dirs sv;
      intended_fors := intended_fors sv;
      nifti_df :=
        Pandas.set_loc (ii sv)
          (file_row subject session acquisition file unique) (nifti_df sv);
      ii := S (ii sv);
      seen_paths := seen |}).

(** The body of [for acquisition in session.acquisitions()]. *)
Definition scan_acquisition (args : Args) (subject : Subject)
  (session : Session) (st : Vars * SubjectVars) (acquisition : Acquisition)
  : Vars * SubjectVars :=
  let '(v, sv) := st in
  let out :=
    do_print args (Str.of_nat (ii sv) ++ "  " ++ acq_label acquisition)%string
             (printed v) in
  let labels :=
    if Dict.mem (acq_label acquisition) (acquisition_labels v)
    then Dict.set (acq_label acquisition)
           (match Dict.get (acq_label acquisition) (acquisition_labels v) with
            | Some n => n | None => 0 end + 1)
           (acquisition_labels v)
    else Dict.set (acq_label acquisition) 1 (acquisition_labels v) in
  let v :=
    {| acquisition_labels := labels;
       all_intended_for_acq_label := all_intended_for_acq_label v;
       all_intended_for_acq_id := all_intended_for_acq_id v;
       all_intended_for_dirs := all_intended_for_dirs v;
       all_intended_fors := all_intended_fors v;
       all_seen_paths := all_seen_paths v;
       num_duplicates := num_duplicates v;
       all_df := all_df v;
       printed := out |} in
  fold_left (scan_file args subject session acquisition)
            (acq_files acquisition) (v, sv).

(** The body of [for session in subject.sessions()]. *)
Definition scan_session (args : Args) (subject : Subject)
  (st : Vars * SubjectVars) (session : Session) : Vars * SubjectVars :=
  fold_left (scan_acquisition args subject session)
            (ses_acquisitions session) st.

(** The body of [for subject in project.subjects.iter_find()]. *)
Definition scan_subject (args : Args) (v : Vars) (subject : Subject) : Vars :=
  let out := do_print args (subj_label subject) (printed v) in
  let v :=
    {| acquisition_labels := acquisition_labels v;
       all_intended_for_acq_label := all_intended_for_acq_label v;
       all_intended_for_acq_id := all_intended_for_acq_id v;
       all_intended_for_dirs := all_intended_for_dirs v;
       all_intended_fors := all_intended_fors v;
       all_seen_paths := all_seen_paths v;
       num_duplicates := num_duplicates v;
       all_df := all_df v;
       printed := out |} in
  let '(v, sv) :=
    fold_left (scan_session args subject) (subj_sessions subject)
              (v, initial_subject_vars) in
  let nifti_df := Pandas.sort_values "Curated BIDS path" (nifti_df sv) in
  {| acquisition_labels := acquisition_labels v;
     all_intended_for_acq_label :=
       Dict.set (subj_label subject) (intended_for_acq_label sv)
                (all_intended_for_acq_label v);
     all_intended_for_acq_id :=
       Dict.set (subj_label subject) (intended_for_acq_id sv)
                (all_intended_for_acq_id v);
     all_intended_for_dirs :=
       Dict.set (subj_label subject) (intended_for_dirs sv)
                (all_intended_for_dirs v);
     all_intended_fors :=
       Dict.set (subj_label subject) (intended_fors sv) (all_intended_fors v);
     all_seen_paths :=
       Dict.set (subj_label subject) (seen_paths sv) (all_seen_paths v);
     num_duplicates := num_duplicates v;
     all_df := Pandas.append (all_df v) nifti_df;
     printed := printed v |}.

(** The whole first loop. *)
Definition scan (args : Args) (project : Project) : Vars :=
  fold_left (scan_subject args) (proj_subjects project) initial_vars.

(* ================================================================= *)
(** ** Effects: standard output, the files written, the platform *)

Inductive exn :=
| KeyError (key : string)
| ValueError (msg : string)
| ReError (pattern : string)          (* [re.error] *)
| TypeError (msg : string)
| NameError (name : string)
| FileNotFoundError (path : string)
| JSONDecodeError.

Inductive result (A : Type) :=
| Ok (a : A)
| Raise (e : exn).
Arguments Ok {A} a.
Arguments Raise {A} e.

(** One call [fw.modify_acquisition_file_info(id, name,
    {"set": {"IntendedFor": l}})]. *)
Record ModifyCall := {
  mc_acquisition_id : string;
  mc_file_name : string;
  mc_IntendedFor : list string
}.

(** A computation on a state of type [S] changes the state and returns a
    value or raises; what was done to the state before an exception stays. *)
Definition SE (S A : Type) : Type := S -> S * result A.

Definition ret {S A} (a : A) : SE S A := fun s => (s, Ok a).

Definition raise {S A} (e : exn) : SE S A := fun s => (s, Raise e).

Definition bind {S A B} (m : SE S A) (k : A -> SE S B) : SE S B :=
  fun s =>
    match m s with
    | (s', Ok a) => k a s'
    | (s', Raise e) => (s', Raise e)
    end.

Notation "x <- c1 ;; c2" := (bind c1 (fun x => c2))
  (at level 61, c1 at next level, right associativity).
Notation "c1 ;;; c2" := (bind c1 (fun _ => c2))
  (at level 61, right associativity).

(** What the script acts on: the lines printed, the CSV files by name (each
    a list of rows), and the modifying calls sent to the platform. *)
Record World := {
  stdout : list string;
  files : Dict.t (list (list cell));
  modify_calls : list ModifyCall
}.

Definition empty_world : World :=
  {| stdout := []; files := Dict.empty; modify_calls := [] |}.

(** The commands of the script. *)
Definition M (A : Type) : Type := SE World A.

(** A [for] loop that carries the variables it assigns. *)
Fixpoint foldM {A S} (f : S -> A -> M S) (s : S) (l : list A) : M S :=
  match l with
  | [] => ret s
  | a :: r => s' <- f s a ;; foldM f s' r
  end.

(** A [for] loop that assigns nothing. *)
Definition forM_ {A} (l : list A) (f : A -> M unit) : M unit :=
  foldM (fun _ a => f a) tt l.

(** [print(msg)] *)
Definition print (msg : string) : M unit :=
  fun w => ({| stdout := stdout w ++ [msg]; files := files w;
               modify_calls := modify_calls w |}, Ok tt).

Definition print_lines (msgs : list string) : M unit :=
  fun w => ({| stdout := stdout w ++ msgs; files := files w;
               modify_calls := modify_calls w |}, Ok tt).

(** [do_print(msg)] as a command. *)
Definition do_printM (args : Args) (msg : string) : M unit :=
  fun w => ({| stdout := do_print args msg (stdout w); files := files w;
               modify_calls := modify_calls w |}, Ok tt).

(** [open(path, mode="w")]: the file is created or emptied. *)
Definition open_w (path : string) : M unit :=
  fun w => ({| stdout := stdout w; files := Dict.set path [] (files w);
               modify_calls := modify_calls w |}, Ok tt).

(** [writer.writerow(row)] on the writer of the file at [path]. *)
Definition writerow (path : string) (row : list cell) : M unit :=
  fun w =>
    let old := match Dict.get path (files w) with
               | Some rs => rs
               | None => []
               end in
    ({| stdout := stdout w; files := Dict.set path (old ++ [row]) (files w);
        modify_calls := modify_calls w |}, Ok tt).

(** [df.to_csv(path, index=False)] *)
Definition to_csv (path : string) (df : DataFrame) : M unit :=
  fun w => ({| stdout := stdout w;
               files := Dict.set path (Pandas.to_csv_rows df) (files w);
               modify_calls := modify_calls w |}, Ok tt).

(** [fw.modify_acquisition_file_info(...)], the one call of the script that
    changes the platform. *)
Definition modify_acquisition_file_info
  (acquisition_id file_name : string) (new_list : list string) : M unit :=
  fun w => ({| stdout := stdout w; files := files w;
               modify_calls :=
                 modify_calls w
                 ++ [{| mc_acquisition_id := acquisition_id;
                        mc_file_name := file_name;
                        mc_IntendedFor := new_list |}] |}, Ok tt).

(** [d[k]] as a command. *)
Definition getM {V} (k : string) (d : Dict.t V) : M V :=
  match Dict.get k d with
  | Some v => ret v
  | None => raise (KeyError k)
  end.

(** [d[k1][k2]] *)
Definition get2M {V} (k1 k2 : string) (d : Dict.t (Dict.t V)) : M V :=
  d1 <- getM k1 d ;; getM k2 d1.

(** [d[k1][k2] = v] *)
Definition set2M {V} (k1 k2 : string) (v : V) (d : Dict.t (Dict.t V))
  : M (Dict.t (Dict.t V)) :=
  d1 <- getM k1 d ;; ret (Dict.set k1 (Dict.set k2 v d1) d).

(** [i["Folder"]] for an entry of a ["IntendedFor"] folder list. *)
Definition get_Folder (i : option string) : M string :=
  match i with
  | Some folder => ret folder
  | None => raise (KeyError "Folder")
  end.

(** The client: the site it is logged into and its project finder, which
    raises unless exactly one project matches the query.  The project is a
    snapshot: iterating its subjects twice gives the same subjects. *)
Record Client := {
  api_url : string;
  projects_find_one : string -> option Project
}.

Definition find_one (fw : Client) (query : string) : M Project :=
  match projects_find_one fw query with
  | Some project => ret project
  | None => raise (ValueError "Found no single result")
  end.

(** The client the script works with: [flywheel.Client(api_key=...)] when
    an API key is given, [flywheel.Client("")] otherwise. *)
Definition connect (flywheel_Client : string -> Client) (args : Args)
  : Client :=
  match api_key args with
  | Some (String _ _ as key) => flywheel_Client key
  | _ => flywheel_Client ""
  end.

(** The regular expressions of Python's [re], as far as the script uses
    them: [re.compile] (raising [re.error] on a malformed pattern) and
    [pattern.search]. *)
Class RegexEngine := {
  regex : Type;
  re_compile : string -> option regex;
  re_search : regex -> string -> bool
}.

(** [l[::2]] *)
Fixpoint step2 {A} (l : list A) : list A :=
  match l with
  | [] => []
  | x :: r => x :: match r with [] => [] | _ :: r' => step2 r' end
  end.

(** [zip(l[::2], l[1::2])] *)
Definition string_pairs {A} (l : list A) : list (A * A) :=
  combine (step2 l) (step2 (tl l)).

Definition intendedfors_header : list cell :=
  [CStr "acquisition label"; CStr "file name and folder";
   CStr "IntendedFor List of BIDS paths"].

Section SaveCurationCsvs.

Context `{RE : RegexEngine}.

Definition compileM (pattern : string) : M regex :=
  match re_compile pattern with
  | Some r => ret r
  | None => raise (ReError pattern)
  end.

(** The loop that fills [regex_pairs]. *)
Definition compile_pairs (pairs : list (string * string))
  : M (list (regex * regex)) :=
  foldM (fun regex_pairs s_p =>
           r0 <- compileM (fst s_p) ;;
           r1 <- compileM (snd s_p) ;;
           ret (regex_pairs ++ [(r0, r1)]))
        [] pairs.

(** The [if args.verbose > 0] block that writes the initial values; it
    sorts the lists of [all_intended_fors] in place and returns them. *)
Definition write_initial_values (args : Args) (path : string) (v : Vars)
  : M (Dict.t (Dict.t (list string))) :=
  writerow path [CStr "Initial values (before correction)"] ;;;
  writerow path intendedfors_header ;;;
  foldM (fun fors subj =>
    dirs <- getM subj (all_intended_for_dirs v) ;;
    foldM (fun fors kv =>
      let '(k, v_dirs) := kv in
      label <- get2M subj k (all_intended_for_acq_label v) ;;
      do_printM args (label ++ ", " ++ k)%string ;;;
      label <- get2M subj k (all_intended_for_acq_label v) ;;
      writerow path [CStr label; CStr k] ;;;
      foldM (fun fors i =>
        folder <- get_Folder i ;;
        do_printM args ("," ++ folder)%string ;;;
        folder <- get_Folder i ;;
        writerow path [CStr ""; CStr folder] ;;;
        l <- get2M subj k fors ;;
        fors <- set2M subj k (list_sort l) fors ;;
        l <- get2M subj k fors ;;
        forM_ l (fun j =>
          do_printM args (",," ++ j)%string ;;;
          writerow path [CStr ""; CStr ""; CStr j]) ;;;
        ret fors)
      fors v_dirs)
    fors dirs)
  (all_intended_fors v) (Dict.keys (all_intended_for_dirs v)).

(** The loop over the IntendedFor list of one fieldmap file for one pair
    whose first regex matched: the entries the second regex finds. *)
Definition keep_matching (r1 : regex) (l : list string) : M (list string) :=
  foldM (fun kept i_f =>
           if re_search r1 i_f
           then print ("found " ++ i_f)%string ;;; ret (kept ++ [i_f])
           else ret kept)
        [] l.

(** The [if args.intended_for] block: the new lists, written back to the
    platform. *)
Definition correct_intended_fors (l : list string) (v : Vars)
  (fors : Dict.t (Dict.t (list string)))
  : M (Dict.t (Dict.t (list string))) :=
  regex_pairs <- compile_pairs (string_pairs l) ;;
  foldM (fun new_intended_fors subj =>
    let new_intended_fors := Dict.set subj Dict.empty new_intended_fors in
    dirs <- getM subj (all_intended_for_dirs v) ;;
    foldM (fun new_intended_fors file_name =>
      print file_name ;;;
      foldM (fun new_intended_fors rx =>
        if re_search (fst rx) file_name then
          new_intended_fors <- set2M subj file_name [] new_intended_fors ;;
          old <- get2M subj file_name fors ;;
          kept <- keep_matching (snd rx) old ;;
          new_intended_fors <- set2M subj file_name kept new_intended_fors ;;
          acquisition_id <- get2M subj file_name (all_intended_for_acq_id v) ;;
          new_list <- get2M subj file_name new_intended_fors ;;
          modify_acquisition_file_info acquisition_id file_name new_list ;;;
          ret new_intended_fors
        else ret new_intended_fors)
      new_intended_fors regex_pairs)
    new_intended_fors (Dict.keys dirs))
  Dict.empty (Dict.keys (all_intended_for_dirs v)).

(** The loop that writes the final values of the IntendedFor lists. *)
Definition write_final_values (args : Args) (path : string) (v : Vars)
  (new_intended_fors : Dict.t (Dict.t (list string))) : M unit :=
  (if (0 <? verbose args)%nat
   then writerow path [CStr "Final values (after correction)"]
   else ret tt) ;;;
  writerow path [CStr ""; CStr ""; CStr ""] ;;;
  writerow path intendedfors_header ;;;
  forM_ (Dict.keys (all_intended_for_dirs v)) (fun subj =>
    dirs <- getM subj (all_intended_for_dirs v) ;;
    forM_ dirs (fun kv =>
      let '(k, v_dirs) := kv in
      label <- get2M subj k (all_intended_for_acq_label v) ;;
      do_printM args (label ++ ", " ++ k)%string ;;;
      label <- get2M subj k (all_intended_for_acq_label v) ;;
      writerow path [CStr label; CStr k] ;;;
      forM_ v_dirs (fun i =>
        folder <- get_Folder i ;;
        do_printM args ("," ++ folder)%string ;;;
        folder <- get_Folder i ;;
        writerow path [CStr ""; CStr folder] ;;;
        l <- get2M subj k new_intended_fors ;;
        forM_ l (fun j =>
          do_printM args (",," ++ j)%string ;;;
          writerow path [CStr ""; CStr ""; CStr j])))).

(** The [with open(..._intendedfors.csv)] block. *)
Definition write_intendedfors (args : Args) (path : string) (v : Vars)
  : M unit :=
  open_w path ;;;
  fors <- (if (0 <? verbose args)%nat
           then write_initial_values args path v
           else ret (all_intended_fors v)) ;;
  new_intended_fors <-
    match intended_for args with
    | Some ((_ :: _) as l) => correct_intended_fors l v fors
    | _ => ret fors
    end ;;
  write_final_values args path v new_intended_fors.

(** The [with open(..._acquisitions.csv)] block. *)
Definition write_acquisitions (path : string) (v : Vars) : M unit :=
  open_w path ;;;
  writerow path [CStr "acquisition label"; CStr "count"] ;;;
  forM_ (acquisition_labels v) (fun lc =>
    writerow path [CStr (fst lc); CInt (Z.of_nat (snd lc))]).

(** The report on duplicates that ends the function. *)
Definition report_duplicates (project : Project) (v : Vars) : M unit :=
  if (0 <? num_duplicates v)%nat then
    print "ERROR: the following BIDS paths appear more than once:" ;;;
    forM_ (proj_subjects project) (fun subject =>
      seen <- getM (subj_label subject) (all_seen_paths v) ;;
      forM_ (Dict.keys seen) (fun path =>
        seen <- getM (subj_label subject) (all_seen_paths v) ;;
        count <- getM path seen ;;
        if (0 <? count)%nat then print ("  " ++ path)%string else ret tt))
  else print "No duplicates were found.".

(** Everything [save_curation_csvs] does before it reports the duplicates:
    the scan and the three files. *)
Definition scan_and_write (args : Args) (fw : Client)
  (group_label project_label : string) : M (Project * Vars) :=
  project <-
    find_one fw ("group=" ++ group_label ++ ",label=" ++ project_label)%string ;;
  let v := scan args project in
  print_lines (printed v) ;;;
  let '(safe_group_label, out) := make_file_name_safe group_label "_" in
  print_lines out ;;;
  let '(safe_project_label, out) := make_file_name_safe project_label "_" in
  print_lines out ;;;
  to_csv (safe_group_label ++ "_" ++ safe_project_label ++ "_niftis.csv")%string
         (all_df v) ;;;
  do_printM args "" ;;;
  write_intendedfors args
    (safe_group_label ++ "_" ++ safe_project_label ++ "_intendedfors.csv")%string
    v ;;;
  write_acquisitions
    (safe_group_label ++ "_" ++ safe_project_label ++ "_acquisitions.csv")%string
    v ;;;
  ret (project, v).

Definition save_curation_csvs (args : Args) (fw : Client)
  (group_label project_label : string) : M unit :=
  pv <- scan_and_write args fw group_label project_label ;;
  report_duplicates (fst pv) (snd pv).

(** The script run on a parsed command line: [flywheel_Client] is the
    constructor of the client; the value returned is the exit status of
    [os.sys.exit], an exception that is raised is never caught. *)
Definition main (flywheel_Client : string -> Client) (args : Args) : M nat :=
  let fw := connect flywheel_Client args in
  print (api_url fw) ;;;
  save_curation_csvs args fw (group_label args) (project_label args) ;;;
  ret 0.

End SaveCurationCsvs.

(* ================================================================= *)
(** ** [run.py], the entry point of the gear *)

Module RunPy.

#[warnings="-register-all"]
Inductive json :=
| JNull
| JBool (b : bool)
| JNum (z : Z)
| JStr (s : string)
| JArr (items : list json)
| JObj (members : list (string * json)).

(** What a name of the script is bound to. *)
Inductive value :=
| VStr (s : string)
| VFile (text : string)          (* an open file and what it holds *)
| VJson (j : json)
| VModule (name : string)
| VFunction (name : string).

(** The module namespace and the calls of [main_with_args] made so far. *)
Record State := {
  globals : Dict.t value;
  main_with_args_calls : list (json * json * json)
}.

Definition R (A : Type) : Type := SE State A.

(** The built-in functions, which a name that the module does not bind
    falls back to. *)
Definition builtins : list string :=
  ["abs"; "all"; "any"; "ascii"; "bin"; "bool"; "bytearray"; "bytes";
   "callable"; "chr"; "classmethod"; "compile"; "complex"; "delattr"; "dict";
   "dir"; "divmod"; "enumerate"; "eval"; "exec"; "filter"; "float"; "format";
   "frozenset"; "getattr"; "globals"; "hasattr"; "hash"; "help"; "hex"; "id";
   "input"; "int"; "isinstance"; "issubclass"; "iter"; "len"; "list";
   "locals"; "map"; "max"; "memoryview"; "min"; "next"; "object"; "oct";
   "open"; "ord"; "pow"; "print"; "property"; "range"; "repr"; "reversed";
   "round"; "set"; "setattr"; "slice"; "sorted"; "staticmethod"; "str";
   "sum"; "super"; "tuple"; "type"; "vars"; "zip"].

(** The value of a name: the module namespace first, then the built-ins;
    [NameError] when neither binds it. *)
Definition name (n : string) : R value :=
  fun st =>
    match Dict.get n (globals st) with
    | Some v => (st, Ok v)
    | None =>
        if existsb (String.eqb n) builtins then (st, Ok (VFunction n))
        else (st, Raise (NameError n))
    end.

(** [n = v] *)
Definition assign (n : string) (v : value) : R unit :=
  fun st => ({| globals := Dict.set n v (globals st);
                main_with_args_calls := main_with_args_calls st |}, Ok tt).

(** [open(path)] on the files that exist, each with its text. *)
Definition open (fs : Dict.t string) (path : value) : R value :=
  match path with
  | VStr p =>
      match Dict.get p fs with
      | Some text => ret (VFile text)
      | None => raise (FileNotFoundError p)
      end
  | _ => raise (TypeError "expected str, bytes or os.PathLike object")
  end.

(** [json.load(f)], with the parser of the [json] library. *)
Definition json_load (loads : string -> option json) (f : value) : R value :=
  match f with
  | VFile text =>
      match loads text with
      | Some j => ret (VJson j)
      | None => raise JSONDecodeError
      end
  | _ => raise (TypeError "object has no attribute 'read'")
  end.

Fixpoint member (key : string) (members : list (string * json))
  : option json :=
  match members with
  | [] => None
  | (k, j) :: r => if (k =? key)%string then Some j else
                     match member key r with
                     | Some j' => Some j'
                     | None => None
                     end
  end.

(** [v[key]] for a string key. *)
Definition subscript (v : value) (key : string) : R value :=
  match v with
  | VJson (JObj members) =>
      match member key members with
      | Some j => ret (VJson j)
      | None => raise (KeyError key)
      end
  | _ => raise (TypeError "indices must be integers")
  end.

Definition as_json (v : value) : json :=
  match v with
  | VJson j => j
  | VStr s => JStr s
  | _ => JNull
  end.

(** [main_with_args(api_key, session_id, reset)], the call into the curation
    library. *)
Definition call_main_with_args (a b c : value) : R unit :=
  fun st => ({| globals := globals st;
                main_with_args_calls :=
                  main_with_args_calls st ++ [(as_json a, as_json b, as_json c)]
             |}, Ok tt).

(** The namespace after the two import statements, in a module run as
    [__main__]. *)
Definition after_imports : State :=
  {| globals := [("__name__", VStr "__main__");
                 ("json", VModule "json");
                 ("main_with_args", VFunction "main_with_args")];
     main_with_args_calls := [] |}.

(** The body of [if __name__ == '__main__':], statement by statement.  A
    call evaluates its function first and then its arguments; an exception
    in the body of [with] leaves the block and goes on to the caller. *)
Definition script (fs : Dict.t string) (loads : string -> option json)
  : R unit :=
  assign "CONFIG_FILE_PATH" (VStr "/flywheel/v0/config.json") ;;;
  (* with open(CONFIG_FILE_PATH) as config_file: *)
  _ <- name "open" ;;
  path <- name "CONFIG_FILE_PATH" ;;
  f <- open fs path ;;
  assign "config_file" f ;;;
  (*     config = json.load(CONFIG_FILE) *)
  _ <- name "json" ;;
  arg <- name "CONFIG_FILE" ;;
  config <- json_load loads arg ;;
  assign "config" config ;;;
  (* api_key = config['inputs']['api_key']['key'] *)
  config <- name "config" ;;
  inputs <- subscript config "inputs" ;;
  api_key <- subscript inputs "api_key" ;;
  key <- subscript api_key "key" ;;
  assign "api_key" key ;;;
  (* session_id = config['destination']['id'] *)
  config <- name "config" ;;
  destination <- subscript config "destination" ;;
  id <- subscript destination "id" ;;
  assign "session_id" id ;;;
  (* reset = config['config']['reset'] *)
  config <- name "config" ;;
  config' <- subscript config "config" ;;
  reset <- subscript config' "reset" ;;
  assign "reset" reset ;;;
  (* main_with_args(api_key, session_id, reset) *)
  _ <- name "main_with_args" ;;
  a <- name "api_key" ;;
  b <- name "session_id" ;;
  c <- name "reset" ;;
  call_main_with_args a b c.

Definition run (fs : Dict.t string) (loads : string -> option json)
  : State * result unit :=
  script fs loads after_imports.

(** A configuration with the three values the script reads. *)
Definition example_config : json :=
  JObj [("inputs", JObj [("api_key", JObj [("key", JStr "secret")])]);
        ("destination", JObj [("id", JStr "5f3a")]);
        ("config", JObj [("reset", JBool false)])].

End RunPy.

(* ================================================================= *)
(** ** Notions the statements use *)

(** The files of a subject in scan order, each with its session and its
    acquisition. *)
Definition subject_files (s : Subject) : list (Session * Acquisition * File) :=
  flat_map (fun ses =>
    flat_map (fun acq => map (fun f => (ses, acq, f)) (acq_files acq))
             (ses_acquisitions ses))
    (subj_sessions s).

Definition project_files (p : Project)
  : list (Subject * (Session * Acquisition * File)) :=
  flat_map (fun s => map (fun x => (s, x)) (subject_files s)) (proj_subjects p).

Definition subject_paths (s : Subject) : list string :=
  map (fun x => bids_path_of (file_info (snd x))) (subject_files s).

(** The number of earlier occurrences a mapping remembers for a path. *)
Definition prior (seen : Dict.t nat) (p : string) : nat :=
  match Dict.get p seen with
  | Some n => S n
  | None => 0
  end.

(** The flag of a path that is no placeholder and was met [k] times
    before. *)
Definition flag_after (k : nat) : string :=
  match k with
  | 0 => "unique"
  | S _ => ("duplicate " ++ Str.of_nat k)%string
  end.

(** The mapping, the duplicate count and the flags a pass ends with. *)
Definition seen_after (seen : Dict.t nat) (nd : nat) (paths : list string)
  : Dict.t nat :=
  fst (fst (duplicate_pass seen nd paths)).

Definition dups_after (seen : Dict.t nat) (nd : nat) (paths : list string)
  : nat :=
  snd (fst (duplicate_pass seen nd paths)).

Definition flags_after (seen : Dict.t nat) (nd : nat) (paths : list string)
  : list string :=
  snd (duplicate_pass seen nd paths).

Definition subject_flags (s : Subject) : list string :=
  flags_after Dict.empty 0 (subject_paths s).

Definition subject_seen (s : Subject) : Dict.t nat :=
  seen_after Dict.empty 0 (subject_paths s).

(** The rows of the files [xs] of a subject, flagged by [flags], in the
    column order of [nifti_df]. *)
Definition rows_for (s : Subject) (xs : list (Session * Acquisition * File))
  (flags : list string) : list (list cell) :=
  map (fun xu => file_row s (fst (fst (fst xu))) (snd (fst (fst xu)))
                          (snd (fst xu)) (snd xu))
      (combine xs flags).

Definition subject_rows (s : Subject) : list (list cell) :=
  rows_for s (subject_files s) (subject_flags s).

(** What the scan of a file reads and writes of the duplicate detection and
    of the frame: the duplicate count, the mapping, the row index and the
    frame of the subject. *)
Definition core (st : Vars * SubjectVars)
  : nat * Dict.t nat * nat * DataFrame :=
  (num_duplicates (fst st), seen_paths (snd st), ii (snd st),
   nifti_df (snd st)).

Definition core_step (s : Subject) (c : nat * Dict.t nat * nat * DataFrame)
  (x : Session * Acquisition * File) : nat * Dict.t nat * nat * DataFrame :=
  let '(nd, seen, i, df) := c in
  let d := detect_duplicate seen nd (bids_path_of (file_info (snd x))) in
  (snd (fst d), fst (fst d), S i,
   Pandas.set_loc i
     (file_row s (fst (fst x)) (snd (fst x)) (snd x) (snd d)) df).

(** The counting of one acquisition label. *)
Definition count_label (labels : Dict.t nat) (l : string) : Dict.t nat :=
  if Dict.mem l labels
  then Dict.set l (match Dict.get l labels with Some n => n | None => 0 end + 1)
                labels
  else Dict.set l 1 labels.

Definition subject_acquisition_labels (s : Subject) : list string :=
  flat_map (fun ses => map acq_label (ses_acquisitions ses)) (subj_sessions s).

Definition project_acquisition_labels (p : Project) : list string :=
  flat_map subject_acquisition_labels (proj_subjects p).

(** The columns of [all_df] once a subject has been appended. *)
Definition final_columns : list string :=
  ["SeriesNumber"; "Acquisition label (SeriesDescription)"; "File name";
   "File type"; "Curated BIDS path"; "Subject"; "Session"; "Unique?"].

(** The frame [nifti_df] of a subject when its sessions have been scanned. *)
Definition subject_frame (s : Subject) : DataFrame :=
  {| columns := nifti_df_columns;
     rows := combine (seq 0 (List.length (subject_files s))) (subject_rows s) |}.

(** The rows a subject adds to [all_df]. *)
Definition subject_block (s : Subject) : list (nat * list cell) :=
  map (Pandas.realign nifti_df_columns final_columns)
      (rows (Pandas.sort_values "Curated BIDS path" (subject_frame s))).

(** The row of a file in the column order of [all_df]. *)
Definition all_df_row (s : Subject) (x : Session * Acquisition * File)
  (unique : string) : list cell :=
  [match info_SeriesNumber (file_info (snd x)) with
   | Some n => n
   | None => CStr "?"
   end;
   CStr (acq_label (snd (fst x)));
   CStr (file_name (snd x));
   CStr (file_type (snd x));
   CStr (bids_path_of (file_info (snd x)));
   CStr (subj_label s);
   CStr (ses_label (fst (fst x)));
   CStr unique].

Definition subject_table (s : Subject) : list (list cell) :=
  map (fun xu => all_df_row s (fst xu) (snd xu))
      (combine (subject_files s) (subject_flags s)).

(** The variables of the scan that only the end of a subject assigns. *)
Definition outer (v : Vars) :=
  (all_intended_for_acq_label v, all_intended_for_acq_id v,
   all_intended_for_dirs v, all_intended_fors v, all_seen_paths v, all_df v).

(** A row with eight cells. *)
Definition width8 (r : nat * list cell) : Prop := List.length (snd r) = 8.

(** The world after [lines] were printed. *)
Definition with_stdout (w : World) (lines : list string) : World :=
  {| stdout := stdout w ++ lines; files := files w;
     modify_calls := modify_calls w |}.

(** The world after the file at [path] was given the rows [rs]. *)
Definition with_file (w : World) (path : string) (rs : list (list cell))
  : World :=
  {| stdout := stdout w; files := Dict.set path rs (files w);
     modify_calls := modify_calls w |}.

(** The rows of the acquisition-label table. *)
Definition acquisitions_rows (labels : Dict.t nat) : list (list cell) :=
  [CStr "acquisition label"; CStr "count"]
  :: map (fun lc => [CStr (fst lc); CInt (Z.of_nat (snd lc))]) labels.

(** A triple for a command: from a world that satisfies [P], the command
    returns a value and a world that satisfy [Q], or raises an exception in a
    world that satisfies [E]. *)
Definition hoare {A} (P : World -> Prop) (m : M A)
  (Q : A -> World -> Prop) (E : exn -> World -> Prop) : Prop :=
  forall w, P w ->
    match m w with
    | (w', Ok a) => Q a w'
    | (w', Raise e) => E e w'
    end.

(** A property of the world that a command keeps, however it ends. *)
Definition stable {A} (I : World -> Prop) (m : M A) : Prop :=
  hoare I m (fun _ => I) (fun _ => I).

(** A property that does not look at what is printed, at the rows of the
    file at [path], or at the calls sent to the platform. *)
Definition ignores_stdout (I : World -> Prop) : Prop :=
  forall w out, I w ->
    I {| stdout := out; files := files w; modify_calls := modify_calls w |}.

Definition ignores_file (path : string) (I : World -> Prop) : Prop :=
  forall w rs, I w ->
    I {| stdout := stdout w; files := Dict.set path rs (files w);
         modify_calls := modify_calls w |}.

Definition ignores_calls (I : World -> Prop) : Prop :=
  forall w calls, I w ->
    I {| stdout := stdout w; files := files w; modify_calls := calls |}.

(** [args.intended_for] is given and holds at least one string. *)
Definition intended_for_given (args : Args) : bool :=
  match intended_for args with
  | Some (_ :: _) => true
  | _ => false
  end.

(** The lines the report prints for the mapping of one subject. *)
Definition duplicate_lines_of (seen : Dict.t nat) : list string :=
  flat_map (fun path =>
              match Dict.get path seen with
              | Some count =>
                  if (0 <? count)%nat then [("  " ++ path)%string] else []
              | None => []
              end)
           (Dict.keys seen).

(** The lines the report prints after its heading. *)
Definition duplicate_lines (project : Project) (v : Vars) : list string :=
  flat_map (fun s =>
              match Dict.get (subj_label s) (all_seen_paths v) with
              | Some seen => duplicate_lines_of seen
              | None => []
              end)
           (proj_subjects project).

Definition niftis_name (group_label project_label : string) : string :=
  (fst (make_file_name_safe group_label "_") ++ "_"
   ++ fst (make_file_name_safe project_label "_") ++ "_niftis.csv")%string.

Definition intendedfors_name (group_label project_label : string) : string :=
  (fst (make_file_name_safe group_label "_") ++ "_"
   ++ fst (make_file_name_safe project_label "_") ++ "_intendedfors.csv")%string.

Definition acquisitions_name (group_label project_label : string) : string :=
  (fst (make_file_name_safe group_label "_") ++ "_"
   ++ fst (make_file_name_safe project_label "_") ++ "_acquisitions.csv")%string.

(** The file at [path] exists. *)
Definition has_file (path : string) (w : World) : Prop :=
  In path (Dict.keys (files w)).

(** The files of the world are those of [w0] and those named in [names]. *)
Definition files_are (w0 : World) (names : list string) (w : World) : Prop :=
  forall k, In k (Dict.keys (files w))
            <-> In k (Dict.keys (files w0)) \/ In k names.

(** The query [save_curation_csvs] sends to find the project. *)
Definition project_query (group_label project_label : string) : string :=
  ("group=" ++ group_label ++ ",label=" ++ project_label)%string.

(** A label that [make_file_name_safe] leaves as it is. *)
Definition plain_label (s : string) : Prop :=
  Str.forallb safe_char s = true /\ Str.startswith s "." = false.

(** [d[k1][k2]], [None] when a key is missing. *)
Definition get2 {V} (k1 k2 : string) (d : Dict.t (Dict.t V)) : option V :=
  match Dict.get k1 d with
  | Some d1 => Dict.get k2 d1
  | None => None
  end.

(** The four fieldmap dictionaries of a subject have the same keys. *)
Definition aligned (sv : SubjectVars) : Prop :=
  Dict.keys (intended_fors sv) = Dict.keys (intended_for_dirs sv)
  /\ Dict.keys (intended_for_acq_id sv) = Dict.keys (intended_for_dirs sv)
  /\ Dict.keys (intended_for_acq_label sv) = Dict.keys (intended_for_dirs sv).

(** The four fieldmap dictionaries of the project have an entry for the same
    subject labels, and under a label the same file names. *)
Definition all_aligned (v : Vars) : Prop :=
  forall subj,
    match Dict.get subj (all_intended_for_dirs v),
          Dict.get subj (all_intended_fors v),
          Dict.get subj (all_intended_for_acq_id v),
          Dict.get subj (all_intended_for_acq_label v) with
    | Some dirs, Some fors, Some ids, Some labels =>
        Dict.keys fors = Dict.keys dirs
        /\ Dict.keys ids = Dict.keys dirs
        /\ Dict.keys labels = Dict.keys dirs
    | None, None, None, None => True
    | _, _, _, _ => False
    end.

(** Two nested dictionaries of lists with the same keys, and under each key
    the same entries, possibly in another order. *)
Definition same_entries (d0 d : Dict.t (Dict.t (list string))) : Prop :=
  forall k1 k2,
    match get2 k1 k2 d0, get2 k1 k2 d with
    | Some l0, Some l => Permutation l0 l
    | None, None => True
    | _, _ => False
    end.

Section Calls.
Context `{RE : RegexEngine}.

(** [re.compile] on every pair, [None] when a pattern is malformed. *)
Fixpoint compile_all (pairs : list (string * string))
  : option (list (regex * regex)) :=
  match pairs with
  | [] => Some []
  | s_p :: r =>
      match re_compile (fst s_p), re_compile (snd s_p), compile_all r with
      | Some r0, Some r1, Some rs => Some ((r0, r1) :: rs)
      | _, _, _ => None
      end
  end.

(** The calls the correction block sends for one recorded file name: one for
    each pair whose first regex finds a match in the name, with the entries
    of the recorded list in which the second regex finds a match. *)
Definition calls_of_file (rps : list (regex * regex)) (v : Vars)
  (fors : Dict.t (Dict.t (list string))) (subj file_name : string)
  : list ModifyCall :=
  flat_map (fun rx =>
    if re_search (fst rx) file_name then
      match get2 subj file_name fors,
            get2 subj file_name (all_intended_for_acq_id v) with
      | Some old, Some id =>
          [{| mc_acquisition_id := id; mc_file_name := file_name;
              mc_IntendedFor := filter (re_search (snd rx)) old |}]
      | _, _ => []
      end
    else [])
    rps.

Definition calls_of_subject (rps : list (regex * regex)) (v : Vars)
  (fors : Dict.t (Dict.t (list string))) (subj : string) : list ModifyCall :=
  match Dict.get subj (all_intended_for_dirs v) with
  | Some dirs => flat_map (calls_of_file rps v fors subj) (Dict.keys dirs)
  | None => []
  end.

(** The calls the correction block sends, in order. *)
Definition expected_calls (rps : list (regex * regex)) (v : Vars)
  (fors : Dict.t (Dict.t (list string))) : list ModifyCall :=
  flat_map (calls_of_subject rps v fors)
           (Dict.keys (all_intended_for_dirs v)).

End Calls.

(** The calls sent to the platform are [c0]. *)
Definition same_calls (c0 : list ModifyCall) (w : World) : Prop :=
  modify_calls w = c0.

(** A property of the calls sent to the platform. *)
Definition calls_only (phi : list ModifyCall -> Prop) (w : World) : Prop :=
  phi (modify_calls w).

(** A fieldmap file, for the script: its info has ["BIDS"] and a non-empty
    ["IntendedFor"] list. *)
Definition is_fieldmap (f : File) : bool :=
  match info_BIDS (file_info f), info_IntendedFor (file_info f) with
  | Some _, Some (_ :: _) => true
  | _, _ => false
  end.

Definition fieldmap_list (f : File) : list string :=
  match info_IntendedFor (file_info f) with
  | Some l => l
  | None => []
  end.

(** The file of a subject that the scan has recorded under a name when the
    subject is done: the last fieldmap file of that name met. *)
Definition recorded_in_subject (s : Subject) (name : string)
  : option (Session * Acquisition * File) :=
  find (fun x => is_fieldmap (snd x) && (file_name (snd x) =? name)%string)
       (rev (subject_files s)).

(** The file recorded under a subject label and a file name when the scan is
    done: the one of the last subject met with that label. *)
Definition recorded_file (p : Project) (label name : string)
  : option (Session * Acquisition * File) :=
  match find (fun s => (subj_label s =? label)%string)
             (rev (proj_subjects p)) with
  | Some s => recorded_in_subject s name
  | None => None
  end.

(** The IntendedFor lists and the acquisition identifiers of a subject. *)
Definition fieldmaps (sv : SubjectVars) : Dict.t (list string) * Dict.t string :=
  (intended_fors sv, intended_for_acq_id sv).

Definition fieldmap_step (c : Dict.t (list string) * Dict.t string)
  (x : Session * Acquisition * File) : Dict.t (list string) * Dict.t string :=
  if is_fieldmap (snd x)
  then (Dict.set (file_name (snd x)) (fieldmap_list (snd x)) (fst c),
        Dict.set (file_name (snd x)) (acq_id (snd (fst x))) (snd c))
  else c.

(** The command line [args] with [--intended-for l]. *)
Definition with_intended_for (args : Args) (l : list string) : Args :=
  {| group_label := group_label args; project_label := project_label args;
     api_key := api_key args; intended_for := Some l;
     verbose := verbose args |}.

(** C4 as it is stated: every file that has BIDS info and a non-empty
    IntendedFor list, and whose name the first regex of a pair matches, is
    overwritten with the entries of its list that the second regex of the
    pair matches. *)
Definition overwrites_every_matching_fieldmap `{RE : RegexEngine}
  (patterns : list string) (project : Project) (calls : list ModifyCall)
  : Prop :=
  forall s x l p1 p2 r1 r2,
    In s (proj_subjects project) ->
    In x (subject_files s) ->
    info_BIDS (file_info (snd x)) <> None ->
    info_IntendedFor (file_info (snd x)) = Some l -> l <> [] ->
    In (p1, p2) (string_pairs patterns) ->
    re_compile p1 = Some r1 -> re_compile p2 = Some r2 ->
    re_search r1 (file_name (snd x)) = true ->
    In {| mc_acquisition_id := acq_id (snd (fst x));
          mc_file_name := file_name (snd x);
          mc_IntendedFor := filter (re_search r2) l |} calls.

(* ================================================================= *)
(** ** A project, a client and a regular-expression engine for examples *)

Module Example.

(** The characters that stand for themselves in a pattern, among those the
    examples use. *)
Definition literal_char (c : ascii) : bool :=
  in_range "A" "Z" c || in_range "a" "z" c || in_range "0" "9" c
  || (c =? "_")%char || (c =? "-")%char || (c =? "/")%char.

(** A small engine: a pattern made of such characters compiles, and is
    searched as a substring, as in Python; any other pattern is rejected, as
    Python rejects a lone opening parenthesis.  The examples use no other
    pattern. *)
Definition literal_regex : RegexEngine :=
  {| regex := string;
     re_compile := fun pattern =>
       if Str.forallb literal_char pattern then Some pattern else None;
     re_search := fun r s => Str.contains s r |}.

(** The info of a curated file. *)
Definition curated (folder filename : string)
  (dirs : option (list (option string))) : option BidsInfo :=
  Some (BidsOf {| bids_ignore := Some false; bids_Folder := Some folder;
                  bids_Filename := Some filename;
                  bids_IntendedFor := dirs |}).

Definition t1w : File :=
  {| file_name := "T1w.nii.gz"; file_type := "nifti";
     file_info := {| info_BIDS := curated "anat" "sub-01_T1w.nii.gz" None;
                     info_IntendedFor := None;
                     info_SeriesNumber := Some (CInt 2) |} |}.

Definition dicom : File :=
  {| file_name := "T1w.dicom.zip"; file_type := "dicom";
     file_info := {| info_BIDS := Some BidsNA; info_IntendedFor := None;
                     info_SeriesNumber := None |} |}.

Definition fmap (intended : list string) : File :=
  {| file_name := "fmap.nii.gz"; file_type := "nifti";
     file_info := {| info_BIDS := curated "fmap" "sub-01_epi.nii.gz"
                                    (Some [Some "func"]);
                     info_IntendedFor := Some intended;
                     info_SeriesNumber := Some (CInt 5) |} |}.

(** A session with an anatomical acquisition (an image and its DICOM
    archive) and a fieldmap acquisition. *)
Definition session (label id1 id2 : string) (intended : list string)
  : Session :=
  {| ses_label := label;
     ses_acquisitions :=
       [{| acq_id := id1; acq_label := "T1w"; acq_files := [t1w; dicom] |};
        {| acq_id := id2; acq_label := "fmap";
           acq_files := [fmap intended] |}] |}.

(** Two sessions of the same protocol: the same paths and the same file
    names twice. *)
Definition sub01 : Subject :=
  {| subj_label := "sub-01";
     subj_sessions :=
       [session "ses-1" "acq1" "acq2"
          ["func/run-2_bold.nii.gz"; "func/run-1_bold.nii.gz"];
        session "ses-2" "acq3" "acq4" ["func/run-2_bold.nii.gz"]] |}.

Definition sub02 : Subject :=
  {| subj_label := "sub-02";
     subj_sessions :=
       [{| ses_label := "ses-1";
           ses_acquisitions :=
             [{| acq_id := "acq5"; acq_label := "T1w";
                 acq_files := [t1w] |}] |}] |}.

Definition project : Project := {| proj_subjects := [sub01; sub02] |}.

Definition client (key : string) : Client :=
  {| api_url := "https://flywheel.example/api";
     projects_find_one := fun query =>
       if (query =? "group=lab,label=study 1")%string then Some project
       else None |}.

Definition args (i : option (list string)) (verbosity : nat) : Args :=
  {| group_label := "lab"; project_label := "study 1"; api_key := None;
     intended_for := i; verbose := verbosity |}.

End Example.

(* ================================================================= *)
(** ** Notions of the further properties *)

(** The keys among ["ignore"], ["Folder"] and ["Filename"] that a BIDS
    dictionary lacks, in the order the script looks for them. *)
Definition missing_keys (b : BidsDict) : list string :=
  filter (fun key => negb (bids_has_key b key)) expected.

(** A character outside the class of the sanitizer. *)
Definition unsafe_char (c : ascii) : bool := negb (safe_char c).

(** A string without the character ["/"]. *)
Definition no_slash (s : string) : bool :=
  Str.forallb (fun c => negb (c =? "/")%char) s.

(** Where [run.py] looks for its configuration. *)
Definition CONFIG_FILE_PATH : string := "/flywheel/v0/config.json".

(** [i] has the key ["Folder"]. *)
Definition has_Folder (i : option string) : bool :=
  match i with Some _ => true | None => false end.

(** Every folder entry that the scan recorded for a fieldmap file has the
    key ["Folder"]: the entries are visited as the loop of the final values
    visits them. *)
Definition folders_present (v : Vars) : bool :=
  forallb (fun subj =>
             match Dict.get subj (all_intended_for_dirs v) with
             | Some dirs =>
                 forallb (fun kv => forallb has_Folder (snd kv)) dirs
             | None => true
             end)
          (Dict.keys (all_intended_for_dirs v)).

(** The rows of the final values for one folder entry of a fieldmap file:
    the folder, then every path of the list of the file. *)
Definition folder_rows (l : list string) (i : option string)
  : list (list cell) :=
  match i with
  | Some folder =>
      [CStr ""; CStr folder] :: map (fun j => [CStr ""; CStr ""; CStr j]) l
  | None => []
  end.

(** The rows of the final values for one fieldmap file. *)
Definition fieldmap_rows (label name : string) (dirs : list (option string))
  (l : list string) : list (list cell) :=
  [CStr label; CStr name] :: flat_map (folder_rows l) dirs.

(** The acquisition label and the IntendedFor list that the scan recorded
    under a subject label and a file name. *)
Definition recorded_label (v : Vars) (subj k : string) : string :=
  match get2 subj k (all_intended_for_acq_label v) with
  | Some label => label
  | None => ""
  end.

Definition recorded_list (v : Vars) (subj k : string) : list string :=
  match get2 subj k (all_intended_fors v) with
  | Some l => l
  | None => []
  end.

(** The rows of the final values under one subject label, [lists] giving the
    list of paths to write for a file name. *)
Definition subject_final_rows (v : Vars)
  (lists : string -> string -> list string) (subj : string)
  : list (list cell) :=
  match Dict.get subj (all_intended_for_dirs v) with
  | Some dirs =>
      flat_map (fun kv =>
                  fieldmap_rows (recorded_label v subj (fst kv)) (fst kv)
                                (snd kv) (lists subj (fst kv)))
               dirs
  | None => []
  end.

(** The rows of the final values: the subject labels in the order the scan
    met them, and under each the fieldmap file names in the order the scan
    recorded them. *)
Definition final_rows (v : Vars) (lists : string -> string -> list string)
  : list (list cell) :=
  flat_map (subject_final_rows v lists) (Dict.keys (all_intended_for_dirs v)).

(** The rows of the IntendedFor file of a run without [-v] and without
    [--intended-for]. *)
Definition intendedfors_rows (v : Vars) : list (list cell) :=
  [CStr ""; CStr ""; CStr ""] :: intendedfors_header
  :: final_rows v (recorded_list v).

(** The lines with which the report on duplicates ends a run. *)
Definition report_lines (project : Project) (v : Vars) : list string :=
  if (0 <? num_duplicates v)%nat
  then "ERROR: the following BIDS paths appear more than once:"
       :: duplicate_lines project v
  else ["No duplicates were found."].

(** The world a run without [-v] and without [--intended-for] ends in, when
    the project is found. *)
Definition quiet_run_result (fw : Client) (g p : string) (project : Project)
  (v : Vars) (w : World) : World :=
  with_stdout
    (with_file
       (with_file
          (with_file
             (with_stdout w
                (api_url fw :: snd (make_file_name_safe g "_")
                 ++ snd (make_file_name_safe p "_")))
             (niftis_name g p) (Pandas.to_csv_rows (all_df v)))
          (intendedfors_name g p) (intendedfors_rows v))
       (acquisitions_name g p) (acquisitions_rows (acquisition_labels v)))
    (report_lines project v).

(** The world in which the block that writes the IntendedFor file starts,
    when the project is found: the site, the lines of the scan and the two
    lines of [make_file_name_safe] are printed, with the empty line of
    [do_print("")], and the frame of the scan is written. *)
Definition before_intendedfors (args : Args) (fw : Client) (g p : string)
  (v : Vars) (w : World) : World :=
  with_file
    (with_stdout w
       (do_print args ""
          (api_url fw :: printed v ++ snd (make_file_name_safe g "_")
           ++ snd (make_file_name_safe p "_"))))
    (niftis_name g p) (Pandas.to_csv_rows (all_df v)).

(** A command that never ends normally: from every world it raises. *)
Definition never_returns {A} (m : M A) : Prop :=
  hoare (fun _ => True) m (fun _ _ => False) (fun _ _ => True).

(** A command that raises no other exception than those of [phi]. *)
Definition raises_only {A} (phi : exn -> Prop) (m : M A) : Prop :=
  hoare (fun _ => True) m (fun _ _ => True) (fun e _ => phi e).

Definition is_KeyError (e : exn) : Prop := exists k, e = KeyError k.

Section Unmatched.
Context `{RE : RegexEngine}.

(** No pair has a first regex that finds a match in [name]. *)
Definition no_pair_matches (rps : list (regex * regex)) (name : string)
  : bool :=
  forallb (fun rx => negb (re_search (fst rx) name)) rps.

(** The scan recorded a fieldmap file with at least one folder entry whose
    name no pair matches. *)
Definition unmatched_fieldmap (rps : list (regex * regex)) (v : Vars) : bool :=
  existsb (fun subj =>
             match Dict.get subj (all_intended_for_dirs v) with
             | Some dirs =>
                 existsb (fun kv =>
                            match snd kv with
                            | [] => false
                            | _ :: _ => no_pair_matches rps (fst kv)
                            end)
                         dirs
             | None => false
             end)
          (Dict.keys (all_intended_for_dirs v)).

End Unmatched.

(** [l] is in non-decreasing order for [leb]. *)
Fixpoint sorted_by {A} (leb : A -> A -> bool) (l : list A) : bool :=
  match l with
  | [] => true
  | x :: r =>
      match r with
      | [] => true
      | y :: _ => leb x y && sorted_by leb r
      end
  end.

(** The order of two rows of [all_df] by their curated BIDS path. *)
Definition path_leb (r1 r2 : nat * list cell) : bool :=
  Pandas.cell_leb
    (Pandas.cell_at final_columns "Curated BIDS path" (snd r1))
    (Pandas.cell_at final_columns "Curated BIDS path" (snd r2)).

(** The paths of a subject that take part in the duplicate detection. *)
Definition detected_paths (s : Subject) : list string :=
  filter (fun q => negb (is_placeholder q)) (subject_paths s).

(** The row of [all_df] is flagged as a duplicate. *)
Definition flagged_duplicate (r : nat * list cell) : bool :=
  String.prefix "duplicate "
    (str_of_cell (Pandas.cell_at final_columns "Unique?" (snd r))).

Section Sound.
Context `{RE : RegexEngine}.

(** The call [c] overwrites the IntendedFor list of a fieldmap file that the
    scan recorded, in the acquisition of that file, with entries of the list
    of that file: those that the second regex of a pair finds, the first
    regex of the pair finding the name of the file.  [sorted] tells that the
    list was sorted before it was filtered. *)
Definition overwrite_of_recorded_file (project : Project)
  (rps : list (regex * regex)) (sorted : bool) (c : ModifyCall) : Prop :=
  exists label f rx old,
    recorded_file project label (mc_file_name c) = Some f
    /\ is_fieldmap (snd f) = true
    /\ file_name (snd f) = mc_file_name c
    /\ mc_acquisition_id c = acq_id (snd (fst f))
    /\ In rx rps
    /\ re_search (fst rx) (mc_file_name c) = true
    /\ Permutation (fieldmap_list (snd f)) old
    /\ (sorted = false -> old = fieldmap_list (snd f))
    /\ mc_IntendedFor c = filter (re_search (snd rx)) old.

End Sound.

(** Projects with incomplete metadata, for examples. *)
Module Cases.

(** A file whose BIDS info has no ["Filename"]. *)
Definition without_filename (name : string) : File :=
  {| file_name := name; file_type := "nifti";
     file_info :=
       {| info_BIDS :=
            Some (BidsOf {| bids_ignore := Some false;
                            bids_Folder := Some "anat";
                            bids_Filename := None;
                            bids_IntendedFor := None |});
          info_IntendedFor := None;
          info_SeriesNumber := None |} |}.

Definition acquisition_of (id label : string) (f : File) : Acquisition :=
  {| acq_id := id; acq_label := label; acq_files := [f] |}.

Definition incomplete_session : Session :=
  {| ses_label := "ses-1";
     ses_acquisitions :=
       [acquisition_of "acq6" "T1w" (without_filename "T1w.nii.gz");
        acquisition_of "acq7" "T2w" (without_filename "T2w.nii.gz")] |}.

Definition incomplete_subject : Subject :=
  {| subj_label := "sub-03"; subj_sessions := [incomplete_session] |}.

Definition incomplete_project : Project :=
  {| proj_subjects := [incomplete_subject] |}.

(** A fieldmap file with a folder entry that has no ["Folder"]. *)
Definition fmap_without_folder : File :=
  {| file_name := "fmap.nii.gz"; file_type := "nifti";
     file_info :=
       {| info_BIDS := Example.curated "fmap" "sub-04_epi.nii.gz"
                         (Some [Some "func"; None]);
          info_IntendedFor := Some ["func/run-1_bold.nii.gz"];
          info_SeriesNumber := Some (CInt 7) |} |}.

Definition broken_project : Project :=
  {| proj_subjects :=
       [{| subj_label := "sub-04";
           subj_sessions :=
             [{| ses_label := "ses-1";
                 ses_acquisitions :=
                   [acquisition_of "acq8" "fmap" fmap_without_folder] |}]
        |}] |}.

Definition broken_client (key : string) : Client :=
  {| api_url := "https://flywheel.example/api";
     projects_find_one := fun _ => Some broken_project |}.

(** A fieldmap file whose IntendedFor list is not in order. *)
Definition unsorted_project : Project :=
  {| proj_subjects :=
       [{| subj_label := "sub-05";
           subj_sessions :=
             [Example.session "ses-1" "acq1" "acq2"
                ["func/run-2_bold.nii.gz"; "func/run-1_bold.nii.gz"]] |}] |}.

Definition unsorted_client (key : string) : Client :=
  {| api_url := "https://flywheel.example/api";
     projects_find_one := fun _ => Some unsorted_project |}.

End Cases.

Section Corrected.
Context `{RE : RegexEngine}.

(** The body of [for regex in regex_pairs], for a subject label and a file
    name. *)
Definition correct_pair (v : Vars) (fors : Dict.t (Dict.t (list string)))
  (subj file_name : string)
  (new_intended_fors : Dict.t (Dict.t (list string))) (rx : regex * regex)
  : M (Dict.t (Dict.t (list string))) :=
  if re_search (fst rx) file_name then
    new_intended_fors <- set2M subj file_name [] new_intended_fors ;;
    old <- get2M subj file_name fors ;;
    kept <- keep_matching (snd rx) old ;;
    new_intended_fors <- set2M subj file_name kept new_intended_fors ;;
    acquisition_id <- get2M subj file_name (all_intended_for_acq_id v) ;;
    new_list <- get2M subj file_name new_intended_fors ;;
    modify_acquisition_file_info acquisition_id file_name new_list ;;;
    ret new_intended_fors
  else ret new_intended_fors.

(** The body of [for file_name in all_intended_for_dirs[subj]]. *)
Definition correct_file (v : Vars) (fors : Dict.t (Dict.t (list string)))
  (regex_pairs : list (regex * regex)) (subj : string)
  (new_intended_fors : Dict.t (Dict.t (list string))) (file_name : string)
  : M (Dict.t (Dict.t (list string))) :=
  print file_name ;;;
  foldM (correct_pair v fors subj file_name) new_intended_fors regex_pairs.

(** The body of [for subj in all_intended_for_dirs]. *)
Definition correct_subject (v : Vars) (fors : Dict.t (Dict.t (list string)))
  (regex_pairs : list (regex * regex))
  (new_intended_fors : Dict.t (Dict.t (list string))) (subj : string)
  : M (Dict.t (Dict.t (list string))) :=
  let new_intended_fors := Dict.set subj Dict.empty new_intended_fors in
  dirs <- getM subj (all_intended_for_dirs v) ;;
  foldM (correct_file v fors regex_pairs subj) new_intended_fors
        (Dict.keys dirs).

(** The last pair whose first regex finds a match in the name. *)
Definition last_match (rps : list (regex * regex)) (name : string)
  : option (regex * regex) :=
  find (fun rx => re_search (fst rx) name) (rev rps).

(** The list that the final values show for a file name after the
    correction: the entries of the recorded list that the second regex of
    the last matching pair finds. *)
Definition corrected_list (rps : list (regex * regex)) (v : Vars)
  (subj name : string) : list string :=
  match last_match rps name with
  | Some rx => filter (re_search (snd rx)) (recorded_list v subj name)
  | None => []
  end.

(** The entry of [new_intended_fors] for a subject label and a file name
    when the correction block is done. *)
Definition corrected (rps : list (regex * regex)) (v : Vars)
  (subj name : string) : option (list string) :=
  match Dict.get subj (all_intended_for_dirs v) with
  | Some dirs =>
      if Dict.mem name dirs
      then option_map (fun rx => filter (re_search (snd rx))
                                        (recorded_list v subj name))
                      (last_match rps name)
      else None
  | None => None
  end.

End Corrected.

(** The subject whose mapping the scan keeps under a label: the last one the
    platform lists with that label. *)
Definition last_with_label (p : Project) (label : string) : option Subject :=
  find (fun s => (subj_label s =? label)%string) (rev (proj_subjects p)).

(** The curated BIDS path [q] is none of the placeholders and occurs more
    than once among the files of the subject. *)
Definition duplicated_in (s : Subject) (q : string) : Prop :=
  is_placeholder q = false /\ 1 < count_occ string_dec (subject_paths s) q.

(** The file at [path] holds the rows [rs]. *)
Definition file_is (path : string) (rs : list (list cell)) (w : World)
  : Prop :=
  Dict.get path (files w) = Some rs.

(** From a world in which the file at [path] holds [rs], the command ends
    normally, with a value that satisfies [Q], in a world in which the file
    holds [rs']. *)
Definition writes {A} (path : string) (rs : list (list cell)) (m : M A)
  (Q : A -> Prop) (rs' : list (list cell)) : Prop :=
  hoare (file_is path rs) m (fun a w => file_is path rs' w /\ Q a)
        (fun _ _ => False).

(** The body of [for j in all_intended_fors[subj][k]]. *)
Definition write_path (args : Args) (path : string) (j : string) : M unit :=
  do_printM args (",," ++ j)%string ;;;
  writerow path [CStr ""; CStr ""; CStr j].

(** The body of [for i in v] in the block of the initial values. *)
Definition initial_folder (args : Args) (path : string) (subj k : string)
  (fors : Dict.t (Dict.t (list string))) (i : option string)
  : M (Dict.t (Dict.t (list string))) :=
  folder <- get_Folder i ;;
  do_printM args ("," ++ folder)%string ;;;
  folder <- get_Folder i ;;
  writerow path [CStr ""; CStr folder] ;;;
  l <- get2M subj k fors ;;
  fors <- set2M subj k (list_sort l) fors ;;
  l <- get2M subj k fors ;;
  forM_ l (write_path args path) ;;;
  ret fors.

(** The body of [for k, v in all_intended_for_dirs[subj].items()] in the
    block of the initial values. *)
Definition initial_file (args : Args) (path : string) (v : Vars)
  (subj : string) (fors : Dict.t (Dict.t (list string)))
  (kv : string * list (option string)) : M (Dict.t (Dict.t (list string))) :=
  let '(k, v_dirs) := kv in
  label <- get2M subj k (all_intended_for_acq_label v) ;;
  do_printM args (label ++ ", " ++ k)%string ;;;
  label <- get2M subj k (all_intended_for_acq_label v) ;;
  writerow path [CStr label; CStr k] ;;;
  foldM (initial_folder args path subj k) fors v_dirs.

(** The body of [for subj in all_intended_for_dirs] in the block of the
    initial values. *)
Definition initial_subject (args : Args) (path : string) (v : Vars)
  (fors : Dict.t (Dict.t (list string))) (subj : string)
  : M (Dict.t (Dict.t (list string))) :=
  dirs <- getM subj (all_intended_for_dirs v) ;;
  foldM (initial_file args path v subj) fors dirs.

(** The recorded list of a file name, sorted. *)
Definition sorted_list (v : Vars) (subj k : string) : list string :=
  list_sort (recorded_list v subj k).

(** The lists of [fors] are those the scan recorded, some of them sorted. *)
Definition partly_sorted (v : Vars) (fors : Dict.t (Dict.t (list string)))
  : Prop :=
  forall s n,
    match get2 s n (all_intended_fors v) with
    | Some l0 => get2 s n fors = Some l0 \/ get2 s n fors = Some (list_sort l0)
    | None => get2 s n fors = None
    end.

(** The list under a subject label and a file name is the recorded one,
    sorted. *)
Definition sorted_at (v : Vars) (fors : Dict.t (Dict.t (list string)))
  (s n : string) : Prop :=
  get2 s n fors = Some (sorted_list v s n).

(** The rows of the IntendedFor file of a run with [-v] and without
    [--intended-for]. *)
Definition verbose_intendedfors_rows (v : Vars) : list (list cell) :=
  [CStr "Initial values (before correction)"] :: intendedfors_header
  :: final_rows v (sorted_list v)
  ++ [CStr "Final values (after correction)"]
  :: [CStr ""; CStr ""; CStr ""] :: intendedfors_header
  :: final_rows v (sorted_list v).

(** The folder entries the scan records for a fieldmap file: those of its
    BIDS info, or the entry that says that they are missing. *)
Definition folder_entries (f : File) : list (option string) :=
  match info_BIDS (file_info f) with
  | Some (BidsOf b) =>
      match bids_IntendedFor b with
      | Some dirs => dirs
      | None => [Some "folder is missing"]
      end
  | _ => [Some "folder is missing"]
  end.

(** The folder entries and the acquisition labels of a subject. *)
Definition folders (sv : SubjectVars)
  : Dict.t (list (option string)) * Dict.t string :=
  (intended_for_dirs sv, intended_for_acq_label sv).

Definition folder_step (c : Dict.t (list (option string)) * Dict.t string)
  (x : Session * Acquisition * File)
  : Dict.t (list (option string)) * Dict.t string :=
  if is_fieldmap (snd x)
  then (Dict.set (file_name (snd x)) (folder_entries (snd x)) (fst c),
        Dict.set (file_name (snd x)) (acq_label (snd (fst x))) (snd c))
  else c.

(** Every folder entry of every fieldmap file of the project has the key
    ["Folder"]. *)
Definition every_folder_entry_has_Folder (p : Project) : Prop :=
  forall s x,
    In s (proj_subjects p) -> In x (subject_files s) ->
    is_fieldmap (snd x) = true ->
    forallb has_Folder (folder_entries (snd x)) = true.

(** The scan recorded at least one folder entry for the file name. *)
Definition has_folder_entry (v : Vars) (subj k : string) : bool :=
  match get2 subj k (all_intended_for_dirs v) with
  | Some (_ :: _) => true
  | _ => false
  end.

(** The recorded lists as the block of the initial values leaves them: the
    list of a file is sorted inside the loop over its folder entries, so
    the list of a file without a folder entry stays as it was recorded. *)
Definition sorted_fors (v : Vars) : Dict.t (Dict.t (list string)) :=
  map (fun sd =>
         (fst sd,
          map (fun kl =>
                 (fst kl,
                  if has_folder_entry v (fst sd) (fst kl)
                  then list_sort (snd kl) else snd kl))
              (snd sd)))
      (all_intended_fors v).

(** The lists that the correction block and the final values read: with
    [-v] the block of the initial values has run before. *)
Definition lists_read (args : Args) (v : Vars)
  : Dict.t (Dict.t (list string)) :=
  if (0 <? verbose args)%nat then sorted_fors v else all_intended_fors v.

(** The variables of the scan, with other IntendedFor lists. *)
Definition with_fors (v : Vars) (fors : Dict.t (Dict.t (list string)))
  : Vars :=
  {| acquisition_labels := acquisition_labels v;
     all_intended_for_acq_label := all_intended_for_acq_label v;
     all_intended_for_acq_id := all_intended_for_acq_id v;
     all_intended_for_dirs := all_intended_for_dirs v;
     all_intended_fors := fors;
     all_seen_paths := all_seen_paths v;
     num_duplicates := num_duplicates v;
     all_df := all_df v;
     printed := printed v |}.

(** Under a subject label every file name is recorded once. *)
Definition distinct_names (v : Vars) : Prop :=
  forall subj dirs,
    Dict.get subj (all_intended_for_dirs v) = Some dirs ->
    NoDup (Dict.keys dirs).

(** Two nested dictionaries with the same subject labels and, under each,
    the same file names in the same order. *)
Definition same_keys (d0 d : Dict.t (Dict.t (list string))) : Prop :=
  forall subj,
    option_map Dict.keys (Dict.get subj d)
    = option_map Dict.keys (Dict.get subj d0).

(** The lists of the files without a folder entry are as recorded. *)
Definition untouched (v : Vars) (fors : Dict.t (Dict.t (list string)))
  : Prop :=
  forall s n,
    has_folder_entry v s n = false ->
    get2 s n fors = get2 s n (all_intended_fors v).

(** The strings of [--intended-for]. *)
Definition patterns (args : Args) : list string :=
  match intended_for args with
  | Some l => l
  | None => []
  end.

(** The list of a file with a folder entry when the correction starts. *)
Definition base_list (args : Args) (v : Vars) (subj k : string)
  : list string :=
  if (0 <? verbose args)%nat then sorted_list v subj k
  else recorded_list v subj k.

Section Rows.
Context `{RE : RegexEngine}.

(** The list that the final values show for a file with a folder entry. *)
Definition final_list (args : Args) (rps : list (regex * regex)) (v : Vars)
  (subj k : string) : list string :=
  if intended_for_given args
  then match last_match rps k with
       | Some rx => filter (re_search (snd rx)) (base_list args v subj k)
       | None => []
       end
  else base_list args v subj k.

(** The rows of the IntendedFor file of a run that ends normally. *)
Definition all_intendedfors_rows (args : Args) (rps : list (regex * regex))
  (v : Vars) : list (list cell) :=
  (if (0 <? verbose args)%nat
   then [CStr "Initial values (before correction)"] :: intendedfors_header
        :: final_rows v (sorted_list v)
   else [])
  ++ (if (0 <? verbose args)%nat
      then [[CStr "Final values (after correction)"]] else [])
  ++ [CStr ""; CStr ""; CStr ""] :: intendedfors_header
  :: final_rows v (final_list args rps v).

End Rows.

(** A project in which two subjects bear the same label: the first has two
    sessions with the same paths, the second a single file. *)
Module SharedLabel.

Definition second : Subject :=
  {| subj_label := "sub-01"; subj_sessions := subj_sessions Example.sub02 |}.

Definition shared_project : Project :=
  {| proj_subjects := [Example.sub01; second] |}.

Definition shared_client (key : string) : Client :=
  {| api_url := "https://flywheel.example/api";
     projects_find_one := fun _ => Some shared_project |}.

End SharedLabel.

(** C3 as it is stated, for a run in which duplicates were found: nothing
    is raised and the exit status is 0, the three CSV files are there, and
    every duplicated path of every subject is on standard output. *)
Definition duplicates_reported (project : Project) (g p : string)
  (run : World * result nat) : Prop :=
  snd run = Ok 0
  /\ has_file (niftis_name g p) (fst run)
  /\ has_file (intendedfors_name g p) (fst run)
  /\ has_file (acquisitions_name g p) (fst run)
  /\ forall s q,
       In s (proj_subjects project) -> duplicated_in s q ->
       In ("  " ++ q)%string (stdout (fst run)).

(** No other subject of the project bears the label of [s]. *)
Definition only_one_with_label (project : Project) (s : Subject) : Prop :=
  forall s', In s' (proj_subjects project) ->
             subj_label s' = subj_label s -> s' = s.

(** The lines that the report prints for a subject: those of the mapping
    kept under its label. *)
Definition lines_under_label (project : Project) (s : Subject)
  : list string :=
  match last_with_label project (subj_label s) with
  | Some s' => duplicate_lines_of (subject_seen s')
  | None => []
  end.

(* ================================================================= *)
(** * Proofs *)

(** ** Strings *)

Module StrFacts.

Lemma forallb_app p s t :
  Str.forallb p (s ++ t)%string = Str.forallb p s && Str.forallb p t.
Proof.
  induction s as [|c s IH]; simpl; [reflexivity|].
  now rewrite IH, andb_assoc.
Qed.

Lemma forallb_filter p s : Str.forallb p (Str.filter p s) = true.
Proof.
  induction s as [|c s IH]; simpl; [reflexivity|].
  destruct (p c) eqn:E; simpl; [rewrite E|]; exact IH.
Qed.

Lemma filter_id p s : Str.forallb p s = true -> Str.filter p s = s.
Proof.
  induction s as [|c s IH]; simpl; [reflexivity|].
  intros H. apply andb_true_iff in H as [Hc Hs].
  now rewrite Hc, IH.
Qed.

Lemma forallb_drop1 p s :
  Str.forallb p s = true -> Str.forallb p (Str.drop1 s) = true.
Proof.
  destruct s as [|c s]; simpl; [easy|].
  intros H. now apply andb_true_iff in H.
Qed.

Lemma append_inj_l (p a b : string) : (p ++ a = p ++ b)%string -> a = b.
Proof.
  induction p as [|c p IH]; simpl; [easy|].
  intros [= H]. now apply IH.
Qed.

Lemma append_assoc (a b c : string) :
  ((a ++ b) ++ c = a ++ (b ++ c))%string.
Proof.
  induction a as [|x a IH]; simpl; [reflexivity|]. now rewrite IH.
Qed.

End StrFacts.

(** ** Dictionaries *)

Module DictFacts.
Section Facts.
Context {V : Type}.
Implicit Types (d : Dict.t V) (k : string) (v : V).

Lemma get_set_same k v d : Dict.get k (Dict.set k v d) = Some v.
Proof.
  induction d as [|[k' v'] r IH]; simpl.
  - now rewrite String.eqb_refl.
  - destruct (k' =? k)%string eqn:E; simpl.
    + now rewrite String.eqb_refl.
    + now rewrite E.
Qed.

Lemma get_set_other k k' v d : k <> k' -> Dict.get k' (Dict.set k v d) = Dict.get k' d.
Proof.
  intros Hne. induction d as [|[k0 v0] r IH]; simpl.
  - apply String.eqb_neq in Hne. now rewrite Hne.
  - destruct (k0 =? k)%string eqn:E; simpl.
    + apply String.eqb_eq in E. subst k0.
      apply String.eqb_neq in Hne. now rewrite Hne.
    + now rewrite IH.
Qed.

Lemma get_Some_In k v d : Dict.get k d = Some v -> In (k, v) d.
Proof.
  induction d as [|[k0 v0] r IH]; simpl; [discriminate|].
  destruct (k0 =? k)%string eqn:E.
  - apply String.eqb_eq in E. intros [= ->]. left. now subst.
  - intros H. right. now apply IH.
Qed.

Lemma get_None_keys k d : Dict.get k d = None <-> ~ In k (Dict.keys d).
Proof.
  induction d as [|[k0 v0] r IH]; simpl; [tauto|].
  destruct (k0 =? k)%string eqn:E.
  - apply String.eqb_eq in E. split; [discriminate|]. intros H. elim H. now left.
  - apply String.eqb_neq in E. rewrite IH. tauto.
Qed.

Lemma In_keys_get k d : In k (Dict.keys d) -> exists v, Dict.get k d = Some v.
Proof.
  intros H. destruct (Dict.get k d) as [v|] eqn:E; [now exists v|].
  now apply get_None_keys in E.
Qed.

Lemma keys_set k v d :
  Dict.keys (Dict.set k v d) = if Dict.mem k d then Dict.keys d else Dict.keys d ++ [k].
Proof.
  unfold Dict.mem. induction d as [|[k0 v0] r IH]; simpl; [reflexivity|].
  destruct (k0 =? k)%string eqn:E; simpl.
  - apply String.eqb_eq in E. now subst.
  - rewrite IH. now destruct (Dict.get k r).
Qed.

Lemma NoDup_keys_set k v d : NoDup (Dict.keys d) -> NoDup (Dict.keys (Dict.set k v d)).
Proof.
  intros H. rewrite keys_set. unfold Dict.mem.
  destruct (Dict.get k d) eqn:E; [exact H|].
  apply get_None_keys in E.
  apply NoDup_rev in H. rewrite <- (rev_involutive (Dict.keys d ++ [k])).
  apply NoDup_rev. rewrite rev_app_distr. simpl. constructor; [|exact H].
  now rewrite <- in_rev.
Qed.

Lemma NoDup_get k v d : NoDup (Dict.keys d) -> In (k, v) d -> Dict.get k d = Some v.
Proof.
  induction d as [|[k0 v0] r IH]; simpl; [easy|].
  intros Hnd [[= -> ->]|Hin].
  - now rewrite String.eqb_refl.
  - inversion Hnd as [|? ? Hk0 Hr]; subst.
    destruct (k0 =? k)%string eqn:E.
    + apply String.eqb_eq in E. subst k0.
      elim Hk0. change k with (fst (k, v)). now apply in_map.
    + now apply IH.
Qed.

Lemma mem_keys k d : Dict.mem k d = true <-> In k (Dict.keys d).
Proof.
  unfold Dict.mem. destruct (Dict.get k d) eqn:E.
  - split; [intros _|easy].
    apply get_Some_In in E. change k with (fst (k, v)). now apply in_map.
  - split; [discriminate|]. intros H. now apply get_None_keys in E.
Qed.

Lemma keys_set_mem k v d :
  Dict.mem k d = true -> Dict.keys (Dict.set k v d) = Dict.keys d.
Proof. intros H. now rewrite keys_set, H. Qed.

Lemma In_keys_set k k' v d :
  In k' (Dict.keys (Dict.set k v d)) <-> k' = k \/ In k' (Dict.keys d).
Proof.
  rewrite keys_set. destruct (Dict.mem k d) eqn:E.
  - apply mem_keys in E. split; [now right|]. intros [->|H]; assumption.
  - rewrite in_app_iff. simpl. intuition.
Qed.

End Facts.
End DictFacts.

(** ** [make_file_name_safe] *)

Lemma safe_patt_sub_empty (b : bool) (s : string) :
  safe_patt_sub_from b "" s = Str.filter safe_char s.
Proof.
  revert b. induction s as [|c s IH]; intros b; simpl; [reflexivity|].
  destruct (safe_char c); [now rewrite IH|].
  destruct b; simpl; apply IH.
Qed.

Lemma safe_patt_sub_safe (b : bool) (repl s : string) :
  Str.forallb safe_char repl = true ->
  Str.forallb safe_char (safe_patt_sub_from b repl s) = true.
Proof.
  intros Hr. revert b. induction s as [|c s IH]; intros b; simpl; [reflexivity|].
  destruct (safe_char c) eqn:E; simpl.
  - now rewrite E, IH.
  - destruct b; [apply IH|]. now rewrite StrFacts.forallb_app, Hr, IH.
Qed.

Lemma safe_patt_sub_id (b : bool) (repl s : string) :
  Str.forallb safe_char s = true -> safe_patt_sub_from b repl s = s.
Proof.
  revert b. induction s as [|c s IH]; intros b; simpl; [reflexivity|].
  intros H. apply andb_true_iff in H as [Hc Hs].
  now rewrite Hc, IH.
Qed.

(** A label made of safe characters that does not start with a dot goes
    through [make_file_name_safe] unchanged. *)
Lemma make_file_name_safe_id (s : string) :
  Str.forallb safe_char s = true -> Str.startswith s "." = false ->
  fst (make_file_name_safe s "_") = s.
Proof.
  intros Hs Hd. unfold make_file_name_safe, safe_patt_sub. simpl.
  rewrite (safe_patt_sub_id false "_" s Hs). now rewrite Hd.
Qed.

Lemma prefix_cons a s1 b s2 :
  String.prefix (String a s1) (String b s2)
  = if ascii_dec a b then String.prefix s1 s2 else false.
Proof. reflexivity. Qed.

Lemma prefix_empty s : String.prefix "" s = true.
Proof. now destruct s. Qed.

(** C2, as amended: with the default replacement, [make_file_name_safe]
    returns the input without its characters outside [A-Za-z0-9_.-] and
    without one leading dot; the result holds only characters of the set,
    and it starts with a dot exactly when the kept characters start with
    two dots. *)
Theorem make_file_name_safe_removes_and_strips_one_dot (s : string) :
  let kept := Str.filter safe_char s in
  let r := fst (make_file_name_safe s "") in
  r = (if Str.startswith kept "." then Str.drop1 kept else kept)
  /\ Str.forallb safe_char r = true
  /\ (Str.startswith r "." = true <-> Str.startswith kept ".." = true).
Proof.
  cbv zeta. unfold make_file_name_safe, safe_patt_sub.
  change (safe_patt_match "") with false. cbv iota. cbn [fst].
  rewrite safe_patt_sub_empty.
  pose proof (StrFacts.forallb_filter safe_char s) as Hsafe.
  destruct (Str.filter safe_char s) as [|c k] eqn:E.
  - cbn. repeat split; intros; discriminate.
  - unfold Str.startswith. rewrite !prefix_cons, prefix_empty.
    destruct (ascii_dec "." c) as [<-|Hc].
    + cbn [Str.drop1]. split; [reflexivity|]. split.
      { cbn in Hsafe. exact Hsafe. }
      destruct k as [|c' k']; [cbn; split; discriminate|].
      rewrite !prefix_cons, prefix_empty. reflexivity.
    + split; [reflexivity|]. split; [exact Hsafe|].
      rewrite prefix_cons. destruct (ascii_dec "." c); [contradiction|].
      split; discriminate.
Qed.

(** C2, as stated, fails on the input [".."]: one dot is stripped and the
    result is ["."]. *)
Lemma make_file_name_safe_leading_dot_counterexample :
  ~ (forall s : string,
       let r := fst (make_file_name_safe s "") in
       Str.forallb safe_char r = true /\ Str.startswith r "." = false).
Proof.
  intros H. specialize (H ".."). cbv in H. destruct H as [_ H]. discriminate.
Qed.

(** ** The duplicate pass *)

Lemma is_placeholder_spec (p : string) :
  is_placeholder p = true <-> In p placeholders.
Proof.
  unfold is_placeholder. rewrite existsb_exists. split.
  - intros [x [Hin Heq]]. apply String.eqb_eq in Heq. now subst.
  - intros Hin. exists p. split; [exact Hin|apply String.eqb_refl].
Qed.

Lemma detect_duplicate_placeholder seen nd p :
  is_placeholder p = true -> detect_duplicate seen nd p = (seen, nd, "").
Proof. intros H. unfold detect_duplicate. now rewrite H. Qed.

Lemma detect_duplicate_path seen nd p :
  is_placeholder p = false ->
  detect_duplicate seen nd p
  = (Dict.set p (prior seen p) seen,
     nd + (if Dict.mem p seen then 1 else 0),
     flag_after (prior seen p)).
Proof.
  intros H. unfold detect_duplicate, prior, Dict.mem. rewrite H.
  destruct (Dict.get p seen) as [n|]; simpl.
  - now rewrite Nat.add_1_r.
  - now rewrite Nat.add_0_r.
Qed.

Lemma prior_detect_same seen nd p :
  is_placeholder p = false ->
  prior (fst (fst (detect_duplicate seen nd p))) p = S (prior seen p).
Proof.
  intros H. rewrite detect_duplicate_path by exact H. simpl.
  unfold prior at 1. now rewrite DictFacts.get_set_same.
Qed.

Lemma prior_detect_other seen nd p q :
  p <> q ->
  prior (fst (fst (detect_duplicate seen nd p))) q = prior seen q.
Proof.
  intros Hne. destruct (is_placeholder p) eqn:H.
  - now rewrite detect_duplicate_placeholder.
  - rewrite detect_duplicate_path by exact H. simpl.
    unfold prior. now rewrite DictFacts.get_set_other.
Qed.

Lemma duplicate_pass_cons seen nd p r :
  duplicate_pass seen nd (p :: r)
  = (let d := detect_duplicate seen nd p in
     (seen_after (fst (fst d)) (snd (fst d)) r,
      dups_after (fst (fst d)) (snd (fst d)) r,
      snd d :: flags_after (fst (fst d)) (snd (fst d)) r)).
Proof.
  unfold seen_after, dups_after, flags_after. simpl.
  destruct (detect_duplicate seen nd p) as [[s1 n1] u]. simpl.
  now destruct (duplicate_pass s1 n1 r) as [[s2 n2] fl].
Qed.

Lemma flags_after_length seen nd paths :
  List.length (flags_after seen nd paths) = List.length paths.
Proof.
  revert seen nd. induction paths as [|p r IH]; intros seen nd.
  - reflexivity.
  - unfold flags_after. rewrite duplicate_pass_cons. simpl.
    now rewrite IH.
Qed.

(** The flags do not depend on the duplicate count the pass starts from. *)
Lemma flags_after_dups seen nd nd' paths :
  flags_after seen nd paths = flags_after seen nd' paths
  /\ seen_after seen nd paths = seen_after seen nd' paths.
Proof.
  revert seen nd nd'. induction paths as [|p r IH]; intros seen nd nd'.
  - split; reflexivity.
  - unfold flags_after, seen_after. rewrite !duplicate_pass_cons. simpl.
    assert (E : forall n, fst (fst (detect_duplicate seen n p))
                          = fst (fst (detect_duplicate seen 0 p))
                          /\ snd (detect_duplicate seen n p)
                             = snd (detect_duplicate seen 0 p)).
    { intros n. unfold detect_duplicate.
      destruct (is_placeholder p); [easy|].
      now destruct (Dict.mem p seen). }
    destruct (E nd) as [-> ->]. destruct (E nd') as [-> ->].
    destruct (IH (fst (fst (detect_duplicate seen 0 p)))
                 (snd (fst (detect_duplicate seen nd p)))
                 (snd (fst (detect_duplicate seen nd' p)))) as [-> ->].
    split; reflexivity.
Qed.

Lemma prior_seen_after seen nd paths p :
  is_placeholder p = false ->
  prior (seen_after seen nd paths) p
  = prior seen p + count_occ string_dec paths p.
Proof.
  intros Hp. revert seen nd. induction paths as [|q r IH]; intros seen nd.
  - simpl. now rewrite Nat.add_0_r.
  - unfold seen_after. rewrite duplicate_pass_cons. simpl.
    fold (seen_after (fst (fst (detect_duplicate seen nd q)))
                     (snd (fst (detect_duplicate seen nd q))) r).
    rewrite IH. destruct (string_dec q p) as [->|Hne].
    + rewrite prior_detect_same by exact Hp. lia.
    + now rewrite prior_detect_other by exact Hne.
Qed.

Lemma placeholder_seen_after seen nd paths p :
  is_placeholder p = true ->
  Dict.get p (seen_after seen nd paths) = Dict.get p seen.
Proof.
  intros Hp. revert seen nd. induction paths as [|q r IH]; intros seen nd.
  - reflexivity.
  - unfold seen_after. rewrite duplicate_pass_cons. simpl.
    fold (seen_after (fst (fst (detect_duplicate seen nd q)))
                     (snd (fst (detect_duplicate seen nd q))) r).
    rewrite IH. destruct (is_placeholder q) eqn:Hq.
    + now rewrite detect_duplicate_placeholder.
    + rewrite detect_duplicate_path by exact Hq. simpl.
      apply DictFacts.get_set_other. intros ->. congruence.
Qed.

Lemma flag_at seen nd paths i p :
  nth_error paths i = Some p ->
  nth_error (flags_after seen nd paths) i
  = Some (if is_placeholder p then ""
          else flag_after (prior seen p
                           + count_occ string_dec (firstn i paths) p)).
Proof.
  revert seen nd i. induction paths as [|q r IH]; intros seen nd i Hi.
  - now destruct i.
  - unfold flags_after. rewrite duplicate_pass_cons. simpl.
    destruct i as [|i]; simpl in *.
    + injection Hi as ->. destruct (is_placeholder p) eqn:Hp.
      * now rewrite detect_duplicate_placeholder.
      * rewrite detect_duplicate_path by exact Hp. simpl.
        now rewrite Nat.add_0_r.
    + fold (flags_after (fst (fst (detect_duplicate seen nd q)))
                        (snd (fst (detect_duplicate seen nd q))) r).
      rewrite (IH _ _ _ Hi). destruct (is_placeholder p) eqn:Hp; [reflexivity|].
      destruct (string_dec q p) as [->|Hne].
      * rewrite prior_detect_same by exact Hp.
        do 2 f_equal. lia.
      * now rewrite prior_detect_other by exact Hne.
Qed.

(** C1, as amended: in one pass from an empty mapping, a path that is none of
    the three placeholders is recorded at its first occurrence, flagged
    [unique] there and [duplicate k] at its k-th later occurrence, and the
    counter stored for it after the pass is the number of its occurrences
    beyond the first. *)
Theorem duplicate_pass_counts_occurrences_beyond_first
  (paths : list string) (p : string) :
  is_placeholder p = false ->
  Dict.get p (seen_after Dict.empty 0 paths)
  = match count_occ string_dec paths p with
    | 0 => None
    | S k => Some k
    end
  /\ forall i, nth_error paths i = Some p ->
       nth_error (flags_after Dict.empty 0 paths) i
       = Some (flag_after (count_occ string_dec (firstn i paths) p)).
Proof.
  intros Hp. split.
  - pose proof (prior_seen_after Dict.empty 0 paths p Hp) as H.
    unfold prior in H. simpl in H.
    destruct (Dict.get p (seen_after Dict.empty 0 paths));
      destruct (count_occ string_dec paths p); try discriminate; congruence.
  - intros i Hi. rewrite (flag_at _ _ _ _ _ Hi), Hp. reflexivity.
Qed.

(** A path met three times, with a placeholder in between. *)
Lemma duplicate_pass_counts_witness :
  Dict.get "anat/T1w.nii" (seen_after Dict.empty 0
     ["anat/T1w.nii"; "nonBids"; "anat/T1w.nii"; "anat/T1w.nii"]) = Some 2
  /\ nth_error (flags_after Dict.empty 0
     ["anat/T1w.nii"; "nonBids"; "anat/T1w.nii"; "anat/T1w.nii"]) 3
     = Some "duplicate 2".
Proof.
  destruct (duplicate_pass_counts_occurrences_beyond_first
              ["anat/T1w.nii"; "nonBids"; "anat/T1w.nii"; "anat/T1w.nii"]
              "anat/T1w.nii" eq_refl) as [H1 H2].
  split; [exact H1|exact (H2 3 eq_refl)].
Defined.

(** C1, as stated, fails on a placeholder path: its first occurrence is
    neither recorded nor flagged [unique]. *)
Lemma duplicate_pass_placeholder_counterexample :
  ~ (forall (paths : list string) (p : string) (i : nat),
       nth_error paths i = Some p ->
       count_occ string_dec (firstn i paths) p = 0 ->
       nth_error (flags_after Dict.empty 0 paths) i = Some "unique"
       /\ Dict.get p (seen_after Dict.empty 0 paths) <> None).
Proof.
  intros H.
  destruct (H ["nonBids"] "nonBids" 0 eq_refl eq_refl) as [H1 _].
  vm_compute in H1. discriminate.
Qed.

(** ** The scan, file by file *)

Lemma fold_left_flat_map {A B S} (f : S -> B -> S) (g : A -> list B) l s :
  fold_left f (flat_map g l) s = fold_left (fun s a => fold_left f (g a) s) l s.
Proof.
  revert s. induction l as [|a l IH]; intros s; simpl; [reflexivity|].
  now rewrite fold_left_app, IH.
Qed.

Lemma fold_left_map {A B S} (f : S -> B -> S) (h : A -> B) l s :
  fold_left f (map h l) s = fold_left (fun s a => f s (h a)) l s.
Proof.
  revert s. induction l as [|a l IH]; intros s; simpl; [reflexivity|].
  apply IH.
Qed.

Lemma fold_left_proj {S T A} (pi : S -> T) (F : S -> A -> S) (G : T -> A -> T) :
  (forall s a, pi (F s a) = G (pi s) a) ->
  forall l s, pi (fold_left F l s) = fold_left G l (pi s).
Proof.
  intros H l. induction l as [|a l IH]; intros s; simpl; [reflexivity|].
  now rewrite IH, H.
Qed.

Lemma fold_left_proj_flat {S T A B} (pi : S -> T) (F : S -> A -> S)
  (G : T -> B -> T) (g : A -> list B) :
  (forall s a, pi (F s a) = fold_left G (g a) (pi s)) ->
  forall l s, pi (fold_left F l s) = fold_left G (flat_map g l) (pi s).
Proof.
  intros H l s. rewrite fold_left_flat_map.
  now apply fold_left_proj.
Qed.

Lemma fold_left_inv {S A} (P : S -> Prop) (F : S -> A -> S) :
  (forall s a, P s -> P (F s a)) ->
  forall l s, P s -> P (fold_left F l s).
Proof.
  intros H l. induction l as [|a l IH]; intros s Hs; simpl; [exact Hs|].
  apply IH, H, Hs.
Qed.

Section Scan.
Variable args : Args.

Lemma record_intended_for_frame acq f sv :
  seen_paths (record_intended_for acq f sv) = seen_paths sv
  /\ ii (record_intended_for acq f sv) = ii sv
  /\ nifti_df (record_intended_for acq f sv) = nifti_df sv.
Proof.
  unfold record_intended_for.
  destruct (info_BIDS (file_info f)); [|easy].
  destruct (info_IntendedFor (file_info f)) as [[|? ?]|]; easy.
Qed.

Lemma core_scan_file s ses acq st f :
  core (scan_file args s ses acq st f) = core_step s (core st) (ses, acq, f).
Proof.
  destruct st as [v sv]. unfold scan_file, core, core_step. cbn [fst snd].
  destruct (record_intended_for_frame acq f sv) as (-> & -> & ->).
  destruct (detect_duplicate (seen_paths sv) (num_duplicates v)
              (bids_path_of (file_info f))) as [[seen nd] u].
  reflexivity.
Qed.

Lemma core_scan_acquisition s ses st acq :
  core (scan_acquisition args s ses st acq)
  = fold_left (core_step s) (map (fun f => (ses, acq, f)) (acq_files acq))
              (core st).
Proof.
  destruct st as [v sv]. unfold scan_acquisition.
  rewrite fold_left_map.
  rewrite (fold_left_proj core _ (fun c f => core_step s c (ses, acq, f))).
  - reflexivity.
  - intros st f. apply core_scan_file.
Qed.

Lemma core_scan_session s st ses :
  core (scan_session args s st ses)
  = fold_left (core_step s)
      (flat_map (fun acq => map (fun f => (ses, acq, f)) (acq_files acq))
                (ses_acquisitions ses))
      (core st).
Proof.
  unfold scan_session. apply fold_left_proj_flat.
  intros st' acq. apply core_scan_acquisition.
Qed.

Lemma core_scan_sessions s st :
  core (fold_left (scan_session args s) (subj_sessions s) st)
  = fold_left (core_step s) (subject_files s) (core st).
Proof.
  unfold subject_files. apply fold_left_proj_flat.
  intros st' ses. apply core_scan_session.
Qed.

End Scan.

Lemma set_loc_fresh i vs df :
  map fst (rows df) = seq 0 i ->
  Pandas.set_loc i vs df
  = {| columns := columns df; rows := rows df ++ [(i, vs)] |}.
Proof.
  intros H. unfold Pandas.set_loc.
  replace (existsb (fun r => Nat.eqb (fst r) i) (rows df)) with false;
    [reflexivity|].
  symmetry. apply not_true_iff_false. intros E.
  apply existsb_exists in E as [r [Hin Heq]]. apply Nat.eqb_eq in Heq.
  apply (in_map fst) in Hin. rewrite H, Heq in Hin.
  apply in_seq in Hin. lia.
Qed.

Lemma rows_for_cons s x xs u flags :
  rows_for s (x :: xs) (u :: flags)
  = file_row s (fst (fst x)) (snd (fst x)) (snd x) u :: rows_for s xs flags.
Proof. reflexivity. Qed.

Lemma core_fold s xs : forall nd seen i df,
  map fst (rows df) = seq 0 i ->
  let paths := map (fun x => bids_path_of (file_info (snd x))) xs in
  fold_left (core_step s) xs (nd, seen, i, df)
  = (dups_after seen nd paths, seen_after seen nd paths, i + List.length xs,
     {| columns := columns df;
        rows := rows df
                ++ combine (seq i (List.length xs))
                     (rows_for s xs (flags_after seen nd paths)) |}).
Proof.
  induction xs as [|x xs IH]; intros nd seen i df Hfresh; cbn zeta.
  - simpl. rewrite Nat.add_0_r, app_nil_r. now destruct df.
  - cbn [fold_left map]. unfold core_step at 2.
    rewrite set_loc_fresh by exact Hfresh.
    rewrite IH.
    2:{ cbn [rows]. rewrite map_app, Hfresh. cbn [map fst].
        now rewrite <- seq_S. }
    unfold dups_after, seen_after, flags_after.
    rewrite duplicate_pass_cons. cbn [fst snd columns rows].
    unfold dups_after, seen_after, flags_after.
    cbn [List.length seq]. rewrite rows_for_cons. cbn [combine].
    f_equal; [f_equal; lia|].
    f_equal. now rewrite <- app_assoc.
Qed.

Lemma fold_left_const {S A} (l : list A) (s : S) :
  fold_left (fun s _ => s) l s = s.
Proof. induction l; simpl; auto. Qed.

Section Scan.
Variable args : Args.

Lemma outer_scan_file s ses acq st f :
  outer (fst (scan_file args s ses acq st f)) = outer (fst st).
Proof.
  destruct st as [v sv]. unfold scan_file.
  destruct (detect_duplicate _ _ _) as [[seen nd] u]. reflexivity.
Qed.

Lemma outer_scan_acquisition s ses st acq :
  outer (fst (scan_acquisition args s ses st acq)) = outer (fst st).
Proof.
  destruct st as [v sv]. unfold scan_acquisition.
  rewrite (fold_left_proj (fun st => outer (fst st)) _ (fun t _ => t)).
  - now rewrite fold_left_const.
  - intros st f. apply outer_scan_file.
Qed.

Lemma outer_scan_sessions s st :
  outer (fst (fold_left (scan_session args s) (subj_sessions s) st))
  = outer (fst st).
Proof.
  rewrite (fold_left_proj (fun st => outer (fst st)) _ (fun t _ => t)).
  - now rewrite fold_left_const.
  - intros st' ses. unfold scan_session.
    rewrite (fold_left_proj (fun st => outer (fst st)) _ (fun t _ => t)).
    + now rewrite fold_left_const.
    + intros st'' acq. apply outer_scan_acquisition.
Qed.

Lemma dups_after_shift seen nd paths :
  dups_after seen nd paths = nd + dups_after seen 0 paths.
Proof.
  revert seen nd. induction paths as [|p r IH]; intros seen nd.
  - unfold dups_after. simpl. lia.
  - unfold dups_after. rewrite !duplicate_pass_cons. cbn [fst snd].
    fold (dups_after (fst (fst (detect_duplicate seen nd p)))
                     (snd (fst (detect_duplicate seen nd p))) r).
    fold (dups_after (fst (fst (detect_duplicate seen 0 p)))
                     (snd (fst (detect_duplicate seen 0 p))) r).
    rewrite IH.
    rewrite (IH _ (snd (fst (detect_duplicate seen 0 p)))).
    unfold detect_duplicate. destruct (is_placeholder p); cbn [fst snd].
    + lia.
    + destruct (Dict.mem p seen); cbn [fst snd]; lia.
Qed.

(** The scan of one subject: what it adds to the variables of the scan. *)
Lemma scan_subject_spec v s :
  all_df (scan_subject args v s)
  = Pandas.append (all_df v)
      (Pandas.sort_values "Curated BIDS path" (subject_frame s))
  /\ all_seen_paths (scan_subject args v s)
     = Dict.set (subj_label s) (subject_seen s) (all_seen_paths v)
  /\ num_duplicates (scan_subject args v s)
     = num_duplicates v + dups_after Dict.empty 0 (subject_paths s).
Proof.
  unfold scan_subject.
  set (v1 := {| acquisition_labels := acquisition_labels v;
                printed := do_print args (subj_label s) (printed v) |}).
  pose proof (core_scan_sessions args s (v1, initial_subject_vars)) as Hc.
  pose proof (outer_scan_sessions s (v1, initial_subject_vars)) as Ho.
  destruct (fold_left (scan_session args s) (subj_sessions s)
              (v1, initial_subject_vars)) as [v2 sv].
  unfold core in Hc. cbn [fst snd] in Hc, Ho.
  change (num_duplicates v1) with (num_duplicates v) in Hc.
  change (seen_paths initial_subject_vars) with (@Dict.empty nat) in Hc.
  change (ii initial_subject_vars) with 0 in Hc.
  change (nifti_df initial_subject_vars) with (Pandas.new nifti_df_columns) in Hc.
  rewrite core_fold in Hc by reflexivity.
  injection Hc as Hnd Hseen Hii Hdf.
  unfold outer in Ho. injection Ho as _ _ _ _ Hsp Hall.
  cbn [all_df all_seen_paths num_duplicates].
  change (all_seen_paths v1) with (all_seen_paths v) in Hsp.
  change (all_df v1) with (all_df v) in Hall.
  rewrite Hall, Hsp, Hnd, Hseen, Hdf.
  fold (subject_paths s).
  destruct (flags_after_dups Dict.empty (num_duplicates v) 0 (subject_paths s))
    as [-> ->].
  split; [|split].
  - reflexivity.
  - reflexivity.
  - apply dups_after_shift.
Qed.

End Scan.

(** ** The frame written to the per-file CSV *)

Lemma insert_sorted_perm {A} (leb : A -> A -> bool) x l :
  Permutation (insert_sorted leb x l) (x :: l).
Proof.
  induction l as [|y l IH]; simpl; [reflexivity|].
  destruct (leb x y); [reflexivity|].
  rewrite IH. apply perm_swap.
Qed.

Lemma sort_by_perm {A} (leb : A -> A -> bool) l :
  Permutation (sort_by leb l) l.
Proof.
  induction l as [|x l IH]; simpl; [reflexivity|].
  rewrite insert_sorted_perm. now constructor.
Qed.

Lemma sort_by_length {A} (leb : A -> A -> bool) l :
  List.length (sort_by leb l) = List.length l.
Proof. apply Permutation_length, sort_by_perm. Qed.

Lemma realign_final_id r :
  width8 r -> Pandas.realign final_columns final_columns r = r.
Proof.
  destruct r as [i vs]. unfold width8. cbn [snd]. intros H.
  do 9 (destruct vs as [|? vs]; try discriminate).
  reflexivity.
Qed.

Lemma realign_width old r : width8 (Pandas.realign old final_columns r).
Proof. reflexivity. Qed.

Lemma realign_file_row s x u i :
  Pandas.realign nifti_df_columns final_columns
    (i, file_row s (fst (fst x)) (snd (fst x)) (snd x) u)
  = (i, all_df_row s x u).
Proof. reflexivity. Qed.

Lemma subject_flags_length s :
  List.length (subject_flags s) = List.length (subject_files s).
Proof.
  unfold subject_flags. rewrite flags_after_length.
  unfold subject_paths. apply length_map.
Qed.

Lemma subject_rows_length s :
  List.length (subject_rows s) = List.length (subject_files s).
Proof.
  unfold subject_rows, rows_for. rewrite length_map, length_combine.
  rewrite subject_flags_length. apply Nat.min_id.
Qed.

Lemma subject_block_width s : Forall width8 (subject_block s).
Proof.
  unfold subject_block. apply Forall_forall. intros r Hr.
  apply in_map_iff in Hr as [r0 [<- _]]. apply realign_width.
Qed.

Lemma subject_block_length s :
  List.length (subject_block s) = List.length (subject_files s).
Proof.
  unfold subject_block, Pandas.sort_values, subject_frame. cbn [rows columns].
  rewrite length_map, sort_by_length, length_combine, length_seq.
  rewrite subject_rows_length. apply Nat.min_id.
Qed.

(** The cells of the rows a subject adds: one row per file of the subject,
    in some order. *)
Lemma subject_block_perm s :
  Permutation (map snd (subject_block s)) (subject_table s).
Proof.
  unfold subject_block, Pandas.sort_values, subject_frame. cbn [rows columns].
  rewrite sort_by_perm.
  unfold subject_table, subject_rows, rows_for.
  assert (E : forall (xs : list (Session * Acquisition * File)) flags n,
             map snd (map (Pandas.realign nifti_df_columns final_columns)
                        (combine (seq n (List.length xs))
                           (map (fun xu => file_row s (fst (fst (fst xu)))
                                             (snd (fst (fst xu)))
                                             (snd (fst xu)) (snd xu))
                                (combine xs flags))))
             = map (fun xu => all_df_row s (fst xu) (snd xu)) (combine xs flags)).
  { induction xs as [|x xs IH]; intros flags n; [reflexivity|].
    destruct flags as [|u flags]; [reflexivity|].
    cbn [List.length seq combine map]. rewrite IH.
    rewrite realign_file_row. reflexivity. }
  rewrite E. reflexivity.
Qed.

Section Scan.
Variable args : Args.

Lemma all_df_fold subjects : forall done v,
  rows (all_df v) = flat_map subject_block done ->
  columns (all_df v)
  = match done with [] => all_df_columns | _ :: _ => final_columns end ->
  let v' := fold_left (scan_subject args) subjects v in
  rows (all_df v') = flat_map subject_block (done ++ subjects)
  /\ columns (all_df v')
     = match done ++ subjects with
       | [] => all_df_columns
       | _ :: _ => final_columns
       end.
Proof.
  induction subjects as [|s subjects IH]; intros done v Hrows Hcols; cbn zeta.
  - rewrite app_nil_r. now split.
  - cbn [fold_left].
    replace (done ++ s :: subjects) with ((done ++ [s]) ++ subjects)
      by now rewrite <- app_assoc.
    apply IH.
    + destruct (scan_subject_spec args v s) as [-> _].
      unfold Pandas.append. cbn [rows]. rewrite flat_map_app. cbn [flat_map].
      rewrite app_nil_r. f_equal.
      * rewrite Hrows, Hcols. destruct done as [|s0 done]; [reflexivity|].
        change (map _ ?l = ?l) with
          (map (Pandas.realign final_columns final_columns) l = l).
        rewrite <- (map_id (flat_map subject_block (s0 :: done))) at 2.
        apply map_ext_in. intros r Hr. apply realign_final_id.
        apply in_flat_map in Hr as [s1 [_ Hr]].
        pose proof (subject_block_width s1) as W.
        rewrite Forall_forall in W. now apply W.
      * rewrite Hcols. now destruct done.
    + destruct (scan_subject_spec args v s) as [-> _].
      unfold Pandas.append. cbn [columns]. rewrite Hcols.
      destruct done; reflexivity.
Qed.

(** The frame written to the per-file CSV. *)
Lemma all_df_scan p :
  rows (all_df (scan args p)) = flat_map subject_block (proj_subjects p)
  /\ columns (all_df (scan args p))
     = match proj_subjects p with
       | [] => all_df_columns
       | _ :: _ => final_columns
       end.
Proof. apply (all_df_fold (proj_subjects p) [] initial_vars); reflexivity. Qed.

End Scan.

Lemma project_files_length p :
  List.length (project_files p)
  = list_sum (map (fun s => List.length (subject_files s)) (proj_subjects p)).
Proof.
  unfold project_files. induction (proj_subjects p) as [|s l IH]; [reflexivity|].
  cbn [flat_map map list_sum]. now rewrite length_app, length_map, IH.
Qed.

Lemma flat_map_length_sum {A B} (f : A -> list B) l :
  List.length (flat_map f l) = list_sum (map (fun a => List.length (f a)) l).
Proof.
  induction l as [|a l IH]; [reflexivity|].
  cbn [flat_map map list_sum]. now rewrite length_app, IH.
Qed.

Lemma flat_map_perm {A B} (f g : A -> list B) l :
  (forall a, Permutation (f a) (g a)) ->
  Permutation (flat_map f l) (flat_map g l).
Proof.
  intros H. induction l as [|a l IH]; [reflexivity|].
  cbn [flat_map]. now apply Permutation_app.
Qed.

Lemma map_flat_map {A B C} (h : B -> C) (f : A -> list B) l :
  map h (flat_map f l) = flat_map (fun a => map h (f a)) l.
Proof.
  induction l as [|a l IH]; [reflexivity|].
  cbn [flat_map]. now rewrite map_app, IH.
Qed.

(** C7, as amended: the frame written to the per-file CSV holds exactly one
    row per file the scan met, with the file's series number, acquisition
    label, file name, file type, curated BIDS path, subject, session and
    uniqueness flag; its columns are these eight as soon as the project has a
    subject, and the five the frame is created with (no subject, session or
    uniqueness flag) when the project has none. *)
Theorem all_df_has_one_row_per_file (args : Args) (p : Project) :
  let df := all_df (scan args p) in
  Permutation (map snd (rows df)) (flat_map subject_table (proj_subjects p))
  /\ List.length (rows df) = List.length (project_files p)
  /\ columns df
     = match proj_subjects p with
       | [] => all_df_columns
       | _ :: _ => final_columns
       end.
Proof.
  cbv zeta. destruct (all_df_scan args p) as [Hrows Hcols].
  rewrite Hrows, Hcols. split; [|split; [|reflexivity]].
  - rewrite map_flat_map. apply flat_map_perm. apply subject_block_perm.
  - rewrite flat_map_length_sum, project_files_length.
    f_equal. apply map_ext. apply subject_block_length.
Qed.

(** C7, as stated, fails on a project without subjects: the frame keeps the
    five columns it was created with. *)
Lemma all_df_columns_counterexample :
  ~ (forall (args : Args) (p : Project),
       Permutation (columns (all_df (scan args p))) nifti_df_columns).
Proof.
  intros H.
  specialize (H {| group_label := "g"; project_label := "p"; api_key := None;
                   intended_for := None; verbose := 0 |}
                {| proj_subjects := [] |}).
  apply Permutation_length in H. vm_compute in H. discriminate.
Qed.

(** ** Duplicate detection in the scan *)

Lemma nth_error_combine {A B} (l1 : list A) (l2 : list B) j a b :
  nth_error l1 j = Some a -> nth_error l2 j = Some b ->
  nth_error (combine l1 l2) j = Some (a, b).
Proof.
  revert l2 j. induction l1 as [|x l1 IH]; intros l2 j H1 H2.
  - now destruct j.
  - destruct l2 as [|y l2]; [now destruct j|].
    destruct j as [|j]; simpl in *; [congruence|]. now apply IH.
Qed.

Lemma nth_error_seq_0 n j : j < n -> nth_error (seq 0 n) j = Some j.
Proof.
  intros H. rewrite nth_error_nth' with (d := 0) by now rewrite length_seq.
  now rewrite seq_nth.
Qed.

(** The flag of the [j]-th file of a subject counts the earlier files of the
    same subject with the same path. *)
Lemma subject_flag_at s j x :
  nth_error (subject_files s) j = Some x ->
  let path := bids_path_of (file_info (snd x)) in
  nth_error (subject_flags s) j
  = Some (if is_placeholder path then ""
          else flag_after (count_occ string_dec (firstn j (subject_paths s))
                                     path)).
Proof.
  intros Hx. cbv zeta. unfold subject_flags.
  rewrite (flag_at Dict.empty 0 (subject_paths s) j
             (bids_path_of (file_info (snd x)))).
  - reflexivity.
  - unfold subject_paths. now rewrite nth_error_map, Hx.
Qed.

Lemma subject_block_row s j x u :
  nth_error (subject_files s) j = Some x ->
  nth_error (subject_flags s) j = Some u ->
  In (j, all_df_row s x u) (subject_block s).
Proof.
  intros Hx Hu. unfold subject_block.
  rewrite <- realign_file_row. apply in_map.
  unfold Pandas.sort_values. cbn [rows columns].
  eapply Permutation_in; [symmetry; apply sort_by_perm|].
  unfold subject_frame. cbn [rows].
  apply (nth_error_In _ j). apply nth_error_combine.
  - apply nth_error_seq_0. apply nth_error_Some. congruence.
  - unfold subject_rows, rows_for. rewrite nth_error_map.
    now rewrite (nth_error_combine _ _ _ _ _ Hx Hu).
Qed.

Lemma find_app_or {A} (f : A -> bool) l1 l2 :
  find f (l1 ++ l2)
  = match find f l1 with Some a => Some a | None => find f l2 end.
Proof.
  induction l1 as [|a l1 IH]; simpl; [reflexivity|].
  now destruct (f a).
Qed.

Lemma list_sum_set k v (d : Dict.t nat) :
  list_sum (map snd (Dict.set k v d)) + match Dict.get k d with
                                        | Some n => n
                                        | None => 0
                                        end
  = list_sum (map snd d) + v.
Proof.
  induction d as [|[k0 n0] d IH]; simpl; [lia|].
  destruct (k0 =? k)%string; simpl; lia.
Qed.

(** The duplicate count of a pass is the sum of the counters it adds. *)
Lemma dups_after_sum paths : forall seen nd,
  dups_after seen nd paths + list_sum (map snd seen)
  = nd + list_sum (map snd (seen_after seen nd paths)).
Proof.
  induction paths as [|p r IH]; intros seen nd.
  - unfold dups_after, seen_after. simpl. lia.
  - unfold dups_after, seen_after. rewrite duplicate_pass_cons. cbn [fst snd].
    fold (dups_after (fst (fst (detect_duplicate seen nd p)))
                     (snd (fst (detect_duplicate seen nd p))) r).
    fold (seen_after (fst (fst (detect_duplicate seen nd p)))
                     (snd (fst (detect_duplicate seen nd p))) r).
    specialize (IH (fst (fst (detect_duplicate seen nd p)))
                   (snd (fst (detect_duplicate seen nd p)))).
    destruct (is_placeholder p) eqn:Hp.
    + rewrite detect_duplicate_placeholder in * by exact Hp. exact IH.
    + rewrite detect_duplicate_path in * by exact Hp. cbn [fst snd] in *.
      pose proof (list_sum_set p (prior seen p) seen) as Hs.
      unfold prior, Dict.mem in *.
      destruct (Dict.get p seen); lia.
Qed.

Section Scan.
Variable args : Args.

Lemma num_duplicates_fold subjects : forall v,
  num_duplicates (fold_left (scan_subject args) subjects v)
  = num_duplicates v
    + list_sum (map (fun s => list_sum (map snd (subject_seen s))) subjects).
Proof.
  induction subjects as [|s subjects IH]; intros v; simpl.
  - lia.
  - rewrite IH. destruct (scan_subject_spec args v s) as (_ & _ & ->).
    pose proof (dups_after_sum (subject_paths s) Dict.empty 0) as H.
    unfold subject_seen. simpl in H. lia.
Qed.

(** The mapping kept for a subject label is the one of a subject of that
    label, built from an empty mapping over the files of that subject. *)
Lemma all_seen_paths_fold subjects : forall v label,
  Dict.get label (all_seen_paths (fold_left (scan_subject args) subjects v))
  = match find (fun s => (subj_label s =? label)%string) (rev subjects) with
    | Some s => Some (subject_seen s)
    | None => Dict.get label (all_seen_paths v)
    end.
Proof.
  induction subjects as [|s subjects IH]; intros v label; cbn [fold_left].
  - reflexivity.
  - rewrite IH. cbn [rev]. rewrite find_app_or.
    destruct (find _ (rev subjects)); [reflexivity|].
    cbn [find]. destruct (scan_subject_spec args v s) as (_ & -> & _).
    destruct (subj_label s =? label)%string eqn:E.
    + apply String.eqb_eq in E. subst label.
      apply DictFacts.get_set_same.
    + apply String.eqb_neq in E. now apply DictFacts.get_set_other.
Qed.

Lemma all_seen_paths_scan p s :
  In s (proj_subjects p) ->
  exists s', In s' (proj_subjects p) /\ subj_label s' = subj_label s
             /\ Dict.get (subj_label s) (all_seen_paths (scan args p))
                = Some (subject_seen s').
Proof.
  intros Hin. unfold scan. rewrite all_seen_paths_fold.
  destruct (find _ (rev (proj_subjects p))) as [s'|] eqn:E.
  - apply find_some in E as [Hin' Heq]. apply String.eqb_eq in Heq.
    exists s'. rewrite <- in_rev in Hin'. now repeat split.
  - rewrite in_rev in Hin. apply (find_none _ _ E s) in Hin.
    now rewrite String.eqb_refl in Hin.
Qed.

End Scan.

(** C10: the flag stored for a file counts only the earlier files of the same
    subject (of any of its sessions) that have the same curated path: the
    mapping starts empty for each subject, the rows a subject adds to the
    table depend on that subject alone, and a file whose path is
    ["ignored"], ["nonBids"] or ["Not_yet_BIDS_curated"] gets the empty flag,
    has no counter in the mapping and adds nothing to the duplicate count. *)
Theorem duplicate_detection_is_scoped_per_subject
  (args : Args) (p : Project) (s : Subject) (j : nat)
  (x : Session * Acquisition * File) :
  In s (proj_subjects p) ->
  nth_error (subject_files s) j = Some x ->
  let path := bids_path_of (file_info (snd x)) in
  let earlier := count_occ string_dec (firstn j (subject_paths s)) path in
  rows (all_df (scan args p)) = flat_map subject_block (proj_subjects p)
  /\ In (j, all_df_row s x (if is_placeholder path then ""
                            else flag_after earlier))
        (rows (all_df (scan args p)))
  /\ (is_placeholder path = true -> Dict.get path (subject_seen s) = None)
  /\ num_duplicates (scan args p)
     = list_sum (map (fun s => list_sum (map snd (subject_seen s)))
                     (proj_subjects p)).
Proof.
  intros Hs Hx. cbv zeta.
  destruct (all_df_scan args p) as [Hrows _].
  split; [exact Hrows|]. split; [|split].
  - rewrite Hrows. apply in_flat_map. exists s. split; [exact Hs|].
    apply subject_block_row; [exact Hx|].
    now apply subject_flag_at.
  - intros Hp. unfold subject_seen.
    now rewrite placeholder_seen_after.
  - unfold scan. now rewrite num_duplicates_fold.
Qed.

(** ** The acquisition-label table *)

Section Scan.
Variable args : Args.

Lemma labels_scan_file s ses acq st f :
  acquisition_labels (fst (scan_file args s ses acq st f))
  = acquisition_labels (fst st).
Proof.
  destruct st as [v sv]. unfold scan_file.
  destruct (detect_duplicate _ _ _) as [[seen nd] u]. reflexivity.
Qed.

Lemma labels_scan_acquisition s ses st acq :
  acquisition_labels (fst (scan_acquisition args s ses st acq))
  = count_label (acquisition_labels (fst st)) (acq_label acq).
Proof.
  destruct st as [v sv]. unfold scan_acquisition.
  rewrite (fold_left_proj (fun st => acquisition_labels (fst st)) _
             (fun t _ => t)).
  - now rewrite fold_left_const.
  - intros st f. apply labels_scan_file.
Qed.

Lemma labels_scan_sessions s st :
  acquisition_labels (fst (fold_left (scan_session args s) (subj_sessions s) st))
  = fold_left count_label (subject_acquisition_labels s)
              (acquisition_labels (fst st)).
Proof.
  unfold subject_acquisition_labels.
  apply (fold_left_proj_flat (fun st => acquisition_labels (fst st))).
  intros st' ses. unfold scan_session. rewrite fold_left_map.
  apply (fold_left_proj (fun st => acquisition_labels (fst st))).
  intros st'' acq. apply labels_scan_acquisition.
Qed.

Lemma labels_scan_subject v s :
  acquisition_labels (scan_subject args v s)
  = fold_left count_label (subject_acquisition_labels s) (acquisition_labels v).
Proof.
  unfold scan_subject.
  set (v1 := {| acquisition_labels := acquisition_labels v;
                printed := do_print args (subj_label s) (printed v) |}).
  pose proof (labels_scan_sessions s (v1, initial_subject_vars)) as H.
  destruct (fold_left (scan_session args s) (subj_sessions s)
              (v1, initial_subject_vars)) as [v2 sv].
  exact H.
Qed.

Lemma labels_scan p :
  acquisition_labels (scan args p)
  = fold_left count_label (project_acquisition_labels p) Dict.empty.
Proof.
  unfold scan, project_acquisition_labels.
  apply (fold_left_proj_flat acquisition_labels).
  intros v s. apply labels_scan_subject.
Qed.

End Scan.

Lemma count_label_get_same d l :
  Dict.get l (count_label d l)
  = Some (S (match Dict.get l d with Some n => n | None => 0 end)).
Proof.
  unfold count_label, Dict.mem.
  destruct (Dict.get l d) as [n|] eqn:E.
  - rewrite DictFacts.get_set_same. f_equal. lia.
  - now rewrite DictFacts.get_set_same.
Qed.

Lemma count_label_get_other d l l' :
  l <> l' -> Dict.get l' (count_label d l) = Dict.get l' d.
Proof.
  intros Hne. unfold count_label.
  destruct (Dict.mem l d); now apply DictFacts.get_set_other.
Qed.

Lemma count_label_NoDup d l :
  NoDup (Dict.keys d) -> NoDup (Dict.keys (count_label d l)).
Proof.
  intros H. unfold count_label.
  destruct (Dict.mem l d); now apply DictFacts.NoDup_keys_set.
Qed.

Lemma count_labels_get ls : forall d l,
  Dict.get l (fold_left count_label ls d)
  = match count_occ string_dec ls l with
    | 0 => Dict.get l d
    | S k => Some (S k + match Dict.get l d with Some n => n | None => 0 end)
    end.
Proof.
  induction ls as [|a ls IH]; intros d l; cbn [fold_left]; [reflexivity|].
  rewrite IH. cbn [count_occ]. destruct (string_dec a l) as [->|Hne].
  - rewrite count_label_get_same.
    destruct (count_occ string_dec ls l); f_equal; lia.
  - now rewrite count_label_get_other by exact Hne.
Qed.

Lemma count_labels_NoDup ls : forall d,
  NoDup (Dict.keys d) -> NoDup (Dict.keys (fold_left count_label ls d)).
Proof.
  induction ls as [|a ls IH]; intros d H; cbn [fold_left]; [exact H|].
  now apply IH, count_label_NoDup.
Qed.

Lemma set_set {V} k (v v' : V) d :
  Dict.set k v' (Dict.set k v d) = Dict.set k v' d.
Proof.
  induction d as [|[k0 v0] r IH]; simpl.
  - now rewrite String.eqb_refl.
  - destruct (k0 =? k)%string eqn:E; simpl.
    + now rewrite String.eqb_refl.
    + now rewrite E, IH.
Qed.

Lemma writerow_with_file path row rs w :
  writerow path row (with_file w path rs)
  = (with_file w path (rs ++ [row]), Ok tt).
Proof.
  unfold writerow, with_file. cbn [files stdout modify_calls].
  now rewrite DictFacts.get_set_same, set_set.
Qed.

Lemma bind_Ok {A B} (m : M A) (k : A -> M B) w w' a :
  m w = (w', Ok a) -> bind m k w = k a w'.
Proof. intros H. unfold bind. now rewrite H. Qed.

Lemma bind_Raise {A B} (m : M A) (k : A -> M B) w w' e :
  m w = (w', Raise e) -> bind m k w = (w', Raise e).
Proof. intros H. unfold bind. now rewrite H. Qed.

Lemma writerows_with_file {A} path (g : A -> list cell) l : forall rs w,
  forM_ l (fun a => writerow path (g a)) (with_file w path rs)
  = (with_file w path (rs ++ map g l), Ok tt).
Proof.
  unfold forM_. induction l as [|a l IH]; intros rs w; cbn [foldM map].
  - now rewrite app_nil_r.
  - rewrite (bind_Ok _ _ _ _ _ (writerow_with_file _ _ _ _)), IH.
    now rewrite <- app_assoc.
Qed.

Lemma write_acquisitions_spec path v w :
  write_acquisitions path v w
  = (with_file w path (acquisitions_rows (acquisition_labels v)), Ok tt).
Proof.
  unfold write_acquisitions.
  rewrite (bind_Ok _ _ w (with_file w path []) tt) by reflexivity.
  rewrite (bind_Ok _ _ _ _ _ (writerow_with_file _ _ _ _)).
  apply (writerows_with_file path
           (fun lc => [CStr (fst lc); CInt (Z.of_nat (snd lc))])).
Qed.

(** C9: the acquisition-label table has one row per distinct acquisition
    label met during the traversal, and the count in the row of a label is
    the number of acquisitions of the project with that label, over all its
    subjects and sessions. *)
Theorem acquisition_table_counts_every_label
  (args : Args) (p : Project) (path : string) (w : World) :
  let table := acquisition_labels (scan args p) in
  let labels := project_acquisition_labels p in
  write_acquisitions path (scan args p) w
  = (with_file w path (acquisitions_rows table), Ok tt)
  /\ NoDup (Dict.keys table)
  /\ (forall l, In l (Dict.keys table) <-> In l labels)
  /\ (forall l n, In (l, n) table
                  <-> n = count_occ string_dec labels l /\ 0 < n).
Proof.
  cbv zeta. split; [apply write_acquisitions_spec|].
  rewrite labels_scan.
  set (labels := project_acquisition_labels p).
  assert (Hnd : NoDup (Dict.keys (fold_left count_label labels Dict.empty))).
  { apply count_labels_NoDup. constructor. }
  assert (Hget : forall l,
             Dict.get l (fold_left count_label labels Dict.empty)
             = match count_occ string_dec labels l with
               | 0 => None
               | S k => Some (S k)
               end).
  { intros l. rewrite count_labels_get. cbn [Dict.get Dict.empty].
    destruct (count_occ string_dec labels l); [reflexivity|]. f_equal. lia. }
  split; [exact Hnd|]. split.
  - intros l. rewrite (count_occ_In string_dec labels l).
    rewrite <- DictFacts.mem_keys. unfold Dict.mem. rewrite Hget.
    destruct (count_occ string_dec labels l); split; intros H;
      try discriminate; try lia; reflexivity.
  - intros l n. split.
    + intros Hin. apply (DictFacts.NoDup_get _ _ _ Hnd) in Hin.
      rewrite Hget in Hin.
      destruct (count_occ string_dec labels l); [discriminate|].
      injection Hin as <-. split; [reflexivity|lia].
    + intros [-> Hpos]. apply DictFacts.get_Some_In. rewrite Hget.
      destruct (count_occ string_dec labels l); [lia|reflexivity].
Qed.

(** ** Triples for commands *)

Lemma hoare_ret {A} (P : World -> Prop) (a : A) Q E :
  (forall w, P w -> Q a w) -> hoare P (ret a) Q E.
Proof. intros H w Hw. now apply H. Qed.

Lemma hoare_raise {A} (P : World -> Prop) e (Q : A -> World -> Prop) E :
  (forall w, P w -> E e w) -> hoare P (raise e) Q E.
Proof. intros H w Hw. now apply H. Qed.

Lemma hoare_bind {A B} P (m : M A) (k : A -> M B) R Q E :
  hoare P m R E -> (forall a, hoare (R a) (k a) Q E) ->
  hoare P (bind m k) Q E.
Proof.
  intros Hm Hk w Hw. unfold bind. specialize (Hm w Hw).
  destruct (m w) as [w' [a|e]]; [|exact Hm].
  now apply Hk.
Qed.

Lemma hoare_weaken {A} (P P' : World -> Prop) (m : M A)
  (Q Q' : A -> World -> Prop) (E E' : exn -> World -> Prop) :
  hoare P' m Q' E' ->
  (forall w, P w -> P' w) ->
  (forall a w, Q' a w -> Q a w) ->
  (forall e w, E' e w -> E e w) ->
  hoare P m Q E.
Proof.
  intros H HP HQ HE w Hw. specialize (H w (HP w Hw)).
  destruct (m w) as [w' [a|e]]; auto.
Qed.

Lemma hoare_any {A} P (m : M A) :
  hoare P m (fun _ _ => True) (fun _ _ => True).
Proof. intros w _. now destruct (m w) as [w' [a|e]]. Qed.

Lemma hoare_foldM {A S} (I : S -> World -> Prop) E (f : S -> A -> M S) l :
  (forall s a, In a l -> hoare (I s) (f s a) I E) ->
  forall s, hoare (I s) (foldM f s l) I E.
Proof.
  induction l as [|a l IH]; intros H s; cbn [foldM].
  - now apply hoare_ret.
  - eapply hoare_bind.
    + apply H. now left.
    + intros s'. apply IH. intros s'' a' Hin. apply H. now right.
Qed.

Lemma stable_ret {A} I (a : A) : stable I (ret a).
Proof. now apply hoare_ret. Qed.

Lemma stable_raise {A} I e : stable I (@raise World A e).
Proof. now apply hoare_raise. Qed.

Lemma stable_bind {A B} I (m : M A) (k : A -> M B) :
  stable I m -> (forall a, stable I (k a)) -> stable I (bind m k).
Proof. intros Hm Hk. eapply hoare_bind; [exact Hm|exact Hk]. Qed.

Lemma stable_foldM {A S} I (f : S -> A -> M S) l s :
  (forall s a, stable I (f s a)) -> stable I (foldM f s l).
Proof.
  intros H. apply (hoare_foldM (fun _ => I) (fun _ => I)).
  intros s' a _. apply H.
Qed.

Lemma stable_forM {A} I (f : A -> M unit) l :
  (forall a, stable I (f a)) -> stable I (forM_ l f).
Proof. intros H. unfold forM_. apply stable_foldM. intros _ a. apply H. Qed.

Lemma stable_getM {V} I k (d : Dict.t V) : stable I (getM k d).
Proof. unfold getM. destruct (Dict.get k d); [apply stable_ret|apply stable_raise]. Qed.

Lemma stable_get2M {V} I k1 k2 (d : Dict.t (Dict.t V)) :
  stable I (get2M k1 k2 d).
Proof.
  unfold get2M. apply stable_bind; [apply stable_getM|].
  intros d1. apply stable_getM.
Qed.

Lemma stable_set2M {V} I k1 k2 (v : V) (d : Dict.t (Dict.t V)) :
  stable I (set2M k1 k2 v d).
Proof.
  unfold set2M. apply stable_bind; [apply stable_getM|].
  intros d1. apply stable_ret.
Qed.

Lemma stable_get_Folder I i : stable I (get_Folder i).
Proof. destruct i; [apply stable_ret|apply stable_raise]. Qed.

Lemma stable_find_one I fw q : stable I (find_one fw q).
Proof.
  unfold find_one. destruct (projects_find_one fw q);
    [apply stable_ret|apply stable_raise].
Qed.

Lemma stable_print I msg : ignores_stdout I -> stable I (print msg).
Proof. intros H w Hw. now apply H. Qed.

Lemma stable_print_lines I msgs : ignores_stdout I -> stable I (print_lines msgs).
Proof. intros H w Hw. now apply H. Qed.

Lemma stable_do_printM I args msg : ignores_stdout I -> stable I (do_printM args msg).
Proof. intros H w Hw. now apply H. Qed.

Lemma stable_open_w I path : ignores_file path I -> stable I (open_w path).
Proof. intros H w Hw. now apply H. Qed.

Lemma stable_writerow I path row : ignores_file path I -> stable I (writerow path row).
Proof. intros H w Hw. now apply H. Qed.

Lemma stable_to_csv I path df : ignores_file path I -> stable I (to_csv path df).
Proof. intros H w Hw. now apply H. Qed.

Lemma stable_modify I id name l :
  ignores_calls I -> stable I (modify_acquisition_file_info id name l).
Proof. intros H w Hw. now apply H. Qed.

Create HintDb stable.

#[export] Hint Resolve stable_ret stable_raise stable_getM stable_get2M
  stable_set2M stable_get_Folder stable_find_one stable_print
  stable_print_lines stable_do_printM stable_open_w stable_writerow
  stable_to_csv stable_modify : stable.

(** One step of a proof that a command keeps a property: the rule of the
    construct at the head of the command. *)
Ltac stable_step :=
  match goal with
  | |- stable _ (bind _ _) => apply stable_bind; [|intros ?]
  | |- stable _ (foldM _ _ _) => apply stable_foldM; intros ? ?
  | |- stable _ (forM_ _ _) => apply stable_forM; intros ?
  | |- stable _ (match ?x with (_, _) => _ end) => destruct x
  | |- stable _ (if ?b then _ else _) => destruct b
  | |- stable _ _ => solve [auto with stable]
  end.

Ltac stable_auto := repeat stable_step.

Section Phases.
Context `{RE : RegexEngine}.
Variable I : World -> Prop.
Hypothesis I_stdout : ignores_stdout I.

Lemma stable_compileM pattern : stable I (compileM pattern).
Proof.
  unfold compileM. destruct (re_compile pattern); auto with stable.
Qed.

Lemma stable_compile_pairs pairs : stable I (compile_pairs pairs).
Proof.
  unfold compile_pairs. stable_auto; apply stable_compileM.
Qed.

Lemma stable_keep_matching r l : stable I (keep_matching r l).
Proof. unfold keep_matching. stable_auto. Qed.

Lemma stable_report_duplicates project v :
  stable I (report_duplicates project v).
Proof. unfold report_duplicates. stable_auto. Qed.

Variable path : string.
Hypothesis I_file : ignores_file path I.

Lemma stable_write_initial_values args v :
  stable I (write_initial_values args path v).
Proof. unfold write_initial_values. stable_auto. Qed.

Lemma stable_write_final_values args v fors :
  stable I (write_final_values args path v fors).
Proof. unfold write_final_values. stable_auto. Qed.

Lemma stable_correct_intended_fors l v fors :
  ignores_calls I -> stable I (correct_intended_fors l v fors).
Proof.
  intros I_calls. unfold correct_intended_fors.
  apply stable_bind; [apply stable_compile_pairs|]. intros rps.
  stable_auto; apply stable_keep_matching.
Qed.

(** The block that writes the IntendedFor file: once the file is opened,
    a property that ignores what the block touches is kept to the end. *)
Lemma hoare_write_intendedfors (P : World -> Prop) args v :
  (forall w, P w -> I (fst (open_w path w))) ->
  (intended_for_given args = true -> ignores_calls I) ->
  hoare P (write_intendedfors args path v) (fun _ => I) (fun _ => I).
Proof.
  intros Hopen I_calls. unfold write_intendedfors.
  apply hoare_bind with (R := fun _ => I).
  { intros w Hw. exact (Hopen w Hw). }
  intros _. apply stable_bind.
  { destruct (0 <? verbose args)%nat;
      [apply stable_write_initial_values|apply stable_ret]. }
  intros fors. apply stable_bind; [|intros; apply stable_write_final_values].
  unfold intended_for_given in I_calls.
  destruct (intended_for args) as [[|x l]|]; auto with stable.
  apply stable_correct_intended_fors. now apply I_calls.
Qed.

Lemma hoare_write_acquisitions (P : World -> Prop) v :
  (forall w, P w -> I (fst (open_w path w))) ->
  hoare P (write_acquisitions path v) (fun _ => I) (fun _ => I).
Proof.
  intros Hopen. unfold write_acquisitions.
  apply hoare_bind with (R := fun _ => I).
  { intros w Hw. exact (Hopen w Hw). }
  intros _. apply stable_bind; [auto with stable|intros _]. stable_auto.
Qed.

End Phases.

(** ** The report on duplicates *)

Lemma with_stdout_nil w : with_stdout w [] = w.
Proof. destruct w. unfold with_stdout. cbn. now rewrite app_nil_r. Qed.

Lemma with_stdout_app w a b :
  with_stdout (with_stdout w a) b = with_stdout w (a ++ b).
Proof. unfold with_stdout. cbn. now rewrite app_assoc. Qed.

Lemma forM_out {A} (l : list A) (f : A -> M unit) (g : A -> list string) :
  (forall a w, In a l -> f a w = (with_stdout w (g a), Ok tt)) ->
  forall w, forM_ l f w = (with_stdout w (flat_map g l), Ok tt).
Proof.
  unfold forM_. induction l as [|a l IH]; intros H w; cbn [foldM flat_map].
  - now rewrite with_stdout_nil.
  - rewrite (bind_Ok _ _ _ _ _ (H a w (or_introl eq_refl))).
    rewrite IH by (intros; apply H; now right).
    now rewrite with_stdout_app.
Qed.

Lemma getM_Some {V} k (d : Dict.t V) v w :
  Dict.get k d = Some v -> getM k d w = (w, Ok v).
Proof. intros H. unfold getM. now rewrite H. Qed.

(** The report never raises when the mapping of every subject of the project
    was stored: it only prints. *)
Lemma report_duplicates_spec project v w :
  (forall s, In s (proj_subjects project) ->
             Dict.get (subj_label s) (all_seen_paths v) <> None) ->
  report_duplicates project v w
  = (with_stdout w
       (if (0 <? num_duplicates v)%nat
        then "ERROR: the following BIDS paths appear more than once:"
             :: duplicate_lines project v
        else ["No duplicates were found."]),
     Ok tt).
Proof.
  intros Hall. unfold report_duplicates.
  destruct (0 <? num_duplicates v)%nat; [|reflexivity].
  rewrite (bind_Ok _ _ w
             (with_stdout w
                ["ERROR: the following BIDS paths appear more than once:"]) tt)
    by reflexivity.
  unfold duplicate_lines.
  rewrite (forM_out _ _
             (fun s => match Dict.get (subj_label s) (all_seen_paths v) with
                       | Some seen => duplicate_lines_of seen
                       | None => []
                       end)).
  - now rewrite with_stdout_app.
  - intros s w' Hs. specialize (Hall s Hs).
    destruct (Dict.get (subj_label s) (all_seen_paths v)) as [seen|] eqn:E;
      [|contradiction].
    rewrite (bind_Ok _ _ _ _ _ (getM_Some _ _ _ w' E)).
    unfold duplicate_lines_of. apply forM_out.
    intros path w'' Hpath.
    rewrite (bind_Ok _ _ _ _ _ (getM_Some _ _ _ w'' E)).
    apply DictFacts.In_keys_get in Hpath as [count Hc].
    rewrite (bind_Ok _ _ _ _ _ (getM_Some _ _ _ w'' Hc)). rewrite Hc.
    destruct (0 <? count)%nat; [reflexivity|].
    unfold ret. now rewrite with_stdout_nil.
Qed.

(** ** The run up to the report *)

Lemma hoare_pure_pre {A} (phi : Prop) P (m : M A) Q E :
  (phi -> hoare P m Q E) -> hoare (fun w => phi /\ P w) m Q E.
Proof. intros H w [Hphi Hw]. now apply H. Qed.

Lemma stable_hoare {A} (P I : World -> Prop) (m : M A) :
  stable I m -> (forall w, P w -> I w) ->
  hoare P m (fun _ => I) (fun _ _ => True).
Proof.
  intros H HP. eapply hoare_weaken; [exact H|exact HP|auto|auto].
Qed.

Lemma files_are_refl w0 : files_are w0 [] w0.
Proof. intros k. simpl. tauto. Qed.

Lemma files_are_stdout w0 ks : ignores_stdout (files_are w0 ks).
Proof. intros w out H. exact H. Qed.

Lemma files_are_calls w0 ks : ignores_calls (files_are w0 ks).
Proof. intros w c H. exact H. Qed.

Lemma files_are_file w0 ks path :
  In path ks -> ignores_file path (files_are w0 ks).
Proof.
  intros Hin w rs H k. cbn [files]. rewrite DictFacts.In_keys_set.
  rewrite (H k). split; [|tauto]. intros [->|Hk]; tauto.
Qed.

Lemma files_are_add w0 ks path w rs :
  files_are w0 ks w ->
  files_are w0 (ks ++ [path])
    {| stdout := stdout w; files := Dict.set path rs (files w);
       modify_calls := modify_calls w |}.
Proof.
  intros H k. cbn [files]. rewrite DictFacts.In_keys_set, (H k), in_app_iff.
  simpl. intuition.
Qed.

#[export] Hint Resolve files_are_stdout files_are_calls : stable.

Section Run.
Context `{RE : RegexEngine}.

(** What [save_curation_csvs] has done when it comes to its report. *)
Lemma scan_and_write_spec args fw g p w0 :
  hoare (fun w => w = w0) (scan_and_write args fw g p)
    (fun pv w' =>
       projects_find_one fw (project_query g p) = Some (fst pv)
       /\ snd pv = scan args (fst pv)
       /\ files_are w0 [niftis_name g p; intendedfors_name g p;
                        acquisitions_name g p] w')
    (fun _ _ => True).
Proof.
  unfold scan_and_write.
  apply hoare_bind
    with (R := fun project w =>
                 projects_find_one fw (project_query g p) = Some project
                 /\ w = w0).
  { unfold find_one. fold (project_query g p).
    destruct (projects_find_one fw (project_query g p)) eqn:E.
    - apply hoare_ret. now intros w ->.
    - now apply hoare_raise. }
  intros project. apply hoare_pure_pre. intros Hfind. cbv zeta.
  unfold niftis_name, intendedfors_name, acquisitions_name.
  destruct (make_file_name_safe g "_") as [sg outg].
  destruct (make_file_name_safe p "_") as [sp outp]. cbn [fst].
  set (n1 := (sg ++ "_" ++ sp ++ "_niftis.csv")%string).
  set (n2 := (sg ++ "_" ++ sp ++ "_intendedfors.csv")%string).
  set (n3 := (sg ++ "_" ++ sp ++ "_acquisitions.csv")%string).
  apply hoare_bind with (R := fun _ => files_are w0 []).
  { apply stable_hoare; [auto with stable|]. intros w ->. apply files_are_refl. }
  intros _. apply hoare_bind with (R := fun _ => files_are w0 []).
  { apply stable_hoare; [auto with stable|auto]. }
  intros _. apply hoare_bind with (R := fun _ => files_are w0 []).
  { apply stable_hoare; [auto with stable|auto]. }
  intros _. apply hoare_bind with (R := fun _ => files_are w0 [n1]).
  { intros w Hw. apply (files_are_add w0 [] n1 w _ Hw). }
  intros _. apply hoare_bind with (R := fun _ => files_are w0 [n1]).
  { apply stable_hoare; [auto with stable|auto]. }
  intros _. apply hoare_bind with (R := fun _ => files_are w0 [n1; n2]).
  { eapply hoare_weaken.
    - apply (hoare_write_intendedfors (files_are w0 [n1; n2])
               (files_are_stdout _ _) n2
               (files_are_file w0 [n1; n2] n2 (or_intror (or_introl eq_refl)))
               (files_are w0 [n1])).
      + intros w Hw. apply (files_are_add w0 [n1] n2 w _ Hw).
      + intros _. apply files_are_calls.
    - auto.
    - auto.
    - auto. }
  intros _. apply hoare_bind with (R := fun _ => files_are w0 [n1; n2; n3]).
  { eapply hoare_weaken.
    - apply (hoare_write_acquisitions (files_are w0 [n1; n2; n3])
               n3 (files_are_file w0 [n1; n2; n3] n3
                     (or_intror (or_intror (or_introl eq_refl))))
               (files_are w0 [n1; n2])).
      intros w Hw. apply (files_are_add w0 [n1; n2] n3 w _ Hw).
    - auto.
    - auto.
    - auto. }
  intros _. apply hoare_ret. intros w Hw. cbn [fst snd].
  split; [exact Hfind|]. split; [reflexivity|exact Hw].
Qed.

Lemma scan_and_write_Ok args fw g p w0 w1 project v :
  scan_and_write args fw g p w0 = (w1, Ok (project, v)) ->
  projects_find_one fw (project_query g p) = Some project
  /\ v = scan args project
  /\ files_are w0 [niftis_name g p; intendedfors_name g p;
                   acquisitions_name g p] w1.
Proof.
  intros H. pose proof (scan_and_write_spec args fw g p w0 w0 eq_refl) as S.
  rewrite H in S. exact S.
Qed.

(** With the mappings the scan stored, the report cannot raise. *)
Lemma report_after_scan args project w :
  report_duplicates project (scan args project) w
  = (with_stdout w
       (if (0 <? num_duplicates (scan args project))%nat
        then "ERROR: the following BIDS paths appear more than once:"
             :: duplicate_lines project (scan args project)
        else ["No duplicates were found."]),
     Ok tt).
Proof.
  apply report_duplicates_spec. intros s Hs.
  destruct (all_seen_paths_scan args project s Hs) as (s' & _ & _ & ->).
  discriminate.
Qed.

End Run.

(** ** The fieldmap dictionaries *)

Lemma mem_keys_eq {V W} (d1 : Dict.t V) (d2 : Dict.t W) k :
  Dict.keys d1 = Dict.keys d2 -> Dict.mem k d1 = Dict.mem k d2.
Proof.
  intros H. destruct (Dict.mem k d2) eqn:E2.
  - apply DictFacts.mem_keys. rewrite H. now apply DictFacts.mem_keys.
  - apply not_true_iff_false. intros E1. apply DictFacts.mem_keys in E1.
    rewrite H in E1. apply DictFacts.mem_keys in E1. congruence.
Qed.

Lemma keys_set_eq {V W} (d1 : Dict.t V) (d2 : Dict.t W) k v1 v2 :
  Dict.keys d1 = Dict.keys d2 ->
  Dict.keys (Dict.set k v1 d1) = Dict.keys (Dict.set k v2 d2).
Proof.
  intros H. rewrite !DictFacts.keys_set, (mem_keys_eq d1 d2 k H), H.
  reflexivity.
Qed.

Lemma aligned_record_intended_for acq f sv :
  aligned sv -> aligned (record_intended_for acq f sv).
Proof.
  intros (H1 & H2 & H3). unfold record_intended_for.
  destruct (info_BIDS (file_info f)); [|now repeat split].
  destruct (info_IntendedFor (file_info f)) as [[|x l]|]; [now repeat split| |now repeat split].
  unfold aligned. cbn [intended_fors intended_for_dirs intended_for_acq_id
                       intended_for_acq_label].
  repeat split; now apply keys_set_eq.
Qed.

Section Scan.
Variable args : Args.

Lemma aligned_scan_file s ses acq st f :
  aligned (snd st) -> aligned (snd (scan_file args s ses acq st f)).
Proof.
  destruct st as [v sv]. cbn [snd]. intros H.
  apply (aligned_record_intended_for acq f) in H.
  unfold scan_file.
  destruct (detect_duplicate _ _ _) as [[seen nd] u]. exact H.
Qed.

Lemma aligned_scan_sessions s st :
  aligned (snd st) ->
  aligned (snd (fold_left (scan_session args s) (subj_sessions s) st)).
Proof.
  apply (fold_left_inv (fun st => aligned (snd st))). intros st1 ses.
  apply (fold_left_inv (fun st => aligned (snd st))). intros st2 acq H.
  destruct st2 as [v sv]. unfold scan_acquisition.
  apply (fold_left_inv (fun st => aligned (snd st))); [|exact H].
  intros st3 f. apply aligned_scan_file.
Qed.

Lemma all_aligned_scan_subject v s :
  all_aligned v -> all_aligned (scan_subject args v s).
Proof.
  intros Hv. unfold scan_subject.
  set (v1 := {| acquisition_labels := acquisition_labels v;
                printed := do_print args (subj_label s) (printed v) |}).
  pose proof (aligned_scan_sessions s (v1, initial_subject_vars)) as Ha.
  pose proof (outer_scan_sessions args s (v1, initial_subject_vars)) as Ho.
  destruct (fold_left (scan_session args s) (subj_sessions s)
              (v1, initial_subject_vars)) as [v2 sv].
  cbn [fst snd] in Ha, Ho. unfold outer in Ho.
  injection Ho as Hl Hi Hd Hf _ _.
  specialize (Ha (conj eq_refl (conj eq_refl eq_refl))).
  destruct Ha as (A1 & A2 & A3).
  intros subj. specialize (Hv subj).
  cbn [all_intended_for_dirs all_intended_fors all_intended_for_acq_id
       all_intended_for_acq_label].
  rewrite Hl, Hi, Hd, Hf.
  change (all_intended_for_acq_label v1) with (all_intended_for_acq_label v).
  change (all_intended_for_acq_id v1) with (all_intended_for_acq_id v).
  change (all_intended_for_dirs v1) with (all_intended_for_dirs v).
  change (all_intended_fors v1) with (all_intended_fors v).
  destruct (string_dec (subj_label s) subj) as [<-|Hne].
  - rewrite !DictFacts.get_set_same. now repeat split.
  - rewrite !(DictFacts.get_set_other _ _ _ _ Hne). exact Hv.
Qed.

Lemma all_aligned_scan p : all_aligned (scan args p).
Proof.
  unfold scan. apply (fold_left_inv all_aligned).
  - intros v s. apply all_aligned_scan_subject.
  - intros subj. exact I.
Qed.

End Scan.

(** From the alignment: a file name recorded under a subject label has its
    IntendedFor list and its acquisition identifier recorded too. *)
Lemma all_aligned_lookup v subj dirs file_name :
  all_aligned v ->
  Dict.get subj (all_intended_for_dirs v) = Some dirs ->
  In file_name (Dict.keys dirs) ->
  (exists old, get2 subj file_name (all_intended_fors v) = Some old)
  /\ (exists id, get2 subj file_name (all_intended_for_acq_id v) = Some id)
  /\ (exists label,
        get2 subj file_name (all_intended_for_acq_label v) = Some label).
Proof.
  intros Hv Hd Hin. specialize (Hv subj). rewrite Hd in Hv. unfold get2.
  destruct (Dict.get subj (all_intended_fors v)) as [fors|]; [|easy].
  destruct (Dict.get subj (all_intended_for_acq_id v)) as [ids|]; [|easy].
  destruct (Dict.get subj (all_intended_for_acq_label v)) as [labels|]; [|easy].
  destruct Hv as (H1 & H2 & H3).
  repeat split; apply DictFacts.In_keys_get; congruence.
Qed.

(** ** The correction block *)

Lemma hoare_foldM_prefix {A S} (I : list A -> S -> World -> Prop) E
  (f : S -> A -> M S) (l : list A) :
  (forall pre a post s, l = pre ++ a :: post ->
     hoare (I pre s) (f s a) (I (pre ++ [a])) E) ->
  forall s, hoare (I [] s) (foldM f s l) (I l) E.
Proof.
  intros H.
  assert (G : forall l' pre s, l = pre ++ l' ->
                hoare (I pre s) (foldM f s l') (I l) E).
  { induction l' as [|a l' IH]; intros pre s Hl; cbn [foldM].
    - rewrite app_nil_r in Hl. subst pre. now apply hoare_ret.
    - eapply hoare_bind.
      + apply (H pre a l' s Hl).
      + intros s'. apply IH. rewrite Hl, <- app_assoc. reflexivity. }
  intros s. now apply (G l []).
Qed.

Lemma hoare_conseq {A} (P P' : World -> Prop) (m : M A)
  (Q Q' : A -> World -> Prop) (E : exn -> World -> Prop) :
  hoare P' m Q' E ->
  (forall w, P w -> P' w) ->
  (forall a w, Q' a w -> Q a w) ->
  hoare P m Q E.
Proof. intros H HP HQ. eapply hoare_weaken; eauto. Qed.

Lemma get2M_Some {V} k1 k2 (d : Dict.t (Dict.t V)) v w :
  get2 k1 k2 d = Some v -> get2M k1 k2 d w = (w, Ok v).
Proof.
  unfold get2, get2M. intros H.
  destruct (Dict.get k1 d) as [d1|] eqn:E; [|discriminate].
  rewrite (bind_Ok _ _ _ _ _ (getM_Some _ _ _ w E)).
  now apply getM_Some.
Qed.

Lemma set2M_Some {V} k1 k2 (x : V) (d : Dict.t (Dict.t V)) d1 w :
  Dict.get k1 d = Some d1 ->
  set2M k1 k2 x d w = (w, Ok (Dict.set k1 (Dict.set k2 x d1) d)).
Proof.
  intros H. unfold set2M.
  now rewrite (bind_Ok _ _ _ _ _ (getM_Some _ _ _ w H)).
Qed.

Lemma get2_set2 {V} k1 k2 (x : V) (d : Dict.t (Dict.t V)) d1 :
  get2 k1 k2 (Dict.set k1 (Dict.set k2 x d1) d) = Some x.
Proof. unfold get2. now rewrite !DictFacts.get_set_same. Qed.

Lemma get2_set2_other {V} k1 k2 k1' k2' (x : V) (d : Dict.t (Dict.t V)) d1 :
  Dict.get k1 d = Some d1 -> (k1, k2) <> (k1', k2') ->
  get2 k1' k2' (Dict.set k1 (Dict.set k2 x d1) d) = get2 k1' k2' d.
Proof.
  intros Hd Hne. unfold get2. destruct (string_dec k1 k1') as [<-|H1].
  - rewrite DictFacts.get_set_same, Hd.
    apply DictFacts.get_set_other. congruence.
  - now rewrite (DictFacts.get_set_other _ _ _ _ H1).
Qed.

Section Calls.
Context `{RE : RegexEngine}.

Lemma compile_pairs_Some pairs : forall rps acc w,
  compile_all pairs = Some rps ->
  foldM (fun regex_pairs s_p =>
           r0 <- compileM (fst s_p) ;;
           r1 <- compileM (snd s_p) ;;
           ret (regex_pairs ++ [(r0, r1)]))
        acc pairs w
  = (w, Ok (acc ++ rps)).
Proof.
  induction pairs as [|s_p pairs IH]; intros rps acc w H; cbn [foldM].
  - injection H as <-. now rewrite app_nil_r.
  - cbn [compile_all] in H. unfold bind at 1. unfold bind at 1. unfold compileM.
    destruct (re_compile (fst s_p)) as [r0|]; [|discriminate].
    cbn. unfold bind at 1.
    destruct (re_compile (snd s_p)) as [r1|]; [|discriminate].
    destruct (compile_all pairs) as [rs|]; [|discriminate].
    injection H as <-. cbn. rewrite (IH rs) by reflexivity.
    now rewrite <- app_assoc.
Qed.

Lemma compile_pairs_None pairs : forall acc w,
  compile_all pairs = None ->
  exists e,
    foldM (fun regex_pairs s_p =>
             r0 <- compileM (fst s_p) ;;
             r1 <- compileM (snd s_p) ;;
             ret (regex_pairs ++ [(r0, r1)]))
          acc pairs w
    = (w, Raise e).
Proof.
  induction pairs as [|s_p pairs IH]; intros acc w H; cbn [foldM].
  - discriminate.
  - cbn [compile_all] in H. unfold bind at 1. unfold bind at 1. unfold compileM.
    destruct (re_compile (fst s_p)) as [r0|]; [|now eexists].
    cbn. unfold bind at 1.
    destruct (re_compile (snd s_p)) as [r1|]; [|now eexists].
    cbn. apply IH. now destruct (compile_all pairs).
Qed.

Lemma keep_matching_spec r l w :
  keep_matching r l w
  = (with_stdout w (map (fun i_f => ("found " ++ i_f)%string)
                        (filter (re_search r) l)),
     Ok (filter (re_search r) l)).
Proof.
  unfold keep_matching.
  assert (G : forall l acc w,
            foldM (fun kept i_f =>
                     if re_search r i_f
                     then print ("found " ++ i_f)%string ;;; ret (kept ++ [i_f])
                     else ret kept) acc l w
            = (with_stdout w (map (fun i_f => ("found " ++ i_f)%string)
                                  (filter (re_search r) l)),
               Ok (acc ++ filter (re_search r) l))).
  { clear. induction l as [|x l IH]; intros acc w; cbn [foldM filter map].
    - now rewrite with_stdout_nil, app_nil_r.
    - destruct (re_search r x); unfold bind at 1; cbn.
      + rewrite IH. cbn [map]. rewrite <- app_assoc.
        change (with_stdout (with_stdout w [("found " ++ x)%string]) ?m)
          with (with_stdout (with_stdout w [("found " ++ x)%string]) m).
        f_equal. unfold with_stdout. cbn. now rewrite <- app_assoc.
      + apply IH. }
  apply G.
Qed.

(** The correction block never raises on the dictionaries of the scan, and
    it sends exactly the expected calls. *)
Lemma hoare_correct_intended_fors l rps v fors c0 :
  compile_all (string_pairs l) = Some rps ->
  all_aligned v ->
  same_entries (all_intended_fors v) fors ->
  hoare (fun w => modify_calls w = c0)
        (correct_intended_fors l v fors)
        (fun _ w => modify_calls w = c0 ++ expected_calls rps v fors)
        (fun _ _ => False).
Proof.
  intros Hc Hal Hsame. unfold correct_intended_fors.
  apply hoare_bind with (R := fun r w => r = rps /\ modify_calls w = c0).
  { intros w Hw. unfold compile_pairs.
    rewrite (compile_pairs_Some _ rps [] w Hc). now split. }
  intros regex_pairs. apply hoare_pure_pre. intros ->.
  eapply hoare_conseq with (P' := fun w => modify_calls w = c0 ++ flat_map (calls_of_subject rps v fors) []).
  - apply (hoare_foldM_prefix
             (fun pre (_ : Dict.t (Dict.t (list string))) w =>
                modify_calls w
                = c0 ++ flat_map (calls_of_subject rps v fors) pre)).
    intros pre subj post new Hkeys. cbv zeta.
    assert (Hin : In subj (Dict.keys (all_intended_for_dirs v))).
    { rewrite Hkeys. apply in_or_app. right. now left. }
    apply DictFacts.In_keys_get in Hin as [dirs Hdirs].
    set (done := flat_map (calls_of_subject rps v fors) pre).
    apply hoare_bind with (R := fun d w => d = dirs /\ modify_calls w = c0 ++ done).
    { intros w Hw. rewrite (getM_Some _ _ _ w Hdirs). now split. }
    intros d. apply hoare_pure_pre. intros ->.
    eapply hoare_conseq
      with (P' := fun w => modify_calls w
                           = c0 ++ done
                                ++ flat_map (calls_of_file rps v fors subj) []
                           /\ Dict.mem subj (Dict.set subj Dict.empty new) = true).
    + apply (hoare_foldM_prefix
               (fun pre' (new : Dict.t (Dict.t (list string))) w =>
                  modify_calls w
                  = c0 ++ done ++ flat_map (calls_of_file rps v fors subj) pre'
                  /\ Dict.mem subj new = true)).
      intros pre' file_name post' new1 Hk1.
      assert (Hfn : In file_name (Dict.keys dirs)).
      { rewrite Hk1. apply in_or_app. right. now left. }
      destruct (all_aligned_lookup v subj dirs file_name Hal Hdirs Hfn)
        as ([old0 Hold0] & [id Hid] & _).
      assert (Hold : exists old, get2 subj file_name fors = Some old).
      { specialize (Hsame subj file_name). rewrite Hold0 in Hsame.
        destruct (get2 subj file_name fors) as [old|]; [now exists old|easy]. }
      destruct Hold as [old Hold].
      set (done1 := flat_map (calls_of_file rps v fors subj) pre').
      apply hoare_bind
        with (R := fun _ w => modify_calls w = c0 ++ done ++ done1
                              /\ Dict.mem subj new1 = true).
      { intros w Hw. exact Hw. }
      intros _.
      eapply hoare_conseq
        with (P' := fun w => modify_calls w
                             = c0 ++ done ++ done1
                                  ++ calls_of_file [] v fors subj file_name
                             /\ Dict.mem subj new1 = true).
      * apply (hoare_foldM_prefix
                 (fun pre2 (new : Dict.t (Dict.t (list string))) w =>
                    modify_calls w
                    = c0 ++ done ++ done1
                         ++ calls_of_file pre2 v fors subj file_name
                    /\ Dict.mem subj new = true)).
        intros pre2 rx post2 new2 _. cbv beta.
        unfold calls_of_file at 2. rewrite flat_map_app. cbn [flat_map].
        fold (calls_of_file pre2 v fors subj file_name).
        destruct (re_search (fst rx) file_name) eqn:Es.
        -- rewrite Hold, Hid. intros w [Hw Hm].
           unfold Dict.mem in Hm.
           destruct (Dict.get subj new2) as [d1|] eqn:Ed1; [|discriminate].
           rewrite (bind_Ok _ _ _ _ _ (set2M_Some subj file_name [] new2 d1 w Ed1)).
           rewrite (bind_Ok _ _ _ _ _ (get2M_Some _ _ _ _ w Hold)).
           rewrite (bind_Ok _ _ _ _ _ (keep_matching_spec _ _ w)).
           erewrite bind_Ok
             by (apply set2M_Some; apply DictFacts.get_set_same).
           rewrite (bind_Ok _ _ _ _ _ (get2M_Some _ _ _ _ _ Hid)).
           rewrite (bind_Ok _ _ _ _ _ (get2M_Some _ _ _ _ _ (get2_set2 _ _ _ _ _))).
           unfold bind, modify_acquisition_file_info, ret.
           cbn [modify_calls with_stdout]. rewrite Hw. split.
           ++ rewrite app_nil_r, <- !app_assoc. reflexivity.
           ++ unfold Dict.mem. now rewrite DictFacts.get_set_same.
        -- apply hoare_ret. intros w [Hw Hm]. split; [|exact Hm].
           now rewrite !app_nil_r.
      * intros w Hw. cbn. now rewrite app_nil_r.
      * intros new3 w [Hw Hm]. split; [|exact Hm].
        rewrite Hw. unfold done1. rewrite flat_map_app. cbn [flat_map].
        now rewrite app_nil_r.
    + intros w Hw. split.
      * cbn. now rewrite app_nil_r.
      * unfold Dict.mem. now rewrite DictFacts.get_set_same.
    + intros new' w [Hw _]. rewrite Hw. unfold done.
      rewrite flat_map_app. cbn [flat_map]. rewrite app_nil_r.
      unfold calls_of_subject at 3. rewrite Hdirs. reflexivity.
  - intros w Hw. cbn. now rewrite app_nil_r.
  - intros a w Hw. exact Hw.
Qed.

End Calls.

(** ** The block of initial values *)

Lemma same_entries_refl d : same_entries d d.
Proof. intros k1 k2. now destruct (get2 k1 k2 d). Qed.

Lemma list_sort_perm l : Permutation (list_sort l) l.
Proof. apply sort_by_perm. Qed.

Lemma same_entries_sort d0 d k1 k2 l d1 :
  same_entries d0 d ->
  get2 k1 k2 d = Some l ->
  Dict.get k1 d = Some d1 ->
  same_entries d0 (Dict.set k1 (Dict.set k2 (list_sort l) d1) d).
Proof.
  intros H Hl Hd k1' k2'. specialize (H k1' k2').
  destruct (string_dec k1 k1') as [<-|H1].
  - destruct (string_dec k2 k2') as [<-|H2].
    + rewrite get2_set2. rewrite Hl in H.
      destruct (get2 k1 k2 d0); [|exact H].
      rewrite H. symmetry. apply list_sort_perm.
    + rewrite (get2_set2_other _ _ _ _ _ _ _ Hd); [exact H|congruence].
  - rewrite (get2_set2_other _ _ _ _ _ _ _ Hd); [exact H|congruence].
Qed.

Lemma hoare_get2M_val {V} P k1 k2 (d : Dict.t (Dict.t V)) :
  hoare P (get2M k1 k2 d)
        (fun x w => P w /\ get2 k1 k2 d = Some x) (fun _ => P).
Proof.
  intros w Hw. unfold get2M, get2, bind, getM.
  destruct (Dict.get k1 d) as [d1|]; cbn; [|exact Hw].
  destruct (Dict.get k2 d1); cbn; auto.
Qed.

Lemma hoare_set2M_val {V} P k1 k2 (x : V) (d : Dict.t (Dict.t V)) :
  hoare P (set2M k1 k2 x d)
        (fun d' w => P w /\ exists d1, Dict.get k1 d = Some d1
                                       /\ d' = Dict.set k1 (Dict.set k2 x d1) d)
        (fun _ => P).
Proof.
  intros w Hw. unfold set2M, bind, getM.
  destruct (Dict.get k1 d) as [d1|]; cbn; [|exact Hw].
  split; [exact Hw|]. now exists d1.
Qed.

Lemma hoare_stable_E {A} (I E0 : World -> Prop) (m : M A) :
  stable I m -> (forall w, I w -> E0 w) ->
  hoare I m (fun _ => I) (fun _ => E0).
Proof. intros H HE. eapply hoare_weaken; [exact H|auto|auto|auto]. Qed.

Lemma hoare_pure_pre' {A} (phi : Prop) P (m : M A) Q E :
  (phi -> hoare P m Q E) -> hoare (fun w => P w /\ phi) m Q E.
Proof. intros H w [Hw Hphi]. now apply H. Qed.

Lemma same_calls_stdout c0 : ignores_stdout (same_calls c0).
Proof. intros w out H. exact H. Qed.

Lemma same_calls_file c0 path : ignores_file path (same_calls c0).
Proof. intros w rs H. exact H. Qed.

#[export] Hint Resolve same_calls_stdout same_calls_file : stable.

Lemma and_pure_stdout (I : World -> Prop) (phi : Prop) :
  ignores_stdout I -> ignores_stdout (fun w => I w /\ phi).
Proof. intros H w out [Hw Hp]. split; [now apply H|exact Hp]. Qed.

Lemma and_pure_file path (I : World -> Prop) (phi : Prop) :
  ignores_file path I -> ignores_file path (fun w => I w /\ phi).
Proof. intros H w rs [Hw Hp]. split; [now apply H|exact Hp]. Qed.

(** The block that writes the initial values sends nothing to the platform
    and returns the recorded lists with the same entries. *)
Lemma hoare_write_initial_values args path v c0 :
  hoare (same_calls c0) (write_initial_values args path v)
        (fun fors w => same_calls c0 w
                       /\ same_entries (all_intended_fors v) fors)
        (fun _ => same_calls c0).
Proof.
  unfold write_initial_values.
  apply hoare_bind with (R := fun _ => same_calls c0).
  { apply hoare_stable_E; auto with stable. }
  intros _. apply hoare_bind with (R := fun _ => same_calls c0).
  { apply hoare_stable_E; auto with stable. }
  intros _.
  set (J := fun (fors : Dict.t (Dict.t (list string))) w =>
              same_calls c0 w /\ same_entries (all_intended_fors v) fors).
  assert (JS : forall fors, ignores_stdout (J fors)).
  { intros fors. apply and_pure_stdout, same_calls_stdout. }
  assert (JF : forall fors, ignores_file path (J fors)).
  { intros fors. apply and_pure_file, same_calls_file. }
  assert (JE : forall fors w, J fors w -> same_calls c0 w).
  { now intros fors w [H _]. }
  eapply hoare_conseq with (P' := J (all_intended_fors v)).
  - apply (hoare_foldM J). intros fors subj _.
    apply hoare_bind with (R := fun _ => J fors).
    { apply hoare_stable_E; [auto with stable|apply JE]. }
    intros dirs. apply (hoare_foldM J). intros fors1 [k v_dirs] _.
    apply hoare_bind with (R := fun _ => J fors1).
    { apply hoare_stable_E; [auto with stable|apply JE]. }
    intros label. apply hoare_bind with (R := fun _ => J fors1).
    { apply hoare_stable_E; [auto with stable|apply JE]. }
    intros _. apply hoare_bind with (R := fun _ => J fors1).
    { apply hoare_stable_E; [auto with stable|apply JE]. }
    intros label'. apply hoare_bind with (R := fun _ => J fors1).
    { apply hoare_stable_E; [auto with stable|apply JE]. }
    intros _. apply (hoare_foldM J). intros fors2 i _.
    apply hoare_bind with (R := fun _ => J fors2).
    { apply hoare_stable_E; [auto with stable|apply JE]. }
    intros folder. apply hoare_bind with (R := fun _ => J fors2).
    { apply hoare_stable_E; [auto with stable|apply JE]. }
    intros _. apply hoare_bind with (R := fun _ => J fors2).
    { apply hoare_stable_E; [auto with stable|apply JE]. }
    intros folder'. apply hoare_bind with (R := fun _ => J fors2).
    { apply hoare_stable_E; [auto with stable|apply JE]. }
    intros _.
    apply hoare_bind
      with (R := fun l w => J fors2 w /\ get2 subj k fors2 = Some l).
    { apply hoare_weaken
        with (P' := J fors2)
             (Q' := fun x w => J fors2 w /\ get2 subj k fors2 = Some x)
             (E' := fun _ => J fors2);
        [apply hoare_get2M_val|auto|auto|intros e; apply JE]. }
    intros l. apply hoare_pure_pre'. intros Hl.
    apply hoare_bind with (R := fun fors3 w => J fors3 w).
    { apply hoare_weaken
        with (P' := J fors2)
             (Q' := fun d' w =>
                      J fors2 w
                      /\ exists d1, Dict.get subj fors2 = Some d1
                                    /\ d' = Dict.set subj
                                              (Dict.set k (list_sort l) d1)
                                              fors2)
             (E' := fun _ => J fors2);
        [apply hoare_set2M_val|auto| |intros e; apply JE].
      intros fors3 w [[Hc Hs] (d1 & Hd1 & ->)]. split; [exact Hc|].
      now apply same_entries_sort. }
    intros fors3. apply hoare_bind with (R := fun _ => J fors3).
    { apply hoare_stable_E; [auto with stable|apply JE]. }
    intros l'. apply hoare_bind with (R := fun _ => J fors3).
    { apply hoare_stable_E; [|apply JE]. stable_auto. }
    intros _. now apply hoare_ret.
  - intros w Hw. split; [exact Hw|apply same_entries_refl].
  - auto.
Qed.

(** ** The calls of a whole run *)

Lemma calls_only_stdout phi : ignores_stdout (calls_only phi).
Proof. intros w out H. exact H. Qed.

Lemma calls_only_file phi path : ignores_file path (calls_only phi).
Proof. intros w rs H. exact H. Qed.

#[export] Hint Resolve calls_only_stdout calls_only_file : stable.

Lemma hoare_print_lines P msgs E :
  ignores_stdout P -> hoare P (print_lines msgs) (fun _ => P) E.
Proof. intros H w Hw. now apply H. Qed.

Lemma hoare_do_printM P args msg E :
  ignores_stdout P -> hoare P (do_printM args msg) (fun _ => P) E.
Proof. intros H w Hw. now apply H. Qed.

Lemma hoare_to_csv P path df E :
  ignores_file path P -> hoare P (to_csv path df) (fun _ => P) E.
Proof. intros H w Hw. now apply H. Qed.

Lemma hoare_open_w P path E :
  ignores_file path P -> hoare P (open_w path) (fun _ => P) E.
Proof. intros H w Hw. now apply H. Qed.

Section Run.
Context `{RE : RegexEngine}.

(** Without [--intended-for], nothing is sent to the platform, however the
    run ends. *)
Lemma save_without_intended_for args fw g p c0 :
  intended_for_given args = false ->
  stable (calls_only (eq c0)) (save_curation_csvs args fw g p).
Proof.
  intros Hno. unfold save_curation_csvs, scan_and_write.
  apply stable_bind; [|intros pv; apply stable_report_duplicates;
                       apply calls_only_stdout].
  apply stable_bind; [auto with stable|]. intros project. cbv zeta.
  apply stable_bind; [auto with stable|]. intros _.
  destruct (make_file_name_safe g "_") as [sg outg].
  apply stable_bind; [auto with stable|]. intros _.
  destruct (make_file_name_safe p "_") as [sp outp].
  apply stable_bind; [auto with stable|]. intros _.
  apply stable_bind; [auto with stable|]. intros _.
  apply stable_bind; [auto with stable|]. intros _.
  apply stable_bind.
  { apply hoare_write_intendedfors.
    - apply calls_only_stdout.
    - apply calls_only_file.
    - intros w Hw. exact Hw.
    - rewrite Hno. discriminate. }
  intros _. apply stable_bind; [|auto with stable].
  apply hoare_write_acquisitions.
  - apply calls_only_file.
  - intros w Hw. exact Hw.
Qed.

(** With [--intended-for], the calls sent are those of the correction block;
    only an exception in the block that prints the initial values (reached
    with [-v]) ends the run before them. *)
Lemma save_with_intended_for args fw g p project x l rps c0 :
  projects_find_one fw (project_query g p) = Some project ->
  intended_for args = Some (x :: l) ->
  compile_all (string_pairs (x :: l)) = Some rps ->
  let v := scan args project in
  let sent := fun calls =>
    exists fors,
      same_entries (all_intended_fors v) fors
      /\ (verbose args = 0 -> fors = all_intended_fors v)
      /\ calls = c0 ++ expected_calls rps v fors in
  hoare (calls_only (eq c0)) (save_curation_csvs args fw g p)
        (fun _ => calls_only sent)
        (fun _ w => calls_only sent w
                    \/ (0 < verbose args /\ modify_calls w = c0)).
Proof.
  intros Hfind Hl Hc v sent.
  unfold save_curation_csvs.
  apply hoare_bind with (R := fun _ => calls_only sent);
    [|intros pv; apply hoare_stable_E;
      [apply stable_report_duplicates, calls_only_stdout|now left]].
  unfold scan_and_write.
  apply hoare_bind
    with (R := fun pr w => pr = project /\ calls_only (eq c0) w).
  { intros w Hw. unfold find_one. fold (project_query g p). rewrite Hfind.
    now split. }
  intros pr. apply hoare_pure_pre. intros ->. cbv zeta. fold v.
  apply hoare_bind with (R := fun _ => calls_only (eq c0)).
  { apply hoare_print_lines, calls_only_stdout. }
  intros _. destruct (make_file_name_safe g "_") as [sg outg].
  apply hoare_bind with (R := fun _ => calls_only (eq c0)).
  { apply hoare_print_lines, calls_only_stdout. }
  intros _. destruct (make_file_name_safe p "_") as [sp outp].
  apply hoare_bind with (R := fun _ => calls_only (eq c0)).
  { apply hoare_print_lines, calls_only_stdout. }
  intros _. apply hoare_bind with (R := fun _ => calls_only (eq c0)).
  { apply hoare_to_csv, calls_only_file. }
  intros _. apply hoare_bind with (R := fun _ => calls_only (eq c0)).
  { apply hoare_do_printM, calls_only_stdout. }
  intros _. apply hoare_bind with (R := fun _ => calls_only sent).
  - unfold write_intendedfors.
    apply hoare_bind with (R := fun _ => calls_only (eq c0)).
    { apply hoare_open_w, calls_only_file. }
    intros _.
    apply hoare_bind
      with (R := fun fors w =>
                   calls_only (eq c0) w
                   /\ (same_entries (all_intended_fors v) fors
                       /\ (verbose args = 0 -> fors = all_intended_fors v))).
    { destruct (0 <? verbose args)%nat eqn:Ev.
      - apply Nat.ltb_lt in Ev.
        eapply hoare_weaken.
        + apply (hoare_write_initial_values args _ v c0).
        + intros w Hw. unfold same_calls. now symmetry.
        + intros fors w [Hw Hs]. split; [now symmetry|]. split; [exact Hs|lia].
        + intros e w Hw. right. split; [exact Ev|exact Hw].
      - apply hoare_ret. intros w Hw. split; [exact Hw|].
        split; [apply same_entries_refl|reflexivity]. }
    intros fors. apply hoare_pure_pre'. intros [Hsame Hv0].
    apply hoare_bind with (R := fun _ => calls_only sent).
    { rewrite Hl. eapply hoare_weaken.
      - apply (hoare_correct_intended_fors (x :: l) rps v fors c0 Hc
                 (all_aligned_scan args project) Hsame).
      - intros w Hw. now symmetry.
      - intros new w Hw. exists fors. now repeat split.
      - intros e w []. }
    intros new. apply hoare_stable_E; [|now left].
    apply stable_write_final_values; auto with stable.
  - intros _. apply hoare_bind with (R := fun _ => calls_only sent).
    + apply hoare_stable_E; [|now left].
      apply hoare_write_acquisitions.
      * apply calls_only_file.
      * intros w Hw. exact Hw.
    + intros _. now apply hoare_ret.
Qed.

End Run.

(** ** The files the scan records *)

Section Scan.
Variable args : Args.

Lemma fieldmaps_record acq f sv ses :
  fieldmaps (record_intended_for acq f sv)
  = fieldmap_step (fieldmaps sv) (ses, acq, f).
Proof.
  unfold record_intended_for, fieldmap_step, is_fieldmap, fieldmap_list,
    fieldmaps. cbn [fst snd].
  destruct (info_BIDS (file_info f)); [|reflexivity].
  destruct (info_IntendedFor (file_info f)) as [[|x l]|]; reflexivity.
Qed.

Lemma fieldmaps_scan_file s ses acq st f :
  fieldmaps (snd (scan_file args s ses acq st f))
  = fieldmap_step (fieldmaps (snd st)) (ses, acq, f).
Proof.
  destruct st as [v sv]. cbn [snd]. rewrite <- fieldmaps_record.
  unfold scan_file.
  destruct (detect_duplicate _ _ _) as [[seen nd] u]. reflexivity.
Qed.

Lemma fieldmaps_scan_acquisition s ses st acq :
  fieldmaps (snd (scan_acquisition args s ses st acq))
  = fold_left fieldmap_step (map (fun f => (ses, acq, f)) (acq_files acq))
              (fieldmaps (snd st)).
Proof.
  destruct st as [v sv]. unfold scan_acquisition.
  rewrite fold_left_map.
  rewrite (fold_left_proj (fun st => fieldmaps (snd st)) _
             (fun c f => fieldmap_step c (ses, acq, f))).
  - reflexivity.
  - intros st f. apply fieldmaps_scan_file.
Qed.

Lemma fieldmaps_scan_sessions s st :
  fieldmaps (snd (fold_left (scan_session args s) (subj_sessions s) st))
  = fold_left fieldmap_step (subject_files s) (fieldmaps (snd st)).
Proof.
  unfold subject_files.
  apply (fold_left_proj_flat (fun st => fieldmaps (snd st))).
  intros st1 ses. unfold scan_session.
  apply (fold_left_proj_flat (fun st => fieldmaps (snd st))).
  intros st2 acq. apply fieldmaps_scan_acquisition.
Qed.

End Scan.

Lemma fieldmap_fold_get xs : forall c name,
  let last :=
    find (fun x => is_fieldmap (snd x) && (file_name (snd x) =? name)%string)
         (rev xs) in
  Dict.get name (fst (fold_left fieldmap_step xs c))
  = match last with
    | Some x => Some (fieldmap_list (snd x))
    | None => Dict.get name (fst c)
    end
  /\ Dict.get name (snd (fold_left fieldmap_step xs c))
     = match last with
       | Some x => Some (acq_id (snd (fst x)))
       | None => Dict.get name (snd c)
       end.
Proof.
  induction xs as [|x xs IH]; intros c name; cbn zeta.
  - split; reflexivity.
  - cbn [fold_left rev]. rewrite find_app_or.
    destruct (IH (fieldmap_step c x) name) as [-> ->].
    destruct (find _ (rev xs)); [split; reflexivity|].
    cbn [find]. unfold fieldmap_step.
    destruct (is_fieldmap (snd x)); cbn [andb fst snd]; [|split; reflexivity].
    destruct (file_name (snd x) =? name)%string eqn:E.
    + apply String.eqb_eq in E. subst name.
      now rewrite !DictFacts.get_set_same.
    + apply String.eqb_neq in E.
      now rewrite !(DictFacts.get_set_other _ _ _ _ E).
Qed.

Section Scan.
Variable args : Args.

Lemma fieldmaps_scan_subject v s :
  all_intended_fors (scan_subject args v s)
  = Dict.set (subj_label s)
      (fst (fold_left fieldmap_step (subject_files s)
                      (Dict.empty, Dict.empty)))
      (all_intended_fors v)
  /\ all_intended_for_acq_id (scan_subject args v s)
     = Dict.set (subj_label s)
         (snd (fold_left fieldmap_step (subject_files s)
                         (Dict.empty, Dict.empty)))
         (all_intended_for_acq_id v).
Proof.
  unfold scan_subject.
  set (v1 := {| acquisition_labels := acquisition_labels v;
                printed := do_print args (subj_label s) (printed v) |}).
  pose proof (fieldmaps_scan_sessions args s (v1, initial_subject_vars)) as Hf.
  pose proof (outer_scan_sessions args s (v1, initial_subject_vars)) as Ho.
  destruct (fold_left (scan_session args s) (subj_sessions s)
              (v1, initial_subject_vars)) as [v2 sv].
  cbn [fst snd] in Hf, Ho. unfold outer in Ho.
  injection Ho as _ Hi _ Hfo _ _.
  cbn [all_intended_fors all_intended_for_acq_id].
  change (fieldmaps initial_subject_vars)
    with (@Dict.empty (list string), @Dict.empty string) in Hf.
  rewrite Hi, Hfo, <- Hf. split; reflexivity.
Qed.

(** What the scan has recorded under a subject label and a file name. *)
Lemma recorded_file_spec p label name :
  get2 label name (all_intended_fors (scan args p))
  = option_map (fun x => fieldmap_list (snd x)) (recorded_file p label name)
  /\ get2 label name (all_intended_for_acq_id (scan args p))
     = option_map (fun x => acq_id (snd (fst x))) (recorded_file p label name).
Proof.
  unfold scan, recorded_file, get2.
  assert (G : forall subjects v,
            Dict.get label
              (all_intended_fors (fold_left (scan_subject args) subjects v))
            = match find (fun s => (subj_label s =? label)%string)
                         (rev subjects) with
              | Some s => Some (fst (fold_left fieldmap_step (subject_files s)
                                               (Dict.empty, Dict.empty)))
              | None => Dict.get label (all_intended_fors v)
              end
            /\ Dict.get label
                 (all_intended_for_acq_id
                    (fold_left (scan_subject args) subjects v))
               = match find (fun s => (subj_label s =? label)%string)
                            (rev subjects) with
                 | Some s =>
                     Some (snd (fold_left fieldmap_step (subject_files s)
                                          (Dict.empty, Dict.empty)))
                 | None => Dict.get label (all_intended_for_acq_id v)
                 end).
  { induction subjects as [|s subjects IH]; intros v; cbn [fold_left rev].
    - split; reflexivity.
    - rewrite find_app_or. destruct (IH (scan_subject args v s)) as [-> ->].
      destruct (find _ (rev subjects)); [split; reflexivity|].
      cbn [find]. destruct (fieldmaps_scan_subject v s) as [-> ->].
      destruct (subj_label s =? label)%string eqn:E.
      + apply String.eqb_eq in E. subst label.
        now rewrite !DictFacts.get_set_same.
      + apply String.eqb_neq in E.
        now rewrite !(DictFacts.get_set_other _ _ _ _ E). }
  destruct (G (proj_subjects p) initial_vars) as [-> ->].
  destruct (find _ (rev (proj_subjects p))) as [s|]; [|split; reflexivity].
  unfold recorded_in_subject.
  destruct (fieldmap_fold_get (subject_files s) (Dict.empty, Dict.empty) name)
    as [-> ->].
  destruct (find _ (rev (subject_files s))); split; reflexivity.
Qed.

End Scan.

(** ** File names and malformed pairs *)

(** C6, as amended: a run that ends normally has written exactly three
    files, named [{group}_{project}_niftis.csv],
    [{group}_{project}_intendedfors.csv] and
    [{group}_{project}_acquisitions.csv], where [{group}] and [{project}] are
    the labels passed through [make_file_name_safe] with the replacement
    ["_"]; they are the given labels themselves when these hold only
    characters of [A-Za-z0-9_.-] and do not start with a dot. *)
Theorem output_files_are_named_after_the_safe_labels `{RE : RegexEngine}
  (args : Args) (fw : Client) (g p : string) (w w' : World) :
  save_curation_csvs args fw g p w = (w', Ok tt) ->
  files_are w [niftis_name g p; intendedfors_name g p; acquisitions_name g p] w'
  /\ (plain_label g -> plain_label p ->
      niftis_name g p = (g ++ "_" ++ p ++ "_niftis.csv")%string
      /\ intendedfors_name g p = (g ++ "_" ++ p ++ "_intendedfors.csv")%string
      /\ acquisitions_name g p = (g ++ "_" ++ p ++ "_acquisitions.csv")%string).
Proof.
  intros H. split.
  - unfold save_curation_csvs in H.
    destruct (scan_and_write args fw g p w) as [w1 [[project v]|e]] eqn:Es.
    + rewrite (bind_Ok _ _ _ _ _ Es) in H. cbn [fst snd] in H.
      destruct (scan_and_write_Ok _ _ _ _ _ _ _ _ Es) as (_ & -> & Hfiles).
      rewrite report_after_scan in H. injection H as <-. exact Hfiles.
    + rewrite (bind_Raise _ _ _ _ _ Es) in H. discriminate.
  - intros [Hg1 Hg2] [Hp1 Hp2].
    unfold niftis_name, intendedfors_name, acquisitions_name.
    rewrite !make_file_name_safe_id by assumption. now repeat split.
Qed.

(** For the labels [lab] and [study1] the run writes the three files named
    after them. *)
Lemma output_files_witness :
  files_are empty_world
    ["lab_study1_niftis.csv"; "lab_study1_intendedfors.csv";
     "lab_study1_acquisitions.csv"]
    (fst (save_curation_csvs (RE := Example.literal_regex)
            (Example.args None 0)
            {| api_url := "https://flywheel.example/api";
               projects_find_one := fun _ => Some Example.project |}
            "lab" "study1" empty_world)).
Proof.
  pose (r := save_curation_csvs (RE := Example.literal_regex)
               (Example.args None 0)
               {| api_url := "https://flywheel.example/api";
                  projects_find_one := fun _ => Some Example.project |}
               "lab" "study1" empty_world).
  assert (E : r = (fst r, Ok tt)) by (vm_compute; reflexivity).
  exact (proj1 (output_files_are_named_after_the_safe_labels
                  (RE := Example.literal_regex) (Example.args None 0)
                  {| api_url := "https://flywheel.example/api";
                     projects_find_one := fun _ => Some Example.project |}
                  "lab" "study1" empty_world (fst r) E)).
Defined.

(** C6, as stated, fails on a label with a character outside the safe set:
    for the project label ["study 1"] no file of the run holds the label as
    it was given. *)
Lemma output_file_name_counterexample :
  ~ (forall (args : Args) (w' : World),
       main (RE := Example.literal_regex) Example.client args empty_world
       = (w', Ok 0) ->
       has_file (group_label args ++ "_" ++ project_label args
                 ++ "_niftis.csv")%string w').
Proof.
  intros H.
  assert (E : main (RE := Example.literal_regex) Example.client
                   (Example.args None 0) empty_world
              = (fst (main (RE := Example.literal_regex) Example.client
                           (Example.args None 0) empty_world), Ok 0))
    by (vm_compute; reflexivity).
  pose proof (H (Example.args None 0) _ E) as H'.
  revert H'. clear. vm_compute. intros H.
  repeat destruct H as [H|H]; try discriminate H; contradiction.
Qed.

Lemma hoare_false_pre {A} (m : M A) Q E : hoare (fun _ => False) m Q E.
Proof. intros w []. Qed.

Lemma string_pairs_cons2 {A} (a b : A) l :
  string_pairs (a :: b :: l) = (a, b) :: string_pairs l.
Proof. unfold string_pairs. now destruct l. Qed.

Lemma string_pairs_snoc {A} (x : A) (l : list A) :
  Nat.even (List.length l) = true -> string_pairs (l ++ [x]) = string_pairs l.
Proof.
  assert (G : forall n (l : list A), List.length l <= n ->
                Nat.even (List.length l) = true ->
                string_pairs (l ++ [x]) = string_pairs l).
  { induction n as [|n IH]; intros l' Hn He.
    - destruct l'; [reflexivity|simpl in Hn; lia].
    - destruct l' as [|a [|b l']]; [reflexivity|discriminate|].
      cbn [app]. rewrite !string_pairs_cons2. f_equal.
      apply IH; [simpl in Hn; lia|exact He]. }
  apply (G (List.length l)). lia.
Qed.

Section Run.
Context `{RE : RegexEngine}.

Ltac skip_step :=
  apply hoare_bind with (R := fun _ _ => True); [apply hoare_any|intros ?].
Ltac fail_here :=
  apply hoare_bind with (R := fun _ _ => False);
  [|intros ?; apply hoare_false_pre].

Lemma main_raises_on_malformed_pair flywheel_Client args l :
  intended_for args = Some l ->
  compile_all (string_pairs l) = None ->
  hoare (fun _ => True) (main flywheel_Client args)
        (fun _ _ => False) (fun _ _ => True).
Proof.
  intros Hl Hc. unfold main. cbv zeta. skip_step. fail_here.
  unfold save_curation_csvs. fail_here.
  unfold scan_and_write. skip_step. cbv zeta. skip_step.
  destruct (make_file_name_safe (group_label args) "_") as [sg outg].
  skip_step.
  destruct (make_file_name_safe (project_label args) "_") as [sp outp].
  skip_step. skip_step. skip_step. fail_here.
  unfold write_intendedfors. skip_step. skip_step. fail_here.
  rewrite Hl. destruct l as [|x l]; [discriminate|].
  unfold correct_intended_fors. fail_here.
  intros w _. unfold compile_pairs.
  destruct (compile_pairs_None _ [] w Hc) as [e ->]. exact I.
Qed.

End Run.

Lemma compile_all_None `{RE : RegexEngine} pairs s_p :
  In s_p pairs ->
  re_compile (fst s_p) = None \/ re_compile (snd s_p) = None ->
  compile_all pairs = None.
Proof.
  induction pairs as [|q pairs IH]; intros Hin Hbad; [contradiction|].
  cbn [compile_all]. destruct Hin as [->|Hin].
  - destruct Hbad as [-> | ->]; [reflexivity|].
    now destruct (re_compile (fst s_p)).
  - rewrite (IH Hin Hbad).
    destruct (re_compile (fst q)); [|reflexivity].
    now destruct (re_compile (snd q)).
Qed.

(** C8, as amended: the strings of [--intended-for] are paired by position,
    and a pattern of a pair that [re.compile] rejects makes the run end with
    an uncaught exception; a list of odd length raises nothing by itself:
    its last string is dropped, uncompiled, and the run is the one of the
    list without it. *)
Theorem malformed_pairs_raise_and_odd_tail_is_dropped `{RE : RegexEngine}
  (flywheel_Client : string -> Client) (args : Args) (w : World)
  (l : list string) (x : string) :
  (forall s_p,
     intended_for args = Some l -> In s_p (string_pairs l) ->
     re_compile (fst s_p) = None \/ re_compile (snd s_p) = None ->
     exists e, snd (main flywheel_Client args w) = Raise e)
  /\ (Nat.even (List.length l) = true ->
      string_pairs (l ++ [x]) = string_pairs l
      /\ (l <> [] ->
          main flywheel_Client (with_intended_for args (l ++ [x])) w
          = main flywheel_Client (with_intended_for args l) w)).
Proof.
  split.
  - intros s_p Hl Hin Hbad.
    pose proof (main_raises_on_malformed_pair flywheel_Client args l Hl
                  (compile_all_None _ _ Hin Hbad) w I) as H.
    destruct (main flywheel_Client args w) as [w' [n|e]]; [contradiction|].
    now exists e.
  - intros He. split; [now apply string_pairs_snoc|].
    intros Hne. destruct l as [|a l]; [contradiction|].
    unfold main, save_curation_csvs, scan_and_write, write_intendedfors,
      with_intended_for, connect.
    cbn [intended_for group_label project_label api_key verbose app].
    unfold correct_intended_fors.
    rewrite (string_pairs_snoc x (a :: l) He : string_pairs (a :: l ++ [x]) = _).
    reflexivity.
Qed.

(** ** Examples of the theorems *)

(** In the example project the path of the T1w file occurs in both sessions
    of [sub-01] and in [sub-02]: the second file of [sub-01] is a duplicate,
    the file of [sub-02] is unique. *)
Lemma duplicate_detection_scope_witness :
  In (3, [CInt 2; CStr "T1w"; CStr "T1w.nii.gz"; CStr "nifti";
          CStr "anat/sub-01_T1w.nii.gz"; CStr "sub-01"; CStr "ses-2";
          CStr "duplicate 1"])
     (rows (all_df (scan (Example.args None 0) Example.project)))
  /\ In (0, [CInt 2; CStr "T1w"; CStr "T1w.nii.gz"; CStr "nifti";
             CStr "anat/sub-01_T1w.nii.gz"; CStr "sub-02"; CStr "ses-1";
             CStr "unique"])
        (rows (all_df (scan (Example.args None 0) Example.project))).
Proof.
  generalize
    (proj1 (proj2
       (duplicate_detection_is_scoped_per_subject
          (Example.args None 0) Example.project Example.sub01 3
          (Example.session "ses-2" "acq3" "acq4" ["func/run-2_bold.nii.gz"],
           {| acq_id := "acq3"; acq_label := "T1w";
              acq_files := [Example.t1w; Example.dicom] |},
           Example.t1w)
          (or_introl eq_refl) eq_refl))).
  generalize
    (proj1 (proj2
       (duplicate_detection_is_scoped_per_subject
          (Example.args None 0) Example.project Example.sub02 0
          ({| ses_label := "ses-1";
              ses_acquisitions :=
                [{| acq_id := "acq5"; acq_label := "T1w";
                    acq_files := [Example.t1w] |}] |},
           {| acq_id := "acq5"; acq_label := "T1w";
              acq_files := [Example.t1w] |},
           Example.t1w)
          (or_intror (or_introl eq_refl)) eq_refl))).
  vm_compute. intros H2 H1. exact (conj H1 H2).
Defined.

(** With [-i fmap (] the run raises; with [-i fmap run-2 (] it is the
    run of [-i fmap run-2]. *)
Lemma malformed_pairs_witness :
  (exists e,
     snd (main (RE := Example.literal_regex) Example.client
               (Example.args (Some ["fmap"; "("]) 0) empty_world) = Raise e)
  /\ main (RE := Example.literal_regex) Example.client
          (with_intended_for (Example.args None 0) (["fmap"; "run-2"] ++ ["("]))
          empty_world
     = main (RE := Example.literal_regex) Example.client
            (with_intended_for (Example.args None 0) ["fmap"; "run-2"])
            empty_world.
Proof.
  split.
  - exact (proj1 (malformed_pairs_raise_and_odd_tail_is_dropped
                    (RE := Example.literal_regex) Example.client
                    (Example.args (Some ["fmap"; "("]) 0) empty_world
                    ["fmap"; "("] "x")
                 ("fmap", "(") eq_refl (or_introl eq_refl)
                 (or_intror eq_refl)).
  - exact (proj2 (proj2 (malformed_pairs_raise_and_odd_tail_is_dropped
                           (RE := Example.literal_regex) Example.client
                           (Example.args None 0) empty_world
                           ["fmap"; "run-2"] "(")
                        eq_refl)
                 ltac:(discriminate)).
Defined.

(** C8, as stated, fails on a list of odd length, even one whose last string
    is no regular expression: the string without a partner is dropped and
    the run ends normally. *)
Lemma odd_length_list_counterexample :
  ~ (forall (args : Args) (l : list string),
       intended_for args = Some l ->
       Nat.odd (List.length l) = true \/ In "(" l ->
       exists e,
         snd (main (RE := Example.literal_regex) Example.client args
                   empty_world) = Raise e).
Proof.
  intros H.
  pose proof (H (Example.args (Some ["fmap"; "run-2"; "("]) 0)
                ["fmap"; "run-2"; "("] eq_refl (or_introl eq_refl)) as H'.
  revert H'. clear. vm_compute. intros [e He]. discriminate He.
Qed.

(** ** [run.py] *)

(** C5: the code does not reach the call.  [run.py] opens the configuration
    file as [config_file] and then reads the name [CONFIG_FILE], which is
    bound nowhere: whenever the file exists, the run ends with
    [NameError: name 'CONFIG_FILE' is not defined], before the JSON is parsed
    and without any call of [main_with_args]. *)
Theorem run_py_raises_NameError
  (fs : Dict.t string) (loads : string -> option RunPy.json) (text : string) :
  Dict.get "/flywheel/v0/config.json" fs = Some text ->
  snd (RunPy.run fs loads) = Raise (NameError "CONFIG_FILE")
  /\ RunPy.main_with_args_calls (fst (RunPy.run fs loads)) = [].
Proof.
  intros H. unfold RunPy.run, RunPy.script, bind, RunPy.open. cbn.
  rewrite H. cbn. split; reflexivity.
Qed.

(** The run on a configuration file that holds the three values. *)
Lemma run_py_raises_NameError_witness :
  snd (RunPy.run [("/flywheel/v0/config.json", "{...}")]
                 (fun _ => Some RunPy.example_config))
  = Raise (NameError "CONFIG_FILE")
  /\ RunPy.main_with_args_calls
       (fst (RunPy.run [("/flywheel/v0/config.json", "{...}")]
                       (fun _ => Some RunPy.example_config))) = [].
Proof.
  exact (run_py_raises_NameError
           [("/flywheel/v0/config.json", "{...}")]
           (fun _ => Some RunPy.example_config) "{...}" eq_refl).
Defined.

(* ================================================================= *)
(** * Further properties *)

(** ** More on [make_file_name_safe] *)

Lemma safe_patt_match_safe (repl : string) :
  Str.forallb safe_char repl = true -> safe_patt_match repl = false.
Proof.
  destruct repl as [|c r]; [reflexivity|]. cbn.
  intros H. apply andb_true_iff in H as [-> _]. reflexivity.
Qed.

Lemma drop1_length (s : string) :
  Str.startswith s "." = true -> String.length (Str.drop1 s) < String.length s.
Proof.
  destruct s as [|c r]; [discriminate|]. intros _. cbn. lia.
Qed.

Lemma make_file_name_safe_fst (s repl : string) :
  fst (make_file_name_safe s repl)
  = let out := safe_patt_sub (if safe_patt_match repl then "" else repl) s in
    if Str.startswith out "." then Str.drop1 out else out.
Proof. reflexivity. Qed.

Lemma make_file_name_safe_safe (s repl : string) :
  Str.forallb safe_char repl = true \/ safe_patt_match repl = true ->
  Str.forallb safe_char (fst (make_file_name_safe s repl)) = true.
Proof.
  intros H. rewrite make_file_name_safe_fst. cbv zeta.
  assert (Hs : Str.forallb safe_char
                 (safe_patt_sub (if safe_patt_match repl then "" else repl) s)
               = true).
  { unfold safe_patt_sub. apply safe_patt_sub_safe.
    destruct H as [H|H].
    - now rewrite (safe_patt_match_safe _ H).
    - now rewrite H. }
  destruct (Str.startswith _ "."); [now apply StrFacts.forallb_drop1|exact Hs].
Qed.

(** X1: whatever the input, the name returned holds only characters of the
    class [A-Za-z0-9_.-] when the replacement string does, and also when the
    replacement starts with a character outside the class: such a
    replacement is announced on standard output and the call then behaves as
    with the default replacement, the empty string. *)
Theorem make_file_name_safe_result_is_safe (s repl : string) :
  Str.forallb safe_char repl = true \/ safe_patt_match repl = true ->
  Str.forallb safe_char (fst (make_file_name_safe s repl)) = true
  /\ (safe_patt_match repl = true ->
      make_file_name_safe s repl
      = (fst (make_file_name_safe s ""),
         (repl ++ " is not a safe string, removing instead")%string
         :: snd (make_file_name_safe s ""))).
Proof.
  intros H. split; [now apply make_file_name_safe_safe|].
  intros Hm. unfold make_file_name_safe. rewrite Hm. reflexivity.
Qed.

Lemma make_file_name_safe_result_is_safe_witness :
  Str.forallb safe_char (fst (make_file_name_safe "my study (v2)" "_")) = true
  /\ make_file_name_safe "my study" " "
     = ("mystudy",
        ["  is not a safe string, removing instead";
         (Str.dquote ++ "my study" ++ Str.dquote ++ " -> "
          ++ Str.dquote ++ "mystudy" ++ Str.dquote)%string]).
Proof.
  split.
  - apply (make_file_name_safe_result_is_safe "my study (v2)" "_").
    left. reflexivity.
  - apply (proj2 (make_file_name_safe_result_is_safe "my study" " "
                    (or_intror eq_refl))).
    reflexivity.
Defined.

(** X2: with a replacement made of characters of the class, the names that
    [make_file_name_safe] returns unchanged are exactly those that hold only
    characters of the class and do not start with a dot. *)
Theorem make_file_name_safe_fixed_points (s repl : string) :
  Str.forallb safe_char repl = true ->
  (fst (make_file_name_safe s repl) = s
   <-> Str.forallb safe_char s = true /\ Str.startswith s "." = false).
Proof.
  intros Hr. split.
  - intros E.
    assert (Hs : Str.forallb safe_char s = true).
    { rewrite <- E. apply make_file_name_safe_safe. now left. }
    split; [exact Hs|].
    rewrite make_file_name_safe_fst in E. cbv zeta in E.
    rewrite (safe_patt_match_safe _ Hr) in E.
    unfold safe_patt_sub in E. rewrite (safe_patt_sub_id _ _ _ Hs) in E.
    destruct (Str.startswith s ".") eqn:D; [|reflexivity].
    apply drop1_length in D. rewrite E in D. lia.
  - intros [Hs Hd]. rewrite make_file_name_safe_fst. cbv zeta.
    unfold safe_patt_sub. rewrite (safe_patt_sub_id _ _ _ Hs). now rewrite Hd.
Qed.

Lemma make_file_name_safe_fixed_points_witness :
  fst (make_file_name_safe "sub-01_T1w.nii.gz" "_") = "sub-01_T1w.nii.gz"
  <-> Str.forallb safe_char "sub-01_T1w.nii.gz" = true
      /\ Str.startswith "sub-01_T1w.nii.gz" "." = false.
Proof.
  apply (make_file_name_safe_fixed_points "sub-01_T1w.nii.gz" "_").
  reflexivity.
Defined.

Lemma sub_from_safe_prefix (b : bool) (repl a t : string) :
  Str.forallb safe_char a = true -> a <> "" ->
  safe_patt_sub_from b repl (a ++ t)
  = (a ++ safe_patt_sub_from false repl t)%string.
Proof.
  revert b. induction a as [|c a IH]; intros b Ha Hne; [congruence|].
  cbn in Ha. apply andb_true_iff in Ha as [Hc Ha].
  cbn [String.append safe_patt_sub_from]. rewrite Hc. f_equal.
  destruct a as [|c' a'] eqn:Ea; [reflexivity|].
  rewrite <- Ea in *. apply IH; [exact Ha|]. rewrite Ea. discriminate.
Qed.

Lemma sub_from_unsafe_run (repl u t : string) :
  Str.forallb unsafe_char u = true -> safe_patt_match t = false ->
  safe_patt_sub_from true repl (u ++ t) = safe_patt_sub_from false repl t.
Proof.
  induction u as [|c u IH]; intros Hu Ht.
  - cbn [String.append]. destruct t as [|c t]; [reflexivity|].
    cbn in Ht. apply negb_false_iff in Ht. cbn [safe_patt_sub_from].
    now rewrite Ht.
  - cbn in Hu. apply andb_true_iff in Hu as [Hc Hu].
    unfold unsafe_char in Hc. apply negb_true_iff in Hc.
    cbn [String.append safe_patt_sub_from]. rewrite Hc. now apply IH.
Qed.

Lemma startswith_dot_app (a t : string) :
  a <> "" -> Str.startswith (a ++ t) "." = Str.startswith a ".".
Proof.
  destruct a as [|c a]; [congruence|]. intros _.
  unfold Str.startswith. cbn [String.append]. rewrite !prefix_cons.
  destruct (ascii_dec "." c); [|reflexivity]. now rewrite !prefix_empty.
Qed.

(** X3: a run of characters outside the class, however long, is replaced by
    one copy of the replacement string: for a name that starts with a
    non-empty stretch [a] of characters of the class (not a dot first),
    followed by a non-empty run [u] of other characters, the result is [a],
    the replacement, and what the substitution makes of the rest. *)
Theorem unsafe_run_is_replaced_once (repl a u t : string) :
  Str.forallb safe_char repl = true ->
  Str.forallb safe_char a = true -> a <> "" -> Str.startswith a "." = false ->
  Str.forallb unsafe_char u = true -> u <> "" ->
  safe_patt_match t = false ->
  fst (make_file_name_safe (a ++ u ++ t) repl)
  = (a ++ repl ++ safe_patt_sub repl t)%string.
Proof.
  intros Hr Ha Hne Hd Hu Hune Ht.
  rewrite make_file_name_safe_fst. cbv zeta.
  rewrite (safe_patt_match_safe _ Hr). unfold safe_patt_sub.
  rewrite (sub_from_safe_prefix _ _ _ _ Ha Hne).
  rewrite (startswith_dot_app _ _ Hne), Hd. f_equal.
  destruct u as [|c u]; [congruence|].
  cbn in Hu. apply andb_true_iff in Hu as [Hc Hu].
  unfold unsafe_char in Hc. apply negb_true_iff in Hc.
  cbn [String.append safe_patt_sub_from]. rewrite Hc. f_equal.
  now apply sub_from_unsafe_run.
Qed.

Lemma unsafe_run_is_replaced_once_witness :
  fst (make_file_name_safe ("study" ++ " ( " ++ "v2") "_")
  = ("study" ++ "_" ++ safe_patt_sub "_" "v2")%string.
Proof.
  apply (unsafe_run_is_replaced_once "_" "study" " ( " "v2");
    solve [reflexivity | discriminate].
Defined.

(** ** The BIDS path of a file *)

Lemma no_slash_placeholder (p : string) :
  is_placeholder p = true -> no_slash p = true.
Proof.
  intros H. apply is_placeholder_spec in H.
  repeat (destruct H as [<-|H]; [reflexivity|]). destruct H.
Qed.

Lemma slash_not_placeholder (a b : string) :
  is_placeholder (a ++ "/" ++ b) = false.
Proof.
  destruct (is_placeholder (a ++ "/" ++ b)) eqn:E; [|reflexivity].
  apply no_slash_placeholder in E. unfold no_slash in E.
  rewrite StrFacts.forallb_app in E. apply andb_true_iff in E as [_ E].
  cbn in E. discriminate.
Qed.

(** X4: a file is left out of the duplicate detection exactly when it has no
    BIDS info, when its BIDS info is ["NA"], or when its BIDS info has the
    three keys and is marked as ignored; a file whose BIDS info lacks one of
    the keys takes part in it. *)
Theorem placeholder_paths_characterised (info : FileInfo) :
  is_placeholder (bids_path_of info) = true
  <-> info_BIDS info = None
      \/ info_BIDS info = Some BidsNA
      \/ exists b folder filename,
           info_BIDS info = Some (BidsOf b)
           /\ bids_ignore b = Some true
           /\ bids_Folder b = Some folder
           /\ bids_Filename b = Some filename.
Proof.
  split.
  - unfold bids_path_of.
    destruct (info_BIDS info) as [[|b]|] eqn:E; [auto| |auto].
    destruct b as [ig fo fi inf].
    destruct ig as [[|]|], fo as [fo|], fi as [fi|];
      cbn -[is_placeholder String.append];
      try rewrite slash_not_placeholder; try discriminate;
      try (intros H; vm_compute in H; discriminate).
    intros _. right. right. eexists _, fo, fi. repeat split; reflexivity.
  - unfold bids_path_of.
    intros [H|[H|(b & fo & fi & H & H1 & H2 & H3)]]; rewrite H;
      [reflexivity|reflexivity|].
    destruct b as [ig fo' fi' inf]. cbn in H1, H2, H3. subst. reflexivity.
Qed.

Lemma bids_path_of_missing (info : FileInfo) (b : BidsDict) :
  info_BIDS info = Some (BidsOf b) -> missing_keys b <> [] ->
  bids_path_of info
  = fold_left (fun path key => (path ++ "missing_" ++ key ++ " ")%string)
              (missing_keys b) ""
    /\ is_placeholder (bids_path_of info) = false.
Proof.
  intros E H. unfold bids_path_of, missing_keys in *. rewrite E.
  destruct b as [ig fo fi inf].
  destruct ig as [[|]|], fo as [fo|], fi as [fi|]; cbn in *;
    solve [congruence | split; reflexivity].
Qed.

(** X5: when the BIDS info of a file lacks some of the keys ["ignore"],
    ["Folder"] and ["Filename"], its path only says which keys are missing.
    Two such files of one subject that lack the same keys therefore share
    their path, and the later one is flagged as a duplicate in the table,
    whatever the two files are. *)
Theorem files_missing_the_same_keys_are_flagged_duplicates
  (args : Args) (p : Project) (s : Subject) (j k : nat)
  (x y : Session * Acquisition * File) (dx dy : BidsDict) :
  In s (proj_subjects p) ->
  nth_error (subject_files s) j = Some x ->
  nth_error (subject_files s) k = Some y ->
  j < k ->
  info_BIDS (file_info (snd x)) = Some (BidsOf dx) ->
  info_BIDS (file_info (snd y)) = Some (BidsOf dy) ->
  missing_keys dx = missing_keys dy -> missing_keys dx <> [] ->
  bids_path_of (file_info (snd x)) = bids_path_of (file_info (snd y))
  /\ exists n,
       0 < n
       /\ nth_error (subject_flags s) k
          = Some ("duplicate " ++ Str.of_nat n)%string
       /\ In (k, all_df_row s y ("duplicate " ++ Str.of_nat n)%string)
             (rows (all_df (scan args p))).
Proof.
  intros Hs Hx Hy Hjk Ex Ey Hsame Hne.
  destruct (bids_path_of_missing _ _ Ex Hne) as [Px Nx].
  assert (Hne' : missing_keys dy <> []) by now rewrite <- Hsame.
  destruct (bids_path_of_missing _ _ Ey Hne') as [Py Ny].
  assert (Hp : bids_path_of (file_info (snd x))
               = bids_path_of (file_info (snd y))).
  { rewrite Px, Py. now rewrite Hsame. }
  split; [exact Hp|].
  pose proof (subject_flag_at s k y Hy) as F. cbv zeta in F. rewrite Ny in F.
  set (path := bids_path_of (file_info (snd y))) in *.
  assert (Hin : In path (firstn k (subject_paths s))).
  { assert (Hj : nth_error (subject_paths s) j = Some path).
    { unfold subject_paths. rewrite nth_error_map, Hx. cbn. now rewrite Hp. }
    rewrite <- (firstn_skipn k (subject_paths s)) in Hj.
    assert (Hlen : j < List.length (firstn k (subject_paths s))).
    { rewrite length_firstn. apply Nat.min_glb_lt; [exact Hjk|].
      apply nth_error_Some. rewrite firstn_skipn in Hj. congruence. }
    rewrite nth_error_app1 in Hj by exact Hlen.
    eapply nth_error_In. exact Hj. }
  apply (count_occ_In string_dec) in Hin.
  destruct (count_occ string_dec (firstn k (subject_paths s)) path)
    as [|m] eqn:Ec; [lia|].
  exists (S m). split; [lia|]. split; [exact F|].
  rewrite (proj1 (all_df_scan args p)). apply in_flat_map.
  exists s. split; [exact Hs|]. now apply subject_block_row.
Qed.

(** ** The pairs of [--intended-for] *)

(** X6: the pairs that [zip(l[::2], l[1::2])] forms are the strings at the
    positions [2i] and [2i+1] of the list, for every [i], and there are as
    many as half the length of the list, rounded down. *)
Theorem string_pairs_are_adjacent_strings {A} (l : list A) :
  List.length (string_pairs l) = Nat.div2 (List.length l)
  /\ forall i a b,
       nth_error (string_pairs l) i = Some (a, b)
       <-> nth_error l (2 * i) = Some a /\ nth_error l (2 * i + 1) = Some b.
Proof.
  assert (H : forall n (l : list A), List.length l <= n ->
            List.length (string_pairs l) = Nat.div2 (List.length l)
            /\ forall i a b,
                 nth_error (string_pairs l) i = Some (a, b)
                 <-> nth_error l (2 * i) = Some a
                     /\ nth_error l (2 * i + 1) = Some b).
  { induction n as [|n IH]; intros l0 Hl.
    - destruct l0; [|cbn in Hl; lia]. split; [reflexivity|].
      intros i a b. destruct i; cbn; split;
        solve [discriminate | intros [H _]; discriminate].
    - destruct l0 as [|x [|y r]].
      + split; [reflexivity|].
        intros i a b. destruct i; cbn; split;
          solve [discriminate | intros [H _]; discriminate].
      + split; [reflexivity|].
        intros i a b. destruct i.
        * cbn. split; [discriminate|intros [_ H]; discriminate].
        * cbn. split; [discriminate|].
          replace (i + S (i + 0)) with (S (2 * i)) by lia. cbn.
          destruct (2 * i); cbn; intros [H _]; discriminate.
      + rewrite string_pairs_cons2.
        destruct (IH r) as [Hlen Hnth]; [cbn in Hl; lia|].
        split; [cbn [List.length Nat.div2]; now rewrite Hlen|].
        intros i a b. destruct i.
        * cbn. split.
          -- intros E. injection E as <- <-. now split.
          -- intros [E1 E2]. congruence.
        * cbn [nth_error]. rewrite Hnth.
          replace (2 * S i) with (S (S (2 * i))) by lia.
          replace (S (S (2 * i)) + 1) with (S (S (2 * i + 1))) by lia.
          reflexivity. }
  apply (H (List.length l)). lia.
Qed.

(** ** When the project is not found *)

(** X7: when the platform finds no single project for the two labels, the
    script has printed the site it is logged into and nothing else, has
    written no file and sent no modifying call, and it ends with the
    exception of the finder. *)
Theorem project_not_found_changes_nothing `{RE : RegexEngine}
  (flywheel_Client : string -> Client) (args : Args) (w : World) :
  let fw := connect flywheel_Client args in
  projects_find_one fw (project_query (group_label args) (project_label args))
  = None ->
  exists msg,
    main flywheel_Client args w
    = (with_stdout w [api_url fw], Raise (ValueError msg)).
Proof.
  intros fw H. eexists.
  unfold main, save_curation_csvs, scan_and_write, find_one.
  fold fw. unfold project_query in H.
  unfold bind at 1. cbn [print].
  unfold bind. rewrite H. reflexivity.
Qed.

Lemma project_not_found_witness :
  exists msg,
    main (RE := Example.literal_regex) Example.client
         {| group_label := "lab"; project_label := "study 2";
            api_key := Some "key"; intended_for := None; verbose := 1 |}
         empty_world
    = (with_stdout empty_world ["https://flywheel.example/api"],
       Raise (ValueError msg)).
Proof.
  apply (project_not_found_changes_nothing (RE := Example.literal_regex)
           Example.client
           {| group_label := "lab"; project_label := "study 2";
              api_key := Some "key"; intended_for := None; verbose := 1 |}
           empty_world).
  reflexivity.
Defined.

(** ** [run.py] without its configuration file *)

(** X8: whatever files exist and whatever the JSON parser does, [run.py]
    never calls [main_with_args] and never binds [config]: without the
    configuration file it ends with [FileNotFoundError], and with it with
    the [NameError] of the name it passes to [json.load]. *)
Theorem run_py_never_calls_main_with_args
  (fs : Dict.t string) (loads : string -> option RunPy.json) :
  RunPy.main_with_args_calls (fst (RunPy.run fs loads)) = []
  /\ Dict.get "config" (RunPy.globals (fst (RunPy.run fs loads))) = None
  /\ snd (RunPy.run fs loads)
     = Raise (match Dict.get CONFIG_FILE_PATH fs with
              | Some _ => NameError "CONFIG_FILE"
              | None => FileNotFoundError CONFIG_FILE_PATH
              end).
Proof.
  unfold RunPy.run, RunPy.script, bind, RunPy.open, CONFIG_FILE_PATH. cbn.
  destruct (Dict.get "/flywheel/v0/config.json" fs) as [text|];
    cbn; repeat split; reflexivity.
Qed.

(** ** A run without [-v] *)

Lemma do_print_quiet args msg out :
  verbose args = 0 -> do_print args msg out = out.
Proof. intros H. unfold do_print. now rewrite H. Qed.

Lemma do_printM_quiet args msg w :
  verbose args = 0 -> do_printM args msg w = (w, Ok tt).
Proof.
  intros H. unfold do_printM. rewrite (do_print_quiet _ _ _ H).
  now destruct w.
Qed.

Lemma printed_scan_file args s ses acq st f :
  verbose args = 0 ->
  printed (fst (scan_file args s ses acq st f)) = printed (fst st).
Proof.
  intros H. destruct st as [v sv]. unfold scan_file.
  destruct (detect_duplicate _ _ _) as [[seen dups] unique].
  cbn [fst printed]. now apply do_print_quiet.
Qed.

Lemma fold_left_keeps {S T A} (pi : S -> T) (F : S -> A -> S) :
  (forall s a, pi (F s a) = pi s) ->
  forall l s, pi (fold_left F l s) = pi s.
Proof.
  intros H l. induction l as [|a l IH]; intros s; [reflexivity|].
  cbn [fold_left]. now rewrite IH.
Qed.

Lemma printed_scan_acquisition args s ses st acq :
  verbose args = 0 ->
  printed (fst (scan_acquisition args s ses st acq)) = printed (fst st).
Proof.
  intros H. destruct st as [v sv]. unfold scan_acquisition.
  rewrite (fold_left_keeps (fun st => printed (fst st)))
    by (intros; now apply printed_scan_file).
  cbn [fst printed]. now apply do_print_quiet.
Qed.

Lemma printed_scan_session args s st ses :
  verbose args = 0 ->
  printed (fst (scan_session args s st ses)) = printed (fst st).
Proof.
  intros H. unfold scan_session.
  apply (fold_left_keeps (fun st => printed (fst st))).
  intros; now apply printed_scan_acquisition.
Qed.

Lemma printed_scan_subject args v s :
  verbose args = 0 -> printed (scan_subject args v s) = printed v.
Proof.
  intros H. unfold scan_subject.
  match goal with
  | |- context [fold_left ?F ?l ?st0] =>
      pose proof (fold_left_keeps (fun st => printed (fst st)) F
                    (fun st ses => printed_scan_session args s st ses H)
                    l st0) as E;
      destruct (fold_left F l st0) as [v' sv']
  end.
  cbn [fst printed] in *. rewrite E. now apply do_print_quiet.
Qed.

(** Without [-v] the scan prints nothing. *)
Lemma printed_scan_quiet args p :
  verbose args = 0 -> printed (scan args p) = [].
Proof.
  intros H. unfold scan.
  rewrite (fold_left_keeps printed)
    by (intros; now apply printed_scan_subject).
  reflexivity.
Qed.

(** ** The names of the three files *)

Lemma names_distinct g p :
  niftis_name g p <> intendedfors_name g p
  /\ niftis_name g p <> acquisitions_name g p
  /\ intendedfors_name g p <> acquisitions_name g p.
Proof.
  unfold niftis_name, intendedfors_name, acquisitions_name.
  repeat split; intros E;
    repeat (apply StrFacts.append_inj_l in E); discriminate E.
Qed.

(** ** The final values of the IntendedFor lists *)

Lemma forM_file {A} path (l : list A) (f : A -> M unit)
  (g : A -> list (list cell)) :
  (forall a rs w, In a l ->
     f a (with_file w path rs) = (with_file w path (rs ++ g a), Ok tt)) ->
  forall rs w,
    forM_ l f (with_file w path rs)
    = (with_file w path (rs ++ flat_map g l), Ok tt).
Proof.
  unfold forM_. induction l as [|a l IH]; intros H rs w; cbn [foldM flat_map].
  - now rewrite app_nil_r.
  - rewrite (bind_Ok _ _ _ _ _ (H a rs w (or_introl eq_refl))).
    rewrite IH by (intros; apply H; now right).
    now rewrite app_assoc.
Qed.

Lemma folders_present_spec v subj dirs k ds i :
  folders_present v = true ->
  Dict.get subj (all_intended_for_dirs v) = Some dirs ->
  In (k, ds) dirs -> In i ds -> exists folder, i = Some folder.
Proof.
  unfold folders_present. intros H Hd Hk Hi.
  rewrite forallb_forall in H.
  assert (Hs : In subj (Dict.keys (all_intended_for_dirs v))).
  { apply DictFacts.get_Some_In in Hd. unfold Dict.keys.
    apply in_map_iff. now exists (subj, dirs). }
  specialize (H _ Hs). rewrite Hd in H.
  rewrite forallb_forall in H. specialize (H _ Hk). cbn [snd] in H.
  rewrite forallb_forall in H. specialize (H _ Hi).
  destruct i as [folder|]; [now exists folder|discriminate].
Qed.

Lemma write_final_values_quiet `{RE : RegexEngine} args path v fors lists rs w :
  verbose args = 0 ->
  all_aligned v -> folders_present v = true ->
  (forall subj dirs k ds,
     Dict.get subj (all_intended_for_dirs v) = Some dirs ->
     In (k, ds) dirs -> ds <> [] -> get2 subj k fors = Some (lists subj k)) ->
  write_final_values args path v fors (with_file w path rs)
  = (with_file w path
       (rs ++ [CStr ""; CStr ""; CStr ""] :: intendedfors_header
           :: final_rows v lists),
     Ok tt).
Proof.
  intros Hq Hal Hf Hfors. unfold write_final_values.
  replace (0 <? verbose args)%nat with false by (now rewrite Hq).
  rewrite (bind_Ok _ _ _ (with_file w path rs) tt) by reflexivity.
  rewrite (bind_Ok _ _ _ _ _ (writerow_with_file _ _ _ _)).
  rewrite (bind_Ok _ _ _ _ _ (writerow_with_file _ _ _ _)).
  rewrite (forM_file path _ _ (subject_final_rows v lists)).
  { unfold final_rows. rewrite <- !app_assoc. reflexivity. }
  clear rs w. intros subj rs w Hsubj.
  apply DictFacts.In_keys_get in Hsubj as [dirs Hd].
  rewrite (bind_Ok _ _ _ _ _ (getM_Some _ _ _ _ Hd)).
  unfold subject_final_rows. rewrite Hd.
  apply forM_file. clear rs w. intros [k ds] rs w Hk. cbn [fst snd].
  assert (Hkeys : In k (Dict.keys dirs)).
  { unfold Dict.keys. apply in_map_iff. now exists (k, ds). }
  destruct (all_aligned_lookup v subj dirs k Hal Hd Hkeys)
    as (_ & _ & label & Hl).
  unfold recorded_label. rewrite Hl.
  rewrite (bind_Ok _ _ _ _ _ (get2M_Some _ _ _ _ _ Hl)).
  rewrite (bind_Ok _ _ _ _ _ (do_printM_quiet _ _ _ Hq)).
  rewrite (bind_Ok _ _ _ _ _ (get2M_Some _ _ _ _ _ Hl)).
  rewrite (bind_Ok _ _ _ _ _ (writerow_with_file _ _ _ _)).
  unfold fieldmap_rows.
  rewrite (forM_file path _ _ (folder_rows (lists subj k))).
  { rewrite <- app_assoc. reflexivity. }
  clear rs w. intros i rs w Hi.
  assert (El : get2 subj k fors = Some (lists subj k)).
  { apply (Hfors subj dirs k ds Hd Hk). intros ->. destruct Hi. }
  destruct (folders_present_spec v subj dirs k ds i Hf Hd Hk Hi) as [folder ->].
  cbn [get_Folder folder_rows].
  rewrite (bind_Ok _ _ _ _ folder) by reflexivity.
  rewrite (bind_Ok _ _ _ _ _ (do_printM_quiet _ _ _ Hq)).
  rewrite (bind_Ok _ _ _ _ folder) by reflexivity.
  rewrite (bind_Ok _ _ _ _ _ (writerow_with_file _ _ _ _)).
  rewrite (bind_Ok _ _ _ _ _ (get2M_Some _ _ _ _ _ El)).
  rewrite (forM_file path _ _ (fun j => [[CStr ""; CStr ""; CStr j]])).
  { rewrite <- app_assoc. cbn [app].
    do 3 f_equal; induction (lists subj k); cbn; congruence. }
  intros j rs' w' _.
  rewrite (bind_Ok _ _ _ _ _ (do_printM_quiet _ _ _ Hq)).
  apply writerow_with_file.
Qed.

Section Quiet.
Context `{RE : RegexEngine}.

Lemma write_intendedfors_quiet args path v w :
  verbose args = 0 -> intended_for_given args = false ->
  all_aligned v -> folders_present v = true ->
  write_intendedfors args path v w
  = (with_file w path (intendedfors_rows v), Ok tt).
Proof.
  intros Hq Hi Hal Hf. unfold write_intendedfors.
  rewrite (bind_Ok _ _ w (with_file w path []) tt) by reflexivity.
  replace (0 <? verbose args)%nat with false by (now rewrite Hq).
  rewrite (bind_Ok _ _ _ (with_file w path []) (all_intended_fors v))
    by reflexivity.
  assert (E : match intended_for args with
              | Some ((_ :: _) as l) =>
                  correct_intended_fors l v (all_intended_fors v)
              | _ => ret (all_intended_fors v)
              end = ret (all_intended_fors v)).
  { unfold intended_for_given in Hi.
    destruct (intended_for args) as [[|x l]|]; [reflexivity|discriminate|
                                                 reflexivity]. }
  rewrite E.
  rewrite (bind_Ok _ _ _ (with_file w path []) (all_intended_fors v))
    by reflexivity.
  rewrite (write_final_values_quiet args path v _ (recorded_list v) [] w
             Hq Hal Hf).
  - reflexivity.
  - intros subj dirs k ds Hd Hk _.
    assert (Hkeys : In k (Dict.keys dirs)).
    { unfold Dict.keys. apply in_map_iff. now exists (k, ds). }
    unfold recorded_list.
    destruct (all_aligned_lookup v subj dirs k Hal Hd Hkeys) as [[old ->] _].
    reflexivity.
Qed.

Lemma scan_and_write_quiet args fw g p project w :
  verbose args = 0 -> intended_for_given args = false ->
  projects_find_one fw (project_query g p) = Some project ->
  folders_present (scan args project) = true ->
  let v := scan args project in
  scan_and_write args fw g p w
  = (with_file
       (with_file
          (with_file
             (with_stdout w
                (snd (make_file_name_safe g "_")
                 ++ snd (make_file_name_safe p "_")))
             (niftis_name g p) (Pandas.to_csv_rows (all_df v)))
          (intendedfors_name g p) (intendedfors_rows v))
       (acquisitions_name g p) (acquisitions_rows (acquisition_labels v)),
     Ok (project, v)).
Proof.
  intros Hq Hi Hfind Hf v. unfold scan_and_write, find_one.
  unfold project_query in Hfind. rewrite Hfind.
  rewrite (bind_Ok _ _ w w project) by reflexivity. cbv zeta. fold v.
  unfold niftis_name, intendedfors_name, acquisitions_name.
  destruct (make_file_name_safe g "_") as [sg outg].
  destruct (make_file_name_safe p "_") as [sp outp]. cbn [fst snd].
  assert (Hpr : printed v = []) by (now apply printed_scan_quiet).
  rewrite Hpr.
  rewrite (bind_Ok _ _ w w tt)
    by (unfold print_lines; rewrite app_nil_r; now destruct w).
  rewrite (bind_Ok _ _ w (with_stdout w outg) tt) by reflexivity.
  rewrite (bind_Ok _ _ _ (with_stdout w (outg ++ outp)) tt)
    by (rewrite <- with_stdout_app; reflexivity).
  match goal with
  | |- bind (to_csv ?n ?df) _ ?w0 = _ =>
      rewrite (bind_Ok _ _ w0 (with_file w0 n (Pandas.to_csv_rows df)) tt)
        by reflexivity
  end.
  rewrite (bind_Ok _ _ _ _ _ (do_printM_quiet _ _ _ Hq)).
  rewrite (bind_Ok _ _ _ _ _
             (write_intendedfors_quiet args _ v _ Hq Hi
                (all_aligned_scan args project) Hf)).
  rewrite (bind_Ok _ _ _ _ _ (write_acquisitions_spec _ v _)).
  reflexivity.
Qed.

End Quiet.

(** X9: a run without [-v] and without [--intended-for] on a project that is
    found, in which every folder entry recorded for a fieldmap file has its
    ["Folder"] key, raises nothing and exits with status 0.  It prints the
    site, the two lines of [make_file_name_safe] and the report on
    duplicates; it writes the frame of the scan, the final values of the
    IntendedFor lists (for each fieldmap file its acquisition label and
    name, then for each folder entry the folder followed by the whole list
    of paths) and the acquisition table; it sends no modifying call. *)
Theorem quiet_run_without_correction_succeeds `{RE : RegexEngine}
  (flywheel_Client : string -> Client) (args : Args) (w : World)
  (project : Project) :
  let fw := connect flywheel_Client args in
  let g := group_label args in
  let p := project_label args in
  verbose args = 0 -> intended_for_given args = false ->
  projects_find_one fw (project_query g p) = Some project ->
  folders_present (scan args project) = true ->
  main flywheel_Client args w
  = (quiet_run_result fw g p project (scan args project) w, Ok 0)
  /\ modify_calls (fst (main flywheel_Client args w)) = modify_calls w.
Proof.
  intros fw g p Hq Hi Hfind Hf.
  assert (E : main flywheel_Client args w
              = (quiet_run_result fw g p project (scan args project) w, Ok 0)).
  { unfold main. fold fw g p.
    rewrite (bind_Ok _ _ w (with_stdout w [api_url fw]) tt) by reflexivity.
    assert (S : save_curation_csvs args fw g p (with_stdout w [api_url fw])
                = (quiet_run_result fw g p project (scan args project) w,
                   Ok tt)).
    { unfold save_curation_csvs.
      rewrite (bind_Ok _ _ _ _ _
                 (scan_and_write_quiet args fw g p project _ Hq Hi Hfind Hf)).
      cbn [fst snd]. rewrite report_after_scan.
      unfold quiet_run_result, report_lines.
      rewrite with_stdout_app. reflexivity. }
    rewrite (bind_Ok _ _ _ _ _ S). reflexivity. }
  split; [exact E|]. rewrite E. reflexivity.
Qed.

(** ** The run, from the block of the IntendedFor file on *)

Lemma do_print_app args msg out lines :
  do_print args msg (out ++ lines) = out ++ do_print args msg lines.
Proof.
  unfold do_print. destruct (0 <? verbose args)%nat; [|reflexivity].
  now rewrite app_assoc.
Qed.

Section Unfold.
Context `{RE : RegexEngine}.

Lemma save_unfold args fw g p project w :
  projects_find_one fw (project_query g p) = Some project ->
  let v := scan args project in
  save_curation_csvs args fw g p (with_stdout w [api_url fw])
  = match write_intendedfors args (intendedfors_name g p) v
            (before_intendedfors args fw g p v w) with
    | (w4, Ok _) =>
        (with_stdout
           (with_file w4 (acquisitions_name g p)
              (acquisitions_rows (acquisition_labels v)))
           (report_lines project v),
         Ok tt)
    | (w4, Raise e) => (w4, Raise e)
    end.
Proof.
  intros Hfind v.
  set (w1 := with_stdout w [api_url fw]).
  assert (Pre : forall (k : unit -> M (Project * Vars)),
            scan_and_write args fw g p w1
            = bind (write_intendedfors args (intendedfors_name g p) v)
                   (fun _ =>
                      write_acquisitions (acquisitions_name g p) v ;;;
                      ret (project, v))
                   (before_intendedfors args fw g p v w)).
  { intros _. unfold scan_and_write, find_one.
    unfold project_query in Hfind. rewrite Hfind.
    rewrite (bind_Ok _ _ w1 w1 project) by reflexivity. cbv zeta. fold v.
    unfold before_intendedfors, niftis_name, intendedfors_name,
      acquisitions_name.
    destruct (make_file_name_safe g "_") as [sg outg].
    destruct (make_file_name_safe p "_") as [sp outp]. cbn [fst snd].
    rewrite (bind_Ok _ _ w1 (with_stdout w1 (printed v)) tt) by reflexivity.
    rewrite (bind_Ok _ _ _ (with_stdout (with_stdout w1 (printed v)) outg) tt)
      by reflexivity.
    rewrite (bind_Ok _ _ _
               (with_stdout (with_stdout (with_stdout w1 (printed v)) outg)
                  outp) tt)
      by reflexivity.
    match goal with
    | |- bind (to_csv ?n ?df) _ ?w0 = _ =>
        rewrite (bind_Ok _ _ w0 (with_file w0 n (Pandas.to_csv_rows df)) tt)
          by reflexivity
    end.
    match goal with
    | |- bind (do_printM _ _) ?k ?w0 = bind _ _ ?w3 =>
        rewrite (bind_Ok _ _ w0 w3 tt)
    end.
    - reflexivity.
    - unfold do_printM, with_file, with_stdout, w1. cbn.
      rewrite <- !app_assoc. cbn [app].
      now rewrite (do_print_app args "" (stdout w)). }
  specialize (Pre (fun _ => ret (project, v))).
  unfold save_curation_csvs.
  destruct (write_intendedfors args (intendedfors_name g p) v
              (before_intendedfors args fw g p v w))
    as [w4 [[]|e]] eqn:W.
  - rewrite (bind_Ok _ _ _ _ _ W) in Pre.
    rewrite (bind_Ok _ _ _ _ _ (write_acquisitions_spec _ v _)) in Pre.
    rewrite (bind_Ok _ _ _ _ _ Pre). cbn [fst snd].
    change v with (scan args project).
    rewrite report_after_scan. reflexivity.
  - rewrite (bind_Raise _ _ _ _ _ W) in Pre.
    now rewrite (bind_Raise _ _ _ _ _ Pre).
Qed.

Lemma main_unfold flywheel_Client args project w :
  let fw := connect flywheel_Client args in
  let g := group_label args in
  let p := project_label args in
  projects_find_one fw (project_query g p) = Some project ->
  let v := scan args project in
  main flywheel_Client args w
  = match write_intendedfors args (intendedfors_name g p) v
            (before_intendedfors args fw g p v w) with
    | (w4, Ok _) =>
        (with_stdout
           (with_file w4 (acquisitions_name g p)
              (acquisitions_rows (acquisition_labels v)))
           (report_lines project v),
         Ok 0)
    | (w4, Raise e) => (w4, Raise e)
    end.
Proof.
  intros fw g p Hfind v. unfold main. fold fw g p.
  rewrite (bind_Ok _ _ w (with_stdout w [api_url fw]) tt) by reflexivity.
  pose proof (save_unfold args fw g p project w Hfind) as S. cbv zeta in S.
  fold v in S.
  destruct (write_intendedfors args (intendedfors_name g p) v
              (before_intendedfors args fw g p v w)) as [w4 [[]|e]].
  - now rewrite (bind_Ok _ _ _ _ _ S).
  - now rewrite (bind_Raise _ _ _ _ _ S).
Qed.

(** What holds when the block of the IntendedFor file starts, and does not
    depend on what is printed, on the calls sent or on the two files written
    from there on, holds when the run ends, however it ends. *)
Lemma main_keeps flywheel_Client args project w (I : World -> Prop) :
  let fw := connect flywheel_Client args in
  let g := group_label args in
  let p := project_label args in
  projects_find_one fw (project_query g p) = Some project ->
  ignores_stdout I -> ignores_calls I ->
  ignores_file (intendedfors_name g p) I ->
  ignores_file (acquisitions_name g p) I ->
  I (before_intendedfors args fw g p (scan args project) w) ->
  I (fst (main flywheel_Client args w)).
Proof.
  intros fw g p Hfind Is Ic I2 I3 H0.
  rewrite (main_unfold flywheel_Client args project w Hfind). fold fw g p.
  pose proof (hoare_write_intendedfors I Is (intendedfors_name g p) I2
                (fun w' => w' = before_intendedfors args fw g p
                                  (scan args project) w)
                args (scan args project)) as H.
  specialize (H (fun w' E => eq_ind_r (fun w' => I (fst (open_w _ w')))
                               (I2 _ [] H0) E)
                (fun _ => Ic) _ eq_refl).
  destruct (write_intendedfors _ _ _ _) as [w4 [[]|e]]; cbn [fst].
  - apply (Is (with_file w4 _ _)). apply I3. exact H.
  - exact H.
Qed.

End Unfold.

(** X10: once the project is found, the per-file CSV is on disk with the
    frame of the scan when the run ends, whatever the options and however
    the run ends, normally or with an exception of the blocks that come
    after it. *)
Theorem niftis_file_is_written_whatever_follows `{RE : RegexEngine}
  (flywheel_Client : string -> Client) (args : Args) (w : World)
  (project : Project) :
  let fw := connect flywheel_Client args in
  let g := group_label args in
  let p := project_label args in
  projects_find_one fw (project_query g p) = Some project ->
  Dict.get (niftis_name g p) (files (fst (main flywheel_Client args w)))
  = Some (Pandas.to_csv_rows (all_df (scan args project))).
Proof.
  intros fw g p Hfind.
  destruct (names_distinct g p) as (N12 & N13 & _).
  apply (main_keeps flywheel_Client args project w
           (fun w' => Dict.get (niftis_name g p) (files w')
                      = Some (Pandas.to_csv_rows (all_df (scan args project))))
           Hfind).
  - intros w' out H. exact H.
  - intros w' c H. exact H.
  - intros w' rs H. cbn [files].
    rewrite DictFacts.get_set_other by (intros E; now apply N12). exact H.
  - intros w' rs H. cbn [files].
    rewrite DictFacts.get_set_other by (intros E; now apply N13). exact H.
  - unfold before_intendedfors, with_file. cbn [files].
    apply DictFacts.get_set_same.
Qed.

(** ** Commands that never end normally *)

Lemma never_spec {A} (m : M A) w :
  never_returns m -> exists e, snd (m w) = Raise e.
Proof.
  intros H. specialize (H w I). destruct (m w) as [w' [a|e]]; [destruct H|].
  now exists e.
Qed.

Lemma never_raise {A} e : never_returns (@raise World A e).
Proof. now apply hoare_raise. Qed.

Lemma never_bind_l {A B} (m : M A) (k : A -> M B) :
  never_returns m -> never_returns (bind m k).
Proof.
  intros H. apply hoare_bind with (R := fun _ _ => False); [exact H|].
  intros a. apply hoare_false_pre.
Qed.

Lemma never_bind_r {A B} (m : M A) (k : A -> M B) :
  (forall a, never_returns (k a)) -> never_returns (bind m k).
Proof.
  intros H. apply hoare_bind with (R := fun _ _ => True); [apply hoare_any|].
  exact H.
Qed.

Lemma never_bind_val {A B} (m : M A) (k : A -> M B) (a0 : A) :
  hoare (fun _ => True) m (fun a _ => a = a0) (fun _ _ => True) ->
  never_returns (k a0) -> never_returns (bind m k).
Proof.
  intros Hm Hk. apply hoare_bind with (R := fun a _ => a = a0); [exact Hm|].
  intros a w ->. now apply Hk.
Qed.

Lemma never_forM {A} (l : list A) (f : A -> M unit) a :
  In a l -> never_returns (f a) -> never_returns (forM_ l f).
Proof.
  unfold forM_. induction l as [|b l IH]; intros Hin Hf; [destruct Hin|].
  cbn [foldM]. destruct Hin as [->|Hin].
  - now apply never_bind_l.
  - apply never_bind_r. intros []. now apply IH.
Qed.

Lemma getM_val {V} k (d : Dict.t V) x :
  Dict.get k d = Some x ->
  hoare (fun _ => True) (getM k d) (fun a _ => a = x) (fun _ _ => True).
Proof. intros H w _. unfold getM. now rewrite H. Qed.

Lemma never_get2M {V} k1 k2 (d : Dict.t (Dict.t V)) :
  get2 k1 k2 d = None -> never_returns (get2M k1 k2 d).
Proof.
  unfold get2, get2M, getM. intros H w _. unfold bind.
  destruct (Dict.get k1 d) as [d1|]; [|exact I]. cbn.
  now rewrite H.
Qed.

Lemma forallb_false {A} (f : A -> bool) l :
  forallb f l = false -> exists x, In x l /\ f x = false.
Proof.
  induction l as [|a l IH]; [discriminate|]. cbn.
  destruct (f a) eqn:E.
  - intros H. destruct (IH H) as (x & Hx & Hf). exists x. auto.
  - intros _. exists a. auto.
Qed.

Section FinalValues.
Context `{RE : RegexEngine}.

(** The loop of the final values reads ["Folder"] in every folder entry. *)
Lemma write_final_values_never_Folder args path v nf :
  folders_present v = false ->
  never_returns (write_final_values args path v nf).
Proof.
  intros H. unfold folders_present in H.
  apply forallb_false in H as (subj & Hsubj & H).
  destruct (Dict.get subj (all_intended_for_dirs v)) as [dirs|] eqn:Hd;
    [|discriminate].
  apply forallb_false in H as ([k ds] & Hk & H). cbn [snd] in H.
  apply forallb_false in H as (i & Hi & H).
  destruct i as [folder|]; [discriminate|].
  unfold write_final_values.
  do 3 (apply never_bind_r; intros _).
  apply (never_forM _ _ subj Hsubj).
  apply (never_bind_val _ _ dirs (getM_val _ _ _ Hd)).
  apply (never_forM _ _ (k, ds) Hk).
  do 4 (apply never_bind_r; intros ?).
  apply (never_forM _ _ None Hi).
  apply never_bind_l. apply never_raise.
Qed.

(** The loop of the final values reads the new list of every fieldmap file
    that has a folder entry. *)
Lemma write_final_values_never_unmatched args path v nf subj dirs k ds :
  Dict.get subj (all_intended_for_dirs v) = Some dirs ->
  In (k, ds) dirs -> ds <> [] ->
  get2 subj k nf = None ->
  never_returns (write_final_values args path v nf).
Proof.
  intros Hd Hk Hne Hnf.
  assert (Hsubj : In subj (Dict.keys (all_intended_for_dirs v))).
  { apply DictFacts.get_Some_In in Hd. unfold Dict.keys.
    apply in_map_iff. now exists (subj, dirs). }
  destruct ds as [|i ds]; [congruence|].
  unfold write_final_values.
  do 3 (apply never_bind_r; intros _).
  apply (never_forM _ _ subj Hsubj).
  apply (never_bind_val _ _ dirs (getM_val _ _ _ Hd)).
  apply (never_forM _ _ (k, i :: ds) Hk).
  do 4 (apply never_bind_r; intros ?).
  apply (never_forM (i :: ds) _ i (or_introl eq_refl)).
  do 4 (apply never_bind_r; intros ?).
  apply never_bind_l. now apply never_get2M.
Qed.

Lemma never_write_intendedfors args path v :
  (forall nf, never_returns (write_final_values args path v nf)) ->
  never_returns (write_intendedfors args path v).
Proof.
  intros H. unfold write_intendedfors.
  do 3 (apply never_bind_r; intros ?). apply H.
Qed.

End FinalValues.

(** ** The exceptions of the final values *)

Lemma hoare_and {A} P (m : M A) Q1 Q2 E1 E2 :
  hoare P m Q1 E1 -> hoare P m Q2 E2 ->
  hoare P m (fun a w => Q1 a w /\ Q2 a w) (fun e w => E1 e w /\ E2 e w).
Proof.
  intros H1 H2 w Hw. specialize (H1 w Hw). specialize (H2 w Hw).
  destruct (m w) as [w' [a|e]]; now split.
Qed.

Lemma hoare_const {A} (phi : Prop) (m : M A) :
  hoare (fun _ => phi) m (fun _ _ => phi) (fun _ _ => True).
Proof. intros w H. now destruct (m w) as [w' [a|e]]. Qed.

Lemma hoare_pure_only {A} (phi : Prop) (m : M A) Q E :
  (phi -> hoare (fun _ => True) m Q E) -> hoare (fun _ => phi) m Q E.
Proof. intros H w Hw. now apply H. Qed.

Lemma hoare_pre {A} (P P' : World -> Prop) (m : M A) Q E :
  hoare P' m Q E -> (forall w, P w -> P' w) -> hoare P m Q E.
Proof. intros H HP w Hw. apply H. now apply HP. Qed.

Lemma ro_ret {A} phi (a : A) : raises_only phi (ret a).
Proof. now intros w _. Qed.

Lemma ro_raise {A} (phi : exn -> Prop) e :
  phi e -> raises_only phi (@raise World A e).
Proof. now intros H w _. Qed.

Lemma ro_bind {A B} phi (m : M A) (k : A -> M B) :
  raises_only phi m -> (forall a, raises_only phi (k a)) ->
  raises_only phi (bind m k).
Proof. intros Hm Hk. eapply hoare_bind; [exact Hm|exact Hk]. Qed.

Lemma ro_forM {A} phi (l : list A) (f : A -> M unit) :
  (forall a, In a l -> raises_only phi (f a)) -> raises_only phi (forM_ l f).
Proof.
  intros H. unfold forM_.
  apply (hoare_foldM (fun _ _ => True) (fun e _ => phi e)).
  intros _ a Hin. now apply H.
Qed.

Lemma ro_bind_val {A B} phi (m : M A) (k : A -> M B) (a0 : A) :
  hoare (fun _ => True) m (fun a _ => a = a0) (fun e _ => phi e) ->
  raises_only phi (k a0) -> raises_only phi (bind m k).
Proof.
  intros Hm Hk. apply hoare_bind with (R := fun a _ => a = a0); [exact Hm|].
  intros a w ->. now apply Hk.
Qed.

Lemma getM_exact {V} (phi : exn -> Prop) k (d : Dict.t V) x :
  Dict.get k d = Some x ->
  hoare (fun _ => True) (getM k d) (fun a _ => a = x) (fun e _ => phi e).
Proof. intros H w _. unfold getM. now rewrite H. Qed.

Lemma get2M_exact {V} (phi : exn -> Prop) k1 k2 (d : Dict.t (Dict.t V)) x :
  get2 k1 k2 d = Some x ->
  hoare (fun _ => True) (get2M k1 k2 d) (fun a _ => a = x) (fun e _ => phi e).
Proof. intros H w _. now rewrite (get2M_Some _ _ _ _ w H). Qed.

Lemma ro_getM_KeyError {V} k (d : Dict.t V) :
  raises_only is_KeyError (getM k d).
Proof.
  unfold getM. destruct (Dict.get k d); [apply ro_ret|].
  apply ro_raise. now exists k.
Qed.

Lemma ro_get2M_KeyError {V} k1 k2 (d : Dict.t (Dict.t V)) :
  raises_only is_KeyError (get2M k1 k2 d).
Proof.
  unfold get2M. apply ro_bind; [|intros d1]; apply ro_getM_KeyError.
Qed.

Lemma ro_get_Folder (phi : exn -> Prop) i :
  phi (KeyError "Folder") -> raises_only phi (get_Folder i).
Proof. intros H. destruct i; [apply ro_ret|now apply ro_raise]. Qed.

Lemma ro_writerow phi path row : raises_only phi (writerow path row).
Proof. now intros w _. Qed.

Lemma ro_do_printM phi args msg : raises_only phi (do_printM args msg).
Proof. now intros w _. Qed.

Lemma ro_rows phi args path (l : list string) :
  raises_only phi
    (forM_ l (fun j => do_printM args (",," ++ j)%string ;;;
                       writerow path [CStr ""; CStr ""; CStr j])).
Proof.
  apply ro_forM. intros j _.
  apply ro_bind; [apply ro_do_printM|intros _; apply ro_writerow].
Qed.

Section FinalValues.
Context `{RE : RegexEngine}.

(** The loop of the final values raises nothing but [KeyError]. *)
Lemma write_final_values_KeyError args path v nf :
  raises_only is_KeyError (write_final_values args path v nf).
Proof.
  unfold write_final_values.
  apply ro_bind; [destruct (0 <? verbose args)%nat;
                  [apply ro_writerow|apply ro_ret]|intros _].
  apply ro_bind; [apply ro_writerow|intros _].
  apply ro_bind; [apply ro_writerow|intros _].
  apply ro_forM. intros subj _.
  apply ro_bind; [apply ro_getM_KeyError|intros dirs].
  apply ro_forM. intros [k ds] _.
  apply ro_bind; [apply ro_get2M_KeyError|intros label].
  apply ro_bind; [apply ro_do_printM|intros _].
  apply ro_bind; [apply ro_get2M_KeyError|intros label'].
  apply ro_bind; [apply ro_writerow|intros _].
  apply ro_forM. intros i _.
  apply ro_bind; [apply ro_get_Folder; now exists "Folder"|intros folder].
  apply ro_bind; [apply ro_do_printM|intros _].
  apply ro_bind; [apply ro_get_Folder; now exists "Folder"|intros folder'].
  apply ro_bind; [apply ro_writerow|intros _].
  apply ro_bind; [apply ro_get2M_KeyError|intros l].
  apply ro_rows.
Qed.

(** When every file name recorded has its label and its list, the only
    exception of the loop is the [KeyError] of a folder entry without
    ["Folder"]. *)
Lemma write_final_values_only_Folder args path v fors :
  all_aligned v ->
  (forall subj dirs k,
     Dict.get subj (all_intended_for_dirs v) = Some dirs ->
     In k (Dict.keys dirs) -> get2 subj k fors <> None) ->
  raises_only (eq (KeyError "Folder")) (write_final_values args path v fors).
Proof.
  intros Hal Hfors. unfold write_final_values.
  apply ro_bind; [destruct (0 <? verbose args)%nat;
                  [apply ro_writerow|apply ro_ret]|intros _].
  apply ro_bind; [apply ro_writerow|intros _].
  apply ro_bind; [apply ro_writerow|intros _].
  apply ro_forM. intros subj Hsubj.
  apply DictFacts.In_keys_get in Hsubj as [dirs Hd].
  apply (ro_bind_val _ _ _ dirs (getM_exact _ _ _ _ Hd)).
  apply ro_forM. intros [k ds] Hk.
  assert (Hkeys : In k (Dict.keys dirs)).
  { unfold Dict.keys. apply in_map_iff. now exists (k, ds). }
  destruct (all_aligned_lookup v subj dirs k Hal Hd Hkeys)
    as (_ & _ & label & Hl).
  destruct (get2 subj k fors) as [l|] eqn:El;
    [|now destruct (Hfors subj dirs k Hd Hkeys)].
  apply (ro_bind_val _ _ _ label (get2M_exact _ _ _ _ _ Hl)).
  apply ro_bind; [apply ro_do_printM|intros _].
  apply (ro_bind_val _ _ _ label (get2M_exact _ _ _ _ _ Hl)).
  apply ro_bind; [apply ro_writerow|intros _].
  apply ro_forM. intros i _.
  apply ro_bind; [now apply ro_get_Folder|intros folder].
  apply ro_bind; [apply ro_do_printM|intros _].
  apply ro_bind; [now apply ro_get_Folder|intros folder'].
  apply ro_bind; [apply ro_writerow|intros _].
  apply (ro_bind_val _ _ _ l (get2M_exact _ _ _ _ _ El)).
  apply ro_rows.
Qed.

End FinalValues.

(** ** What the correction block leaves out *)

Lemma get2_set_empty {V} label name subj (nf : Dict.t (Dict.t V)) :
  get2 label name nf = None ->
  get2 label name (Dict.set subj Dict.empty nf) = None.
Proof.
  unfold get2. destruct (string_dec subj label) as [->|N].
  - now rewrite DictFacts.get_set_same.
  - now rewrite DictFacts.get_set_other.
Qed.

Section Leaves.
Context `{RE : RegexEngine}.

Lemma no_pair_matches_spec rps name rx :
  no_pair_matches rps name = true -> In rx rps ->
  re_search (fst rx) name = false.
Proof.
  unfold no_pair_matches. rewrite forallb_forall. intros H Hin.
  now apply negb_true_iff, H.
Qed.

(** A file name that no pair matches gets no new list. *)
Lemma correct_leaves_unmatched l rps v fors label name :
  compile_all (string_pairs l) = Some rps ->
  no_pair_matches rps name = true ->
  hoare (fun _ => True) (correct_intended_fors l v fors)
        (fun nf _ => get2 label name nf = None) (fun _ _ => True).
Proof.
  intros Hc Hno. unfold correct_intended_fors.
  apply hoare_bind with (R := fun rps' _ => rps' = rps).
  { intros w _. unfold compile_pairs.
    now rewrite (compile_pairs_Some _ rps [] w Hc). }
  intros rps'. apply hoare_pure_only. intros ->.
  set (J := fun (nf : Dict.t (Dict.t (list string))) (_ : World) =>
              get2 label name nf = None).
  apply hoare_pre with (P' := J Dict.empty); [|reflexivity].
  apply (hoare_foldM J (fun _ _ => True)). intros nf subj _.
  cbv zeta.
  apply hoare_pre with (P' := fun _ => get2 label name
                                         (Dict.set subj Dict.empty nf) = None);
    [|intros w Hw; now apply get2_set_empty].
  apply hoare_bind with (R := fun _ => J (Dict.set subj Dict.empty nf));
    [apply hoare_const|].
  intros dirs. apply (hoare_foldM J (fun _ _ => True)).
  intros nf1 file_name _.
  apply hoare_bind with (R := fun _ => J nf1); [apply hoare_const|].
  intros _. apply (hoare_foldM J (fun _ _ => True)).
  intros nf2 rx Hrx.
  destruct (re_search (fst rx) file_name) eqn:Em;
    [|apply hoare_ret; auto].
  assert (Hneq : forall s, (s, file_name) <> (label, name)).
  { intros s E. injection E as _ ->.
    rewrite (no_pair_matches_spec rps name rx Hno Hrx) in Em. discriminate. }
  assert (Hset : forall x d,
            hoare (J d) (set2M subj file_name x d) J (fun _ _ => True)).
  { intros x d.
    eapply hoare_weaken;
      [apply (hoare_set2M_val (J d))| auto | | auto].
    intros d' w (Hd & d1 & Hd1 & ->). unfold J in *.
    rewrite (get2_set2_other _ _ _ _ _ _ _ Hd1 (Hneq subj)). exact Hd. }
  apply hoare_bind with (R := J); [apply Hset|]. intros nf3.
  apply hoare_bind with (R := fun _ => J nf3); [apply hoare_const|].
  intros old.
  apply hoare_bind with (R := fun _ => J nf3); [apply hoare_const|].
  intros kept.
  apply hoare_bind with (R := J); [apply Hset|]. intros nf4.
  apply hoare_bind with (R := fun _ => J nf4); [apply hoare_const|].
  intros id.
  apply hoare_bind with (R := fun _ => J nf4); [apply hoare_const|].
  intros new_list.
  apply hoare_bind with (R := fun _ => J nf4); [apply hoare_const|].
  intros _. apply hoare_ret. auto.
Qed.

End Leaves.

(** ** Runs that end in the block of the IntendedFor file *)

Lemma no_file_stdout n : ignores_stdout (fun w => ~ has_file n w).
Proof. intros w out H. exact H. Qed.

Lemma no_file_calls n : ignores_calls (fun w => ~ has_file n w).
Proof. intros w c H. exact H. Qed.

Lemma no_file_file n n' :
  n' <> n -> ignores_file n' (fun w => ~ has_file n w).
Proof.
  intros N w rs H. unfold has_file in *. cbn [files].
  rewrite DictFacts.In_keys_set. intros [E|E]; [now apply N|now apply H].
Qed.

Section Errors.
Context `{RE : RegexEngine}.

Lemma unmatched_spec rps v :
  unmatched_fieldmap rps v = true ->
  exists subj dirs k ds,
    Dict.get subj (all_intended_for_dirs v) = Some dirs
    /\ In (k, ds) dirs /\ ds <> [] /\ no_pair_matches rps k = true.
Proof.
  unfold unmatched_fieldmap. intros H.
  apply existsb_exists in H as (subj & _ & H).
  destruct (Dict.get subj (all_intended_for_dirs v)) as [dirs|] eqn:Hd;
    [|discriminate].
  apply existsb_exists in H as ([k ds] & Hk & H). cbn [fst snd] in H.
  destruct ds as [|i ds]; [discriminate|].
  exists subj, dirs, k, (i :: ds). repeat split; auto. discriminate.
Qed.

(** With [--intended-for] and without [-v], when a recorded fieldmap file
    with a folder entry is matched by no pair: the block sends its calls and
    then raises [KeyError]. *)
Lemma write_intendedfors_unmatched args path v x l rps c0 :
  intended_for args = Some (x :: l) ->
  compile_all (string_pairs (x :: l)) = Some rps ->
  verbose args = 0 -> all_aligned v ->
  unmatched_fieldmap rps v = true ->
  hoare (fun w => modify_calls w = c0) (write_intendedfors args path v)
        (fun _ _ => False)
        (fun e w => is_KeyError e
                    /\ modify_calls w
                       = c0 ++ expected_calls rps v (all_intended_fors v)).
Proof.
  intros Hi Hc Hq Hal Hu.
  destruct (unmatched_spec rps v Hu) as (subj & dirs & k & ds & Hd & Hk & Hne
                                         & Hno).
  unfold write_intendedfors. rewrite Hi.
  replace (0 <? verbose args)%nat with false by (now rewrite Hq).
  apply hoare_bind with (R := fun _ w => modify_calls w = c0).
  { intros w Hw. exact Hw. }
  intros _.
  apply hoare_bind
    with (R := fun fors w => fors = all_intended_fors v
                             /\ modify_calls w = c0).
  { apply hoare_ret. auto. }
  intros fors. apply hoare_pure_pre. intros ->.
  apply hoare_bind
    with (R := fun nf w =>
                 get2 subj k nf = None
                 /\ modify_calls w
                    = c0 ++ expected_calls rps v (all_intended_fors v)).
  { eapply hoare_weaken.
    - apply hoare_and.
      + apply hoare_pre with (P' := fun _ => True); [|auto].
        apply (correct_leaves_unmatched (x :: l) rps v (all_intended_fors v)
                 subj k Hc Hno).
      + apply (hoare_correct_intended_fors (x :: l) rps v
                 (all_intended_fors v) c0 Hc Hal (same_entries_refl _)).
    - auto.
    - auto.
    - intros e w [_ []]. }
  intros nf.
  apply hoare_pre
    with (P' := fun w => modify_calls w
                         = c0 ++ expected_calls rps v (all_intended_fors v)
                         /\ get2 subj k nf = None); [|tauto].
  apply hoare_pure_pre'. intros Hnf.
  eapply hoare_weaken.
  - apply hoare_and; [apply hoare_and|].
    + apply hoare_pre with (P' := fun _ => True); [|auto].
      apply (write_final_values_never_unmatched args path v nf subj dirs k ds
               Hd Hk Hne Hnf).
    + apply hoare_pre with (P' := fun _ => True); [|auto].
      apply (write_final_values_KeyError args path v nf).
    + apply (stable_write_final_values
               (same_calls (c0 ++ expected_calls rps v (all_intended_fors v)))
               (same_calls_stdout _) path (same_calls_file _ path)
               args v nf).
  - auto.
  - intros a w [[[] _] _].
  - intros e w [[_ He] Hcalls]. split; [exact He|exact Hcalls].
Qed.

Lemma write_intendedfors_only_Folder args path v :
  verbose args = 0 -> intended_for_given args = false -> all_aligned v ->
  raises_only (eq (KeyError "Folder")) (write_intendedfors args path v).
Proof.
  intros Hq Hi Hal. unfold write_intendedfors.
  apply ro_bind; [now intros w _|intros _].
  replace (0 <? verbose args)%nat with false by (now rewrite Hq).
  apply (ro_bind_val _ _ _ (all_intended_fors v)); [now intros w _|].
  apply (ro_bind_val _ _ _ (all_intended_fors v)).
  { unfold intended_for_given in Hi.
    destruct (intended_for args) as [[|y l]|];
      [now intros w _|discriminate|now intros w _]. }
  apply write_final_values_only_Folder; [exact Hal|].
  intros subj dirs k Hd Hk.
  destruct (all_aligned_lookup v subj dirs k Hal Hd Hk) as [[old ->] _].
  discriminate.
Qed.

(** The acquisition table is not written before the block of the IntendedFor
    file has ended. *)
Lemma no_acquisitions_file_yet args fw g p v w :
  ~ has_file (acquisitions_name g p) w ->
  ~ has_file (acquisitions_name g p)
      (fst (write_intendedfors args (intendedfors_name g p) v
              (before_intendedfors args fw g p v w))).
Proof.
  intros Hno. destruct (names_distinct g p) as (_ & N13 & N23).
  pose proof (hoare_write_intendedfors
                (fun w' => ~ has_file (acquisitions_name g p) w')
                (no_file_stdout _) (intendedfors_name g p)
                (no_file_file _ _ N23)
                (fun w' => ~ has_file (acquisitions_name g p) w')
                args v) as H.
  assert (H3 : ~ has_file (acquisitions_name g p)
                   (before_intendedfors args fw g p v w)).
  { unfold before_intendedfors.
    apply (no_file_file _ _ N13 (with_stdout w _)). exact Hno. }
  specialize (H (fun w' Hw' => no_file_file _ _ N23 w' [] Hw')
                (fun _ => no_file_calls _) _ H3).
  now destruct (write_intendedfors _ _ _ _) as [w4 [[]|e]].
Qed.

End Errors.

(** X11: with [--intended-for] and without [-v], on a project that is found
    and with patterns that compile: when the scan recorded a fieldmap file
    with at least one folder entry whose name the first regex of no pair
    matches, the run ends with an uncaught [KeyError].  The calls of the
    correction have been sent to the platform by then, and the acquisition
    table is not written. *)
Theorem unmatched_fieldmap_ends_in_KeyError `{RE : RegexEngine}
  (flywheel_Client : string -> Client) (args : Args) (w : World)
  (project : Project) (x : string) (l : list string)
  (rps : list (regex * regex)) :
  let fw := connect flywheel_Client args in
  let g := group_label args in
  let p := project_label args in
  let v := scan args project in
  let run := main flywheel_Client args w in
  projects_find_one fw (project_query g p) = Some project ->
  intended_for args = Some (x :: l) ->
  compile_all (string_pairs (x :: l)) = Some rps ->
  verbose args = 0 ->
  unmatched_fieldmap rps v = true ->
  (exists k, snd run = Raise (KeyError k))
  /\ modify_calls (fst run)
     = modify_calls w ++ expected_calls rps v (all_intended_fors v)
  /\ (~ has_file (acquisitions_name g p) w ->
      ~ has_file (acquisitions_name g p) (fst run)).
Proof.
  intros fw g p v run Hfind Hi Hc Hq Hu. unfold run.
  rewrite (main_unfold flywheel_Client args project w Hfind).
  fold fw g p v.
  pose proof (no_acquisitions_file_yet args fw g p v w) as H2.
  set (w3 := before_intendedfors args fw g p v w) in *.
  pose proof (write_intendedfors_unmatched args (intendedfors_name g p) v x l
                rps (modify_calls w) Hi Hc Hq (all_aligned_scan args project)
                Hu w3 eq_refl) as H1.
  destruct (write_intendedfors args (intendedfors_name g p) v w3)
    as [w4 [[]|e]]; [destruct H1|].
  destruct H1 as [[k ->] Hcalls]. cbn [fst snd] in *.
  split; [now exists k|]. split; [exact Hcalls|exact H2].
Qed.

(** X12: on a project that is found, when a folder entry recorded for a
    fieldmap file has no ["Folder"] key, every run ends with an uncaught
    exception, whatever its options, and the acquisition table is not
    written; without [-v] and without [--intended-for] the exception is the
    [KeyError] of that key. *)
Theorem missing_Folder_key_stops_the_run `{RE : RegexEngine}
  (flywheel_Client : string -> Client) (args : Args) (w : World)
  (project : Project) :
  let fw := connect flywheel_Client args in
  let g := group_label args in
  let p := project_label args in
  let run := main flywheel_Client args w in
  projects_find_one fw (project_query g p) = Some project ->
  folders_present (scan args project) = false ->
  (exists e, snd run = Raise e)
  /\ (verbose args = 0 -> intended_for_given args = false ->
      snd run = Raise (KeyError "Folder"))
  /\ (~ has_file (acquisitions_name g p) w ->
      ~ has_file (acquisitions_name g p) (fst run)).
Proof.
  intros fw g p run Hfind Hf. unfold run.
  rewrite (main_unfold flywheel_Client args project w Hfind).
  fold fw g p.
  pose proof (no_acquisitions_file_yet args fw g p (scan args project) w)
    as H2.
  set (w3 := before_intendedfors args fw g p (scan args project) w) in *.
  pose proof (never_write_intendedfors args (intendedfors_name g p)
                (scan args project)
                (fun nf => write_final_values_never_Folder
                             args (intendedfors_name g p) (scan args project)
                             nf Hf)
                w3 I) as H1.
  pose proof (fun Hq Hi =>
                write_intendedfors_only_Folder args (intendedfors_name g p)
                  (scan args project) Hq Hi (all_aligned_scan args project)
                  w3 I) as H3.
  destruct (write_intendedfors args (intendedfors_name g p)
              (scan args project) w3) as [w4 [[]|e]]; [destruct H1|].
  cbn [fst snd] in *. split; [now exists e|]. split; [|exact H2].
  intros Hq Hi. now rewrite (H3 Hq Hi).
Qed.

(** ** The order of the rows *)

Lemma sorted_by_cons {A} (leb : A -> A -> bool) x l :
  sorted_by leb (x :: l)
  = match l with [] => true | y :: _ => leb x y end && sorted_by leb l.
Proof. destruct l as [|y l]; [reflexivity|]. reflexivity. Qed.

Lemma insert_sorted_sorted {A} (leb : A -> A -> bool) x l :
  (forall a b, leb a b = false -> leb b a = true) ->
  sorted_by leb l = true -> sorted_by leb (insert_sorted leb x l) = true.
Proof.
  intros Htot. induction l as [|y l IH]; intros H; [reflexivity|].
  cbn [insert_sorted]. destruct (leb x y) eqn:E.
  - rewrite sorted_by_cons. now rewrite E, H.
  - rewrite sorted_by_cons in H. apply andb_true_iff in H as [Hy Hl].
    rewrite sorted_by_cons. rewrite (IH Hl), andb_true_r.
    destruct l as [|z l]; cbn [insert_sorted].
    + now apply Htot.
    + destruct (leb x z); [now apply Htot|exact Hy].
Qed.

Lemma sort_by_sorted {A} (leb : A -> A -> bool) l :
  (forall a b, leb a b = false -> leb b a = true) ->
  sorted_by leb (sort_by leb l) = true.
Proof.
  intros Htot. induction l as [|x l IH]; [reflexivity|].
  cbn [sort_by fold_right]. now apply insert_sorted_sorted.
Qed.

Lemma sorted_by_map {A B} (leb : A -> A -> bool) (leb' : B -> B -> bool)
  (f : A -> B) l :
  (forall a b, leb' (f a) (f b) = leb a b) ->
  sorted_by leb' (map f l) = sorted_by leb l.
Proof.
  intros H. induction l as [|x l IH]; [reflexivity|].
  cbn [map]. rewrite !sorted_by_cons, IH.
  destruct l as [|y l]; [reflexivity|]. cbn [map]. now rewrite H.
Qed.

Lemma cell_leb_total a b :
  Pandas.cell_leb a b = false -> Pandas.cell_leb b a = true.
Proof.
  destruct a as [s|x|], b as [t|y|]; cbn; try congruence.
  - intros H. destruct (String.leb_total s t); congruence.
  - intros H. apply Z.leb_gt in H. apply Z.leb_le. lia.
Qed.

Lemma subject_block_sorted s : sorted_by path_leb (subject_block s) = true.
Proof.
  unfold subject_block, Pandas.sort_values. cbn [rows columns subject_frame].
  rewrite (sorted_by_map
             (fun r1 r2 =>
                Pandas.cell_leb
                  (Pandas.cell_at nifti_df_columns "Curated BIDS path" (snd r1))
                  (Pandas.cell_at nifti_df_columns "Curated BIDS path" (snd r2)))
             path_leb).
  - apply sort_by_sorted. intros a b. apply cell_leb_total.
  - intros a b. reflexivity.
Qed.

(** X13: the rows of the frame written to the per-file CSV come in one block
    per subject, the blocks in the order in which the platform lists the
    subjects (not sorted by subject label); a block holds the rows of the
    files of its subject, in non-decreasing order of their curated BIDS
    path. *)
Theorem rows_are_grouped_by_subject_and_sorted_by_path
  (args : Args) (p : Project) :
  exists blocks,
    rows (all_df (scan args p)) = List.concat blocks
    /\ Forall2 (fun s block =>
                  sorted_by path_leb block = true
                  /\ Permutation (map snd block) (subject_table s))
               (proj_subjects p) blocks.
Proof.
  exists (map subject_block (proj_subjects p)). split.
  - rewrite (proj1 (all_df_scan args p)). apply flat_map_concat_map.
  - induction (proj_subjects p) as [|s l IH]; constructor; [|exact IH].
    split; [apply subject_block_sorted|apply subject_block_perm].
Qed.

(** ** The count of duplicates *)

Lemma list_sum_cons a l : list_sum (a :: l) = a + list_sum l.
Proof. reflexivity. Qed.

Lemma num_duplicates_sum args subjects : forall v,
  num_duplicates (fold_left (scan_subject args) subjects v)
  = num_duplicates v
    + list_sum (map (fun s => dups_after Dict.empty 0 (subject_paths s))
                    subjects).
Proof.
  induction subjects as [|s l IH]; intros v; cbn [fold_left map].
  - cbn. lia.
  - rewrite IH, list_sum_cons.
    destruct (scan_subject_spec args v s) as (_ & _ & ->). lia.
Qed.

Lemma mem_set (k q : string) (n : nat) (d : Dict.t nat) :
  Dict.mem q (Dict.set k n d) = (k =? q)%string || Dict.mem q d.
Proof.
  unfold Dict.mem. destruct (String.eqb_spec k q) as [->|N].
  - now rewrite DictFacts.get_set_same.
  - now rewrite DictFacts.get_set_other.
Qed.

Lemma dups_after_cons seen nd p r :
  dups_after seen nd (p :: r)
  = if is_placeholder p then dups_after seen nd r
    else (if Dict.mem p seen then 1 else 0)
         + dups_after (Dict.set p (prior seen p) seen) nd r.
Proof.
  unfold dups_after at 1. rewrite duplicate_pass_cons. cbv zeta. cbn [fst snd].
  destruct (is_placeholder p) eqn:E.
  - now rewrite detect_duplicate_placeholder.
  - rewrite (detect_duplicate_path _ _ _ E). cbn [fst snd].
    rewrite dups_after_shift.
    rewrite (dups_after_shift _ nd). lia.
Qed.

Lemma flags_after_cons seen nd p r :
  flags_after seen nd (p :: r)
  = if is_placeholder p then "" :: flags_after seen nd r
    else flag_after (prior seen p)
         :: flags_after (Dict.set p (prior seen p) seen) nd r.
Proof.
  unfold flags_after at 1. rewrite duplicate_pass_cons. cbv zeta. cbn [fst snd].
  destruct (is_placeholder p) eqn:E.
  - now rewrite detect_duplicate_placeholder.
  - rewrite (detect_duplicate_path _ _ _ E). cbn [fst snd].
    f_equal. apply flags_after_dups.
Qed.

(** The duplicates a pass counts are the files it finds in the mapping. *)
Lemma dups_none paths : forall seen nd,
  dups_after seen nd paths = nd
  <-> NoDup (filter (fun q => negb (is_placeholder q)) paths)
      /\ forall q, In q (filter (fun q => negb (is_placeholder q)) paths) ->
                   Dict.mem q seen = false.
Proof.
  induction paths as [|p r IH]; intros seen nd.
  - cbn. split; [intros _; split; [constructor|tauto]|reflexivity].
  - rewrite dups_after_cons. cbn [filter].
    destruct (is_placeholder p) eqn:E; cbn [negb]; [apply IH|].
    rewrite dups_after_shift.
    specialize (IH (Dict.set p (prior seen p) seen) 0).
    rewrite NoDup_cons_iff.
    split.
    + intros H.
      assert (Hm : Dict.mem p seen = false)
        by (destruct (Dict.mem p seen); [lia|reflexivity]).
      rewrite Hm in H.
      assert (H0 : dups_after (Dict.set p (prior seen p) seen) 0 r = 0) by lia.
      apply IH in H0 as [Hnd Hq].
      repeat split.
      * intros Hin. specialize (Hq p Hin). rewrite mem_set in Hq.
        now rewrite String.eqb_refl in Hq.
      * exact Hnd.
      * intros q [<-|Hin]; [exact Hm|].
        specialize (Hq q Hin). rewrite mem_set in Hq.
        now apply orb_false_iff in Hq.
    + intros [[Hnin Hnd] Hq].
      rewrite (Hq p (or_introl eq_refl)).
      assert (H0 : dups_after (Dict.set p (prior seen p) seen) 0 r = 0).
      { apply IH. split; [exact Hnd|]. intros q Hin. rewrite mem_set.
        rewrite (Hq q (or_intror Hin)), orb_false_r.
        apply String.eqb_neq. intros ->. now apply Hnin. }
      lia.
Qed.

Lemma list_sum_zero l : list_sum l = 0 <-> forall n, In n l -> n = 0.
Proof.
  induction l as [|a l IH].
  - cbn. split; [tauto|reflexivity].
  - rewrite list_sum_cons. cbn [In]. split.
    + intros H n [<-|Hin]; [lia|]. apply IH; [lia|exact Hin].
    + intros H. rewrite (H a (or_introl eq_refl)).
      apply IH. intros n Hin. apply H. now right.
Qed.

Lemma no_duplicates_iff args p :
  num_duplicates (scan args p) = 0
  <-> forall s, In s (proj_subjects p) -> NoDup (detected_paths s).
Proof.
  unfold scan. rewrite num_duplicates_sum. cbn [num_duplicates initial_vars].
  rewrite Nat.add_0_l, list_sum_zero. split.
  - intros H s Hs.
    assert (H0 : dups_after Dict.empty 0 (subject_paths s) = 0).
    { apply H. apply in_map_iff. now exists s. }
    now apply dups_none in H0 as [H0 _].
  - intros H n Hn. apply in_map_iff in Hn as (s & <- & Hs).
    apply dups_none. split; [now apply H|reflexivity].
Qed.

(** X14: the run reports ["No duplicates were found."] exactly when, within
    every subject, the curated BIDS paths of the files that take part in the
    detection (those that are none of the three placeholders) are pairwise
    distinct; the same path in two subjects does not count. *)
Theorem no_duplicates_reported_iff_paths_distinct
  (args : Args) (p : Project) (w : World) :
  report_duplicates p (scan args p) w
  = (with_stdout w ["No duplicates were found."], Ok tt)
  <-> forall s, In s (proj_subjects p) -> NoDup (detected_paths s).
Proof.
  rewrite report_after_scan, <- (no_duplicates_iff args p).
  destruct (num_duplicates (scan args p)) as [|n]; cbn [Nat.ltb Nat.leb].
  - split; reflexivity.
  - split; [|discriminate]. intros E.
    assert (E' : stdout (fst (with_stdout w
                    ("ERROR: the following BIDS paths appear more than once:"
                     :: duplicate_lines p (scan args p)), Ok tt))
                 = stdout (fst (with_stdout w ["No duplicates were found."],
                                @Ok unit tt))).
    { now rewrite E. }
    cbn in E'. apply app_inv_head in E'. discriminate.
Qed.

(** ** The rows flagged as duplicates *)

Lemma filter_length_perm {A} (f : A -> bool) l l' :
  Permutation l l' -> List.length (filter f l) = List.length (filter f l').
Proof.
  induction 1 as [|x l l' _ IH|x y l|l l' l'' _ IH1 _ IH2]; cbn.
  - reflexivity.
  - destruct (f x); cbn; congruence.
  - destruct (f x), (f y); reflexivity.
  - congruence.
Qed.

Lemma filter_length_flat_map {A B} (f : B -> bool) (g : A -> list B) l :
  List.length (filter f (flat_map g l))
  = list_sum (map (fun a => List.length (filter f (g a))) l).
Proof.
  induction l as [|a l IH]; [reflexivity|].
  cbn [flat_map map]. now rewrite list_sum_cons, filter_app, length_app, IH.
Qed.

Lemma prefix_app (p s : string) : String.prefix p (p ++ s) = true.
Proof.
  induction p as [|a p IH]; [apply prefix_empty|].
  cbn [String.append]. rewrite prefix_cons.
  destruct (ascii_dec a a); [exact IH|congruence].
Qed.

Lemma dups_count_flags paths : forall seen nd,
  dups_after seen nd paths
  = nd + List.length (filter (String.prefix "duplicate ")
                             (flags_after seen nd paths)).
Proof.
  induction paths as [|p r IH]; intros seen nd.
  - cbn. lia.
  - rewrite dups_after_cons, flags_after_cons.
    destruct (is_placeholder p).
    + cbn [filter]. change (String.prefix "duplicate " "") with false.
      apply IH.
    + cbn [filter]. rewrite IH. unfold prior, Dict.mem.
      destruct (Dict.get p seen) as [n|].
      * cbn [flag_after]. rewrite prefix_app. cbn [List.length]. lia.
      * change (String.prefix "duplicate " (flag_after 0)) with false. lia.
Qed.

Lemma map_snd_combine {A B} (l : list A) (l' : list B) :
  List.length l = List.length l' -> map snd (combine l l') = l'.
Proof.
  revert l'. induction l as [|a l IH]; intros [|b l'] H; try discriminate;
    [reflexivity|].
  cbn. f_equal. apply IH. now injection H.
Qed.

Lemma flagged_subject_block s :
  List.length (filter flagged_duplicate (subject_block s))
  = dups_after Dict.empty 0 (subject_paths s).
Proof.
  rewrite (dups_count_flags _ Dict.empty 0), Nat.add_0_l.
  fold (subject_flags s).
  transitivity
    (List.length
       (filter (fun row =>
                  String.prefix "duplicate "
                    (str_of_cell (Pandas.cell_at final_columns "Unique?" row)))
               (map snd (subject_block s)))).
  { induction (subject_block s) as [|r l IH]; [reflexivity|].
    cbn [map filter]. unfold flagged_duplicate at 1.
    destruct (String.prefix _ _); cbn [List.length]; now rewrite IH. }
  rewrite (filter_length_perm _ _ _ (subject_block_perm s)).
  unfold subject_table.
  rewrite <- (map_snd_combine (subject_files s) (subject_flags s)) at 2
    by (now rewrite subject_flags_length).
  induction (combine (subject_files s) (subject_flags s)) as [|[x u] l IH];
    [reflexivity|].
  cbn [map filter snd fst].
  change (str_of_cell (Pandas.cell_at final_columns "Unique?"
                         (all_df_row s x u))) with u.
  destruct (String.prefix "duplicate " u); cbn [List.length]; now rewrite IH.
Qed.

(** X15: when the scan is done, the counter [num_duplicates] that decides
    between the two forms of the report equals the number of rows of the
    frame whose uniqueness flag is [duplicate n]. *)
Theorem num_duplicates_counts_the_flagged_rows (args : Args) (p : Project) :
  num_duplicates (scan args p)
  = List.length (filter flagged_duplicate (rows (all_df (scan args p)))).
Proof.
  rewrite (proj1 (all_df_scan args p)), filter_length_flat_map.
  unfold scan. rewrite num_duplicates_sum. cbn [num_duplicates initial_vars].
  rewrite Nat.add_0_l. f_equal. apply map_ext. intros s.
  symmetry. apply flagged_subject_block.
Qed.

(** ** Where the overwrites come from *)

Section Sound.
Context `{RE : RegexEngine}.

Lemma main_fst flywheel_Client args w :
  let fw := connect flywheel_Client args in
  fst (main flywheel_Client args w)
  = fst (save_curation_csvs args fw (group_label args) (project_label args)
           (with_stdout w [api_url fw])).
Proof.
  intros fw. unfold main. fold fw.
  rewrite (bind_Ok _ _ w (with_stdout w [api_url fw]) tt) by reflexivity.
  unfold bind.
  now destruct (save_curation_csvs _ _ _ _ _) as [w' [[]|e]].
Qed.

Lemma recorded_file_is_fieldmap project label name f :
  recorded_file project label name = Some f ->
  is_fieldmap (snd f) = true /\ file_name (snd f) = name.
Proof.
  unfold recorded_file, recorded_in_subject.
  destruct (find _ (rev (proj_subjects project))) as [s|]; [|discriminate].
  intros H. apply find_some in H as [_ H].
  apply andb_true_iff in H as [H1 H2]. split; [exact H1|].
  now apply String.eqb_eq.
Qed.

Lemma expected_calls_sound args project rps fors c :
  let v := scan args project in
  same_entries (all_intended_fors v) fors ->
  In c (expected_calls rps v fors) ->
  exists label f rx old,
    recorded_file project label (mc_file_name c) = Some f
    /\ mc_acquisition_id c = acq_id (snd (fst f))
    /\ In rx rps
    /\ re_search (fst rx) (mc_file_name c) = true
    /\ Permutation (fieldmap_list (snd f)) old
    /\ get2 label (mc_file_name c) fors = Some old
    /\ mc_IntendedFor c = filter (re_search (snd rx)) old.
Proof.
  intros v Hsame Hc. unfold expected_calls in Hc.
  apply in_flat_map in Hc as (subj & _ & Hc).
  unfold calls_of_subject in Hc.
  destruct (Dict.get subj (all_intended_for_dirs v)) as [dirs|];
    [|destruct Hc].
  apply in_flat_map in Hc as (name & _ & Hc).
  unfold calls_of_file in Hc.
  apply in_flat_map in Hc as (rx & Hrx & Hc).
  destruct (re_search (fst rx) name) eqn:Em; [|destruct Hc].
  destruct (get2 subj name fors) as [old|] eqn:Eo; [|destruct Hc].
  destruct (get2 subj name (all_intended_for_acq_id v)) as [id|] eqn:Ei;
    [|destruct Hc].
  destruct Hc as [<-|[]]. cbn [mc_file_name mc_acquisition_id mc_IntendedFor].
  specialize (Hsame subj name). rewrite Eo in Hsame.
  destruct (get2 subj name (all_intended_fors v)) as [l0|] eqn:E0;
    [|destruct Hsame].
  destruct (recorded_file_spec args project subj name) as [R1 R2].
  fold v in R1, R2. rewrite E0 in R1. rewrite Ei in R2.
  destruct (recorded_file project subj name) as [f|] eqn:Er; [|discriminate].
  cbn [option_map] in R1, R2. injection R1 as ->. injection R2 as ->.
  exists subj, f, rx, old. repeat split; auto.
Qed.

End Sound.

(** X16: with [--intended-for], on a project that is found and with patterns
    that compile, every modifying call that a run adds overwrites the list
    of a fieldmap file that the scan recorded: the call names that file and
    its acquisition, and the new list holds entries of the list of that very
    file and nothing else, in their order when the run is without [-v]. *)
Theorem every_overwrite_comes_from_its_own_file `{RE : RegexEngine}
  (flywheel_Client : string -> Client) (args : Args) (w : World)
  (project : Project) (x : string) (l : list string)
  (rps : list (regex * regex)) :
  let fw := connect flywheel_Client args in
  projects_find_one fw (project_query (group_label args) (project_label args))
  = Some project ->
  intended_for args = Some (x :: l) ->
  compile_all (string_pairs (x :: l)) = Some rps ->
  exists sent,
    modify_calls (fst (main flywheel_Client args w)) = modify_calls w ++ sent
    /\ Forall (overwrite_of_recorded_file project rps (0 <? verbose args)%nat)
              sent.
Proof.
  intros fw Hfind Hi Hc. rewrite main_fst. fold fw.
  pose proof (save_with_intended_for args fw (group_label args)
                (project_label args) project x l rps (modify_calls w)
                Hfind Hi Hc (with_stdout w [api_url fw]) eq_refl) as H.
  cbv zeta in H. unfold calls_only in H.
  assert (H' : (exists fors,
                  same_entries (all_intended_fors (scan args project)) fors
                  /\ (verbose args = 0 ->
                      fors = all_intended_fors (scan args project))
                  /\ modify_calls
                       (fst (save_curation_csvs args fw (group_label args)
                               (project_label args)
                               (with_stdout w [api_url fw])))
                     = modify_calls w
                       ++ expected_calls rps (scan args project) fors)
               \/ modify_calls
                    (fst (save_curation_csvs args fw (group_label args)
                            (project_label args)
                            (with_stdout w [api_url fw])))
                  = modify_calls w).
  { destruct (save_curation_csvs _ _ _ _ _) as [w' [[]|e]]; cbn [fst].
    - now left.
    - destruct H as [H|[_ H]]; [now left|now right]. }
  destruct H' as [(fors & Hsame & Hq & Hcalls)|Hcalls].
  - exists (expected_calls rps (scan args project) fors).
    split; [exact Hcalls|]. apply Forall_forall. intros c Hin.
    destruct (expected_calls_sound args project rps fors c Hsame Hin)
      as (label & f & rx & old & Hr & Hid & Hrx & Hm & Hp & Ho & Hl).
    destruct (recorded_file_is_fieldmap _ _ _ _ Hr) as [Hf Hn].
    exists label, f, rx, old. repeat split; auto.
    intros Hv. apply Nat.ltb_ge in Hv.
    assert (Hv0 : verbose args = 0) by lia.
    specialize (Hq Hv0). subst fors.
    destruct (recorded_file_spec args project label (mc_file_name c))
      as [R1 _].
    rewrite Ho, Hr in R1. cbn in R1. now injection R1.
  - exists []. split; [now rewrite app_nil_r|constructor].
Qed.

(** ** Examples of the further properties *)

(** Two files without ["Filename"] in one subject: the second is a
    duplicate. *)
Lemma files_missing_the_same_keys_witness :
  exists n,
    0 < n
    /\ nth_error (subject_flags Cases.incomplete_subject) 1
       = Some ("duplicate " ++ Str.of_nat n)%string.
Proof.
  destruct (files_missing_the_same_keys_are_flagged_duplicates
              (Example.args None 0) Cases.incomplete_project
              Cases.incomplete_subject 0 1
              (Cases.incomplete_session,
               Cases.acquisition_of "acq6" "T1w"
                 (Cases.without_filename "T1w.nii.gz"),
               Cases.without_filename "T1w.nii.gz")
              (Cases.incomplete_session,
               Cases.acquisition_of "acq7" "T2w"
                 (Cases.without_filename "T2w.nii.gz"),
               Cases.without_filename "T2w.nii.gz")
              {| bids_ignore := Some false; bids_Folder := Some "anat";
                 bids_Filename := None; bids_IntendedFor := None |}
              {| bids_ignore := Some false; bids_Folder := Some "anat";
                 bids_Filename := None; bids_IntendedFor := None |}
              (or_introl eq_refl) eq_refl eq_refl (le_n 1) eq_refl eq_refl
              eq_refl ltac:(discriminate))
    as (_ & n & Hn & Hf & _).
  exists n. split; [exact Hn|exact Hf].
Defined.

(** The example project, without options: exit status 0, and the IntendedFor
    file holds the final values of the one fieldmap name recorded. *)
Lemma quiet_run_witness :
  snd (main (RE := Example.literal_regex) Example.client
            (Example.args None 0) empty_world) = Ok 0
  /\ Dict.get "lab_study_1_intendedfors.csv"
       (files (fst (main (RE := Example.literal_regex) Example.client
                         (Example.args None 0) empty_world)))
     = Some [[CStr ""; CStr ""; CStr ""];
             [CStr "acquisition label"; CStr "file name and folder";
              CStr "IntendedFor List of BIDS paths"];
             [CStr "fmap"; CStr "fmap.nii.gz"];
             [CStr ""; CStr "func"];
             [CStr ""; CStr ""; CStr "func/run-2_bold.nii.gz"]].
Proof.
  assert (F : folders_present (scan (Example.args None 0) Example.project)
              = true) by (vm_compute; reflexivity).
  destruct (quiet_run_without_correction_succeeds
              (RE := Example.literal_regex) Example.client
              (Example.args None 0) empty_world Example.project
              eq_refl eq_refl eq_refl F) as [E _].
  rewrite E. clear. vm_compute. split; reflexivity.
Defined.

(** A run that ends with an exception after the scan leaves the per-file CSV
    behind. *)
Lemma niftis_file_witness :
  Dict.get (niftis_name "lab" "study 1")
    (files (fst (main (RE := Example.literal_regex) Cases.broken_client
                      (Example.args None 0) empty_world)))
  = Some (Pandas.to_csv_rows
            (all_df (scan (Example.args None 0) Cases.broken_project))).
Proof.
  exact (niftis_file_is_written_whatever_follows
           (RE := Example.literal_regex) Cases.broken_client
           (Example.args None 0) empty_world Cases.broken_project eq_refl).
Defined.

(** In the example project, the pattern ["T1w"] matches no fieldmap file. *)
Lemma unmatched_fieldmap_witness :
  exists k,
    snd (main (RE := Example.literal_regex) Example.client
              (Example.args (Some ["T1w"; "run-2"]) 0) empty_world)
    = Raise (KeyError k).
Proof.
  assert (U : unmatched_fieldmap (RE := Example.literal_regex)
                [("T1w", "run-2")]
                (scan (Example.args (Some ["T1w"; "run-2"]) 0)
                      Example.project) = true)
    by (vm_compute; reflexivity).
  exact (proj1 (unmatched_fieldmap_ends_in_KeyError
                  (RE := Example.literal_regex) Example.client
                  (Example.args (Some ["T1w"; "run-2"]) 0) empty_world
                  Example.project "T1w" ["run-2"] [("T1w", "run-2")]
                  eq_refl eq_refl eq_refl eq_refl U)).
Defined.

(** A folder entry without ["Folder"]. *)
Lemma missing_Folder_key_witness :
  snd (main (RE := Example.literal_regex) Cases.broken_client
            (Example.args None 0) empty_world)
  = Raise (KeyError "Folder").
Proof.
  assert (F : folders_present (scan (Example.args None 0)
                                    Cases.broken_project) = false)
    by (vm_compute; reflexivity).
  exact (proj1 (proj2 (missing_Folder_key_stops_the_run
                         (RE := Example.literal_regex) Cases.broken_client
                         (Example.args None 0) empty_world
                         Cases.broken_project eq_refl F))
               eq_refl eq_refl).
Defined.

(** The calls of the example run with the pair [fmap], [run-2]. *)
Lemma every_overwrite_witness :
  exists sent,
    modify_calls
      (fst (main (RE := Example.literal_regex) Example.client
                 (Example.args (Some ["fmap"; "run-2"]) 0) empty_world))
    = modify_calls empty_world ++ sent
    /\ Forall (overwrite_of_recorded_file (RE := Example.literal_regex)
                 Example.project [("fmap", "run-2")] false)
              sent.
Proof.
  exact (every_overwrite_comes_from_its_own_file
           (RE := Example.literal_regex) Example.client
           (Example.args (Some ["fmap"; "run-2"]) 0) empty_world
           Example.project "fmap" ["run-2"] [("fmap", "run-2")]
           eq_refl eq_refl eq_refl).
Defined.

(** ** The lists the correction block computes *)

Section Corrected.
Context `{RE : RegexEngine}.

Lemma correct_intended_fors_eq l v fors :
  correct_intended_fors l v fors
  = (regex_pairs <- compile_pairs (string_pairs l) ;;
     foldM (correct_subject v fors regex_pairs) Dict.empty
           (Dict.keys (all_intended_for_dirs v))).
Proof. reflexivity. Qed.

Lemma correct_pair_spec v fors subj name nf rx d old id w :
  Dict.get subj nf = Some d ->
  get2 subj name fors = Some old ->
  get2 subj name (all_intended_for_acq_id v) = Some id ->
  exists w' nf',
    correct_pair v fors subj name nf rx w = (w', Ok nf')
    /\ (exists d', Dict.get subj nf' = Some d')
    /\ (forall s, s <> subj -> Dict.get s nf' = Dict.get s nf)
    /\ (forall n, n <> name -> get2 subj n nf' = get2 subj n nf)
    /\ get2 subj name nf'
       = if re_search (fst rx) name
         then Some (filter (re_search (snd rx)) old)
         else get2 subj name nf.
Proof.
  intros Hd Ho Hi. unfold correct_pair.
  destruct (re_search (fst rx) name).
  - set (nf1 := Dict.set subj (Dict.set name [] d) nf).
    set (kept := filter (re_search (snd rx)) old).
    set (nf2 := Dict.set subj (Dict.set name kept (Dict.set name [] d)) nf1).
    assert (H1 : Dict.get subj nf1 = Some (Dict.set name [] d))
      by apply DictFacts.get_set_same.
    assert (H2 : get2 subj name nf2 = Some kept) by apply get2_set2.
    eexists _, nf2. split.
    { rewrite (bind_Ok _ _ _ _ _ (set2M_Some subj name [] nf d w Hd)).
      rewrite (bind_Ok _ _ _ _ _ (get2M_Some _ _ _ _ _ Ho)).
      rewrite (bind_Ok _ _ _ _ _ (keep_matching_spec _ _ _)).
      rewrite (bind_Ok _ _ _ _ _ (set2M_Some subj name kept nf1 _ _ H1)).
      rewrite (bind_Ok _ _ _ _ _ (get2M_Some _ _ _ _ _ Hi)).
      rewrite (bind_Ok _ _ _ _ _ (get2M_Some _ _ _ _ _ H2)).
      reflexivity. }
    split; [eexists; apply DictFacts.get_set_same|].
    split; [|split; [|exact H2]].
    + intros s Hs. unfold nf2, nf1.
      rewrite !DictFacts.get_set_other by congruence. reflexivity.
    + intros n Hn. unfold nf2, get2.
      rewrite DictFacts.get_set_same, Hd.
      rewrite !DictFacts.get_set_other by congruence. reflexivity.
  - exists w, nf. repeat split; eauto.
Qed.

Lemma correct_pairs_spec v fors subj name old id rps : forall nf d w,
  Dict.get subj nf = Some d ->
  get2 subj name fors = Some old ->
  get2 subj name (all_intended_for_acq_id v) = Some id ->
  exists w' nf',
    foldM (correct_pair v fors subj name) nf rps w = (w', Ok nf')
    /\ (exists d', Dict.get subj nf' = Some d')
    /\ (forall s, s <> subj -> Dict.get s nf' = Dict.get s nf)
    /\ (forall n, n <> name -> get2 subj n nf' = get2 subj n nf)
    /\ get2 subj name nf'
       = match last_match rps name with
         | Some rx => Some (filter (re_search (snd rx)) old)
         | None => get2 subj name nf
         end.
Proof.
  induction rps as [|rx rps IH]; intros nf d w Hd Ho Hi.
  - exists w, nf. repeat split; eauto.
  - destruct (correct_pair_spec v fors subj name nf rx d old id w Hd Ho Hi)
      as (w1 & nf1 & E1 & [d1 Hd1] & Hs1 & Hn1 & Hg1).
    destruct (IH nf1 d1 w1 Hd1 Ho Hi)
      as (w2 & nf2 & E2 & Hd2 & Hs2 & Hn2 & Hg2).
    exists w2, nf2. split.
    { cbn [foldM]. now rewrite (bind_Ok _ _ _ _ _ E1). }
    split; [exact Hd2|]. split; [|split].
    + intros s Hs. now rewrite Hs2, Hs1.
    + intros n Hn. now rewrite Hn2, Hn1.
    + rewrite Hg2. unfold last_match. cbn [rev]. rewrite find_app_or.
      destruct (find _ (rev rps)) as [rx'|]; [reflexivity|].
      cbn [find]. rewrite Hg1.
      now destruct (re_search (fst rx) name).
Qed.

Lemma correct_files_spec v rps subj dirs names : forall nf d w,
  all_aligned v ->
  Dict.get subj (all_intended_for_dirs v) = Some dirs ->
  incl names (Dict.keys dirs) ->
  Dict.get subj nf = Some d ->
  exists w' nf',
    foldM (correct_file v (all_intended_fors v) rps subj) nf names w
    = (w', Ok nf')
    /\ (exists d', Dict.get subj nf' = Some d')
    /\ (forall s, s <> subj -> Dict.get s nf' = Dict.get s nf)
    /\ (forall n,
          get2 subj n nf'
          = match (if in_dec string_dec n names then last_match rps n
                   else None) with
            | Some rx =>
                Some (filter (re_search (snd rx)) (recorded_list v subj n))
            | None => get2 subj n nf
            end).
Proof.
  induction names as [|name names IH]; intros nf d w Hal Hdirs Hincl Hd.
  - exists w, nf. repeat split; eauto.
  - assert (Hk : In name (Dict.keys dirs)) by (apply Hincl; now left).
    destruct (all_aligned_lookup v subj dirs name Hal Hdirs Hk)
      as ([old Ho] & [id Hi] & _).
    destruct (correct_pairs_spec v (all_intended_fors v) subj name old id rps
                nf d (with_stdout w [name]) Hd Ho Hi)
      as (w1 & nf1 & E1 & [d1 Hd1] & Hs1 & Hn1 & Hg1).
    destruct (IH nf1 d1 w1 Hal Hdirs
                (fun n Hn => Hincl n (or_intror Hn)) Hd1)
      as (w2 & nf2 & E2 & Hd2 & Hs2 & Hg2).
    exists w2, nf2. split.
    { assert (F : correct_file v (all_intended_fors v) rps subj nf name w
                  = (w1, Ok nf1)).
      { unfold correct_file.
        rewrite (bind_Ok _ _ w (with_stdout w [name]) tt) by reflexivity.
        exact E1. }
      cbn [foldM]. now rewrite (bind_Ok _ _ _ _ _ F). }
    split; [exact Hd2|]. split.
    + intros s Hs. now rewrite Hs2, Hs1.
    + intros n. rewrite Hg2.
      assert (Hrec : recorded_list v subj name = old)
        by (unfold recorded_list; now rewrite Ho).
      destruct (in_dec string_dec n names) as [Hin|Hnin];
        destruct (in_dec string_dec n (name :: names)) as [Hin'|Hnin'];
        try (exfalso; apply Hnin'; now right).
      * destruct (last_match rps n) eqn:El; [reflexivity|].
        destruct (string_dec n name) as [->|Hne].
        -- now rewrite Hg1, El.
        -- now apply Hn1.
      * destruct Hin' as [<-|Hin']; [|contradiction].
        rewrite Hg1, Hrec. reflexivity.
      * apply Hn1. intros ->. apply Hnin'. now left.
Qed.

Lemma corrected_in_subject rps v subj dirs n :
  Dict.get subj (all_intended_for_dirs v) = Some dirs ->
  match (if in_dec string_dec n (Dict.keys dirs) then last_match rps n
         else None) with
  | Some rx => Some (filter (re_search (snd rx)) (recorded_list v subj n))
  | None => None
  end = corrected rps v subj n.
Proof.
  intros Hd. unfold corrected. rewrite Hd.
  destruct (in_dec string_dec n (Dict.keys dirs)) as [Hin|Hnin].
  - apply DictFacts.mem_keys in Hin. rewrite Hin.
    now destruct (last_match rps n).
  - destruct (Dict.mem n dirs) eqn:E; [|reflexivity].
    apply DictFacts.mem_keys in E. contradiction.
Qed.

Lemma correct_subjects_spec v rps subjects : forall nf w,
  all_aligned v ->
  incl subjects (Dict.keys (all_intended_for_dirs v)) ->
  exists w' nf',
    foldM (correct_subject v (all_intended_fors v) rps) nf subjects w
    = (w', Ok nf')
    /\ forall s n,
         get2 s n nf'
         = if in_dec string_dec s subjects then corrected rps v s n
           else get2 s n nf.
Proof.
  induction subjects as [|subj subjects IH]; intros nf w Hal Hincl.
  - exists w, nf. split; reflexivity.
  - assert (Hk : In subj (Dict.keys (all_intended_for_dirs v)))
      by (apply Hincl; now left).
    apply DictFacts.In_keys_get in Hk as [dirs Hd].
    destruct (correct_files_spec v rps subj dirs (Dict.keys dirs)
                (Dict.set subj Dict.empty nf) Dict.empty w Hal Hd
                (incl_refl _) (DictFacts.get_set_same _ _ _))
      as (w1 & nf1 & E1 & _ & Hs1 & Hg1).
    destruct (IH nf1 w1 Hal (fun s Hs => Hincl s (or_intror Hs)))
      as (w2 & nf2 & E2 & Hg2).
    exists w2, nf2. split.
    { assert (F : correct_subject v (all_intended_fors v) rps nf subj w
                  = (w1, Ok nf1)).
      { unfold correct_subject. cbv zeta.
        now rewrite (bind_Ok _ _ _ _ _ (getM_Some _ _ _ w Hd)). }
      cbn [foldM]. now rewrite (bind_Ok _ _ _ _ _ F). }
    intros s n. rewrite Hg2.
    destruct (in_dec string_dec s subjects) as [Hin|Hnin];
      destruct (in_dec string_dec s (subj :: subjects)) as [Hin'|Hnin'];
      try (exfalso; apply Hnin'; now right); [reflexivity| |].
    + destruct Hin' as [<-|Hin']; [|contradiction].
      rewrite Hg1. unfold get2 at 1.
      rewrite DictFacts.get_set_same. cbn [Dict.get].
      now apply corrected_in_subject.
    + assert (Hne : s <> subj) by (intros ->; apply Hnin'; now left).
      unfold get2. rewrite (Hs1 s Hne).
      now rewrite DictFacts.get_set_other by congruence.
Qed.

(** With patterns that compile, the correction block ends normally, and its
    new lists are those of the last matching pairs. *)
Lemma correct_intended_fors_total l rps v w :
  compile_all (string_pairs l) = Some rps ->
  all_aligned v ->
  exists w' nf,
    correct_intended_fors l v (all_intended_fors v) w = (w', Ok nf)
    /\ forall s n, get2 s n nf = corrected rps v s n.
Proof.
  intros Hc Hal. rewrite correct_intended_fors_eq.
  destruct (correct_subjects_spec v rps (Dict.keys (all_intended_for_dirs v))
              Dict.empty w Hal (incl_refl _)) as (w' & nf & E & Hg).
  exists w', nf. split.
  - unfold compile_pairs.
    now rewrite (bind_Ok _ _ _ _ _ (compile_pairs_Some _ rps [] w Hc)).
  - intros s n. rewrite Hg.
    destruct (in_dec string_dec s (Dict.keys (all_intended_for_dirs v)))
      as [Hin|Hnin]; [reflexivity|].
    apply DictFacts.get_None_keys in Hnin. unfold corrected.
    now rewrite Hnin.
Qed.

End Corrected.

Lemma set_get_same {V} k (x : V) d : Dict.get k d = Some x -> Dict.set k x d = d.
Proof.
  induction d as [|[k' x'] d IH]; [discriminate|]. cbn.
  destruct (k' =? k)%string eqn:E.
  - intros H. injection H as ->. apply String.eqb_eq in E. now subst.
  - intros H. now rewrite IH.
Qed.

Lemma existsb_false {A} (f : A -> bool) l x :
  existsb f l = false -> In x l -> f x = false.
Proof.
  intros H Hin. destruct (f x) eqn:E; [|reflexivity].
  rewrite <- H. symmetry. apply existsb_exists. now exists x.
Qed.

Section Succeeds.
Context `{RE : RegexEngine}.

Lemma matched_has_last_match rps v subj dirs k ds :
  unmatched_fieldmap rps v = false ->
  Dict.get subj (all_intended_for_dirs v) = Some dirs ->
  In (k, ds) dirs -> ds <> [] ->
  exists rx, last_match rps k = Some rx.
Proof.
  intros Hu Hd Hk Hne. unfold unmatched_fieldmap in Hu.
  assert (Hs : In subj (Dict.keys (all_intended_for_dirs v))).
  { apply DictFacts.get_Some_In in Hd. unfold Dict.keys.
    apply in_map_iff. now exists (subj, dirs). }
  pose proof (existsb_false _ _ subj Hu Hs) as H. cbn beta in H.
  rewrite Hd in H.
  pose proof (existsb_false _ _ (k, ds) H Hk) as H'. cbn [fst snd] in H'.
  destruct ds as [|i ds]; [congruence|].
  unfold no_pair_matches in H'. apply forallb_false in H' as (rx & Hrx & Hm).
  apply negb_false_iff in Hm. unfold last_match.
  destruct (find (fun rx => re_search (fst rx) k) (rev rps)) as [rx'|] eqn:E;
    [now exists rx'|].
  apply in_rev in Hrx.
  pose proof (find_none _ _ E rx Hrx) as Hn. cbn beta in Hn. congruence.
Qed.

Lemma write_intendedfors_corrected args path v x l rps w :
  intended_for args = Some (x :: l) ->
  compile_all (string_pairs (x :: l)) = Some rps ->
  verbose args = 0 -> all_aligned v ->
  folders_present v = true -> unmatched_fieldmap rps v = false ->
  exists w',
    write_intendedfors args path v w = (w', Ok tt)
    /\ files w'
       = Dict.set path
           ([CStr ""; CStr ""; CStr ""] :: intendedfors_header
            :: final_rows v (corrected_list rps v))
           (files w)
    /\ modify_calls w'
       = modify_calls w ++ expected_calls rps v (all_intended_fors v).
Proof.
  intros Hi Hc Hq Hal Hf Hu. unfold write_intendedfors. rewrite Hi.
  replace (0 <? verbose args)%nat with false by (now rewrite Hq).
  rewrite (bind_Ok _ _ w (with_file w path []) tt) by reflexivity.
  rewrite (bind_Ok _ _ _ (with_file w path []) (all_intended_fors v))
    by reflexivity.
  destruct (correct_intended_fors_total (x :: l) rps v (with_file w path [])
              Hc Hal) as (w5 & nf & E & Hg).
  pose proof (stable_correct_intended_fors
                (fun w' => files w' = files (with_file w path []))
                (fun w' out H => H) (x :: l) v (all_intended_fors v)
                (fun w' c H => H) (with_file w path []) eq_refl) as Hfiles.
  pose proof (hoare_correct_intended_fors (x :: l) rps v (all_intended_fors v)
                (modify_calls w) Hc Hal (same_entries_refl _)
                (with_file w path []) eq_refl) as Hcalls.
  rewrite E in Hfiles, Hcalls.
  rewrite (bind_Ok _ _ _ _ _ E).
  assert (W : w5 = with_file w5 path []).
  { destruct w5 as [so fs mc]. unfold with_file. cbn [stdout files modify_calls].
    cbn [files] in Hfiles. rewrite Hfiles. cbn [files with_file].
    now rewrite set_set. }
  rewrite W.
  rewrite (write_final_values_quiet args path v nf (corrected_list rps v) []
             w5 Hq Hal Hf).
  - eexists. split; [reflexivity|]. cbn [with_file files modify_calls app].
    rewrite Hfiles. cbn [with_file files]. rewrite set_set.
    split; [reflexivity|exact Hcalls].
  - intros subj dirs k ds Hd Hk Hne. rewrite Hg. unfold corrected.
    rewrite Hd.
    assert (Hkeys : In k (Dict.keys dirs)).
    { unfold Dict.keys. apply in_map_iff. now exists (k, ds). }
    apply DictFacts.mem_keys in Hkeys. rewrite Hkeys.
    destruct (matched_has_last_match rps v subj dirs k ds Hu Hd Hk Hne)
      as [rx Hrx].
    unfold corrected_list. now rewrite Hrx.
Qed.

End Succeeds.

(** X17: with [--intended-for] and without [-v], on a project that is found,
    with patterns that compile, when every folder entry has its ["Folder"]
    key and every recorded fieldmap file that has a folder entry is matched
    by the first regex of some pair, the run exits with status 0.  The calls
    of the correction are sent, the acquisition table is written, and the
    IntendedFor file shows for each fieldmap file the entries of its
    recorded list that the second regex of the last matching pair finds:
    when several pairs match a file, each sends its call and the last one
    wins. *)
Theorem correction_run_succeeds `{RE : RegexEngine}
  (flywheel_Client : string -> Client) (args : Args) (w : World)
  (project : Project) (x : string) (l : list string)
  (rps : list (regex * regex)) :
  let fw := connect flywheel_Client args in
  let g := group_label args in
  let p := project_label args in
  let v := scan args project in
  let run := main flywheel_Client args w in
  projects_find_one fw (project_query g p) = Some project ->
  intended_for args = Some (x :: l) ->
  compile_all (string_pairs (x :: l)) = Some rps ->
  verbose args = 0 ->
  folders_present v = true ->
  unmatched_fieldmap rps v = false ->
  snd run = Ok 0
  /\ modify_calls (fst run)
     = modify_calls w ++ expected_calls rps v (all_intended_fors v)
  /\ Dict.get (intendedfors_name g p) (files (fst run))
     = Some ([CStr ""; CStr ""; CStr ""] :: intendedfors_header
             :: final_rows v (corrected_list rps v))
  /\ Dict.get (acquisitions_name g p) (files (fst run))
     = Some (acquisitions_rows (acquisition_labels v)).
Proof.
  intros fw g p v run Hfind Hi Hc Hq Hf Hu. unfold run.
  rewrite (main_unfold flywheel_Client args project w Hfind).
  fold fw g p v.
  destruct (write_intendedfors_corrected args (intendedfors_name g p) v x l
              rps (before_intendedfors args fw g p v w) Hi Hc Hq
              (all_aligned_scan args project) Hf Hu)
    as (w4 & E & Hfiles & Hcalls).
  rewrite E. cbn [fst snd with_stdout with_file files modify_calls].
  destruct (names_distinct g p) as (_ & _ & N23).
  repeat split.
  - exact Hcalls.
  - rewrite DictFacts.get_set_other by (intros H; now apply N23).
    rewrite Hfiles. apply DictFacts.get_set_same.
  - apply DictFacts.get_set_same.
Qed.

(** Two pairs that both match the fieldmap file of the example project: the
    file shows the list of the second pair. *)
Lemma correction_run_witness :
  snd (main (RE := Example.literal_regex) Example.client
            (Example.args (Some ["fmap"; "run-1"; "fmap"; "run-2"]) 0)
            empty_world) = Ok 0
  /\ Dict.get "lab_study_1_intendedfors.csv"
       (files (fst (main (RE := Example.literal_regex) Example.client
                      (Example.args (Some ["fmap"; "run-1"; "fmap"; "run-2"])
                                    0)
                      empty_world)))
     = Some [[CStr ""; CStr ""; CStr ""];
             [CStr "acquisition label"; CStr "file name and folder";
              CStr "IntendedFor List of BIDS paths"];
             [CStr "fmap"; CStr "fmap.nii.gz"];
             [CStr ""; CStr "func"];
             [CStr ""; CStr ""; CStr "func/run-2_bold.nii.gz"]].
Proof.
  assert (F : folders_present
                (scan (Example.args (Some ["fmap"; "run-1"; "fmap"; "run-2"])
                                    0)
                      Example.project) = true) by (vm_compute; reflexivity).
  assert (U : unmatched_fieldmap (RE := Example.literal_regex)
                [("fmap", "run-1"); ("fmap", "run-2")]
                (scan (Example.args (Some ["fmap"; "run-1"; "fmap"; "run-2"])
                                    0)
                      Example.project) = false) by (vm_compute; reflexivity).
  destruct (correction_run_succeeds (RE := Example.literal_regex)
              Example.client
              (Example.args (Some ["fmap"; "run-1"; "fmap"; "run-2"]) 0)
              empty_world Example.project
              "fmap" ["run-1"; "fmap"; "run-2"]
              [("fmap", "run-1"); ("fmap", "run-2")]
              eq_refl eq_refl eq_refl eq_refl F U) as (H1 & _ & H3 & _).
  split; [exact H1|].
  etransitivity; [exact H3|]. clear. vm_compute. reflexivity.
Defined.

(** ** What the report lists *)

Lemma seen_after_cons seen nd p r :
  seen_after seen nd (p :: r)
  = if is_placeholder p then seen_after seen nd r
    else seen_after (Dict.set p (prior seen p) seen) nd r.
Proof.
  unfold seen_after at 1. rewrite duplicate_pass_cons. cbv zeta. cbn [fst snd].
  destruct (is_placeholder p) eqn:E.
  - now rewrite detect_duplicate_placeholder.
  - rewrite (detect_duplicate_path _ _ _ E). cbn [fst snd].
    apply flags_after_dups.
Qed.

Lemma NoDup_keys_seen_after paths : forall seen nd,
  NoDup (Dict.keys seen) -> NoDup (Dict.keys (seen_after seen nd paths)).
Proof.
  induction paths as [|p r IH]; intros seen nd H; [exact H|].
  rewrite seen_after_cons. destruct (is_placeholder p); [now apply IH|].
  apply IH. now apply DictFacts.NoDup_keys_set.
Qed.

Lemma get_subject_seen s q :
  Dict.get q (subject_seen s)
  = if is_placeholder q then None
    else match count_occ string_dec (subject_paths s) q with
         | 0 => None
         | S k => Some k
         end.
Proof.
  unfold subject_seen. destruct (is_placeholder q) eqn:E.
  - now rewrite placeholder_seen_after.
  - pose proof (prior_seen_after Dict.empty 0 (subject_paths s) q E) as H.
    unfold prior in H. cbn [Dict.get Dict.empty] in H.
    destruct (Dict.get q (seen_after Dict.empty 0 (subject_paths s)))
      as [n|]; cbn [Nat.add] in H; rewrite <- H; reflexivity.
Qed.

Lemma duplicate_lines_of_eq (seen : Dict.t nat) :
  duplicate_lines_of seen
  = map (String.append "  ")
        (filter (fun q => match Dict.get q seen with
                          | Some count => (0 <? count)%nat
                          | None => false
                          end)
                (Dict.keys seen)).
Proof.
  unfold duplicate_lines_of.
  induction (Dict.keys seen) as [|q l IH]; [reflexivity|].
  cbn [flat_map filter]. rewrite IH.
  destruct (Dict.get q seen) as [count|]; [|reflexivity].
  now destruct (0 <? count)%nat.
Qed.

(** X18: the lines that follow the heading of the report hold, for each
    subject in the order of the platform, the paths that occur more than
    once among the files of a subject and are no placeholder, each of them
    once; the subject whose paths are listed is the last one that bears the
    label, so that when two subjects share a label the paths of the later
    one are listed twice and those of the earlier one not at all. *)
Theorem report_lists_each_duplicated_path_once (args : Args) (p : Project) :
  duplicate_lines p (scan args p)
  = flat_map (fun s =>
                match last_with_label p (subj_label s) with
                | Some s' => duplicate_lines_of (subject_seen s')
                | None => []
                end)
             (proj_subjects p)
  /\ forall s,
       NoDup (duplicate_lines_of (subject_seen s))
       /\ forall line,
            In line (duplicate_lines_of (subject_seen s))
            <-> exists q, line = ("  " ++ q)%string /\ duplicated_in s q.
Proof.
  split.
  - unfold duplicate_lines. apply flat_map_ext. intros s.
    unfold scan, last_with_label. rewrite all_seen_paths_fold.
    now destruct (find _ (rev (proj_subjects p))).
  - intros s. rewrite duplicate_lines_of_eq. split.
    + apply Finite.Injective_map_NoDup.
      * intros a b E. now apply StrFacts.append_inj_l in E.
      * apply NoDup_filter. apply NoDup_keys_seen_after. constructor.
    + intros line. rewrite in_map_iff. unfold duplicated_in. split.
      * intros (q & <- & Hq). exists q. split; [reflexivity|].
        apply filter_In in Hq as [_ Hq]. rewrite get_subject_seen in Hq.
        destruct (is_placeholder q); [discriminate|]. split; [reflexivity|].
        destruct (count_occ string_dec (subject_paths s) q) as [|k];
          [discriminate|].
        apply Nat.ltb_lt in Hq. lia.
      * intros (q & -> & Hp & Hc). exists q. split; [reflexivity|].
        assert (Hg : Dict.get q (subject_seen s)
                     = Some (pred (count_occ string_dec (subject_paths s) q))).
        { rewrite get_subject_seen, Hp.
          destruct (count_occ string_dec (subject_paths s) q); [lia|].
          reflexivity. }
        apply filter_In. split.
        -- apply DictFacts.get_Some_In in Hg. unfold Dict.keys.
           apply in_map_iff. eexists. split; [|exact Hg]. reflexivity.
        -- rewrite Hg. apply Nat.ltb_lt. lia.
Qed.

(** ** The rows a command adds to a file *)

Lemma writes_ret {A} path rs (a : A) (Q : A -> Prop) :
  Q a -> writes path rs (ret a) Q rs.
Proof. intros H w Hw. now split. Qed.

Lemma writes_bind {A B} path rs rs1 rs2 (m : M A) (k : A -> M B)
  (Q1 : A -> Prop) (Q2 : B -> Prop) :
  writes path rs m Q1 rs1 ->
  (forall a, Q1 a -> writes path rs1 (k a) Q2 rs2) ->
  writes path rs (bind m k) Q2 rs2.
Proof.
  intros Hm Hk.
  apply hoare_bind with (R := fun a w => file_is path rs1 w /\ Q1 a);
    [exact Hm|].
  intros a w [Hw Ha]. now apply (Hk a Ha).
Qed.

Lemma writes_conseq {A} path rs rs' (m : M A) (Q Q' : A -> Prop) :
  writes path rs m Q' rs' -> (forall a, Q' a -> Q a) ->
  writes path rs m Q rs'.
Proof.
  intros H HQ w Hw. specialize (H w Hw).
  destruct (m w) as [w' [a|e]]; [|exact H].
  destruct H. split; auto.
Qed.

Lemma writes_do_printM path rs args msg :
  writes path rs (do_printM args msg) (fun _ => True) rs.
Proof. intros w Hw. now split. Qed.

Lemma writes_writerow path rs row :
  writes path rs (writerow path row) (fun _ => True) (rs ++ [row]).
Proof.
  intros w Hw. unfold file_is in *. cbn. rewrite Hw. split; [|exact I].
  apply DictFacts.get_set_same.
Qed.

Lemma writes_getM {V} path rs k (d : Dict.t V) x :
  Dict.get k d = Some x -> writes path rs (getM k d) (fun a => a = x) rs.
Proof. intros H w Hw. unfold getM. rewrite H. now split. Qed.

Lemma writes_get2M {V} path rs k1 k2 (d : Dict.t (Dict.t V)) x :
  get2 k1 k2 d = Some x -> writes path rs (get2M k1 k2 d) (fun a => a = x) rs.
Proof. intros H w Hw. rewrite (get2M_Some _ _ _ _ w H). now split. Qed.

Lemma writes_set2M {V} path rs k1 k2 (x : V) (d : Dict.t (Dict.t V)) d1 :
  Dict.get k1 d = Some d1 ->
  writes path rs (set2M k1 k2 x d)
         (fun a => a = Dict.set k1 (Dict.set k2 x d1) d) rs.
Proof. intros H w Hw. rewrite (set2M_Some _ _ _ _ _ w H). now split. Qed.

Lemma writes_forM {A} path (l : list A) (f : A -> M unit)
  (g : A -> list (list cell)) :
  (forall a rs, In a l ->
     writes path rs (f a) (fun _ => True) (rs ++ g a)) ->
  forall rs, writes path rs (forM_ l f) (fun _ => True) (rs ++ flat_map g l).
Proof.
  unfold forM_. induction l as [|a l IH]; intros H rs; cbn [foldM flat_map].
  - rewrite app_nil_r. now apply writes_ret.
  - apply writes_bind with (rs1 := rs ++ g a) (Q1 := fun _ => True).
    + apply H. now left.
    + intros [] _. rewrite app_assoc. apply IH.
      intros b rs' Hb. apply H. now right.
Qed.

Lemma writes_paths args path rs l :
  writes path rs (forM_ l (write_path args path)) (fun _ => True)
         (rs ++ map (fun j => [CStr ""; CStr ""; CStr j]) l).
Proof.
  replace (map (fun j => [CStr ""; CStr ""; CStr j]) l)
    with (flat_map (fun j => [[CStr ""; CStr ""; CStr j]]) l)
    by (induction l; cbn; congruence).
  apply writes_forM. intros j rs' _. unfold write_path.
  apply writes_bind with (rs1 := rs') (Q1 := fun _ => True);
    [apply writes_do_printM|].
  intros _ _. apply writes_writerow.
Qed.

(** ** Sorting twice *)

Lemma sort_by_sorted_id {A} (leb : A -> A -> bool) l :
  sorted_by leb l = true -> sort_by leb l = l.
Proof.
  induction l as [|x l IH]; [reflexivity|]. intros H.
  rewrite sorted_by_cons in H. apply andb_true_iff in H as [Hx Hl].
  cbn [sort_by fold_right]. fold (sort_by leb l). rewrite (IH Hl).
  destruct l as [|y l]; [reflexivity|]. cbn [insert_sorted]. now rewrite Hx.
Qed.

Lemma list_sort_idem l : list_sort (list_sort l) = list_sort l.
Proof.
  unfold list_sort. apply sort_by_sorted_id. apply sort_by_sorted.
  intros a b H. destruct (String.leb_total a b); congruence.
Qed.

(** ** The block of the initial values sorts the lists *)

Section Initial.
Context `{RE : RegexEngine}.

Lemma write_initial_values_eq args path v :
  write_initial_values args path v
  = (writerow path [CStr "Initial values (before correction)"] ;;;
     writerow path intendedfors_header ;;;
     foldM (initial_subject args path v) (all_intended_fors v)
           (Dict.keys (all_intended_for_dirs v))).
Proof. reflexivity. Qed.

Lemma partly_sorted_start v : partly_sorted v (all_intended_fors v).
Proof.
  intros s n. destruct (get2 s n (all_intended_fors v)); [now left|reflexivity].
Qed.

Lemma initial_folder_spec args path v subj k l0 fors folder rs :
  partly_sorted v fors ->
  get2 subj k (all_intended_fors v) = Some l0 ->
  writes path rs (initial_folder args path subj k fors (Some folder))
    (fun fors' =>
       partly_sorted v fors' /\ sorted_at v fors' subj k
       /\ forall s n, sorted_at v fors s n -> sorted_at v fors' s n)
    (rs ++ folder_rows (list_sort l0) (Some folder)).
Proof.
  intros Hp Hl0.
  assert (Hrec : sorted_list v subj k = list_sort l0).
  { unfold sorted_list, recorded_list. now rewrite Hl0. }
  pose proof (Hp subj k) as Hk. rewrite Hl0 in Hk.
  assert (Hl : exists l, get2 subj k fors = Some l
                         /\ list_sort l = list_sort l0).
  { destruct Hk as [Hk|Hk]; eexists; (split; [exact Hk|]);
      [reflexivity|apply list_sort_idem]. }
  destruct Hl as (l & Hl & Hsort).
  assert (Hd : exists d, Dict.get subj fors = Some d).
  { unfold get2 in Hl. destruct (Dict.get subj fors) as [d|];
      [now exists d|discriminate]. }
  destruct Hd as [d Hd].
  unfold initial_folder. cbn [get_Folder folder_rows].
  apply writes_bind with (rs1 := rs) (Q1 := fun a => a = folder);
    [now apply writes_ret|]. intros f0 ->.
  apply writes_bind with (rs1 := rs) (Q1 := fun _ => True);
    [apply writes_do_printM|]. intros _ _.
  apply writes_bind with (rs1 := rs) (Q1 := fun a => a = folder);
    [now apply writes_ret|]. intros f ->.
  apply writes_bind
    with (rs1 := rs ++ [[CStr ""; CStr folder]]) (Q1 := fun _ => True);
    [apply writes_writerow|]. intros _ _.
  apply writes_bind
    with (rs1 := rs ++ [[CStr ""; CStr folder]]) (Q1 := fun a => a = l);
    [now apply writes_get2M|]. intros l' ->.
  apply writes_bind
    with (rs1 := rs ++ [[CStr ""; CStr folder]])
         (Q1 := fun a => a = Dict.set subj (Dict.set k (list_sort l) d) fors);
    [now apply writes_set2M|]. intros fors' ->.
  set (fors' := Dict.set subj (Dict.set k (list_sort l) d) fors).
  assert (Hg : get2 subj k fors' = Some (list_sort l0)).
  { unfold fors'. rewrite get2_set2. now rewrite Hsort. }
  apply writes_bind
    with (rs1 := rs ++ [[CStr ""; CStr folder]])
         (Q1 := fun a => a = list_sort l0);
    [now apply writes_get2M|]. intros l' ->.
  apply writes_bind
    with (rs1 := rs ++ [CStr ""; CStr folder]
                       :: map (fun j => [CStr ""; CStr ""; CStr j])
                              (list_sort l0))
         (Q1 := fun _ => True).
  { replace (rs ++ [CStr ""; CStr folder]
                   :: map (fun j => [CStr ""; CStr ""; CStr j]) (list_sort l0))
      with ((rs ++ [[CStr ""; CStr folder]])
            ++ map (fun j => [CStr ""; CStr ""; CStr j]) (list_sort l0))
      by (now rewrite <- app_assoc).
    apply writes_paths. }
  intros _ _. apply writes_ret.
  assert (Hother : forall s n, (subj, k) <> (s, n) ->
                               get2 s n fors' = get2 s n fors).
  { intros s n Hne. unfold fors'.
    now apply (get2_set2_other _ _ _ _ _ _ _ Hd). }
  split; [|split].
  - intros s n. specialize (Hp s n).
    destruct (string_dec subj s) as [<-|Hs];
      [destruct (string_dec k n) as [<-|Hn]|].
    + rewrite Hl0. now right.
    + rewrite Hother by congruence. exact Hp.
    + rewrite Hother by congruence. exact Hp.
  - unfold sorted_at. now rewrite Hrec.
  - intros s n Hsn. unfold sorted_at in *.
    destruct (string_dec subj s) as [<-|Hs];
      [destruct (string_dec k n) as [<-|Hn]|].
    + now rewrite Hrec.
    + now rewrite Hother by congruence.
    + now rewrite Hother by congruence.
Qed.

Lemma initial_folders_spec args path v subj k l0 ds : forall fors rs,
  forallb has_Folder ds = true ->
  partly_sorted v fors ->
  get2 subj k (all_intended_fors v) = Some l0 ->
  writes path rs (foldM (initial_folder args path subj k) fors ds)
    (fun fors' =>
       partly_sorted v fors'
       /\ (ds <> [] -> sorted_at v fors' subj k)
       /\ forall s n, sorted_at v fors s n -> sorted_at v fors' s n)
    (rs ++ flat_map (folder_rows (list_sort l0)) ds).
Proof.
  induction ds as [|i ds IH]; intros fors rs Hf Hp Hl0.
  - cbn [foldM flat_map]. rewrite app_nil_r. apply writes_ret.
    split; [exact Hp|]. split; [congruence|auto].
  - cbn [forallb] in Hf. apply andb_true_iff in Hf as [Hi Hf].
    destruct i as [folder|]; [|discriminate].
    cbn [foldM flat_map]. rewrite app_assoc.
    eapply writes_bind.
    + apply (initial_folder_spec args path v subj k l0 fors folder rs Hp Hl0).
    + intros fors1 (Hp1 & Hs1 & Hk1).
      eapply writes_conseq; [apply (IH fors1 _ Hf Hp1 Hl0)|].
      intros fors2 (Hp2 & _ & Hk2). split; [exact Hp2|].
      split; [intros _; now apply Hk2|]. intros s n Hsn. auto.
Qed.

Lemma initial_files_spec args path v subj dirs entries : forall fors rs,
  all_aligned v -> folders_present v = true ->
  Dict.get subj (all_intended_for_dirs v) = Some dirs ->
  incl entries dirs ->
  partly_sorted v fors ->
  writes path rs (foldM (initial_file args path v subj) fors entries)
    (fun fors' =>
       partly_sorted v fors'
       /\ (forall k ds, In (k, ds) entries -> ds <> [] ->
                        sorted_at v fors' subj k)
       /\ forall s n, sorted_at v fors s n -> sorted_at v fors' s n)
    (rs ++ flat_map (fun kv =>
                       fieldmap_rows (recorded_label v subj (fst kv)) (fst kv)
                                     (snd kv) (sorted_list v subj (fst kv)))
                    entries).
Proof.
  induction entries as [|[k ds] entries IH];
    intros fors rs Hal Hf Hd Hincl Hp.
  - cbn [foldM flat_map]. rewrite app_nil_r. apply writes_ret.
    split; [exact Hp|]. split; [intros k ds []|auto].
  - assert (Hk : In (k, ds) dirs) by (apply Hincl; now left).
    assert (Hkeys : In k (Dict.keys dirs)).
    { unfold Dict.keys. apply in_map_iff. now exists (k, ds). }
    destruct (all_aligned_lookup v subj dirs k Hal Hd Hkeys)
      as ([l0 Hl0] & _ & label & Hl).
    assert (Hds : forallb has_Folder ds = true).
    { apply forallb_forall. intros i Hi.
      now destruct (folders_present_spec v subj dirs k ds i Hf Hd Hk Hi)
        as [folder ->]. }
    cbn [foldM flat_map fst snd]. rewrite app_assoc.
    unfold recorded_label at 1, sorted_list at 1, recorded_list at 1.
    rewrite Hl, Hl0. unfold fieldmap_rows at 1.
    replace (rs ++ [CStr label; CStr k]
                :: flat_map (folder_rows (list_sort l0)) ds)
      with ((rs ++ [[CStr label; CStr k]])
            ++ flat_map (folder_rows (list_sort l0)) ds)
      by (now rewrite <- app_assoc).
    eapply writes_bind.
    + unfold initial_file.
      apply writes_bind with (rs1 := rs) (Q1 := fun a => a = label);
        [now apply writes_get2M|]. intros lb0 ->.
      apply writes_bind with (rs1 := rs) (Q1 := fun _ => True);
        [apply writes_do_printM|]. intros _ _.
      apply writes_bind with (rs1 := rs) (Q1 := fun a => a = label);
        [now apply writes_get2M|]. intros lb ->.
      apply writes_bind
        with (rs1 := rs ++ [[CStr label; CStr k]]) (Q1 := fun _ => True);
        [apply writes_writerow|]. intros _ _.
      apply (initial_folders_spec args path v subj k l0 ds fors _ Hds Hp Hl0).
    + intros fors1 (Hp1 & Hs1 & Hk1).
      eapply writes_conseq;
        [apply (IH fors1 _ Hal Hf Hd (fun e He => Hincl e (or_intror He))
                   Hp1)|].
      intros fors2 (Hp2 & Hs2 & Hk2). split; [exact Hp2|]. split.
      * intros k' ds' [E|Hin] Hne.
        -- injection E as <- <-. apply Hk2. now apply Hs1.
        -- now apply (Hs2 k' ds').
      * intros s n Hsn. auto.
Qed.

Lemma initial_subjects_spec args path v subjects : forall fors rs,
  all_aligned v -> folders_present v = true ->
  incl subjects (Dict.keys (all_intended_for_dirs v)) ->
  partly_sorted v fors ->
  writes path rs (foldM (initial_subject args path v) fors subjects)
    (fun fors' =>
       partly_sorted v fors'
       /\ (forall subj dirs k ds,
             In subj subjects ->
             Dict.get subj (all_intended_for_dirs v) = Some dirs ->
             In (k, ds) dirs -> ds <> [] -> sorted_at v fors' subj k)
       /\ forall s n, sorted_at v fors s n -> sorted_at v fors' s n)
    (rs ++ flat_map (subject_final_rows v (sorted_list v)) subjects).
Proof.
  induction subjects as [|subj subjects IH]; intros fors rs Hal Hf Hincl Hp.
  - cbn [foldM flat_map]. rewrite app_nil_r. apply writes_ret.
    split; [exact Hp|]. split; [intros ? ? ? ? []|auto].
  - assert (Hk : In subj (Dict.keys (all_intended_for_dirs v)))
      by (apply Hincl; now left).
    apply DictFacts.In_keys_get in Hk as [dirs Hd].
    cbn [foldM flat_map]. rewrite app_assoc.
    unfold subject_final_rows at 1. rewrite Hd.
    eapply writes_bind.
    + unfold initial_subject.
      apply writes_bind with (rs1 := rs) (Q1 := fun a => a = dirs);
        [now apply writes_getM|]. intros d ->.
      apply (initial_files_spec args path v subj dirs dirs fors rs Hal Hf Hd
               (incl_refl _) Hp).
    + intros fors1 (Hp1 & Hs1 & Hk1).
      eapply writes_conseq;
        [apply (IH fors1 _ Hal Hf (fun s Hs => Hincl s (or_intror Hs)) Hp1)|].
      intros fors2 (Hp2 & Hs2 & Hk2). split; [exact Hp2|]. split.
      * intros s dirs' k ds [<-|Hin] Hd' Hkd Hne.
        -- rewrite Hd in Hd'. injection Hd' as <-.
           apply Hk2. now apply (Hs1 k ds).
        -- now apply (Hs2 s dirs' k ds).
      * intros s n Hsn. auto.
Qed.

(** The block of the initial values writes the lists sorted and leaves them
    sorted. *)
Lemma write_initial_values_spec args path v rs :
  all_aligned v -> folders_present v = true ->
  writes path rs (write_initial_values args path v)
    (fun fors =>
       forall subj dirs k ds,
         Dict.get subj (all_intended_for_dirs v) = Some dirs ->
         In (k, ds) dirs -> ds <> [] ->
         get2 subj k fors = Some (sorted_list v subj k))
    (rs ++ [CStr "Initial values (before correction)"] :: intendedfors_header
        :: final_rows v (sorted_list v)).
Proof.
  intros Hal Hf. rewrite write_initial_values_eq.
  apply writes_bind
    with (rs1 := rs ++ [[CStr "Initial values (before correction)"]])
         (Q1 := fun _ => True); [apply writes_writerow|]. intros _ _.
  apply writes_bind
    with (rs1 := (rs ++ [[CStr "Initial values (before correction)"]])
                 ++ [intendedfors_header])
         (Q1 := fun _ => True); [apply writes_writerow|]. intros _ _.
  replace (rs ++ [CStr "Initial values (before correction)"]
              :: intendedfors_header :: final_rows v (sorted_list v))
    with (((rs ++ [[CStr "Initial values (before correction)"]])
           ++ [intendedfors_header]) ++ final_rows v (sorted_list v))
    by (now rewrite <- !app_assoc).
  eapply writes_conseq.
  - apply (initial_subjects_spec args path v _ _ _ Hal Hf (incl_refl _)
             (partly_sorted_start v)).
  - intros fors (_ & Hs & _) subj dirs k ds Hd Hk Hne.
    apply (Hs subj dirs k ds); auto.
    apply DictFacts.get_Some_In in Hd. unfold Dict.keys.
    apply in_map_iff. now exists (subj, dirs).
Qed.

End Initial.

(** ** The final values, whatever the verbosity *)

Section Final.
Context `{RE : RegexEngine}.

Lemma write_final_values_writes args path v fors lists rs :
  all_aligned v -> folders_present v = true ->
  (forall subj dirs k ds,
     Dict.get subj (all_intended_for_dirs v) = Some dirs ->
     In (k, ds) dirs -> ds <> [] -> get2 subj k fors = Some (lists subj k)) ->
  writes path rs (write_final_values args path v fors) (fun _ => True)
    (rs ++ (if (0 <? verbose args)%nat
            then [[CStr "Final values (after correction)"]] else [])
        ++ [CStr ""; CStr ""; CStr ""] :: intendedfors_header
        :: final_rows v lists).
Proof.
  intros Hal Hf Hfors. unfold write_final_values.
  set (rs1 := rs ++ (if (0 <? verbose args)%nat
                     then [[CStr "Final values (after correction)"]]
                     else [])).
  replace (rs ++ (if (0 <? verbose args)%nat
                  then [[CStr "Final values (after correction)"]] else [])
              ++ [CStr ""; CStr ""; CStr ""] :: intendedfors_header
              :: final_rows v lists)
    with (((rs1 ++ [[CStr ""; CStr ""; CStr ""]]) ++ [intendedfors_header])
          ++ final_rows v lists)
    by (unfold rs1; now rewrite <- !app_assoc).
  apply writes_bind with (rs1 := rs1) (Q1 := fun _ => True).
  { unfold rs1. destruct (0 <? verbose args)%nat.
    - apply writes_writerow.
    - rewrite app_nil_r. now apply writes_ret. }
  intros _ _.
  apply writes_bind
    with (rs1 := rs1 ++ [[CStr ""; CStr ""; CStr ""]]) (Q1 := fun _ => True);
    [apply writes_writerow|]. intros _ _.
  apply writes_bind
    with (rs1 := (rs1 ++ [[CStr ""; CStr ""; CStr ""]])
                 ++ [intendedfors_header])
         (Q1 := fun _ => True);
    [apply writes_writerow|]. intros _ _.
  unfold final_rows. apply writes_forM. clear rs rs1. intros subj rs Hsubj.
  apply DictFacts.In_keys_get in Hsubj as [dirs Hd].
  apply writes_bind with (rs1 := rs) (Q1 := fun a => a = dirs);
    [now apply writes_getM|]. intros d ->.
  unfold subject_final_rows. rewrite Hd.
  apply writes_forM. clear rs. intros [k ds] rs Hk. cbn [fst snd].
  assert (Hkeys : In k (Dict.keys dirs)).
  { unfold Dict.keys. apply in_map_iff. now exists (k, ds). }
  destruct (all_aligned_lookup v subj dirs k Hal Hd Hkeys)
    as (_ & _ & label & Hl).
  unfold recorded_label. rewrite Hl. unfold fieldmap_rows.
  replace (rs ++ [CStr label; CStr k]
              :: flat_map (folder_rows (lists subj k)) ds)
    with ((rs ++ [[CStr label; CStr k]])
          ++ flat_map (folder_rows (lists subj k)) ds)
    by (now rewrite <- app_assoc).
  apply writes_bind with (rs1 := rs) (Q1 := fun a => a = label);
    [now apply writes_get2M|]. intros lb0 ->.
  apply writes_bind with (rs1 := rs) (Q1 := fun _ => True);
    [apply writes_do_printM|]. intros _ _.
  apply writes_bind with (rs1 := rs) (Q1 := fun a => a = label);
    [now apply writes_get2M|]. intros lb ->.
  apply writes_bind
    with (rs1 := rs ++ [[CStr label; CStr k]]) (Q1 := fun _ => True);
    [apply writes_writerow|]. intros _ _.
  apply writes_forM. intros i rs' Hi.
  assert (El : get2 subj k fors = Some (lists subj k)).
  { apply (Hfors subj dirs k ds Hd Hk). intros ->. destruct Hi. }
  destruct (folders_present_spec v subj dirs k ds i Hf Hd Hk Hi) as [folder ->].
  cbn [get_Folder folder_rows].
  replace (rs' ++ [CStr ""; CStr folder]
               :: map (fun j => [CStr ""; CStr ""; CStr j]) (lists subj k))
    with ((rs' ++ [[CStr ""; CStr folder]])
          ++ map (fun j => [CStr ""; CStr ""; CStr j]) (lists subj k))
    by (now rewrite <- app_assoc).
  apply writes_bind with (rs1 := rs') (Q1 := fun a => a = folder);
    [now apply writes_ret|]. intros f0 ->.
  apply writes_bind with (rs1 := rs') (Q1 := fun _ => True);
    [apply writes_do_printM|]. intros _ _.
  apply writes_bind with (rs1 := rs') (Q1 := fun a => a = folder);
    [now apply writes_ret|]. intros f ->.
  apply writes_bind
    with (rs1 := rs' ++ [[CStr ""; CStr folder]]) (Q1 := fun _ => True);
    [apply writes_writerow|]. intros _ _.
  apply writes_bind
    with (rs1 := rs' ++ [[CStr ""; CStr folder]])
         (Q1 := fun a => a = lists subj k);
    [now apply writes_get2M|]. intros l ->.
  apply writes_paths.
Qed.

Lemma write_intendedfors_verbose args path v :
  0 < verbose args -> intended_for_given args = false ->
  all_aligned v -> folders_present v = true ->
  hoare (fun _ => True) (write_intendedfors args path v)
        (fun _ w => file_is path (verbose_intendedfors_rows v) w)
        (fun _ _ => False).
Proof.
  intros Hv Hi Hal Hf. unfold write_intendedfors.
  apply hoare_bind with (R := fun _ w => file_is path [] w).
  { intros w _. unfold file_is. cbn. apply DictFacts.get_set_same. }
  intros _.
  replace (0 <? verbose args)%nat with true
    by (symmetry; now apply Nat.ltb_lt).
  assert (E : forall fors,
            match intended_for args with
            | Some ((_ :: _) as l) => correct_intended_fors l v fors
            | _ => ret fors
            end = ret fors).
  { intros fors. unfold intended_for_given in Hi.
    now destruct (intended_for args) as [[|x l]|]. }
  eapply hoare_weaken with (E' := fun _ _ => False).
  - eapply writes_bind.
    + apply (write_initial_values_spec args path v [] Hal Hf).
    + intros fors Hfors. rewrite E.
      intros w Hw.
      apply (write_final_values_writes args path v fors (sorted_list v) _
               Hal Hf Hfors w Hw).
  - intros w Hw. exact Hw.
  - intros [] w [Hw _]. unfold file_is, verbose_intendedfors_rows in *.
    replace (0 <? verbose args)%nat with true in Hw
      by (symmetry; now apply Nat.ltb_lt).
    rewrite Hw. reflexivity.
  - auto.
Qed.

End Final.

(** X19: a run with [-v] and without [--intended-for], on a project that is
    found and in which every folder entry has its ["Folder"] key, exits with
    status 0 and sends no modifying call.  The block of the initial values
    sorts each list in place before it writes it, and the final values are
    read from the same lists: both blocks of the IntendedFor file show the
    recorded lists in sorted order, where the same run without [-v] writes
    them in the order of the platform. *)
Theorem verbose_run_shows_sorted_lists `{RE : RegexEngine}
  (flywheel_Client : string -> Client) (args : Args) (w : World)
  (project : Project) :
  let fw := connect flywheel_Client args in
  let g := group_label args in
  let p := project_label args in
  let v := scan args project in
  let run := main flywheel_Client args w in
  projects_find_one fw (project_query g p) = Some project ->
  0 < verbose args -> intended_for_given args = false ->
  folders_present v = true ->
  snd run = Ok 0
  /\ modify_calls (fst run) = modify_calls w
  /\ Dict.get (intendedfors_name g p) (files (fst run))
     = Some (verbose_intendedfors_rows v).
Proof.
  intros fw g p v run Hfind Hv Hi Hf. unfold run.
  split; [|split].
  - rewrite (main_unfold flywheel_Client args project w Hfind).
    fold fw g p v.
    pose proof (write_intendedfors_verbose args (intendedfors_name g p) v
                  Hv Hi (all_aligned_scan args project) Hf
                  (before_intendedfors args fw g p v w) I) as H.
    now destruct (write_intendedfors _ _ _ _) as [w4 [[]|e]].
  - rewrite main_fst. fold fw g p.
    pose proof (save_without_intended_for args fw g p (modify_calls w) Hi
                  (with_stdout w [api_url fw]) eq_refl) as H.
    unfold calls_only in H.
    destruct (save_curation_csvs _ _ _ _ _) as [w' [[]|e]]; now symmetry.
  - rewrite (main_unfold flywheel_Client args project w Hfind).
    fold fw g p v.
    pose proof (write_intendedfors_verbose args (intendedfors_name g p) v
                  Hv Hi (all_aligned_scan args project) Hf
                  (before_intendedfors args fw g p v w) I) as H.
    destruct (names_distinct g p) as (_ & _ & N23).
    destruct (write_intendedfors _ _ _ _) as [w4 [[]|e]]; [|destruct H].
    cbn [fst with_stdout with_file files].
    rewrite DictFacts.get_set_other by (intros E; now apply N23).
    exact H.
Qed.

(** The fieldmap file of the example lists [run-2] before [run-1]: with
    [-v] the file shows [run-1] first, in both blocks. *)
Lemma verbose_run_witness :
  Dict.get "lab_study_1_intendedfors.csv"
    (files (fst (main (RE := Example.literal_regex) Cases.unsorted_client
                      (Example.args None 1) empty_world)))
  = Some [[CStr "Initial values (before correction)"];
          [CStr "acquisition label"; CStr "file name and folder";
           CStr "IntendedFor List of BIDS paths"];
          [CStr "fmap"; CStr "fmap.nii.gz"];
          [CStr ""; CStr "func"];
          [CStr ""; CStr ""; CStr "func/run-1_bold.nii.gz"];
          [CStr ""; CStr ""; CStr "func/run-2_bold.nii.gz"];
          [CStr "Final values (after correction)"];
          [CStr ""; CStr ""; CStr ""];
          [CStr "acquisition label"; CStr "file name and folder";
           CStr "IntendedFor List of BIDS paths"];
          [CStr "fmap"; CStr "fmap.nii.gz"];
          [CStr ""; CStr "func"];
          [CStr ""; CStr ""; CStr "func/run-1_bold.nii.gz"];
          [CStr ""; CStr ""; CStr "func/run-2_bold.nii.gz"]].
Proof.
  assert (F : folders_present (scan (Example.args None 1)
                                    Cases.unsorted_project) = true)
    by (vm_compute; reflexivity).
  destruct (verbose_run_shows_sorted_lists (RE := Example.literal_regex)
              Cases.unsorted_client (Example.args None 1) empty_world
              Cases.unsorted_project eq_refl (le_n 1) eq_refl F)
    as (_ & _ & H).
  etransitivity; [exact H|]. clear. vm_compute. reflexivity.
Defined.

(** ** The names of the output files *)

(** X20: whatever the group and project labels, the names of the three
    output files hold only characters of the class [A-Za-z0-9_.-] (so no
    path separator: the files are created in the working directory), and
    they are pairwise distinct. *)
Theorem output_file_names_are_safe_and_distinct (g p : string) :
  Str.forallb safe_char (niftis_name g p) = true
  /\ Str.forallb safe_char (intendedfors_name g p) = true
  /\ Str.forallb safe_char (acquisitions_name g p) = true
  /\ niftis_name g p <> intendedfors_name g p
  /\ niftis_name g p <> acquisitions_name g p
  /\ intendedfors_name g p <> acquisitions_name g p.
Proof.
  assert (Hg : Str.forallb safe_char (fst (make_file_name_safe g "_")) = true)
    by (apply make_file_name_safe_safe; now left).
  assert (Hp : Str.forallb safe_char (fst (make_file_name_safe p "_")) = true)
    by (apply make_file_name_safe_safe; now left).
  unfold niftis_name, intendedfors_name, acquisitions_name.
  repeat split;
    try (rewrite !StrFacts.forallb_app, Hg, Hp; reflexivity);
    intros E; repeat (apply StrFacts.append_inj_l in E); discriminate E.
Qed.

(** ** The folders and the labels the scan records *)

Section Scan.
Variable args : Args.

Lemma folders_record acq f sv ses :
  folders (record_intended_for acq f sv)
  = folder_step (folders sv) (ses, acq, f).
Proof.
  unfold record_intended_for, folder_step, is_fieldmap, folder_entries,
    folders. cbn [fst snd].
  destruct (info_BIDS (file_info f)) as [[|b]|]; [| |reflexivity].
  - destruct (info_IntendedFor (file_info f)) as [[|x l]|]; reflexivity.
  - destruct (info_IntendedFor (file_info f)) as [[|x l]|];
      [reflexivity| |reflexivity].
    destruct b as [ig fo fi [dirs|]]; reflexivity.
Qed.

Lemma folders_scan_file s ses acq st f :
  folders (snd (scan_file args s ses acq st f))
  = folder_step (folders (snd st)) (ses, acq, f).
Proof.
  destruct st as [v sv]. cbn [snd]. rewrite <- folders_record.
  unfold scan_file.
  destruct (detect_duplicate _ _ _) as [[seen nd] u]. reflexivity.
Qed.

Lemma folders_scan_acquisition s ses st acq :
  folders (snd (scan_acquisition args s ses st acq))
  = fold_left folder_step (map (fun f => (ses, acq, f)) (acq_files acq))
              (folders (snd st)).
Proof.
  destruct st as [v sv]. unfold scan_acquisition.
  rewrite fold_left_map.
  rewrite (fold_left_proj (fun st => folders (snd st)) _
             (fun c f => folder_step c (ses, acq, f))).
  - reflexivity.
  - intros st f. apply folders_scan_file.
Qed.

Lemma folders_scan_sessions s st :
  folders (snd (fold_left (scan_session args s) (subj_sessions s) st))
  = fold_left folder_step (subject_files s) (folders (snd st)).
Proof.
  unfold subject_files.
  apply (fold_left_proj_flat (fun st => folders (snd st))).
  intros st1 ses. unfold scan_session.
  apply (fold_left_proj_flat (fun st => folders (snd st))).
  intros st2 acq. apply folders_scan_acquisition.
Qed.

End Scan.

Lemma folder_fold_get xs : forall c name,
  let last :=
    find (fun x => is_fieldmap (snd x) && (file_name (snd x) =? name)%string)
         (rev xs) in
  Dict.get name (fst (fold_left folder_step xs c))
  = match last with
    | Some x => Some (folder_entries (snd x))
    | None => Dict.get name (fst c)
    end
  /\ Dict.get name (snd (fold_left folder_step xs c))
     = match last with
       | Some x => Some (acq_label (snd (fst x)))
       | None => Dict.get name (snd c)
       end.
Proof.
  induction xs as [|x xs IH]; intros c name; cbn zeta.
  - split; reflexivity.
  - cbn [fold_left rev]. rewrite find_app_or.
    destruct (IH (folder_step c x) name) as [-> ->].
    destruct (find _ (rev xs)); [split; reflexivity|].
    cbn [find]. unfold folder_step.
    destruct (is_fieldmap (snd x)); cbn [andb fst snd]; [|split; reflexivity].
    destruct (file_name (snd x) =? name)%string eqn:E.
    + apply String.eqb_eq in E. subst name.
      now rewrite !DictFacts.get_set_same.
    + apply String.eqb_neq in E.
      now rewrite !(DictFacts.get_set_other _ _ _ _ E).
Qed.

Lemma folder_fold_NoDup xs : forall c,
  NoDup (Dict.keys (fst c)) ->
  NoDup (Dict.keys (fst (fold_left folder_step xs c))).
Proof.
  induction xs as [|x xs IH]; intros c H; [exact H|].
  cbn [fold_left]. apply IH. unfold folder_step.
  destruct (is_fieldmap (snd x)); [|exact H]. cbn [fst].
  now apply DictFacts.NoDup_keys_set.
Qed.

Section Scan.
Variable args : Args.

Lemma folders_scan_subject v s :
  all_intended_for_dirs (scan_subject args v s)
  = Dict.set (subj_label s)
      (fst (fold_left folder_step (subject_files s)
                      (Dict.empty, Dict.empty)))
      (all_intended_for_dirs v)
  /\ all_intended_for_acq_label (scan_subject args v s)
     = Dict.set (subj_label s)
         (snd (fold_left folder_step (subject_files s)
                         (Dict.empty, Dict.empty)))
         (all_intended_for_acq_label v).
Proof.
  unfold scan_subject.
  set (v1 := {| acquisition_labels := acquisition_labels v;
                printed := do_print args (subj_label s) (printed v) |}).
  pose proof (folders_scan_sessions args s (v1, initial_subject_vars)) as Hf.
  pose proof (outer_scan_sessions args s (v1, initial_subject_vars)) as Ho.
  destruct (fold_left (scan_session args s) (subj_sessions s)
              (v1, initial_subject_vars)) as [v2 sv].
  cbn [fst snd] in Hf, Ho. unfold outer in Ho.
  injection Ho as Hl _ Hd _ _ _.
  cbn [all_intended_for_dirs all_intended_for_acq_label].
  change (folders initial_subject_vars)
    with (@Dict.empty (list (option string)), @Dict.empty string) in Hf.
  rewrite Hl, Hd, <- Hf. split; reflexivity.
Qed.

Lemma folders_scan subjects : forall v label,
  Dict.get label
    (all_intended_for_dirs (fold_left (scan_subject args) subjects v))
  = match find (fun s => (subj_label s =? label)%string) (rev subjects) with
    | Some s => Some (fst (fold_left folder_step (subject_files s)
                                     (Dict.empty, Dict.empty)))
    | None => Dict.get label (all_intended_for_dirs v)
    end
  /\ Dict.get label
       (all_intended_for_acq_label (fold_left (scan_subject args) subjects v))
     = match find (fun s => (subj_label s =? label)%string) (rev subjects) with
       | Some s => Some (snd (fold_left folder_step (subject_files s)
                                        (Dict.empty, Dict.empty)))
       | None => Dict.get label (all_intended_for_acq_label v)
       end.
Proof.
  induction subjects as [|s subjects IH]; intros v label; cbn [fold_left rev].
  - split; reflexivity.
  - rewrite find_app_or. destruct (IH (scan_subject args v s) label) as [-> ->].
    destruct (find _ (rev subjects)); [split; reflexivity|].
    cbn [find]. destruct (folders_scan_subject v s) as [-> ->].
    destruct (subj_label s =? label)%string eqn:E.
    + apply String.eqb_eq in E. subst label.
      now rewrite !DictFacts.get_set_same.
    + apply String.eqb_neq in E.
      now rewrite !(DictFacts.get_set_other _ _ _ _ E).
Qed.

Lemma recorded_folders_spec p label name :
  get2 label name (all_intended_for_dirs (scan args p))
  = option_map (fun x => folder_entries (snd x)) (recorded_file p label name)
  /\ get2 label name (all_intended_for_acq_label (scan args p))
     = option_map (fun x => acq_label (snd (fst x)))
                  (recorded_file p label name).
Proof.
  unfold scan, recorded_file, get2.
  destruct (folders_scan (proj_subjects p) initial_vars label) as [-> ->].
  destruct (find _ (rev (proj_subjects p))) as [s|]; [|split; reflexivity].
  unfold recorded_in_subject.
  destruct (folder_fold_get (subject_files s) (Dict.empty, Dict.empty) name)
    as [-> ->].
  destruct (find _ (rev (subject_files s))); split; reflexivity.
Qed.

Lemma dirs_NoDup p label dirs :
  Dict.get label (all_intended_for_dirs (scan args p)) = Some dirs ->
  NoDup (Dict.keys dirs).
Proof.
  unfold scan.
  destruct (folders_scan (proj_subjects p) initial_vars label) as [-> _].
  destruct (find _ (rev (proj_subjects p))) as [s|]; [|discriminate].
  intros H. injection H as <-. apply folder_fold_NoDup. constructor.
Qed.

Lemma recorded_file_in_project p label name x :
  recorded_file p label name = Some x ->
  exists s, In s (proj_subjects p) /\ In x (subject_files s)
            /\ is_fieldmap (snd x) = true.
Proof.
  unfold recorded_file, recorded_in_subject.
  destruct (find _ (rev (proj_subjects p))) as [s|] eqn:Es; [|discriminate].
  intros H. apply find_some in Es as [Hs _]. apply find_some in H as [Hx Hf].
  exists s. rewrite <- in_rev in Hs, Hx. repeat split; auto.
  now apply andb_true_iff in Hf as [Hf _].
Qed.

End Scan.

(** X21: what the IntendedFor file shows under a subject label and a file
    name comes from one file, the one the scan recorded there (the last
    fieldmap file of that name in the last subject of that label): the
    acquisition label is that of its acquisition, and the folders are those
    of its BIDS info, the single folder ["folder is missing"] standing in
    when its BIDS info has no ["IntendedFor"].  Hence, when every folder
    entry of every fieldmap file of the project has its ["Folder"] key, so
    has every entry the scan recorded. *)
Theorem recorded_folders_come_from_the_recorded_file
  (args : Args) (p : Project) :
  (forall label name,
     get2 label name (all_intended_for_dirs (scan args p))
     = option_map (fun x => folder_entries (snd x))
                  (recorded_file p label name)
     /\ get2 label name (all_intended_for_acq_label (scan args p))
        = option_map (fun x => acq_label (snd (fst x)))
                     (recorded_file p label name))
  /\ (every_folder_entry_has_Folder p -> folders_present (scan args p) = true).
Proof.
  split; [intros label name; apply recorded_folders_spec|].
  intros H. unfold folders_present. apply forallb_forall. intros subj Hsubj.
  destruct (Dict.get subj (all_intended_for_dirs (scan args p)))
    as [dirs|] eqn:Hd; [|reflexivity].
  apply forallb_forall. intros [k ds] Hk. cbn [snd].
  pose proof (DictFacts.NoDup_get k ds dirs (dirs_NoDup args p subj dirs Hd) Hk)
    as Hg.
  destruct (recorded_folders_spec args p subj k) as [R _].
  unfold get2 in R. rewrite Hd, Hg in R.
  destruct (recorded_file p subj k) as [x|] eqn:Er; [|discriminate].
  cbn [option_map] in R. injection R as ->.
  destruct (recorded_file_in_project p subj k x Er) as (s & Hs & Hx & Hf).
  now apply (H s x).
Qed.

(** Every folder entry of the example project has its key. *)
Lemma recorded_folders_witness :
  folders_present (scan (Example.args None 0) Example.project) = true.
Proof.
  apply (proj2 (recorded_folders_come_from_the_recorded_file
                  (Example.args None 0) Example.project)).
  intros s x Hs Hx Hf.
  repeat (destruct Hs as [<-|Hs];
          [repeat (destruct Hx as [<-|Hx]; [first [reflexivity|discriminate]|]);
           destruct Hx|]).
  destruct Hs.
Defined.

(** ** What the block of the initial values does to the lists *)

Lemma get_map_values {V W} (f : string -> V -> W) k (d : Dict.t V) :
  Dict.get k (map (fun kv => (fst kv, f (fst kv) (snd kv))) d)
  = option_map (f k) (Dict.get k d).
Proof.
  induction d as [|[k' x] d IH]; [reflexivity|]. cbn.
  destruct (k' =? k)%string eqn:E; [|exact IH].
  apply String.eqb_eq in E. now subst.
Qed.

Lemma get2_map_values {V W} (f : string -> string -> V -> W) s n
  (d : Dict.t (Dict.t V)) :
  get2 s n
    (map (fun sd =>
            (fst sd,
             map (fun kl => (fst kl, f (fst sd) (fst kl) (snd kl))) (snd sd)))
         d)
  = option_map (f s n) (get2 s n d).
Proof.
  unfold get2. induction d as [|[s' d1] d IH]; [reflexivity|]. cbn.
  destruct (s' =? s)%string eqn:E; [|exact IH].
  apply String.eqb_eq in E. subst s'.
  apply (get_map_values (f s)).
Qed.

Lemma get2_sorted_fors v s n :
  get2 s n (sorted_fors v)
  = option_map (fun l => if has_folder_entry v s n then list_sort l else l)
               (get2 s n (all_intended_fors v)).
Proof.
  apply (get2_map_values
           (fun s n l => if has_folder_entry v s n then list_sort l else l)).
Qed.

Lemma get2_lists_read args v s n :
  get2 s n (lists_read args v)
  = option_map (fun l => if (0 <? verbose args)%nat && has_folder_entry v s n
                         then list_sort l else l)
               (get2 s n (all_intended_fors v)).
Proof.
  unfold lists_read. destruct (0 <? verbose args)%nat; cbn [andb].
  - apply get2_sorted_fors.
  - now destruct (get2 s n (all_intended_fors v)).
Qed.

Lemma entry_has_folder v subj dirs k ds :
  distinct_names v ->
  Dict.get subj (all_intended_for_dirs v) = Some dirs ->
  In (k, ds) dirs -> ds <> [] -> has_folder_entry v subj k = true.
Proof.
  intros Hn Hd Hk Hne. unfold has_folder_entry, get2. rewrite Hd.
  rewrite (DictFacts.NoDup_get k ds dirs (Hn subj dirs Hd) Hk).
  destruct ds; congruence.
Qed.

Section InitialInv.
Variables (args : Args) (path : string) (v : Vars).
Variable P : Dict.t (Dict.t (list string)) -> Prop.
Hypothesis P_sort : forall fors subj dirs k ds l d1,
  Dict.get subj (all_intended_for_dirs v) = Some dirs ->
  In (k, ds) dirs -> ds <> [] ->
  P fors -> get2 subj k fors = Some l -> Dict.get subj fors = Some d1 ->
  P (Dict.set subj (Dict.set k (list_sort l) d1) fors).

Lemma initial_folder_inv subj dirs k ds fors i :
  Dict.get subj (all_intended_for_dirs v) = Some dirs ->
  In (k, ds) dirs -> In i ds ->
  hoare (fun _ => P fors) (initial_folder args path subj k fors i)
        (fun fors' _ => P fors') (fun _ _ => True).
Proof.
  intros Hd Hk Hi. unfold initial_folder.
  apply hoare_bind with (R := fun _ _ => P fors); [apply hoare_const|].
  intros folder.
  apply hoare_bind with (R := fun _ _ => P fors); [apply hoare_const|].
  intros _.
  apply hoare_bind with (R := fun _ _ => P fors); [apply hoare_const|].
  intros folder'.
  apply hoare_bind with (R := fun _ _ => P fors); [apply hoare_const|].
  intros _.
  apply hoare_bind with (R := fun l _ => P fors /\ get2 subj k fors = Some l).
  { intros w HP. unfold get2M, get2, bind, getM.
    destruct (Dict.get subj fors) as [d1|]; cbn; [|exact I].
    destruct (Dict.get k d1); cbn; auto. }
  intros l. apply hoare_bind with (R := fun fors' _ => P fors').
  { intros w [HP Hl]. unfold set2M, bind, getM.
    destruct (Dict.get subj fors) as [d1|] eqn:E; cbn; [|exact I].
    apply (P_sort fors subj dirs k ds l d1); auto.
    intros ->. destruct Hi. }
  intros fors'.
  apply hoare_bind with (R := fun _ _ => P fors'); [apply hoare_const|].
  intros l'.
  apply hoare_bind with (R := fun _ _ => P fors'); [apply hoare_const|].
  intros _. now apply hoare_ret.
Qed.

Lemma initial_file_inv subj dirs kv fors :
  Dict.get subj (all_intended_for_dirs v) = Some dirs -> In kv dirs ->
  hoare (fun _ => P fors) (initial_file args path v subj fors kv)
        (fun fors' _ => P fors') (fun _ _ => True).
Proof.
  destruct kv as [k ds]. intros Hd Hk. unfold initial_file.
  apply hoare_bind with (R := fun _ _ => P fors); [apply hoare_const|].
  intros label.
  apply hoare_bind with (R := fun _ _ => P fors); [apply hoare_const|].
  intros _.
  apply hoare_bind with (R := fun _ _ => P fors); [apply hoare_const|].
  intros label'.
  apply hoare_bind with (R := fun _ _ => P fors); [apply hoare_const|].
  intros _.
  apply (hoare_foldM (fun fors _ => P fors) (fun _ _ => True)).
  intros fors1 i Hi. now apply (initial_folder_inv subj dirs k ds).
Qed.

Lemma initial_subject_inv fors subj :
  hoare (fun _ => P fors) (initial_subject args path v fors subj)
        (fun fors' _ => P fors') (fun _ _ => True).
Proof.
  unfold initial_subject.
  apply hoare_bind
    with (R := fun dirs _ =>
                 P fors /\ Dict.get subj (all_intended_for_dirs v) = Some dirs).
  { intros w HP. unfold getM.
    destruct (Dict.get subj (all_intended_for_dirs v)); cbn; auto. }
  intros dirs w [HP Hd]. revert w HP.
  apply (hoare_foldM (fun fors _ => P fors) (fun _ _ => True)).
  intros fors1 kv Hkv. now apply (initial_file_inv subj dirs).
Qed.

Lemma write_initial_values_inv :
  P (all_intended_fors v) ->
  hoare (fun _ => True) (write_initial_values args path v)
        (fun fors _ => P fors) (fun _ _ => True).
Proof.
  intros H0. rewrite write_initial_values_eq.
  apply hoare_bind with (R := fun _ _ => P (all_intended_fors v)).
  { intros w _. now destruct (writerow _ _ w) as [w' [a|e]]. }
  intros _.
  apply hoare_bind with (R := fun _ _ => P (all_intended_fors v));
    [apply hoare_const|].
  intros _.
  apply (hoare_foldM (fun fors _ => P fors) (fun _ _ => True)).
  intros fors subj _. apply initial_subject_inv.
Qed.

End InitialInv.

Lemma same_keys_sort d0 fors subj k l d1 :
  same_keys d0 fors ->
  get2 subj k fors = Some l -> Dict.get subj fors = Some d1 ->
  same_keys d0 (Dict.set subj (Dict.set k (list_sort l) d1) fors).
Proof.
  intros H Hl Hd s. specialize (H s).
  destruct (string_dec subj s) as [<-|Hne].
  - rewrite DictFacts.get_set_same. rewrite Hd in H. rewrite <- H.
    cbn [option_map]. f_equal. apply DictFacts.keys_set_mem.
    unfold get2 in Hl. rewrite Hd in Hl. unfold Dict.mem. now rewrite Hl.
  - now rewrite DictFacts.get_set_other.
Qed.

Lemma untouched_sort v fors subj dirs k ds l d1 :
  distinct_names v ->
  Dict.get subj (all_intended_for_dirs v) = Some dirs ->
  In (k, ds) dirs -> ds <> [] ->
  untouched v fors -> Dict.get subj fors = Some d1 ->
  untouched v (Dict.set subj (Dict.set k (list_sort l) d1) fors).
Proof.
  intros Hn Hd Hk Hne H Hd1 s n Hsn.
  rewrite (get2_set2_other _ _ _ _ _ _ _ Hd1); [now apply H|].
  intros E. injection E as <- <-.
  rewrite (entry_has_folder v subj dirs k ds Hn Hd Hk Hne) in Hsn.
  discriminate.
Qed.

(** With every ["Folder"] key present, the block of the initial values ends
    normally: it has written its rows, sent nothing, and left the lists as
    [sorted_fors] tells. *)
Lemma write_initial_values_exact args path v rs c0 :
  all_aligned v -> distinct_names v -> folders_present v = true ->
  hoare (fun w => file_is path rs w /\ modify_calls w = c0)
        (write_initial_values args path v)
        (fun fors w =>
           file_is path
             (rs ++ [CStr "Initial values (before correction)"]
                 :: intendedfors_header :: final_rows v (sorted_list v)) w
           /\ modify_calls w = c0
           /\ same_entries (all_intended_fors v) fors
           /\ same_keys (all_intended_fors v) fors
           /\ forall s n, get2 s n fors = get2 s n (sorted_fors v))
        (fun _ _ => False).
Proof.
  intros Hal Hn Hf w [Hw Hc].
  pose proof (write_initial_values_spec args path v rs Hal Hf w Hw) as H1.
  pose proof (hoare_write_initial_values args path v c0 w Hc) as H2.
  pose proof (write_initial_values_inv args path v
                (same_keys (all_intended_fors v))
                (fun fors subj dirs k ds l d1 _ _ _ H Hl Hd =>
                   same_keys_sort _ fors subj k l d1 H Hl Hd)
                (fun s => eq_refl) w I) as H3.
  pose proof (write_initial_values_inv args path v (untouched v)
                (fun fors subj dirs k ds l d1 Hd Hk Hne H _ Hd1 =>
                   untouched_sort v fors subj dirs k ds l d1 Hn Hd Hk Hne H Hd1)
                (fun s n _ => eq_refl) w I) as H4.
  destruct (write_initial_values args path v w) as [w' [fors|e]]; [|exact H1].
  destruct H1 as [Hfile Hsorted]. destruct H2 as [Hcalls Hsame].
  repeat split; auto.
  intros s n. rewrite get2_sorted_fors.
  destruct (has_folder_entry v s n) eqn:Eh.
  - unfold has_folder_entry, get2 in Eh.
    destruct (Dict.get s (all_intended_for_dirs v)) as [dirs|] eqn:Hd;
      [|discriminate].
    destruct (Dict.get n dirs) as [[|i ds]|] eqn:Hk; try discriminate.
    apply DictFacts.get_Some_In in Hk.
    rewrite (Hsorted s dirs n (i :: ds) Hd Hk ltac:(discriminate)).
    assert (Hkeys : In n (Dict.keys dirs)).
    { unfold Dict.keys. apply in_map_iff. now exists (n, i :: ds). }
    destruct (all_aligned_lookup v s dirs n Hal Hd Hkeys) as ([old Ho] & _).
    unfold sorted_list, recorded_list. now rewrite Ho.
  - rewrite (H4 s n Eh). now destruct (get2 s n (all_intended_fors v)).
Qed.

(** ** The IntendedFor file, whatever the options *)

Lemma all_aligned_with_fors v fors :
  all_aligned v -> same_keys (all_intended_fors v) fors ->
  all_aligned (with_fors v fors).
Proof.
  intros Hal Hk subj. specialize (Hal subj). specialize (Hk subj).
  cbn [with_fors all_intended_for_dirs all_intended_fors
       all_intended_for_acq_id all_intended_for_acq_label].
  destruct (Dict.get subj (all_intended_for_dirs v)) as [dirs|];
    destruct (Dict.get subj (all_intended_fors v)) as [d0|];
    destruct (Dict.get subj fors) as [d|]; cbn [option_map] in Hk;
    try discriminate Hk; try exact Hal.
  injection Hk as Hk.
  destruct (Dict.get subj (all_intended_for_acq_id v)); [|exact Hal].
  destruct (Dict.get subj (all_intended_for_acq_label v)); [|exact Hal].
  destruct Hal as (H1 & H2 & H3). repeat split; congruence.
Qed.

Lemma lists_read_entry args v subj dirs k ds :
  all_aligned v -> distinct_names v ->
  Dict.get subj (all_intended_for_dirs v) = Some dirs ->
  In (k, ds) dirs -> ds <> [] ->
  get2 subj k (lists_read args v) = Some (base_list args v subj k).
Proof.
  intros Hal Hn Hd Hk Hne. rewrite get2_lists_read.
  rewrite (entry_has_folder v subj dirs k ds Hn Hd Hk Hne).
  assert (Hkeys : In k (Dict.keys dirs)).
  { unfold Dict.keys. apply in_map_iff. now exists (k, ds). }
  destruct (all_aligned_lookup v subj dirs k Hal Hd Hkeys) as ([old Ho] & _).
  rewrite Ho. unfold base_list, sorted_list, recorded_list. rewrite Ho.
  cbn [option_map]. now destruct (0 <? verbose args)%nat.
Qed.

Section Rows.
Context `{RE : RegexEngine}.


(** The correction block, or what stands for it without [--intended-for]:
    it ends normally, leaves the file as it is, and gives every file with a
    folder entry the list that the final values will show. *)
Lemma correction_step args path v rps fors rs w :
  all_aligned v -> distinct_names v ->
  compile_all (string_pairs (patterns args)) = Some rps ->
  (intended_for_given args = true -> unmatched_fieldmap rps v = false) ->
  same_keys (all_intended_fors v) fors ->
  (forall s n, get2 s n fors = get2 s n (lists_read args v)) ->
  file_is path rs w ->
  exists w' nf,
    match intended_for args with
    | Some ((_ :: _) as l) => correct_intended_fors l v fors
    | _ => ret fors
    end w = (w', Ok nf)
    /\ file_is path rs w'
    /\ forall subj dirs k ds,
         Dict.get subj (all_intended_for_dirs v) = Some dirs ->
         In (k, ds) dirs -> ds <> [] ->
         get2 subj k nf = Some (final_list args rps v subj k).
Proof.
  intros Hal Hn Hc Hu Hk Hex Hw. unfold final_list, intended_for_given in *.
  unfold patterns in Hc.
  assert (Hret : forall subj dirs k ds,
            Dict.get subj (all_intended_for_dirs v) = Some dirs ->
            In (k, ds) dirs -> ds <> [] ->
            get2 subj k fors = Some (base_list args v subj k)).
  { intros subj dirs k ds Hd Hkd Hne. rewrite Hex.
    now apply (lists_read_entry args v subj dirs k ds). }
  destruct (intended_for args) as [[|x l]|] eqn:Ei;
    try (exists w, fors; now repeat split).
  set (v' := with_fors v fors).
  assert (Hal' : all_aligned v') by now apply all_aligned_with_fors.
  destruct (correct_intended_fors_total (x :: l) rps v' w Hc Hal')
    as (w' & nf & E & Hg).
  change (correct_intended_fors (x :: l) v' (all_intended_fors v') w)
    with (correct_intended_fors (x :: l) v fors w) in E.
  exists w', nf. split; [exact E|]. split.
  - pose proof (stable_correct_intended_fors (file_is path rs)
                  (fun w0 out H => H) (x :: l) v fors (fun w0 c H => H) w Hw)
      as Hs.
    now rewrite E in Hs.
  - intros subj dirs k ds Hd Hkd Hne. rewrite Hg. unfold corrected.
    change (all_intended_for_dirs v') with (all_intended_for_dirs v).
    rewrite Hd.
    assert (Hkeys : In k (Dict.keys dirs)).
    { unfold Dict.keys. apply in_map_iff. now exists (k, ds). }
    apply DictFacts.mem_keys in Hkeys. rewrite Hkeys.
    destruct (matched_has_last_match rps v subj dirs k ds (Hu eq_refl) Hd Hkd
                Hne) as [rx Hrx].
    rewrite Hrx. cbn [option_map]. unfold recorded_list.
    change (all_intended_fors v') with fors.
    now rewrite (Hret subj dirs k ds Hd Hkd Hne).
Qed.

(** When every ["Folder"] key is there, the patterns compile and, with
    [--intended-for], every file with a folder entry is matched, the block
    of the IntendedFor file ends normally and the file holds
    [all_intendedfors_rows]. *)
Lemma write_intendedfors_rows args path v rps :
  all_aligned v -> distinct_names v -> folders_present v = true ->
  compile_all (string_pairs (patterns args)) = Some rps ->
  (intended_for_given args = true -> unmatched_fieldmap rps v = false) ->
  hoare (fun _ => True) (write_intendedfors args path v)
        (fun _ w => file_is path (all_intendedfors_rows args rps v) w)
        (fun _ _ => False).
Proof.
  intros Hal Hn Hf Hc Hu w _. unfold write_intendedfors.
  rewrite (bind_Ok _ _ w (with_file w path []) tt) by reflexivity.
  set (w1 := with_file w path []).
  assert (Hw1 : file_is path [] w1) by apply DictFacts.get_set_same.
  set (rsA := if (0 <? verbose args)%nat
              then [CStr "Initial values (before correction)"]
                   :: intendedfors_header :: final_rows v (sorted_list v)
              else []).
  assert (A : exists w2 fors,
            (if (0 <? verbose args)%nat
             then write_initial_values args path v
             else ret (all_intended_fors v)) w1 = (w2, Ok fors)
            /\ file_is path rsA w2
            /\ same_keys (all_intended_fors v) fors
            /\ forall s n, get2 s n fors = get2 s n (lists_read args v)).
  { unfold rsA, lists_read. destruct (0 <? verbose args)%nat.
    - pose proof (write_initial_values_exact args path v [] (modify_calls w1)
                    Hal Hn Hf w1 (conj Hw1 eq_refl)) as H.
      destruct (write_initial_values args path v w1) as [w2 [fors|e]];
        [|destruct H].
      destruct H as (H1 & _ & _ & H4 & H5). now exists w2, fors.
    - exists w1, (all_intended_fors v). repeat split; auto. }
  destruct A as (w2 & fors & E2 & Hw2 & Hk & Hex).
  rewrite (bind_Ok _ _ _ _ _ E2).
  destruct (correction_step args path v rps fors rsA w2 Hal Hn Hc Hu Hk Hex
              Hw2) as (w3 & nf & E3 & Hw3 & Hnf).
  rewrite (bind_Ok _ _ _ _ _ E3).
  pose proof (write_final_values_writes args path v nf (final_list args rps v)
                rsA Hal Hf Hnf w3 Hw3) as H.
  destruct (write_final_values args path v nf w3) as [w4 [[]|e]];
    [|destruct H].
  destruct H as [H _]. exact H.
Qed.


End Rows.

(** ** A missing ["Folder"] key under [-v] *)



Section Rows.
Context `{RE : RegexEngine}.



End Rows.

(** ** The report on duplicates, whatever the options *)

Lemma distinct_names_scan args p : distinct_names (scan args p).
Proof. intros subj dirs H. exact (dirs_NoDup args p subj dirs H). Qed.

Lemma duplicate_lines_scan args p :
  duplicate_lines p (scan args p)
  = flat_map (lines_under_label p) (proj_subjects p).
Proof.
  unfold duplicate_lines. apply flat_map_ext. intros s.
  unfold scan, lines_under_label, last_with_label.
  rewrite all_seen_paths_fold.
  now destruct (find _ (rev (proj_subjects p))).
Qed.

Lemma last_with_label_only p s :
  In s (proj_subjects p) -> only_one_with_label p s ->
  last_with_label p (subj_label s) = Some s.
Proof.
  intros Hs Hu. unfold last_with_label.
  destruct (find (fun s' => (subj_label s' =? subj_label s)%string)
                 (rev (proj_subjects p))) as [s'|] eqn:E.
  - apply find_some in E as [Hin Hl]. apply in_rev in Hin.
    apply String.eqb_eq in Hl. now rewrite (Hu s' Hin Hl).
  - apply in_rev in Hs. pose proof (find_none _ _ E s Hs) as H.
    cbn beta in H. now rewrite String.eqb_refl in H.
Qed.

Lemma duplicate_lines_of_subject s :
  NoDup (duplicate_lines_of (subject_seen s))
  /\ forall line,
       In line (duplicate_lines_of (subject_seen s))
       <-> exists q, line = ("  " ++ q)%string /\ duplicated_in s q.
Proof.
  rewrite duplicate_lines_of_eq. split.
  - apply Finite.Injective_map_NoDup.
    + intros a b E. now apply StrFacts.append_inj_l in E.
    + apply NoDup_filter. apply NoDup_keys_seen_after. constructor.
  - intros line. rewrite in_map_iff. unfold duplicated_in. split.
    + intros (q & <- & Hq). exists q. split; [reflexivity|].
      apply filter_In in Hq as [_ Hq]. rewrite get_subject_seen in Hq.
      destruct (is_placeholder q); [discriminate|]. split; [reflexivity|].
      destruct (count_occ string_dec (subject_paths s) q) as [|k];
        [discriminate|].
      apply Nat.ltb_lt in Hq. lia.
    + intros (q & -> & Hp & Hc). exists q. split; [reflexivity|].
      assert (Hg : Dict.get q (subject_seen s)
                   = Some (pred (count_occ string_dec (subject_paths s) q))).
      { rewrite get_subject_seen, Hp.
        destruct (count_occ string_dec (subject_paths s) q); [lia|].
        reflexivity. }
      apply filter_In. split.
      * apply DictFacts.get_Some_In in Hg. unfold Dict.keys.
        apply in_map_iff. eexists. split; [|exact Hg]. reflexivity.
      * rewrite Hg. apply Nat.ltb_lt. lia.
Qed.

Section Report.
Context `{RE : RegexEngine}.

(** The run, from what [save_curation_csvs] has done before its report. *)
Lemma main_from_scan_and_write flywheel_Client args w :
  let fw := connect flywheel_Client args in
  main flywheel_Client args w
  = match scan_and_write args fw (group_label args) (project_label args)
            (with_stdout w [api_url fw]) with
    | (w1, Ok pv) =>
        match report_duplicates (fst pv) (snd pv) w1 with
        | (w2, Ok _) => (w2, Ok 0)
        | (w2, Raise e) => (w2, Raise e)
        end
    | (w1, Raise e) => (w1, Raise e)
    end.
Proof.
  cbv zeta. unfold main, save_curation_csvs, bind, print, with_stdout.
  destruct (scan_and_write _ _ _ _ _) as [w1 [pv|e]]; [|reflexivity].
  now destruct (report_duplicates _ _ _) as [w2 [[]|e]].
Qed.

Lemma stdout_after_report flywheel_Client args w project :
  let fw := connect flywheel_Client args in
  let g := group_label args in
  let p := project_label args in
  projects_find_one fw (project_query g p) = Some project ->
  snd (main flywheel_Client args w) = Ok 0 ->
  stdout (fst (main flywheel_Client args w))
  = stdout (fst (scan_and_write args fw g p (with_stdout w [api_url fw])))
    ++ report_lines project (scan args project).
Proof.
  intros fw g p Hfind Hok.
  rewrite main_from_scan_and_write in Hok |- *. fold fw g p in Hok |- *.
  destruct (scan_and_write args fw g p (with_stdout w [api_url fw]))
    as [w1 [[pr v]|e]] eqn:Es; [|discriminate Hok].
  destruct (scan_and_write_Ok _ _ _ _ _ _ _ _ Es) as (Hfind' & -> & _).
  rewrite Hfind in Hfind'. injection Hfind' as <-.
  cbn [fst snd]. rewrite report_after_scan. reflexivity.
Qed.

(** The frame written before the IntendedFor file stays as it was written,
    however the run ends. *)
Lemma niftis_file_is_kept flywheel_Client args w project :
  let fw := connect flywheel_Client args in
  let g := group_label args in
  let p := project_label args in
  projects_find_one fw (project_query g p) = Some project ->
  Dict.get (niftis_name g p) (files (fst (main flywheel_Client args w)))
  = Some (Pandas.to_csv_rows (all_df (scan args project))).
Proof.
  intros fw g p Hfind.
  destruct (names_distinct g p) as (N12 & N13 & _).
  apply (main_keeps flywheel_Client args project w
           (fun w' => Dict.get (niftis_name g p) (files w')
                      = Some (Pandas.to_csv_rows (all_df (scan args project))))
           Hfind).
  - intros w' out H. exact H.
  - intros w' c H. exact H.
  - intros w' rs H. cbn [files].
    rewrite DictFacts.get_set_other by (intros E; now apply N12). exact H.
  - intros w' rs H. cbn [files].
    rewrite DictFacts.get_set_other by (intros E; now apply N13). exact H.
  - unfold before_intendedfors, with_file. cbn [files].
    apply DictFacts.get_set_same.
Qed.

End Report.

(** C3, as amended: when the scan has found duplicates and nothing else
    stops the run (the project is found, every recorded folder entry has its
    ["Folder"] key, the patterns compile and, with [--intended-for], every
    recorded fieldmap file that has a folder entry is matched by a pair),
    the run raises nothing and exits with status 0.  The three CSV files
    hold the frame of the scan, the rows of the IntendedFor lists and the
    acquisition table.  The last lines printed are the heading
    ["ERROR: the following BIDS paths appear more than once:"] and, for each
    subject in turn, the lines of the mapping kept under its label: for a
    subject whose label no other subject bears, these are its own duplicated
    paths, each once. *)
Theorem duplicates_are_printed_not_raised `{RE : RegexEngine}
  (flywheel_Client : string -> Client) (args : Args) (w : World)
  (project : Project) (rps : list (regex * regex)) :
  let fw := connect flywheel_Client args in
  let g := group_label args in
  let p := project_label args in
  let v := scan args project in
  let run := main flywheel_Client args w in
  projects_find_one fw (project_query g p) = Some project ->
  0 < num_duplicates v ->
  folders_present v = true ->
  compile_all (string_pairs (patterns args)) = Some rps ->
  (intended_for_given args = true -> unmatched_fieldmap rps v = false) ->
  snd run = Ok 0
  /\ stdout (fst run)
     = stdout (fst (scan_and_write args fw g p (with_stdout w [api_url fw])))
       ++ "ERROR: the following BIDS paths appear more than once:"
          :: flat_map (lines_under_label project) (proj_subjects project)
  /\ Dict.get (niftis_name g p) (files (fst run))
     = Some (Pandas.to_csv_rows (all_df v))
  /\ Dict.get (intendedfors_name g p) (files (fst run))
     = Some (all_intendedfors_rows args rps v)
  /\ Dict.get (acquisitions_name g p) (files (fst run))
     = Some (acquisitions_rows (acquisition_labels v))
  /\ forall s,
       In s (proj_subjects project) -> only_one_with_label project s ->
       lines_under_label project s = duplicate_lines_of (subject_seen s)
       /\ NoDup (duplicate_lines_of (subject_seen s))
       /\ forall line,
            In line (duplicate_lines_of (subject_seen s))
            <-> exists q, line = ("  " ++ q)%string /\ duplicated_in s q.
Proof.
  intros fw g p v run Hfind Hdup Hf Hc Hu.
  pose proof (write_intendedfors_rows args (intendedfors_name g p) v rps
                (all_aligned_scan args project)
                (distinct_names_scan args project) Hf Hc Hu
                (before_intendedfors args fw g p v w) I) as Hrows.
  pose proof (main_unfold flywheel_Client args project w Hfind) as Hm.
  cbv zeta in Hm. fold fw g p v run in Hm.
  destruct (write_intendedfors args (intendedfors_name g p) v
              (before_intendedfors args fw g p v w)) as [w4 [[]|e]];
    [|destruct Hrows].
  assert (Hok : snd run = Ok 0) by now rewrite Hm.
  destruct (names_distinct g p) as (_ & _ & N23).
  split; [exact Hok|]. split; [|split; [|split; [|split]]].
  - unfold run. rewrite (stdout_after_report flywheel_Client args w project
                           Hfind Hok).
    fold fw g p v. unfold report_lines.
    replace (0 <? num_duplicates v)%nat with true
      by (symmetry; now apply Nat.ltb_lt).
    unfold v. now rewrite duplicate_lines_scan.
  - exact (niftis_file_is_kept flywheel_Client args w project Hfind).
  - rewrite Hm. cbn [fst with_stdout with_file files].
    rewrite DictFacts.get_set_other by (intros E; now apply N23).
    exact Hrows.
  - rewrite Hm. cbn [fst with_stdout with_file files].
    apply DictFacts.get_set_same.
  - intros s Hs Hone. split; [|apply duplicate_lines_of_subject].
    unfold lines_under_label.
    now rewrite (last_with_label_only project s Hs Hone).
Qed.

(** With [-v -i fmap run-2] on the example project, which has duplicates:
    the run exits with status 0 and the IntendedFor file holds both blocks. *)
Lemma duplicates_are_printed_witness :
  snd (main (RE := Example.literal_regex) Example.client
            (Example.args (Some ["fmap"; "run-2"]) 1) empty_world) = Ok 0
  /\ Dict.get (intendedfors_name "lab" "study 1")
       (files (fst (main (RE := Example.literal_regex) Example.client
                         (Example.args (Some ["fmap"; "run-2"]) 1)
                         empty_world)))
     = Some [[CStr "Initial values (before correction)"];
             intendedfors_header;
             [CStr "fmap"; CStr "fmap.nii.gz"]; [CStr ""; CStr "func"];
             [CStr ""; CStr ""; CStr "func/run-2_bold.nii.gz"];
             [CStr "Final values (after correction)"];
             [CStr ""; CStr ""; CStr ""];
             intendedfors_header;
             [CStr "fmap"; CStr "fmap.nii.gz"]; [CStr ""; CStr "func"];
             [CStr ""; CStr ""; CStr "func/run-2_bold.nii.gz"]].
Proof.
  assert (D : 0 < num_duplicates
                    (scan (Example.args (Some ["fmap"; "run-2"]) 1)
                          Example.project))
    by (vm_compute; repeat constructor).
  assert (F : folders_present
                (scan (Example.args (Some ["fmap"; "run-2"]) 1)
                      Example.project) = true)
    by (vm_compute; reflexivity).
  assert (U : intended_for_given (Example.args (Some ["fmap"; "run-2"]) 1)
              = true ->
              unmatched_fieldmap (RE := Example.literal_regex)
                [("fmap", "run-2")]
                (scan (Example.args (Some ["fmap"; "run-2"]) 1)
                      Example.project) = false)
    by (intros _; vm_compute; reflexivity).
  destruct (duplicates_are_printed_not_raised (RE := Example.literal_regex)
              Example.client (Example.args (Some ["fmap"; "run-2"]) 1)
              empty_world Example.project [("fmap", "run-2")]
              eq_refl D F eq_refl U)
    as (Hok & _ & _ & Hrows & _).
  split; [exact Hok|].
  etransitivity; [exact Hrows|]. clear. vm_compute. reflexivity.
Defined.

(** C3, as stated, fails in two ways.  With [-i fmap (] on the example
    project, which has duplicates, the pattern does not compile: the run
    raises and nothing is reported.  In a project in which two subjects
    bear the same label, the duplicated paths of the first are not printed:
    the mapping kept under the label is that of the second. *)
Lemma duplicates_not_reported_counterexample :
  (0 < num_duplicates (scan (Example.args (Some ["fmap"; "("]) 0)
                            Example.project)
   /\ ~ duplicates_reported Example.project "lab" "study 1"
          (main (RE := Example.literal_regex) Example.client
                (Example.args (Some ["fmap"; "("]) 0) empty_world))
  /\ (0 < num_duplicates (scan (Example.args None 0) SharedLabel.shared_project)
      /\ ~ duplicates_reported SharedLabel.shared_project "lab" "study 1"
             (main (RE := Example.literal_regex) SharedLabel.shared_client
                   (Example.args None 0) empty_world)).
Proof.
  split; split.
  - vm_compute. repeat constructor.
  - intros (H & _). revert H. clear. vm_compute. discriminate.
  - vm_compute. repeat constructor.
  - intros (_ & _ & _ & _ & H).
    assert (D : duplicated_in Example.sub01 "anat/sub-01_T1w.nii.gz").
    { split; [reflexivity|]. vm_compute. repeat constructor. }
    specialize (H Example.sub01 "anat/sub-01_T1w.nii.gz"
                  (or_introl eq_refl) D).
    revert H. clear. vm_compute.
    intros H. repeat (destruct H as [H|H]; [discriminate H|]). exact H.
Qed.

(** ** The write-back *)

(** C4 fails on the example project, run with [-i fmap run-2]: both
    sessions of [sub-01] hold a fieldmap file [fmap.nii.gz] whose name the
    first regex matches, and one call is sent, for the file of the
    acquisition scanned last; the file of the first session, whose list
    holds an entry that the second regex matches, is not overwritten. *)
Theorem only_the_last_fieldmap_of_a_name_is_overwritten :
  modify_calls
    (fst (save_curation_csvs (RE := Example.literal_regex)
            (Example.args (Some ["fmap"; "run-2"]) 0)
            (Example.client "") "lab" "study 1" empty_world))
  = [{| mc_acquisition_id := "acq4"; mc_file_name := "fmap.nii.gz";
        mc_IntendedFor := ["func/run-2_bold.nii.gz"] |}]
  /\ ~ overwrites_every_matching_fieldmap (RE := Example.literal_regex)
         ["fmap"; "run-2"] Example.project
         (modify_calls
            (fst (save_curation_csvs (RE := Example.literal_regex)
                    (Example.args (Some ["fmap"; "run-2"]) 0)
                    (Example.client "") "lab" "study 1" empty_world))).
Proof.
  split; [vm_compute; reflexivity|].
  intros H.
  specialize (H Example.sub01
                (Example.session "ses-1" "acq1" "acq2"
                   ["func/run-2_bold.nii.gz"; "func/run-1_bold.nii.gz"],
                 {| acq_id := "acq2"; acq_label := "fmap";
                    acq_files :=
                      [Example.fmap ["func/run-2_bold.nii.gz";
                                     "func/run-1_bold.nii.gz"]] |},
                 Example.fmap ["func/run-2_bold.nii.gz";
                               "func/run-1_bold.nii.gz"])
                ["func/run-2_bold.nii.gz"; "func/run-1_bold.nii.gz"]
                "fmap" "run-2" "fmap" "run-2").
  assert (Hin : In Example.sub01 (proj_subjects Example.project))
    by (left; reflexivity).
  specialize (H Hin). clear Hin.
  assert (Hin : In (Example.session "ses-1" "acq1" "acq2"
                      ["func/run-2_bold.nii.gz"; "func/run-1_bold.nii.gz"],
                    {| acq_id := "acq2"; acq_label := "fmap";
                       acq_files :=
                         [Example.fmap ["func/run-2_bold.nii.gz";
                                        "func/run-1_bold.nii.gz"]] |},
                    Example.fmap ["func/run-2_bold.nii.gz";
                                  "func/run-1_bold.nii.gz"])
                   (subject_files Example.sub01))
    by (vm_compute; right; right; left; reflexivity).
  specialize (H Hin). clear Hin.
  specialize (H ltac:(discriminate) eq_refl ltac:(discriminate)
                (or_introl eq_refl) eq_refl eq_refl eq_refl).
  revert H. clear. vm_compute. intros [H|[]]. discriminate H.
Qed.


